(* ===== verification/_CoqProject ===== *)
-Q . S2P
Prelude.v
GoString.v
Errors.v
Registry.v
Subscription.v
RouteCache.v
Config.v
Service.v
Wire.v
WireInstances.v
WireTheorems.v
Dispatch.v
LocalCall.v
ControlPlane.v
ControlInvariant.v
Client.v
ControlDemo.v
ControlTheorems.v
Departure.v
SessionEnd.v
ControlRequests.v
Effects.v
Discovery.v
Directory.v
Typing.v
EndToEnd.v
RemoteView.v
MainLink.v
Lifecycle.v
Construct.v
Heartbeat.v
SessionTimer.v
Membership.v
Recovery.v
Joining.v
ClientTable.v
Messaging.v
Calls.v
NodeQueries.v
Coherence.v
RecoveryStop.v
Reconnect.v
Logging.v
BaseService.v
Example.v
