(* ===== verification/Prelude.v ===== *)
(** * A verification library for xtframework

    xtframework is a Go framework for clusters of service processes.  A
    process is a Node; one Node of the cluster is the main node.  A Node runs
    services, each on a serial loop, and talks to other Nodes over RPC
    sessions.  The main node keeps the registry of all services, tells
    subscribers which services come and go, and tells all nodes when a route
    they may have cached is no longer valid.

    ** Parts and files

    - [Prelude]: results, automation, reachability, machine integers.
    - [GoString]: what the sources use of Go's strings, unicode/utf8, strconv
      and path/filepath, on byte strings.  Unicode tables are a class.
    - [Errors] (errors.go): the sentinels and Go's wrapped errors, with
      [errors.Is].
    - [Registry] (registry.go): [ServiceRegistry] as a class of operations and
      a class of laws, and [MemoryRegistry] as an instance of both.  Everything
      else is proved against the laws.
    - [Subscription] (service_subscription.go): the sort order of keys, the
      normalization of subscribed names and [serviceSubscriptionIndex].
    - [RouteCache] (route_cache.go): [lookup], [invalidate] and
      [invalidateAll] as a transition system of goroutines; a step is one
      critical section, a wait, or the return of the query.
    - [Config] (config.go, parseLogLevel of logger.go): [Validate] with the
      changes it makes in place, [LoadConfig] and [Node].
    - [Service] (service.go): message identifiers, factories, contexts.
    - [Wire] (rpc_wire.go, the messages of internal/rpcpb, the checks and
      [respondRPCError]'s code switch of node.go): encoders, decoders and
      conversions over classes for protobuf and xtnet packets.
      [WireInstances] gives concrete libraries that satisfy the laws;
      [WireTheorems] has the round trips.
    - [Dispatch] (node.go, service_subscription.go): which job a message
      becomes on which service's loop.
    - [ControlPlane] (node.go, service_subscription.go): the server side of a
      Node: session events, the RPC handlers, heartbeats, the control queue and
      its tasks.  The state is the record [node]; [node_step] gives the effect
      of one event.  [removeRemoteNode] is a sequence of [micro] steps because
      it gives up its lock in between; a request that posts to the control loop
      leaves the post to its goroutine, and a posted closure checks that the
      session is current in one step and does its work in the next, so that
      other goroutines may run in between.
    - [ControlInvariant]: the invariant of [ControlPlane] and its preservation
      by every event.  [ControlTheorems]: what follows for reachable states,
      and that pending work drains.  [Departure]: how a Node that is lost
      leaves, under every schedule.  [SessionEnd]: a session the Node does not
      count any more has ended or is being closed.  [SessionTimer] (with the
      heartbeat options of [Construct]): the control plane with a clock, the
      timers of its sessions and how long they wait.  [ControlRequests]:
      admission of sessions, the account of requests and answers, and a race.
      [Effects]: every step classified by what it does to registry and index,
      for the files after it.  [Discovery]: what subscribers and connected nodes are told.
      [Directory]: an abstract specification of the main node, and the proof
      that the control plane implements it.  [Typing]: the types of what the
      control plane lets out.  [ControlDemo]: a small cluster on which the
      witnesses are evaluated.
    - [LocalCall] (node.go): the local branches of [callServiceSync] and
      [callServiceAsync]: the caller, the timer, the service's loop and every
      goroutine that answers, over the shared flags of one call.
    - [Client] (rpc_client.go, node.go): what an RPCClient does with pushes,
      sends and requests, and the remote branches of the service calls.
      [EndToEnd] composes client, wire and server; [RemoteView] composes the
      discovery of the main node with the client of another Node; [Calls]
      composes the query of a route with the call that uses it, over three
      Nodes.
    - [Coherence] (route_cache.go, rpc_client.go, node.go): the main node, the
      connection of another Node to it, and that Node's route cache as one
      transition system; answers and pushes may overtake each other.
    - [Messaging] (node.go, rpc_wire.go): [send2Service] and the asynchronous
      calls as a whole, and the object pools.
    - [MainLink] (main_recovery.go, rpc_client.go): the connection to the main
      node, its loss and its recovery; a step is a critical section, an atomic
      operation or a network operation.  [RecoveryStop]: the end of the
      recovery loop when the Node stops.  [Reconnect]: what it achieves when
      the Node is not stopped.
    - [Heartbeat] (rpc_client.go): the chain of heartbeats of one client on
      the control Loop; the timer on the accepting side is in [SessionTimer].
    - [ClientTable] (node.go, rpc_client.go): [getRPCClient], broken
      connections and [closeNetwork] for the connections to all nodes.
    - [Membership] (node.go, service_subscription.go, main_recovery.go): the
      requests that register, unregister and subscribe a Node's own services,
      and [restoreMainNodeState].  [Recovery] runs the latter against the
      control plane of the main node, and [Joining] the connection, all requests
      and the end of the connection in the log of [Lifecycle], against a class
      that the control plane implements twice: over a session for other Nodes
      and on its own Loop for the main node.
    - [Lifecycle] (node.go): [Start], [Stop] and [rollbackStart] with every
      step and error path.  [Construct] (node.go, logger.go): [NewNode].
      [NodeQueries] (node.go): the read-only methods, and the guards that
      refuse calls on a Node that is not running.
    - [Logging] (logger.go): contextual loggers.  [BaseService] (service.go,
      examples/basic/main.go): the handlers of a service as a class, the jobs
      that run them, [BaseService] as its instance, and factories.
    - [Example] (examples/basic/main.go): the handlers of the example service,
      and [main] from the configuration file to the end of the process.

    ** What the theorems show

    - Routes: a registered location is never forged and never orphaned; a node
      that falls silent or loses its session disappears from registry and index
      after finitely many steps, in whatever order they are taken; every change
      of a route is broadcast to every connected node.
    - Discovery: the events a local subscriber of the main node was sent add up
      to exactly the registered services of the name, and so do those that
      arrive at a subscriber on another Node, over the wire and across a
      reconnection.  Registry, index and events together implement an abstract
      directory that knows nothing of sessions, queues and goroutines.
    - Types: whatever arrives, everything the control plane sends, answers or
      posts is well formed, decodes at its receiver and has a place to go.
    - Requests: every request is settled exactly once, by an answer, by a job
      of the addressed service that holds its responder, or by a report because
      its answer cannot be encoded; an unregistered session can change nothing
      but by registering, and a session is admitted under exactly the stated
      conditions.  A session whose heartbeats come in time is kept, and one
      that falls silent times out, within the stated bounds.
    - Route cache: a lookup never returns a route older than an invalidation
      that preceded it, cached entries are current, queries are merged, every
      lookup can return, expiry is bounded by the TTL.  Together with the main
      node: as long as the main node counts the session of the connection, a
      cached route is the registered one or the packet that drops it is already
      on its way, whatever overtakes whatever; and when it does not, the
      session is over or being closed, which clears the cache.
    - Wire: messages, errors and deliver requests arrive as they were sent, and
      no number is truncated; an error text that is too long has no packet.
    - Calls: a local call is completed at most once, always can return, and
      gets the answer of the handler its message id selects; a call or message
      to another Node becomes the same job there, its answer and the identity
      of its error come back, a call by key finds the Node through the main
      node or ends with the reason why not, failing exchanges included, and
      synchronous and asynchronous calls agree.  A service without
      handlers refuses every request with one answer.
    - Connections: a lost main node is always being attended to while the Node
      runs, and once the network works again everything that can happen ends,
      after boundedly many steps, with the connection restored; restoring
      rebuilds exactly the node's registrations and subscriptions, and the
      recovery loop ends when the Node stops; no connection is forgotten by the
      table; heartbeats form one chain and end with the connection.
    - Lifecycle: construction and [Start] happen completely or not at all,
      services are stopped once and in reverse order, subscriptions made while
      the Node starts are not lost, and a Node that is not running serves
      nobody.  After any history of [Start] and [Stop] an otherwise idle main
      node has the Node's services, subscriptions and session exactly if the
      Node runs.  The example program closes what it opened on every path, and
      runs exactly when every step of [Start] succeeds.
    - Index and configuration: the index implements a set of pairs; [Validate]
      accepts exactly the configurations of a declarative description.

    These theorems describe behaviour that differs from what the code or its
    documentation intends: [stale_cleanup_hits_new_session],
    [validate_is_not_idempotent], [oversized_error_has_no_packet],
    [connection_lost_while_starting_stays_lost],
    [stopped_node_keeps_connection] and [name_becomes_verb]; the bound of
    [heartbeats_keep_a_session] leaves a recovery less time than its requests
    may take.

    ** Bounds

    Go's int has [int_bits] bits, 32 or 64; conversions from int64 are written
    out with wrap-around.  The counters of the route cache are 64-bit; its
    freshness theorems assume that fewer than 2^64 invalidations happened
    ([bounded]).  Recursion over bytes is structural or bounded by the length
    of the string.  [drain] runs on a measure of the pending work, which every
    internal step decreases; the proofs that heartbeats and the recovery loop
    end and that a lost connection comes back use such measures too.  Durations
    are nanoseconds, in 64 bits where the code adds them.

    ** What is not modelled

    Protobuf, YAML, xtnet (loops, timers, packets, TCP) and Go's scheduler are
    parameters or nondeterminism: loops run what is posted in order, a timer
    may fire at any time while it is armed (in [SessionTimer] not before its
    duration is over), goroutines interleave freely.
    The order in which Go iterates over a map is not specified; the model
    takes one order and the theorems do not depend on it.  The steps of one
    control task that only read [remoteNodes] are merged into one.
    [Coherence] and [RemoteView] compose the main node with one other Node; a
    theorem about several Nodes follows Node by Node, since a Node is only
    reached over its own session.  Their theorems are about runs in which
    registered names are valid UTF-8 and ids fit an int ([well_typed]).
    [Recovery] and [Joining] let one Node act on an otherwise idle main node,
    and [Calls] takes the Nodes in the states in which they handle a request;
    what others do in between is in the transition systems.
    Opening a file, decoding YAML and JSON, dialling and signals are inputs
    of [LoadConfig], [Example] and the transition systems; flags, and the
    accessors that only return a field of a session or a service, are left
    out, like the generated reflection code of the messages. *)

From stdpp Require Import base tactics list gmap strings pretty sorting.
From Stdlib Require Import ZArith Lia.

#[export] Set Warnings "-clear-no-such-hyp,-register-all".

(** ** Results

    A Go function that returns [(T, error)] is a function into [result E T]:
    the value is only looked at when the error is nil. *)

Inductive result (E A : Type) : Type :=
| Ok (a : A)
| Err (e : E).
Arguments Ok {E A} a.
Arguments Err {E A} e.

Definition res_bind {E A B} (r : result E A) (f : A -> result E B) : result E B :=
  match r with Ok a => f a | Err e => Err e end.

Definition res_map_err {E F A} (f : E -> F) (r : result E A) : result F A :=
  match r with Ok a => Ok a | Err e => Err (f e) end.

Declare Scope go_scope.
Delimit Scope go_scope with go.

Notation "'try' x <- r 'in' k" := (res_bind r (fun x => k))
  (at level 10, x binder, r at level 100, k at level 200) : go_scope.
Notation "'guard' b 'else' e 'in' k" := (if b then k else Err e)
  (at level 10, b at level 100, e at level 100, k at level 200) : go_scope.
Open Scope go_scope.

Lemma res_bind_Ok {E A B} (r : result E A) (f : A -> result E B) (b : B) :
  res_bind r f = Ok b <-> exists a, r = Ok a /\ f a = Ok b.
Proof. destruct r; simpl; naive_solver. Qed.

Lemma res_bind_Err {E A B} (r : result E A) (f : A -> result E B) (e : E) :
  res_bind r f = Err e <-> r = Err e \/ exists a, r = Ok a /\ f a = Err e.
Proof. destruct r; simpl; naive_solver. Qed.

Lemma res_map_err_Ok {E F A} (f : E -> F) (r : result E A) (a : A) :
  res_map_err f r = Ok a <-> r = Ok a.
Proof. destruct r; simpl; naive_solver. Qed.

(** ** Automation

    [inv_res] turns a hypothesis about a successful chain of binds and guards
    into one hypothesis per link. *)

Ltac inv_res :=
  repeat match goal with
  | H : res_bind _ _ = Ok _ |- _ =>
      apply res_bind_Ok in H; let a := fresh "a" in let Ha := fresh "Ha" in
      destruct H as (a & Ha & H)
  | H : res_map_err _ _ = Ok _ |- _ => apply res_map_err_Ok in H
  | H : Err _ = Ok _ |- _ => discriminate H
  | H : Ok _ = Err _ |- _ => discriminate H
  | H : Ok ?a = Ok ?b |- _ => injection H; clear H; intros H
  | H : (if ?b then _ else Err _) = Ok _ |- _ =>
      let Hb := fresh "Hb" in destruct b eqn:Hb; [|discriminate H]
  | H : (if ?b then Err _ else _) = Ok _ |- _ =>
      let Hb := fresh "Hb" in destruct b eqn:Hb; [discriminate H|]
  end.

(** [bool_prop] reads boolean tests of the code as propositions. *)

Ltac bool_prop :=
  repeat match goal with
  | H : _ && _ = true |- _ => apply andb_true_iff in H as [? ?]
  | H : _ || _ = false |- _ => apply orb_false_iff in H as [? ?]
  | H : negb _ = true |- _ => apply negb_true_iff in H
  | H : negb _ = false |- _ => apply negb_false_iff in H
  | H : bool_decide _ = true |- _ => apply bool_decide_eq_true_1 in H
  | H : bool_decide _ = false |- _ => apply bool_decide_eq_false_1 in H
  | H : (_ <=? _)%Z = true |- _ => apply Z.leb_le in H
  | H : (_ <=? _)%Z = false |- _ => apply Z.leb_gt in H
  | H : (_ <? _)%Z = true |- _ => apply Z.ltb_lt in H
  | H : (_ <? _)%Z = false |- _ => apply Z.ltb_ge in H
  | H : (_ =? _)%Z = true |- _ => apply Z.eqb_eq in H
  | H : (_ =? _)%Z = false |- _ => apply Z.eqb_neq in H
  end.

Create HintDb xt discriminated.
Create Rewrite HintDb xt.

(** ** Reachability

    The reflexive transitive closure used for every step relation of the
    library, with its induction principle for invariants. *)

Inductive steps {S : Type} (step : S -> S -> Prop) : S -> S -> Prop :=
| steps_refl s : steps step s s
| steps_trans s t u : step s t -> steps step t u -> steps step s u.

Lemma steps_app {S} (step : S -> S -> Prop) s t u :
  steps step s t -> steps step t u -> steps step s u.
Proof. induction 1; eauto using @steps. Qed.

Lemma steps_invariant {S} (step : S -> S -> Prop) (I : S -> Prop) :
  (forall s t, step s t -> I s -> I t) ->
  forall s t, steps step s t -> I s -> I t.
Proof. induction 2; eauto. Qed.

(** ** Lists *)

Lemma drop_shorter {A} (n : nat) (l : list A) :
  0 < n -> 0 < length l -> length (drop n l) < length l.
Proof. rewrite length_drop. lia. Qed.

Lemma rev_not_nil {A} (l : list A) : l <> [] -> rev l <> [].
Proof. intros Hl Hr%(f_equal (@rev A)). by rewrite rev_involutive in Hr. Qed.

(** A goroutine of a pool goes on with [o], or is done. *)
Definition replace_at {A} (i : nat) (o : option A) (l : list A) : list A :=
  match o with Some x => <[i := x]> l | None => delete i l end.

Lemma delete_insert_same {A} (i : nat) (y : A) (l : list A) : delete i (<[i:=y]> l) = delete i l.
Proof. revert i. induction l as [|x l IH]; intros [|i]; simpl; try done. by rewrite IH. Qed.

Lemma replace_at_Permutation {A} (i : nat) (x : A) (o : option A) (l : list A) :
  l !! i = Some x -> replace_at i o l ≡ₚ option_list o ++ delete i l.
Proof.
  intros Hi. destruct o as [y|]; simpl; [|done].
  assert (<[i:=y]> l !! i = Some y) as Hy.
  { apply list_lookup_insert_eq. by eapply lookup_lt_Some. }
  rewrite (delete_Permutation _ _ _ Hy). by rewrite delete_insert_same.
Qed.

Lemma elem_of_delete_split {A} (i : nat) (x y : A) (l : list A) :
  l !! i = Some x -> y ∈ l <-> y = x \/ y ∈ delete i l.
Proof. intros Hi. rewrite (delete_Permutation _ _ _ Hi) at 1. apply elem_of_cons. Qed.

(** ** Fixed-width integers

    A Go integer is a [Z]; a conversion to a signed type of [w] bits wraps
    around to the representative in [-2^(w-1), 2^(w-1)). *)

Definition wrap_signed (w v : Z) : Z :=
  (v + 2 ^ (w - 1)) `mod` 2 ^ w - 2 ^ (w - 1).

Definition in_signed (w v : Z) : Prop := (- 2 ^ (w - 1) <= v < 2 ^ (w - 1))%Z.

Lemma wrap_signed_id (w v : Z) : (0 < w)%Z -> in_signed w v -> wrap_signed w v = v.
Proof.
  intros Hw [Hl Hu]. unfold wrap_signed.
  assert (2 ^ w = 2 * 2 ^ (w - 1))%Z as Hp.
  { rewrite <- Z.pow_succ_r by lia. f_equal. lia. }
  rewrite Z.mod_small; lia.
Qed.

Lemma wrap_signed_range (w v : Z) : (0 < w)%Z -> in_signed w (wrap_signed w v).
Proof.
  intros Hw. unfold wrap_signed, in_signed.
  assert (2 ^ w = 2 * 2 ^ (w - 1))%Z as Hp.
  { rewrite <- Z.pow_succ_r by lia. f_equal. lia. }
  pose proof (Z.mod_pos_bound (v + 2 ^ (w - 1)) (2 ^ w)).
  pose proof (Z.pow_pos_nonneg 2 (w - 1)). lia.
Qed.
