(* ===== verification/GoString.v ===== *)
(** * Go strings

    What the framework uses of Go's [strings], [unicode/utf8], [strconv] and
    [path/filepath] packages.  A Go string is a sequence of bytes, and so is
    Rocq's [string]; the functions below work on the list of its bytes.
    Unicode's case and printability tables for runes outside ASCII are data of
    the Go distribution and enter through the class [UnicodeTables]. *)

From stdpp Require Import base tactics list strings sets.
From Stdlib Require Import ZArith Lia Ascii.
From S2P Require Import Prelude.
Local Open Scope Z_scope.

Class UnicodeTables := {
  unicode_lower : Z -> Z;   (** [unicode.ToLower] on runes >= 128 *)
  unicode_print : Z -> bool (** [strconv.IsPrint] on runes >= 256 *)
}.

Definition bytes (s : string) : list ascii := String.list_ascii_of_string s.
Definition of_bytes (l : list ascii) : string := String.string_of_list_ascii l.
Definition code (c : ascii) : Z := Z.of_N (N_of_ascii c).
Definition chr (z : Z) : ascii := ascii_of_N (Z.to_N z).

(** [len(s)] *)
Definition len (s : string) : Z := Z.of_nat (String.length s).

Lemma of_bytes_bytes s : of_bytes (bytes s) = s.
Proof. apply String.string_of_list_ascii_of_string. Qed.

Lemma bytes_of_bytes l : bytes (of_bytes l) = l.
Proof. apply String.list_ascii_of_string_of_list_ascii. Qed.

Lemma length_bytes s : Z.of_nat (length (bytes s)) = len s.
Proof. unfold len, bytes. f_equal. induction s; simpl; auto. Qed.

Lemma code_range c : 0 <= code c < 256.
Proof. unfold code. pose proof (N_ascii_bounded c). lia. Qed.

Lemma chr_code c : chr (code c) = c.
Proof. unfold chr, code. rewrite N2Z.id. apply ascii_N_embedding. Qed.

(** ** UTF-8 *)

Definition RuneError : Z := 65533.

(** The table [first] of [unicode/utf8]: the length of the sequence a leading
    byte announces, with the range its second byte must lie in. *)
Definition first_info (b : Z) : option (nat * Z * Z) :=
  if b <? 128 then Some (1%nat, 0, 0)
  else if b <? 194 then None
  else if b <? 224 then Some (2%nat, 128, 191)
  else if b =? 224 then Some (3%nat, 160, 191)
  else if b =? 237 then Some (3%nat, 128, 159)
  else if b <? 240 then Some (3%nat, 128, 191)
  else if b =? 240 then Some (4%nat, 144, 191)
  else if b <? 244 then Some (4%nat, 128, 191)
  else if b =? 244 then Some (4%nat, 128, 143)
  else None.

Definition between (lo hi : Z) (c : ascii) : bool := (lo <=? code c) && (code c <=? hi).
Definition cont (c : ascii) : Z := Z.land (code c) 63.

(** [utf8.DecodeRuneInString]: the first rune and its width. *)
Definition DecodeRune (s : list ascii) : Z * nat :=
  match s with
  | [] => (RuneError, 0%nat)
  | c0 :: t =>
      match first_info (code c0), t with
      | Some (1%nat, _, _), _ => (code c0, 1%nat)
      | Some (2%nat, lo, hi), c1 :: _ =>
          if between lo hi c1
          then (Z.lor (Z.shiftl (Z.land (code c0) 31) 6) (cont c1), 2%nat)
          else (RuneError, 1%nat)
      | Some (3%nat, lo, hi), c1 :: c2 :: _ =>
          if between lo hi c1 && between 128 191 c2
          then (Z.lor (Z.shiftl (Z.land (code c0) 15) 12)
                 (Z.lor (Z.shiftl (cont c1) 6) (cont c2)), 3%nat)
          else (RuneError, 1%nat)
      | Some (4%nat, lo, hi), c1 :: c2 :: c3 :: _ =>
          if between lo hi c1 && between 128 191 c2 && between 128 191 c3
          then (Z.lor (Z.shiftl (Z.land (code c0) 7) 18)
                 (Z.lor (Z.shiftl (cont c1) 12)
                   (Z.lor (Z.shiftl (cont c2) 6) (cont c3))), 4%nat)
          else (RuneError, 1%nat)
      | _, _ => (RuneError, 1%nat)
      end
  end.

(** [utf8.ValidString] *)
Fixpoint valid_bytes (s : list ascii) : bool :=
  match s with
  | [] => true
  | c0 :: t =>
      match first_info (code c0), t with
      | Some (1%nat, _, _), _ => valid_bytes t
      | Some (2%nat, lo, hi), c1 :: t1 => between lo hi c1 && valid_bytes t1
      | Some (3%nat, lo, hi), c1 :: c2 :: t2 =>
          between lo hi c1 && between 128 191 c2 && valid_bytes t2
      | Some (4%nat, lo, hi), c1 :: c2 :: c3 :: t3 =>
          between lo hi c1 && between 128 191 c2 && between 128 191 c3 && valid_bytes t3
      | _, _ => false
      end
  end.

Definition ValidString (s : string) : bool := valid_bytes (bytes s).

(** [utf8.RuneStart] *)
Definition RuneStart (c : ascii) : bool := negb (Z.land (code c) 192 =? 128).

(** [utf8.DecodeLastRuneInString], on the reversed bytes: [back k] is the
    width of the suffix that starts at the nearest earlier byte that can start
    a rune, looking at most four bytes back. *)
Fixpoint back (k : nat) (fuel : nat) (r : list ascii) : nat :=
  match fuel, r with
  | S fuel', c :: r' => if RuneStart c then S k else back (S k) fuel' r'
  | _, _ => match r with [] => k | _ => S k end
  end.

Definition DecodeLastRune (s : list ascii) : Z * nat :=
  match rev s with
  | [] => (RuneError, 0%nat)
  | c :: r =>
      if code c <? 128 then (code c, 1%nat)
      else
        let w := back 1 3 r in
        let '(rn, size) := DecodeRune (drop (length s - w) s) in
        if Nat.eqb size w then (rn, size) else (RuneError, 1%nat)
  end.

(** [unicode.IsSpace] *)
Definition IsSpace (r : Z) : bool :=
  ((9 <=? r) && (r <=? 13)) || (r =? 32) || (r =? 133) || (r =? 160)
  || (r =? 5760) || ((8192 <=? r) && (r <=? 8202)) || (r =? 8232) || (r =? 8233)
  || (r =? 8239) || (r =? 8287) || (r =? 12288).

(** [strings.TrimLeftFunc(s, unicode.IsSpace)] and its mirror image; the fuel
    is the length, and every round removes at least one byte. *)
Fixpoint trim_left (fuel : nat) (s : list ascii) : list ascii :=
  match fuel with
  | O => s
  | S fuel' =>
      let '(r, w) := DecodeRune s in
      if IsSpace r then trim_left fuel' (drop w s) else s
  end.

Fixpoint trim_right (fuel : nat) (s : list ascii) : list ascii :=
  match fuel with
  | O => s
  | S fuel' =>
      let '(r, w) := DecodeLastRune s in
      if IsSpace r then trim_right fuel' (take (length s - w) s) else s
  end.

Definition trim_space (s : list ascii) : list ascii :=
  let l := trim_left (length s) s in trim_right (length l) l.

(** [strings.TrimSpace] *)
Definition TrimSpace (s : string) : string := of_bytes (trim_space (bytes s)).

(** ** Case folding and quoting *)

(** [utf8.AppendRune] *)
Definition encode_rune (r : Z) : list ascii :=
  if (0 <=? r) && (r <=? 127) then [chr r]
  else if (0 <=? r) && (r <=? 2047) then
    [chr (Z.lor 192 (Z.shiftr r 6)); chr (Z.lor 128 (Z.land r 63))]
  else
    let r := if (r <? 0) || (1114111 <? r) || ((55296 <=? r) && (r <=? 57343))
             then RuneError else r in
    if r <=? 65535 then
      [chr (Z.lor 224 (Z.shiftr r 12)); chr (Z.lor 128 (Z.land (Z.shiftr r 6) 63));
       chr (Z.lor 128 (Z.land r 63))]
    else
      [chr (Z.lor 240 (Z.shiftr r 18)); chr (Z.lor 128 (Z.land (Z.shiftr r 12) 63));
       chr (Z.lor 128 (Z.land (Z.shiftr r 6) 63)); chr (Z.lor 128 (Z.land r 63))].

(** [for _, r := range s], with the width of each rune. *)
Fixpoint runes (fuel : nat) (s : list ascii) : list (Z * list ascii) :=
  match fuel, s with
  | S fuel', _ :: _ =>
      let '(r, w) := DecodeRune s in (r, take w s) :: runes fuel' (drop w s)
  | _, _ => []
  end.

Section Tables.
Context `{UnicodeTables}.

(** [unicode.ToLower] *)
Definition lower_rune (r : Z) : Z :=
  if r <? 128 then (if (65 <=? r) && (r <=? 90) then r + 32 else r) else unicode_lower r.

(** [strings.ToLower]: ASCII byte by byte, otherwise [strings.Map] over the
    runes, which drops negative results. *)
Definition ToLower (s : string) : string :=
  let b := bytes s in
  if forallb (fun c => code c <? 128) b
  then of_bytes (map (fun c => chr (lower_rune (code c))) b)
  else of_bytes (concat (map (fun '(r, _) =>
         let r' := lower_rune r in if r' <? 0 then [] else encode_rune r')
         (runes (length b) b))).

(** [strconv.IsPrint] *)
Definition IsPrint (r : Z) : bool :=
  if r <=? 255 then ((32 <=? r) && (r <? 127)) || ((161 <=? r) && negb (r =? 173))
  else unicode_print r.

Definition hex_digit (z : Z) : ascii :=
  let d := Z.land z 15 in if d <? 10 then chr (48 + d) else chr (87 + d).

Fixpoint hex (digits : nat) (z : Z) : list ascii :=
  match digits with
  | O => []
  | S k => hex k (Z.shiftr z 4) ++ [hex_digit z]
  end.

Definition backslash : ascii := chr 92.

Definition quote_rune (r : Z) (raw : list ascii) : list ascii :=
  match raw with
  | [c] =>
      if (r =? RuneError) then backslash :: chr 120 :: hex 2 (code c)
      else if (r =? 34) || (r =? 92) then [backslash; chr r]
      else if IsPrint r then encode_rune r
      else if r =? 7 then [backslash; chr 97]
      else if r =? 8 then [backslash; chr 98]
      else if r =? 12 then [backslash; chr 102]
      else if r =? 10 then [backslash; chr 110]
      else if r =? 13 then [backslash; chr 114]
      else if r =? 9 then [backslash; chr 116]
      else if r =? 11 then [backslash; chr 118]
      else backslash :: chr 120 :: hex 2 r
  | _ =>
      if IsPrint r then encode_rune r
      else if r <? 65536 then backslash :: chr 117 :: hex 4 r
      else backslash :: chr 85 :: hex 8 r
  end.

(** [strconv.Quote], the verb %q *)
Definition Quote (s : string) : string :=
  of_bytes (chr 34 :: concat (map (fun '(r, raw) => quote_rune r raw)
              (runes (length (bytes s)) (bytes s))) ++ [chr 34]).

End Tables.

(** ** [filepath.Clean], the lexical normal form of a Unix path *)

Definition slash : ascii := chr 47.
Definition dot : ascii := chr 46.

Fixpoint split_slash (s : list ascii) : list (list ascii) :=
  match s with
  | [] => [[]]
  | c :: t =>
      match split_slash t with
      | [] => [[]]
      | x :: xs => if bool_decide (c = slash) then [] :: x :: xs else (c :: x) :: xs
      end
  end.

(** One element of the path against the reversed stack of kept elements. *)
Definition clean_push (rooted : bool) (stack : list (list ascii)) (e : list ascii)
    : list (list ascii) :=
  if bool_decide (e = []) || bool_decide (e = [dot]) then stack
  else if bool_decide (e = [dot; dot]) then
    match stack with
    | top :: rest => if bool_decide (top = [dot; dot]) then e :: stack else rest
    | [] => if rooted then [] else [e]
    end
  else e :: stack.

Fixpoint join_slash (es : list (list ascii)) : list ascii :=
  match es with
  | [] => []
  | [e] => e
  | e :: es' => e ++ slash :: join_slash es'
  end.

Definition is_rooted (s : list ascii) : bool :=
  match s with c :: _ => bool_decide (c = slash) | [] => false end.

Definition clean_bytes (s : list ascii) : list ascii :=
  let rooted := is_rooted s in
  let body := join_slash (rev (foldl (clean_push rooted) [] (split_slash s))) in
  if rooted then slash :: body else match body with [] => [dot] | _ => body end.

Definition Clean (s : string) : string := of_bytes (clean_bytes (bytes s)).

(** ** Facts about trimming *)

Definition space_front (s : list ascii) : bool := IsSpace (fst (DecodeRune s)).
Definition space_back (s : list ascii) : bool := IsSpace (fst (DecodeLastRune s)).

Lemma IsSpace_RuneError : IsSpace RuneError = false.
Proof. reflexivity. Qed.

(** Case analysis of a decoded rune, one case per length of the sequence. *)
Ltac decode_cases :=
  repeat match goal with
  | |- context [match ?x with _ => _ end] => destruct x eqn:?; simplify_eq/=
  | H : context [match ?x with _ => _ end] |- _ => destruct x eqn:?; simplify_eq/=
  end.

Lemma DecodeRune_app s v r w :
  DecodeRune s = (r, w) -> r <> RuneError -> DecodeRune (s ++ v) = (r, w).
Proof. destruct s as [|c0 t]; [by intros [= <- <-]|]. simpl. intros. decode_cases; done. Qed.

Lemma DecodeRune_width s : s <> [] -> (1 <= snd (DecodeRune s) <= length s)%nat.
Proof. destruct s as [|c0 t]; [done|]. intros _. simpl. decode_cases; lia. Qed.

Lemma space_front_nil : space_front [] = false.
Proof. reflexivity. Qed.

Lemma space_front_app s v : space_front s = true -> space_front (s ++ v) = true.
Proof.
  unfold space_front. destruct (DecodeRune s) as [r w] eqn:E; simpl. intros Hr.
  rewrite (DecodeRune_app _ _ _ _ E); [done|]. by intros ->.
Qed.

Lemma trim_left_stable n s : space_front s = false -> trim_left n s = s.
Proof.
  destruct n; simpl; [done|]. unfold space_front.
  destruct (DecodeRune s); simpl. by intros ->.
Qed.

Lemma trim_left_front n s : (length s <= n)%nat -> space_front (trim_left n s) = false.
Proof.
  revert s. induction n as [|n IH]; intros s Hl; simpl.
  { by destruct s; [|simpl in Hl; lia]. }
  destruct (DecodeRune s) as [r w] eqn:E. destruct (IsSpace r) eqn:Hr.
  - apply IH. rewrite length_drop. destruct s as [|c t]; [injection E as <- <-; done|].
    pose proof (DecodeRune_width (c :: t)) as Hw. rewrite E in Hw. simpl in *. naive_solver lia.
  - unfold space_front. by rewrite E.
Qed.

Lemma DecodeLastRune_width s : s <> [] -> (1 <= snd (DecodeLastRune s))%nat.
Proof.
  intros Hs. unfold DecodeLastRune. destruct (rev s) as [|c r] eqn:E.
  { by apply rev_not_nil in Hs. }
  destruct (code c <? 128); [simpl; lia|].
  destruct (DecodeRune _) as [rn size] eqn:E2. destruct (Nat.eqb_spec size (back 1 3 r)); simpl; [|lia].
  subst size. destruct r as [|c1 [|c2 [|c3 r]]]; simpl in *; decode_cases; lia.
Qed.

Lemma trim_right_stable n s : space_back s = false -> trim_right n s = s.
Proof.
  destruct n; simpl; [done|]. unfold space_back.
  destruct (DecodeLastRune s); simpl. by intros ->.
Qed.

Lemma trim_right_back n s : (length s <= n)%nat -> space_back (trim_right n s) = false.
Proof.
  revert s. induction n as [|n IH]; intros s Hl; simpl.
  { by destruct s; [|simpl in Hl; lia]. }
  destruct (DecodeLastRune s) as [r w] eqn:E. destruct (IsSpace r) eqn:Hr.
  - apply IH. rewrite length_take. destruct s as [|c t]; [injection E as <- <-; done|].
    pose proof (DecodeLastRune_width (c :: t)) as Hw. rewrite E in Hw. simpl in *. naive_solver lia.
  - unfold space_back. by rewrite E.
Qed.

Lemma trim_right_prefix n s : exists v, s = trim_right n s ++ v.
Proof.
  revert s. induction n as [|n IH]; intros s; simpl; [exists []; by rewrite app_nil_r|].
  destruct (DecodeLastRune s) as [r w]. destruct (IsSpace r); [|exists []; by rewrite app_nil_r].
  destruct (IH (take (length s - w) s)) as [v Hv]. exists (v ++ drop (length s - w) s).
  by rewrite app_assoc, <- Hv, take_drop.
Qed.

(** The two ends of a trimmed string carry no white space. *)
Lemma trim_space_ends s :
  space_front (trim_space s) = false /\ space_back (trim_space s) = false.
Proof.
  unfold trim_space. set (l := trim_left (length s) s). split; [|by apply trim_right_back].
  destruct (space_front (trim_right (length l) l)) eqn:E; [|done].
  destruct (trim_right_prefix (length l) l) as [v Hv].
  apply (space_front_app _ v) in E. rewrite <- Hv in E.
  unfold l in E. by rewrite trim_left_front in E.
Qed.

Lemma trim_space_stable s :
  space_front s = false -> space_back s = false -> trim_space s = s.
Proof.
  intros Hf Hb. unfold trim_space. rewrite trim_left_stable by done. by apply trim_right_stable.
Qed.

(** [strings.TrimSpace] is idempotent. *)
Lemma TrimSpace_idemp s : TrimSpace (TrimSpace s) = TrimSpace s.
Proof.
  unfold TrimSpace. rewrite bytes_of_bytes. f_equal.
  destruct (trim_space_ends (bytes s)). by apply trim_space_stable.
Qed.

(** ** Facts about [Clean] *)

Definition dotdot : list ascii := [dot; dot].

Definition clean_elem (e : list ascii) : Prop := e <> [] /\ e <> [dot] /\ slash ∉ e.

(** The stacks [clean_push] builds: proper elements, and ".." only below them
    and only in a path that is not rooted. *)
Fixpoint clean_stack (rooted : bool) (st : list (list ascii)) : Prop :=
  match st with
  | [] => True
  | e :: st' =>
      clean_elem e /\ clean_stack rooted st' /\
      (e = dotdot -> rooted = false /\ match st' with [] => True | top :: _ => top = dotdot end)
  end.

Lemma clean_push_stack rooted st e :
  slash ∉ e -> clean_stack rooted st -> clean_stack rooted (clean_push rooted st e).
Proof.
  intros He Hst. unfold clean_push.
  destruct (bool_decide (e = [])) eqn:E0; [done|].
  destruct (bool_decide (e = [dot])) eqn:E1; [done|]. bool_prop. simpl.
  destruct (bool_decide (e = [dot; dot])) eqn:E2; bool_prop.
  - destruct st as [|top rest]; [by destruct rooted; [|simpl; subst]|].
    case_bool_decide as E3; [|by destruct Hst as (_ & ? & _)].
    destruct Hst as (? & ? & Htop). split_and!; naive_solver.
  - simpl. split_and!; try done.
Qed.

Lemma clean_push_keep rooted e st :
  clean_stack rooted (e :: st) -> clean_push rooted st e = e :: st.
Proof.
  intros ((He & Hd & _) & _ & Hdd). unfold clean_push.
  rewrite !bool_decide_eq_false_2 by done. simpl.
  case_bool_decide as E; [|done]. destruct (Hdd E) as [-> Htop].
  destruct st; [done|]. by rewrite bool_decide_eq_true_2.
Qed.

Lemma clean_fold_keep rooted st :
  clean_stack rooted st -> foldl (clean_push rooted) [] (rev st) = st.
Proof.
  induction st as [|e st IH]; simpl; [done|]. intros H. rewrite foldl_app, IH by apply H.
  simpl. by apply clean_push_keep.
Qed.

Lemma split_slash_elems s : Forall (fun e => slash ∉ e) (split_slash s).
Proof.
  induction s as [|c s IH]; simpl; [repeat constructor; set_solver|].
  destruct (split_slash s) as [|x xs]; [repeat constructor; set_solver|].
  inversion IH; subst. case_bool_decide; repeat constructor; set_solver.
Qed.

Lemma clean_fold_stack rooted es st :
  Forall (fun e => slash ∉ e) es -> clean_stack rooted st ->
  clean_stack rooted (foldl (clean_push rooted) st es).
Proof.
  intros Hes. revert st. induction Hes; simpl; [done|]. eauto using clean_push_stack.
Qed.

Lemma split_slash_elem e : slash ∉ e -> split_slash e = [e].
Proof.
  induction e as [|c e IH]; simpl; [done|]. intros Hc. rewrite IH by set_solver.
  rewrite bool_decide_eq_false_2; [done|set_solver].
Qed.

Lemma split_slash_app e t : slash ∉ e -> split_slash (e ++ slash :: t) = e :: split_slash t.
Proof.
  induction e as [|c e IH]; simpl; intros Hc.
  - assert (split_slash t <> []) by (destruct t as [|c' t]; simpl; [done|];
      destruct (split_slash t); [done|]; case_bool_decide; done).
    destruct (split_slash t); done.
  - rewrite IH by set_solver. rewrite bool_decide_eq_false_2; [done|set_solver].
Qed.

Lemma split_join_slash es :
  es <> [] -> Forall (fun e => slash ∉ e) es -> split_slash (join_slash es) = es.
Proof.
  induction es as [|e es IH]; [done|]. intros _ H. inversion H; subst. simpl.
  destruct es as [|e' es]; [by apply split_slash_elem|].
  rewrite split_slash_app by done. f_equal. by apply IH.
Qed.

Lemma clean_stack_slash rooted st :
  clean_stack rooted st -> Forall (fun e => slash ∉ e) (rev st).
Proof.
  induction st as [|e st IH]; simpl; [done|]. intros (He & Hst & _).
  apply Forall_app. split; [by apply IH|]. repeat constructor. apply He.
Qed.

Lemma is_rooted_join es :
  Forall clean_elem es -> is_rooted (join_slash es) = false.
Proof.
  destruct es as [|e es]; [done|]. intros H. inversion H as [|?? (He & _ & Hs)]; subst.
  destruct e as [|c e]; [done|]. destruct es; simpl; apply bool_decide_eq_false_2; set_solver.
Qed.

Lemma clean_stack_elems rooted st : clean_stack rooted st -> Forall clean_elem (rev st).
Proof.
  induction st as [|e st IH]; simpl; [done|]. intros (He & Hst & _).
  apply Forall_app. split; [by apply IH|]. constructor; [done|constructor].
Qed.

(** [filepath.Clean] is idempotent. *)
Lemma Clean_idemp s : Clean (Clean s) = Clean s.
Proof.
  unfold Clean. rewrite bytes_of_bytes. f_equal. set (b := bytes s). unfold clean_bytes at 2 3.
  set (st := foldl (clean_push (is_rooted b)) [] (split_slash b)).
  assert (clean_stack (is_rooted b) st) as Hst
    by (by apply clean_fold_stack; [apply split_slash_elems|]).
  clearbody st. destruct (is_rooted b) eqn:Hr.
  - unfold clean_bytes. change (is_rooted (slash :: _)) with true. cbv iota. f_equal.
    destruct (decide (st = [])) as [->|Hne]; [done|].
    assert (rev st <> []) by (by apply rev_not_nil).
    change (slash :: ?t) with ([] ++ slash :: t) at 1. rewrite split_slash_app by set_solver.
    rewrite split_join_slash by eauto using clean_stack_slash.
    change (foldl (clean_push true) [] ([] :: rev st)) with (foldl (clean_push true) [] (rev st)).
    by rewrite clean_fold_keep.
  - destruct (decide (st = [])) as [->|Hne]; [done|].
    assert (rev st <> []) as Hrev by (by apply rev_not_nil).
    assert (join_slash (rev st) <> []) as Hj.
    { intros E. pose proof (split_join_slash (rev st) Hrev (clean_stack_slash _ _ Hst)) as E2.
      rewrite E in E2. simpl in E2. pose proof (clean_stack_elems _ _ Hst) as Hel.
      rewrite <- E2 in Hel. inversion Hel as [|?? (Hnil & _)]; done. }
    destruct (join_slash (rev st)) as [|c j] eqn:Ej; [done|]. rewrite <- Ej.
    unfold clean_bytes. rewrite is_rooted_join by eauto using clean_stack_elems.
    rewrite split_join_slash by eauto using clean_stack_slash.
    rewrite clean_fold_keep by done. by rewrite Ej.
Qed.

#[global] Arguments TrimSpace : simpl never.
#[global] Arguments ToLower {_} : simpl never.
#[global] Arguments Quote {_} : simpl never.
#[global] Arguments Clean : simpl never.
#[global] Arguments ValidString : simpl never.
#[global] Arguments len : simpl never.
