(* ===== verification/Errors.v ===== *)
(** * Errors

    The sentinel errors of errors.go and Go's error values: a text, a chain of
    wrapped errors built by [fmt.Errorf] with the verb %w, or an
    [errors.Join].  [Error] is the method that renders an error and [Is] is
    [errors.Is] against a sentinel. *)

From stdpp Require Import base tactics list strings pretty.
From Stdlib Require Import ZArith.
From S2P Require Import Prelude GoString.
Local Open Scope string_scope.

Inductive sentinel : Type :=
| ErrNodeNotFound
| ErrNodeExists
| ErrServiceNotFound
| ErrServiceExists
| ErrFactoryNotFound
| ErrInvalidMessage
| ErrNodeRunning
| ErrNodeStopped
| ErrRPCDisconnected.

#[export] Instance sentinel_eq_dec : EqDecision sentinel.
Proof. solve_decision. Defined.

Definition sentinel_text (s : sentinel) : string :=
  match s with
  | ErrNodeNotFound => "node not found"
  | ErrNodeExists => "node already registered"
  | ErrServiceNotFound => "service not found"
  | ErrServiceExists => "service already registered"
  | ErrFactoryNotFound => "service factory not found"
  | ErrInvalidMessage => "invalid message"
  | ErrNodeRunning => "node is already running"
  | ErrNodeStopped => "node is stopped"
  | ErrRPCDisconnected => "rpc connection is disconnected"
  end.

Inductive error : Type :=
| ESentinel (s : sentinel)
| EText (msg : string)
| EWrap (inner : error) (msg : string)
| EJoin (es : list error).

(** The method [Error() string]. *)
Fixpoint Error (e : error) : string :=
  match e with
  | ESentinel s => sentinel_text s
  | EText msg => msg
  | EWrap _ msg => msg
  | EJoin es =>
      (fix join es := match es with
                      | [] => ""
                      | [e] => Error e
                      | e :: es' => Error e +:+ String (chr 10) (join es')
                      end) es
  end.

(** [errors.Is(e, s)] *)
Fixpoint Is (e : error) (s : sentinel) : bool :=
  match e with
  | ESentinel s' => bool_decide (s' = s)
  | EText _ => false
  | EWrap inner _ => Is inner s
  | EJoin es => existsb (fun e => Is e s) es
  end.

(** [fmt.Errorf(... "%w" ..., inner)] where %w heads the text. *)
Definition wrapf (inner : error) (tail : string) : error :=
  EWrap inner (Error inner +:+ tail).

(** [fmt.Errorf(head + "%w", inner)] *)
Definition prefixf (head : string) (inner : error) : error :=
  EWrap inner (head +:+ Error inner).

(** [errors.Join] *)
Definition Join (es : list error) : option error :=
  match es with [] => None | _ => Some (EJoin es) end.

(** The verb %d *)
Definition fmt_d (z : Z) : string := pretty z.

Abbreviation res := (result error).

Lemma Is_wrapf e s t : Is (wrapf e t) s = Is e s.
Proof. done. Qed.

Lemma Is_prefixf e s t : Is (prefixf t e) s = Is e s.
Proof. done. Qed.

Lemma Is_ESentinel s s' : Is (ESentinel s) s' = bool_decide (s = s').
Proof. done. Qed.

#[export] Hint Rewrite Is_wrapf Is_prefixf Is_ESentinel : xt.
