(* ===== verification/Registry.v ===== *)
(** * The service registry (registry.go)

    [ServiceKey] and [ServiceLocation], the interface [ServiceRegistry] as a
    class of operations with its laws, and [MemoryRegistry], the
    implementation every Node uses by default.  Each method of
    [MemoryRegistry] runs under the registry's mutex, so one call is one
    atomic transition of its map. *)

From stdpp Require Import base tactics list gmap strings pretty.
From Stdlib Require Import ZArith Lia.
From S2P Require Import Prelude GoString Errors.
Local Open Scope string_scope.

Record ServiceKey := mkServiceKey { Name : string; ID : Z }.

#[export] Instance ServiceKey_eq_dec : EqDecision ServiceKey.
Proof. solve_decision. Defined.

#[export] Instance ServiceKey_countable : Countable ServiceKey.
Proof.
  refine (inj_countable' (fun k => (Name k, ID k)) (fun p => mkServiceKey p.1 p.2) _).
  by intros [].
Defined.

(** [ServiceKey{}] *)
Definition zeroServiceKey : ServiceKey := mkServiceKey "" 0.

Definition ServiceKey_String (k : ServiceKey) : string := Name k +:+ ":" +:+ fmt_d (ID k).

Record ServiceLocation := mkServiceLocation {
  ServiceName : string;
  ServiceID : Z;
  NodeID : Z;
  NodeAddr : string
}.

#[export] Instance ServiceLocation_eq_dec : EqDecision ServiceLocation.
Proof. solve_decision. Defined.

Definition Key (l : ServiceLocation) : ServiceKey :=
  mkServiceKey (ServiceName l) (ServiceID l).

(** The verb %+v on a location. *)
Definition fmt_location (l : ServiceLocation) : string :=
  "{ServiceName:" +:+ ServiceName l +:+ " ServiceID:" +:+ fmt_d (ServiceID l) +:+
  " NodeID:" +:+ fmt_d (NodeID l) +:+ " NodeAddr:" +:+ NodeAddr l +:+ "}".

(** A location [Register] accepts. *)
Definition valid_location (l : ServiceLocation) : bool :=
  negb (bool_decide (ServiceName l = "") || (ServiceID l <=? 0)%Z
        || (NodeID l <=? 0)%Z || bool_decide (NodeAddr l = "")).

(** ** The interface *)

Class ServiceRegistry (R : Type) := {
  Register : ServiceLocation -> R -> res R;
  Unregister : ServiceKey -> Z -> R -> res R;
  UnregisterNode : Z -> R -> R;
  Lookup : ServiceKey -> R -> option ServiceLocation;
  List : R -> list ServiceLocation
}.

(** What the Node relies on: every operation is determined by the lookups,
    [List] enumerates the lookups in some order, and a key is looked up to a
    location with that key. *)
Class ServiceRegistryLaws (R : Type) `{ServiceRegistry R} := {
  reg_ok : R -> Prop;
  Register_Ok : forall l r r', reg_ok r -> Register l r = Ok r' ->
    reg_ok r' /\ valid_location l = true /\ Lookup (Key l) r = None /\
    forall k, Lookup k r' = if decide (k = Key l) then Some l else Lookup k r;
  Register_accepts : forall l r, reg_ok r ->
    valid_location l = true -> Lookup (Key l) r = None -> exists r', Register l r = Ok r';
  Register_exists : forall l r cur, reg_ok r -> valid_location l = true ->
    Lookup (Key l) r = Some cur -> exists e, Register l r = Err e /\ Is e ErrServiceExists = true;
  Unregister_Ok : forall k nd r r', reg_ok r -> Unregister k nd r = Ok r' ->
    reg_ok r' /\ (exists l, Lookup k r = Some l /\ NodeID l = nd) /\
    forall k', Lookup k' r' = if decide (k' = k) then None else Lookup k' r;
  Unregister_accepts : forall k nd r l, reg_ok r -> Lookup k r = Some l -> NodeID l = nd ->
    exists r', Unregister k nd r = Ok r';
  Unregister_missing : forall k nd r, reg_ok r -> Lookup k r = None ->
    exists e, Unregister k nd r = Err e /\ Is e ErrServiceNotFound = true;
  UnregisterNode_lookup : forall nd r, reg_ok r -> reg_ok (UnregisterNode nd r) /\
    forall k, Lookup k (UnregisterNode nd r) =
      match Lookup k r with
      | Some l => if decide (NodeID l = nd) then None else Some l
      | None => None
      end;
  Lookup_Key : forall k r l, reg_ok r -> Lookup k r = Some l ->
    Key l = k /\ valid_location l = true;
  List_lookup : forall r l, reg_ok r -> l ∈ List r <-> Lookup (Key l) r = Some l;
  List_NoDup : forall r, reg_ok r -> NoDup (List r)
}.

(** ** [MemoryRegistry] *)

Record MemoryRegistry := mkMemoryRegistry { services : gmap ServiceKey ServiceLocation }.

Definition NewMemoryRegistry : MemoryRegistry := mkMemoryRegistry ∅.

Module Memory.

Definition Register (location : ServiceLocation) (r : MemoryRegistry) : res MemoryRegistry :=
  let key := Key location in
  if bool_decide (Name key = "") || (ID key <=? 0)%Z || (NodeID location <=? 0)%Z
     || bool_decide (NodeAddr location = "")
  then Err (EText ("invalid service location: " +:+ fmt_location location))
  else match services r !! key with
       | Some current =>
           Err (wrapf (ESentinel ErrServiceExists)
                  (": " +:+ ServiceKey_String key +:+ " belongs to node " +:+ fmt_d (NodeID current)))
       | None => Ok (mkMemoryRegistry (<[key := location]> (services r)))
       end.

Definition Unregister (key : ServiceKey) (nodeID : Z) (r : MemoryRegistry) : res MemoryRegistry :=
  match services r !! key with
  | None => Err (wrapf (ESentinel ErrServiceNotFound) (": " +:+ ServiceKey_String key))
  | Some current =>
      if (NodeID current =? nodeID)%Z
      then Ok (mkMemoryRegistry (delete key (services r)))
      else Err (EText ("service " +:+ ServiceKey_String key +:+ " belongs to node "
                 +:+ fmt_d (NodeID current) +:+ ", not node " +:+ fmt_d nodeID))
  end.

Definition UnregisterNode (nodeID : Z) (r : MemoryRegistry) : MemoryRegistry :=
  mkMemoryRegistry (filter (fun kl => NodeID kl.2 <> nodeID) (services r)).

Definition Lookup (key : ServiceKey) (r : MemoryRegistry) : option ServiceLocation :=
  services r !! key.

(** Go's map order is unspecified; this is one of the orders. *)
Definition List (r : MemoryRegistry) : list ServiceLocation :=
  map snd (map_to_list (services r)).

(** Every stored location is valid and stored under its own key. *)
Definition wf (r : MemoryRegistry) : Prop :=
  map_Forall (fun k l => Key l = k /\ valid_location l = true) (services r).

(** A location [Register] rejects is exactly one that is not valid. *)
Lemma Register_guard l :
  (bool_decide (Name (Key l) = "") || (ID (Key l) <=? 0)%Z || (NodeID l <=? 0)%Z
   || bool_decide (NodeAddr l = "")) = negb (valid_location l).
Proof. unfold valid_location. by rewrite negb_involutive. Qed.

Lemma Register_inv l r r' :
  Register l r = Ok r' ->
  valid_location l = true /\ services r !! Key l = None /\
  r' = mkMemoryRegistry (<[Key l := l]> (services r)).
Proof.
  unfold Register. cbv zeta. rewrite Register_guard.
  destruct (valid_location l); simpl; [|done].
  destruct (services r !! Key l); [done|]. naive_solver.
Qed.

Lemma Unregister_inv k nd r r' :
  Unregister k nd r = Ok r' ->
  (exists l, services r !! k = Some l /\ NodeID l = nd) /\
  r' = mkMemoryRegistry (delete k (services r)).
Proof.
  unfold Unregister. destruct (services r !! k) as [l|]; [|done].
  destruct (NodeID l =? nd)%Z eqn:E; [|done]. bool_prop. naive_solver.
Qed.

Lemma wf_new : wf NewMemoryRegistry.
Proof. apply map_Forall_empty. Qed.

Lemma wf_Register l r r' : wf r -> Register l r = Ok r' -> wf r'.
Proof.
  intros Hr (Hv & _ & ->)%Register_inv. by apply map_Forall_insert_2.
Qed.

Lemma wf_Unregister k nd r r' : wf r -> Unregister k nd r = Ok r' -> wf r'.
Proof. intros Hr (_ & ->)%Unregister_inv. by apply map_Forall_delete. Qed.

Lemma wf_UnregisterNode nd r : wf r -> wf (UnregisterNode nd r).
Proof.
  intros Hr k l. unfold UnregisterNode; simpl. rewrite map_lookup_filter_Some.
  intros [Hl _]. by apply Hr.
Qed.

Lemma lookup_UnregisterNode nd r k :
  Lookup k (UnregisterNode nd r) =
  match Lookup k r with
  | Some l => if decide (NodeID l = nd) then None else Some l
  | None => None
  end.
Proof.
  unfold Lookup, UnregisterNode; simpl. rewrite map_lookup_filter.
  destruct (services r !! k) as [l|] eqn:E; simpl; [|done].
  repeat case_decide; simplify_option_eq; naive_solver.
Qed.

Lemma elem_of_List r l : wf r -> l ∈ List r <-> Lookup (Key l) r = Some l.
Proof.
  intros Hr. unfold List, Lookup. rewrite list_elem_of_fmap. split.
  - intros ([k l'] & -> & Hin). apply elem_of_map_to_list in Hin. simpl.
    by destruct (Hr _ _ Hin) as [-> _].
  - intros Hl. exists (Key l, l). split; [done|]. by apply elem_of_map_to_list.
Qed.

Lemma NoDup_List r : wf r -> NoDup (List r).
Proof.
  intros Hr. apply NoDup_fmap_2_strong; [|apply NoDup_map_to_list].
  intros [k1 l1] [k2 l2] H1 H2 Heq. simpl in Heq. subst.
  apply elem_of_map_to_list in H1, H2.
  destruct (Hr _ _ H1) as [<- _]. by destruct (Hr _ _ H2) as [<- _].
Qed.

End Memory.

#[export] Instance MemoryRegistry_ops : ServiceRegistry MemoryRegistry := {
  Register := Memory.Register;
  Unregister := Memory.Unregister;
  UnregisterNode := Memory.UnregisterNode;
  Lookup := Memory.Lookup;
  List := Memory.List
}.

(** ** [MemoryRegistry] satisfies the interface *)

#[export, refine] Instance MemoryRegistry_laws : ServiceRegistryLaws MemoryRegistry := {
  reg_ok := Memory.wf
}.
Proof.
  - intros l r r' Hr H. pose proof (Memory.wf_Register _ _ _ Hr H).
    apply Memory.Register_inv in H as (Hv & Hn & ->). split_and!; try done.
    intros k. simpl. unfold Memory.Lookup; simpl. rewrite lookup_insert.
    repeat case_decide; congruence.
  - intros l r Hr Hv Hn. simpl. unfold Memory.Register. cbv zeta.
    rewrite Memory.Register_guard, Hv. simpl in *. unfold Memory.Lookup in Hn. rewrite Hn. eauto.
  - intros l r cur Hr Hv Hn. simpl. unfold Memory.Register. cbv zeta.
    rewrite Memory.Register_guard, Hv. simpl in *. unfold Memory.Lookup in Hn. rewrite Hn. eauto.
  - intros k nd r r' Hr H. pose proof (Memory.wf_Unregister _ _ _ _ Hr H).
    apply Memory.Unregister_inv in H as (Hl & ->). split_and!; try done.
    intros k'. simpl. unfold Memory.Lookup; simpl. rewrite lookup_delete.
    repeat case_decide; congruence.
  - intros k nd r l Hr Hl Hnd. simpl in *. unfold Memory.Lookup in Hl.
    unfold Memory.Unregister. rewrite Hl, (proj2 (Z.eqb_eq _ _) Hnd). eauto.
  - intros k nd r Hr Hl. simpl in *. unfold Memory.Lookup in Hl.
    unfold Memory.Unregister. rewrite Hl. eauto.
  - intros nd r Hr. split; [by apply Memory.wf_UnregisterNode|].
    intros k. apply Memory.lookup_UnregisterNode.
  - intros k r l Hr Hl. by apply Hr.
  - intros. by apply Memory.elem_of_List.
  - intros. by apply Memory.NoDup_List.
Defined.
