(* ===== verification/Subscription.v ===== *)
(** * Service subscriptions (service_subscription.go)

    The order of [sortServiceKeys], [normalizeSubscribedServiceName] and the
    two-way index [serviceSubscriptionIndex] that the main node keeps, with
    its abstract specification: a finite relation between subscribers and
    subscribed names. *)

From stdpp Require Import base tactics list gmap sets strings sorting.
From Stdlib Require Import ZArith Lia Ascii.
From S2P Require Import Prelude GoString Errors Registry.
Local Open Scope string_scope.

(** ** The order of keys *)

(** Go compares strings byte by byte. *)
Definition string_less (a b : string) : bool :=
  match String.compare a b with Lt => true | _ => false end.

(** The [less] function [sortServiceKeys] passes to [sort.Slice]. *)
Definition key_less (a b : ServiceKey) : bool :=
  if bool_decide (Name a = Name b) then (ID a <? ID b)%Z else string_less (Name a) (Name b).

Definition key_le (a b : ServiceKey) : Prop := key_less b a = false.
Definition string_le (a b : string) : Prop := string_less b a = false.

#[export] Instance key_le_dec : RelDecision key_le.
Proof. intros a b. unfold key_le. apply _. Defined.

#[export] Instance string_le_dec : RelDecision string_le.
Proof. intros a b. unfold string_le. apply _. Defined.

(** [sort.Slice] with a strict total order: the sorted permutation. *)
Definition sortServiceKeys (keys : list ServiceKey) : list ServiceKey := merge_sort key_le keys.

(** [sort.Strings] *)
Definition sortStrings (names : list string) : list string := merge_sort string_le names.

Lemma string_compare_refl s : String.compare s s = Eq.
Proof. induction s as [|c s IH]; simpl; [done|]. unfold Ascii.compare. by rewrite N.compare_refl. Qed.

Lemma string_compare_trans a b c :
  String.compare a b = Lt -> String.compare b c = Lt -> String.compare a c = Lt.
Proof.
  revert b c. induction a as [|x a IH]; intros [|y b] [|z c]; simpl; try done.
  unfold Ascii.compare. intros H1 H2.
  destruct (N.compare_spec (N_of_ascii x) (N_of_ascii y)) as [E1|E1|E1]; try done;
  destruct (N.compare_spec (N_of_ascii y) (N_of_ascii z)) as [E2|E2|E2]; try done.
  - rewrite E1, E2, N.compare_refl. eauto.
  - by rewrite E1, (proj2 (N.compare_lt_iff _ _) E2).
  - by rewrite <- E2, (proj2 (N.compare_lt_iff _ _) E1).
  - by rewrite (proj2 (N.compare_lt_iff _ _) (N.lt_trans _ _ _ E1 E2)).
Qed.

Lemma string_less_trans a b c : string_less a b -> string_less b c -> string_less a c.
Proof.
  unfold string_less. destruct (String.compare a b) eqn:E1; try done.
  destruct (String.compare b c) eqn:E2; try done. by rewrite (string_compare_trans _ _ _ E1 E2).
Qed.

Lemma string_less_irrefl a : string_less a a = false.
Proof. unfold string_less. by rewrite string_compare_refl. Qed.

Lemma string_less_trichotomy a b : a = b \/ string_less a b \/ string_less b a.
Proof.
  unfold string_less. rewrite (String.compare_antisym b a).
  destruct (String.compare a b) eqn:E; simpl; auto.
  left. by apply String.compare_eq_iff.
Qed.

(** A strict total order read as the total order of its complement. *)
Section StrictOrder.
Context {A : Type} (less : A -> A -> bool).
Hypothesis less_trans : forall a b c, less a b -> less b c -> less a c.
Hypothesis less_irrefl : forall a, less a a = false.
Hypothesis less_tri : forall a b, a = b \/ less a b \/ less b a.
Let le (a b : A) : Prop := less b a = false.

Lemma strict_le_iff a b : le a b <-> a = b \/ less a b.
Proof.
  unfold le. split.
  - intros H. destruct (less_tri a b) as [|[|H2]]; auto. by rewrite H in H2.
  - intros [->|H]; [done|]. destruct (less b a) eqn:E; [|done].
    pose proof (less_trans a b a H) as H2. rewrite E in H2. specialize (H2 I).
    by rewrite less_irrefl in H2.
Qed.

Lemma strict_le_trans : Transitive le.
Proof.
  intros a b c. rewrite !strict_le_iff. intros [->|H1] [->|H2]; eauto.
Qed.

Lemma strict_le_antisymm : AntiSymm eq le.
Proof.
  intros a b. rewrite strict_le_iff. intros [->|H1]; [done|]. unfold le. intros H2.
  by rewrite H2 in H1.
Qed.

Lemma strict_le_total : Total le.
Proof. intros a b. rewrite !strict_le_iff. destruct (less_tri a b) as [->|[|]]; auto. Qed.

End StrictOrder.

Lemma key_less_iff a b :
  key_less a b <-> (Name a = Name b /\ (ID a < ID b)%Z) \/ string_less (Name a) (Name b).
Proof.
  unfold key_less. case_bool_decide as E; [rewrite E, string_less_irrefl|];
    rewrite ?Is_true_true, ?Z.ltb_lt; naive_solver.
Qed.

Lemma key_less_trans a b c : key_less a b -> key_less b c -> key_less a c.
Proof.
  rewrite !key_less_iff. intros [[E1 H1]|H1] [[E2 H2]|H2].
  - left. split; [congruence|lia].
  - right. by rewrite E1.
  - right. by rewrite <- E2.
  - right. eauto using string_less_trans.
Qed.

Lemma key_less_irrefl a : key_less a a = false.
Proof. unfold key_less. rewrite bool_decide_eq_true_2 by done. apply Z.ltb_irrefl. Qed.

Lemma key_less_trichotomy a b : a = b \/ key_less a b \/ key_less b a.
Proof.
  destruct a as [na ia], b as [nb ib]. unfold key_less; simpl.
  destruct (decide (na = nb)) as [->|Hne].
  - rewrite bool_decide_eq_true_2 by done. rewrite !Is_true_true, !Z.ltb_lt.
    destruct (Z.lt_trichotomy ia ib) as [|[->|]]; auto.
  - rewrite !bool_decide_eq_false_2 by congruence.
    destruct (string_less_trichotomy na nb) as [|[|]]; auto. done.
Qed.

#[export] Instance key_le_trans : Transitive key_le.
Proof. apply strict_le_trans; eauto using key_less_trans, key_less_irrefl, key_less_trichotomy. Qed.
#[export] Instance key_le_antisymm : AntiSymm eq key_le.
Proof. apply strict_le_antisymm; eauto using key_less_trans, key_less_irrefl, key_less_trichotomy. Qed.
#[export] Instance key_le_total : Total key_le.
Proof. apply strict_le_total; eauto using key_less_trans, key_less_irrefl, key_less_trichotomy. Qed.

Lemma sortServiceKeys_Permutation l : sortServiceKeys l ≡ₚ l.
Proof. apply merge_sort_Permutation. Qed.

Lemma elem_of_sortServiceKeys k l : k ∈ sortServiceKeys l <-> k ∈ l.
Proof. by rewrite sortServiceKeys_Permutation. Qed.

Lemma sortServiceKeys_Sorted l : Sorted key_le (sortServiceKeys l).
Proof. apply Sorted_merge_sort, _. Qed.

(** Whatever order a Go map yields its keys in, sorting gives one list. *)
Lemma sortServiceKeys_unique l l' : l ≡ₚ l' -> sortServiceKeys l = sortServiceKeys l'.
Proof.
  intros Hp. apply (Sorted_unique key_le); try apply sortServiceKeys_Sorted.
  by rewrite !sortServiceKeys_Permutation.
Qed.

Lemma NoDup_sortServiceKeys l : NoDup l -> NoDup (sortServiceKeys l).
Proof. by rewrite sortServiceKeys_Permutation. Qed.

(** ** Subscribed names *)

Definition maxSubscribedServiceNameSize : Z := 256.

Definition normalizeSubscribedServiceName (serviceName : string) : res string :=
  let serviceName := TrimSpace serviceName in
  if bool_decide (serviceName = "") then Err (EText "subscribed service name is empty")
  else if (maxSubscribedServiceNameSize <? len serviceName)%Z
  then Err (EText ("subscribed service name is too long: " +:+ fmt_d (len serviceName) +:+ " bytes"))
  else if negb (ValidString serviceName)
  then Err (EText "subscribed service name is not valid UTF-8")
  else Ok serviceName.

(** The names that survive normalization. *)
Definition normalized_name (n : string) : Prop :=
  TrimSpace n = n /\ n <> "" /\ (len n <= maxSubscribedServiceNameSize)%Z /\ ValidString n = true.

Lemma normalize_Ok s n :
  normalizeSubscribedServiceName s = Ok n <-> n = TrimSpace s /\ normalized_name n.
Proof.
  unfold normalizeSubscribedServiceName, normalized_name. cbv zeta. split.
  - intros H. inv_res. subst. bool_prop. rewrite TrimSpace_idemp. auto.
  - intros (-> & _ & Hne & Hl & Hv). rewrite bool_decide_eq_false_2 by done.
    rewrite (proj2 (Z.ltb_ge _ _) Hl), Hv. done.
Qed.

(** A name that is already normalized is passed through: the main node, which
    insists on [serviceName == request.ServiceName], accepts every name its
    clients normalized. *)
Lemma normalize_fixpoint s n :
  normalizeSubscribedServiceName s = Ok n -> normalizeSubscribedServiceName n = Ok n.
Proof.
  rewrite !normalize_Ok. intros (_ & Hn). split; [|done]. symmetry. apply Hn.
Qed.

(** ** The index *)

Record serviceSubscriptionIndex := mkIndex {
  byServiceName : gmap string (gset ServiceKey);
  bySubscriber : gmap ServiceKey (gset string)
}.

Definition newServiceSubscriptionIndex : serviceSubscriptionIndex := mkIndex ∅ ∅.

(** Reading a missing inner map gives nil, which behaves as the empty set. *)
Definition named (s : serviceSubscriptionIndex) (n : string) : gset ServiceKey :=
  default ∅ (byServiceName s !! n).
Definition names_of (s : serviceSubscriptionIndex) (k : ServiceKey) : gset string :=
  default ∅ (bySubscriber s !! k).

Definition subscribe (subscriber : ServiceKey) (serviceName : string)
    (s : serviceSubscriptionIndex) : serviceSubscriptionIndex * bool :=
  let subscribers := named s serviceName in
  if bool_decide (subscriber ∈ subscribers)
  then (mkIndex (<[serviceName := subscribers]> (byServiceName s)) (bySubscriber s), false)
  else
    (mkIndex (<[serviceName := {[subscriber]} ∪ subscribers]> (byServiceName s))
       (<[subscriber := {[serviceName]} ∪ names_of s subscriber]> (bySubscriber s)), true).

(** One turn of the loop of [removeSubscriber]. *)
Definition drop_subscriber (subscriber : ServiceKey)
    (m : gmap string (gset ServiceKey)) (serviceName : string) : gmap string (gset ServiceKey) :=
  match m !! serviceName with
  | None => m
  | Some subscribers =>
      let subscribers := subscribers ∖ {[subscriber]} in
      if bool_decide (subscribers = ∅) then delete serviceName m
      else <[serviceName := subscribers]> m
  end.

Definition removeSubscriber (subscriber : ServiceKey) (s : serviceSubscriptionIndex)
    : serviceSubscriptionIndex :=
  mkIndex (foldl (drop_subscriber subscriber) (byServiceName s) (elements (names_of s subscriber)))
    (delete subscriber (bySubscriber s)).

Definition subscribers (serviceName : string) (s : serviceSubscriptionIndex) : list ServiceKey :=
  sortServiceKeys (elements (named s serviceName)).

(** ** Invariant and abstraction *)

(** The two maps describe one relation, and no inner map is left empty. *)
Record index_wf (s : serviceSubscriptionIndex) : Prop := {
  wf_dual : forall k n, k ∈ named s n <-> n ∈ names_of s k;
  wf_named : forall n, byServiceName s !! n <> Some ∅;
  wf_names : forall k, bySubscriber s !! k <> Some ∅
}.

(** The relation an index stands for. *)
Definition subscribed (s : serviceSubscriptionIndex) (k : ServiceKey) (n : string) : Prop :=
  k ∈ named s n.

#[export] Instance subscribed_dec s k n : Decision (subscribed s k n).
Proof. unfold subscribed. apply _. Defined.

Lemma lookup_subscribe_named k n s n' :
  named (subscribe k n s).1 n' = if decide (n' = n) then {[k]} ∪ named s n else named s n'.
Proof.
  unfold subscribe. cbv zeta. case_bool_decide; unfold named; simpl; rewrite lookup_insert;
    repeat case_decide; try congruence; simpl; [|done]. set_solver.
Qed.

Lemma lookup_subscribe_names k n s k' :
  index_wf s ->
  names_of (subscribe k n s).1 k' = if decide (k' = k) then {[n]} ∪ names_of s k else names_of s k'.
Proof.
  intros Hs. unfold subscribe. cbv zeta. case_bool_decide as Hin; simpl.
  - unfold names_of; simpl. case_decide; [|done]. subst.
    apply (wf_dual _ Hs) in Hin. unfold names_of in Hin. set_solver.
  - unfold names_of; simpl. rewrite lookup_insert. repeat case_decide; naive_solver.
Qed.

Lemma lookup_drop_subscriber k m n n' :
  default ∅ (drop_subscriber k m n !! n') =
  if decide (n' = n) then default ∅ (m !! n) ∖ {[k]} else default ∅ (m !! n').
Proof.
  unfold drop_subscriber. destruct (m !! n) as [x|] eqn:E.
  - case_bool_decide as Hx; rewrite ?lookup_delete, ?lookup_insert; repeat case_decide;
      simplify_eq/=; set_solver.
  - case_decide; subst; rewrite ?E; set_solver.
Qed.

Lemma drop_subscriber_nonempty k m n n' :
  (forall n, m !! n <> Some ∅) -> drop_subscriber k m n !! n' <> Some ∅.
Proof.
  intros Hm. unfold drop_subscriber. destruct (m !! n) as [x|] eqn:E; [|done].
  case_bool_decide; rewrite ?lookup_delete, ?lookup_insert; case_decide; naive_solver.
Qed.

Lemma fold_drop_lookup k ns m n :
  default ∅ (foldl (drop_subscriber k) m ns !! n) =
  if decide (n ∈ ns) then default ∅ (m !! n) ∖ {[k]} else default ∅ (m !! n).
Proof.
  revert m. induction ns as [|x ns IH]; intros m; simpl; [done|].
  rewrite IH, !lookup_drop_subscriber. repeat case_decide; subst; set_solver.
Qed.

Lemma fold_drop_nonempty k ns m :
  (forall n, m !! n <> Some ∅) -> forall n, foldl (drop_subscriber k) m ns !! n <> Some ∅.
Proof.
  revert m. induction ns; intros m Hm n; simpl; [done|]. eauto using drop_subscriber_nonempty.
Qed.

Lemma lookup_remove_named k s n :
  index_wf s -> named (removeSubscriber k s) n = named s n ∖ {[k]}.
Proof.
  intros Hs. unfold named, removeSubscriber; simpl. rewrite fold_drop_lookup.
  case_decide as Hin; [done|]. rewrite elem_of_elements in Hin.
  assert (k ∉ named s n) by (by rewrite (wf_dual _ Hs)). unfold named in *. set_solver.
Qed.

Lemma lookup_remove_names k s k' :
  names_of (removeSubscriber k s) k' = if decide (k' = k) then ∅ else names_of s k'.
Proof. unfold names_of, removeSubscriber; simpl. rewrite lookup_delete. repeat case_decide; naive_solver. Qed.

Lemma index_wf_new : index_wf newServiceSubscriptionIndex.
Proof. split; set_solver. Qed.

Lemma index_wf_subscribe k n s : index_wf s -> index_wf (subscribe k n s).1.
Proof.
  intros Hs. split.
  - intros k' n'. rewrite lookup_subscribe_named, lookup_subscribe_names by done.
    pose proof (wf_dual _ Hs k' n'). repeat case_decide; subst; set_solver.
  - intros n'. pose proof (wf_named _ Hs n'). unfold subscribe. cbv zeta.
    case_bool_decide; simpl; rewrite lookup_insert; case_decide; try done; intros [= ?]; set_solver.
  - intros k'. pose proof (wf_names _ Hs k'). unfold subscribe. cbv zeta.
    case_bool_decide; simpl; [done|]. rewrite lookup_insert; case_decide; try done.
    intros [= ?]; set_solver.
Qed.

Lemma index_wf_remove k s : index_wf s -> index_wf (removeSubscriber k s).
Proof.
  intros Hs. split.
  - intros k' n'. rewrite lookup_remove_named, lookup_remove_names by done.
    pose proof (wf_dual _ Hs k' n'). case_decide; subst; set_solver.
  - intros n. by apply fold_drop_nonempty, (wf_named _ Hs).
  - intros k'. unfold removeSubscriber; simpl. rewrite lookup_delete.
    case_decide; [done|]. by apply (wf_names _ Hs).
Qed.

#[export] Hint Resolve index_wf_new index_wf_subscribe index_wf_remove : xt.

(** Two well-formed indexes of the same relation are the same index. *)
Lemma index_ext s1 s2 :
  index_wf s1 -> index_wf s2 -> (forall k n, subscribed s1 k n <-> subscribed s2 k n) -> s1 = s2.
Proof.
  intros H1 H2 H. assert (forall n, named s1 n = named s2 n) as Hn.
  { intros n. apply set_eq. intros k. apply H. }
  assert (forall k, names_of s1 k = names_of s2 k) as Hk.
  { intros k. apply set_eq. intros n. rewrite <- (wf_dual _ H1), <- (wf_dual _ H2). apply H. }
  destruct s1 as [a1 b1], s2 as [a2 b2]. f_equal; apply map_eq; intros i.
  - specialize (Hn i). unfold named in Hn; simpl in Hn.
    pose proof (wf_named _ H1 i). pose proof (wf_named _ H2 i). simpl in *.
    destruct (a1 !! i), (a2 !! i); simpl in *; congruence.
  - specialize (Hk i). unfold names_of in Hk; simpl in Hk.
    pose proof (wf_names _ H1 i). pose proof (wf_names _ H2 i). simpl in *.
    destruct (b1 !! i), (b2 !! i); simpl in *; congruence.
Qed.

Lemma subscribed_subscribe k n s k' n' :
  subscribed (subscribe k n s).1 k' n' <-> (k', n') = (k, n) \/ subscribed s k' n'.
Proof. unfold subscribed. rewrite lookup_subscribe_named. case_decide; set_solver. Qed.

Lemma subscribed_remove k s k' n' :
  index_wf s -> subscribed (removeSubscriber k s) k' n' <-> k' <> k /\ subscribed s k' n'.
Proof. intros Hs. unfold subscribed. rewrite lookup_remove_named by done. set_solver. Qed.

(** [servicesUnregistered] drops a list of subscribers one after the other. *)
Lemma index_wf_remove_all ks s :
  index_wf s -> index_wf (foldl (fun i k => removeSubscriber k i) s ks).
Proof. revert s. induction ks; simpl; eauto using index_wf_remove. Qed.

Lemma subscribed_remove_all ks s k n :
  index_wf s ->
  subscribed (foldl (fun i k => removeSubscriber k i) s ks) k n <-> (k ∉ ks) /\ subscribed s k n.
Proof.
  revert s. induction ks as [|x ks IH]; intros s Hs; simpl.
  - split; [|naive_solver]. split; [apply not_elem_of_nil|done].
  - rewrite IH, subscribed_remove, not_elem_of_cons by eauto using index_wf_remove. naive_solver.
Qed.

Lemma elem_of_subscribers k n s : k ∈ subscribers n s <-> subscribed s k n.
Proof. unfold subscribers, subscribed. by rewrite elem_of_sortServiceKeys, elem_of_elements. Qed.

Lemma NoDup_subscribers n s : NoDup (subscribers n s).
Proof. apply NoDup_sortServiceKeys, NoDup_elements. Qed.

Lemma subscribe_result k n s : (subscribe k n s).2 = bool_decide (~ subscribed s k n).
Proof.
  unfold subscribe, subscribed. cbv zeta. case_bool_decide; simpl; symmetry.
  - apply bool_decide_eq_false_2. naive_solver.
  - by apply bool_decide_eq_true_2.
Qed.

(** ** The specification: a set of pairs *)

Inductive index_op := OpSubscribe (k : ServiceKey) (n : string) | OpRemove (k : ServiceKey).

Definition run_op (s : serviceSubscriptionIndex) (op : index_op) : serviceSubscriptionIndex :=
  match op with
  | OpSubscribe k n => (subscribe k n s).1
  | OpRemove k => removeSubscriber k s
  end.

Definition spec_op (rel : gset (ServiceKey * string)) (op : index_op)
    : gset (ServiceKey * string) :=
  match op with
  | OpSubscribe k n => {[(k, n)]} ∪ rel
  | OpRemove k => filter (fun p => p.1 <> k) rel
  end.

Definition spec_subscribers (n : string) (rel : gset (ServiceKey * string)) : list ServiceKey :=
  sortServiceKeys (map fst (elements (filter (fun p => p.2 = n) rel))).

Definition simulates (s : serviceSubscriptionIndex) (rel : gset (ServiceKey * string)) : Prop :=
  index_wf s /\ forall k n, subscribed s k n <-> (k, n) ∈ rel.

Lemma simulates_op s rel op : simulates s rel -> simulates (run_op s op) (spec_op rel op).
Proof.
  intros [Hs H]. destruct op as [k n|k]; simpl; split; try (by auto with xt); intros k' n'.
  - rewrite subscribed_subscribe, H. set_solver.
  - rewrite subscribed_remove, H, elem_of_filter by done. done.
Qed.

Lemma simulates_run s rel ops :
  simulates s rel -> simulates (foldl run_op s ops) (foldl spec_op rel ops).
Proof. revert s rel. induction ops; simpl; eauto using simulates_op. Qed.

Lemma simulates_subscribers s rel n :
  simulates s rel -> subscribers n s = spec_subscribers n rel.
Proof.
  intros [_ H]. unfold subscribers, spec_subscribers. apply sortServiceKeys_unique.
  apply NoDup_Permutation; [apply NoDup_elements| |].
  - apply NoDup_fmap_2_strong; [|apply NoDup_elements].
    intros [] [] ?%elem_of_elements ?%elem_of_elements ?; set_solver.
  - intros k. rewrite elem_of_elements, list_elem_of_fmap. fold (subscribed s k n). rewrite H.
    setoid_rewrite elem_of_elements. setoid_rewrite elem_of_filter. split.
    + intros ?. by exists (k, n).
    + intros ([? ?] & -> & ? & ?). simpl in *. by subst.
Qed.

(** C37 (refinement). Any history of [subscribe] and [removeSubscriber] calls
    leaves the two-way index a faithful copy of one set of (subscriber, name)
    pairs: its invariant holds, [subscribers] lists exactly the subscribers of
    the name in key order, and [subscribe] answers whether the pair is new. *)
Theorem index_refines_relation (ops : list index_op) (n : string) (k : ServiceKey) :
  let s := foldl run_op newServiceSubscriptionIndex ops in
  let rel := foldl spec_op ∅ ops in
  index_wf s /\
  subscribers n s = spec_subscribers n rel /\
  (k ∈ subscribers n s <-> (k, n) ∈ rel) /\
  (subscribe k n s).2 = bool_decide ((k, n) ∉ rel).
Proof.
  cbv zeta. assert (simulates (foldl run_op newServiceSubscriptionIndex ops) (foldl spec_op ∅ ops))
    as Hsim by (apply simulates_run; split; [auto with xt|set_solver]).
  split_and!; [apply Hsim|by apply simulates_subscribers| |].
  - rewrite elem_of_subscribers. apply Hsim.
  - rewrite subscribe_result. apply bool_decide_ext. by rewrite (proj2 Hsim).
Qed.

Definition subscribe_all (k : ServiceKey) (ns : list string) (s : serviceSubscriptionIndex)
    : serviceSubscriptionIndex := foldl (fun s n => (subscribe k n s).1) s ns.

Lemma index_wf_subscribe_all k ns s : index_wf s -> index_wf (subscribe_all k ns s).
Proof. revert s. induction ns; simpl; eauto with xt. Qed.

Lemma subscribed_subscribe_all k ns s k' n' :
  subscribed (subscribe_all k ns s) k' n' <-> (k' = k /\ n' ∈ ns) \/ subscribed s k' n'.
Proof.
  revert s. induction ns as [|n ns IH]; intros s; simpl; [set_solver|].
  unfold subscribe_all in *. rewrite IH, subscribed_subscribe. set_solver.
Qed.

(** The life of one subscriber leaves no trace: after any
    sequence of subscriptions of a service that had none, [removeSubscriber]
    gives back the very index it started from, with no empty inner map left. *)
Theorem subscriber_lifetime_leaves_no_trace (s : serviceSubscriptionIndex) (k : ServiceKey)
    (ns : list string) :
  index_wf s -> (forall n, ~ subscribed s k n) ->
  removeSubscriber k (subscribe_all k ns s) = s.
Proof.
  intros Hs Hk. pose proof (index_wf_subscribe_all k ns s Hs) as Hall.
  apply index_ext; [by auto with xt|done|]. intros k' n'.
  rewrite subscribed_remove, subscribed_subscribe_all by done. specialize (Hk n').
  destruct (decide (k' = k)) as [->|]; naive_solver.
Qed.

Lemma subscriber_lifetime_leaves_no_trace_witness :
  removeSubscriber (mkServiceKey "gateway" 1)
    (subscribe_all (mkServiceKey "gateway" 1) ["room"; "map"; "room"]
      (subscribe (mkServiceKey "center" 1) "room" newServiceSubscriptionIndex).1)
  = (subscribe (mkServiceKey "center" 1) "room" newServiceSubscriptionIndex).1.
Proof.
  apply subscriber_lifetime_leaves_no_trace.
  - apply index_wf_subscribe, index_wf_new.
  - intros n. rewrite subscribed_subscribe. intros [[=]|H]. by apply elem_of_subscribers in H; apply not_elem_of_nil in H.
Defined.
