(* ===== verification/RouteCache.v ===== *)
(** * The route cache (route_cache.go)

    [serviceRouteCache] caches the routes a non-main node got from the main
    node and merges concurrent queries for one service.  Its fields are the
    record [serviceRouteCache]; the critical sections of [lookup] are the
    functions [read_hit], [lock_miss] and [lock_finish]; [invalidate] and
    [invalidateAll] are one critical section each.  [sys] is the cache with
    the calls it points to and any number of goroutines inside [lookup], and
    [step] interleaves them section by section with invalidations, the answers
    of [load] and the passing of time.

    [epoch] and [revisions] are uint64 and wrap around; the ghost counters of
    [sys] count invalidations without wrapping, so a theorem that needs it can
    say that fewer than 2^64 invalidations happened. *)

From stdpp Require Import base tactics list gmap strings.
From Stdlib Require Import ZArith Lia.
From S2P Require Import Prelude GoString Errors Registry.
Local Open Scope Z_scope.

(** ** Data *)

(** [time.Time] as nanoseconds, with [None] for the zero time. *)
Record routeCacheEntry := mkEntry {
  location : ServiceLocation;
  expiresAt : option Z
}.

(** [stamp] is a ghost: how many invalidations of everything and of this key
    had happened when the call was created. *)
Record routeLookupCall := mkCall {
  call_key : ServiceKey;
  done : bool;
  answer : res ServiceLocation;
  call_epoch : Z;
  call_revision : Z;
  stale : bool;
  stamp : nat * nat
}.

Record serviceRouteCache := mkCache {
  ttl : Z;
  enabled : bool;
  entries : gmap ServiceKey routeCacheEntry;
  lookups : gmap ServiceKey nat;
  epoch : Z;
  revisions : gmap ServiceKey Z
}.

Definition newServiceRouteCache (ttl : Z) (enabled : bool) : serviceRouteCache :=
  mkCache ttl enabled ∅ ∅ 0 ∅.

Definition uint64 (z : Z) : Z := z `mod` 2 ^ 64.

Definition revision_of (c : serviceRouteCache) (key : ServiceKey) : Z :=
  default 0 (revisions c !! key).

(** [entry.expiresAt.IsZero() || now.Before(entry.expiresAt)] *)
Definition alive (now : Z) (e : routeCacheEntry) : bool :=
  match expiresAt e with None => true | Some t => now <? t end.

(** ** The critical sections of [lookup] *)

(** The section under the read lock. *)
Definition read_hit (key : ServiceKey) (now : Z) (c : serviceRouteCache)
    : option ServiceLocation :=
  match entries c !! key with
  | Some e => if alive now e then Some (location e) else None
  | None => None
  end.

Inductive miss :=
| Hit (l : ServiceLocation)
| Join (call : nat)
| Begin (call : nat) (epoch revision : Z).

(** The first section under the write lock: look again, drop an expired entry,
    then join a call of the same epoch and revision or become its loader.
    [calls] is the heap of [routeLookupCall] objects and [fresh] the address
    a new one gets. *)
Definition lock_miss (key : ServiceKey) (now : Z) (calls : gmap nat routeLookupCall)
    (fresh : nat) (c : serviceRouteCache) : serviceRouteCache * miss :=
  match read_hit key now c with
  | Some l => (c, Hit l)
  | None =>
      let c := mkCache (ttl c) (enabled c) (delete key (entries c)) (lookups c) (epoch c)
                 (revisions c) in
      let ep := epoch c in
      let rev := revision_of c key in
      let joined :=
        match lookups c !! key with
        | Some a =>
            match calls !! a with
            | Some call =>
                if (call_epoch call =? ep) && (call_revision call =? rev) then Some a else None
            | None => None
            end
        | None => None
        end in
      match joined with
      | Some a => (c, Join a)
      | None =>
          (mkCache (ttl c) (enabled c) (entries c) (<[key := fresh]> (lookups c)) (epoch c)
             (revisions c), Begin fresh ep rev)
      end
  end.

(** The section after [load] returned: record the answer, cache it unless it
    went stale, retire the call and close its channel. *)
Definition lock_finish (key : ServiceKey) (now : Z) (a : nat) (call : routeLookupCall)
    (result : res ServiceLocation) (c : serviceRouteCache)
    : serviceRouteCache * routeLookupCall :=
  let is_stale := negb (epoch c =? call_epoch call)
                  || negb (revision_of c key =? call_revision call) in
  let entries' :=
    match result with
    | Ok l =>
        if negb is_stale && enabled c then
          <[key := mkEntry l (if 0 <? ttl c then Some (now + ttl c) else None)]> (entries c)
        else entries c
    | Err _ => entries c
    end in
  let lookups' :=
    if bool_decide (lookups c !! key = Some a) then delete key (lookups c) else lookups c in
  (mkCache (ttl c) (enabled c) entries' lookups' (epoch c) (revisions c),
   mkCall (call_key call) true result (call_epoch call) (call_revision call) is_stale (stamp call)).

Definition invalidate (key : ServiceKey) (c : serviceRouteCache) : serviceRouteCache :=
  mkCache (ttl c) (enabled c) (delete key (entries c)) (lookups c) (epoch c)
    (<[key := uint64 (revision_of c key + 1)]> (revisions c)).

Definition invalidateAll (c : serviceRouteCache) : serviceRouteCache :=
  mkCache (ttl c) (enabled c) ∅ (lookups c) (uint64 (epoch c + 1)) (revisions c).

(** ** Goroutines inside [lookup] *)

(** Where a goroutine stands: at the loop head, after [time.Now()], after the
    read section, waiting for a call, running [load], holding its answer, or
    returned.  [Returned] carries as a ghost the stamp of the query that
    produced the result. *)
Inductive pc :=
| AtHead
| AtRead (now : Z)
| AtLock
| Waiting (call : nat)
| Loading (call : nat)
| Storing (call : nat) (result : res ServiceLocation)
| Returned (result : res ServiceLocation) (produced : nat * nat).

(** [th_start] is a ghost: the stamp of the key when [lookup] was called. *)
Record thread := mkThread { th_key : ServiceKey; th_pc : pc; th_start : nat * nat }.

Record sys := mkSys {
  cache : serviceRouteCache;
  calls : gmap nat routeLookupCall;
  next_call : nat;
  threads : gmap nat thread;
  clock : Z;
  g_all : nat;                        (** ghost: calls of [invalidateAll] *)
  g_key : gmap ServiceKey nat;        (** ghost: calls of [invalidate] per key *)
  g_loaded : gmap ServiceKey (nat * nat) (** ghost: stamp of the query behind an entry *)
}.

Definition now_stamp (s : sys) (k : ServiceKey) : nat * nat :=
  (g_all s, default 0%nat (g_key s !! k)).

Definition sys_init (ttl : Z) (enabled : bool) : sys :=
  mkSys (newServiceRouteCache ttl enabled) ∅ 0 ∅ 0 0 ∅ ∅.

Definition set_pc (t : nat) (th : thread) (p : pc) (ths : gmap nat thread) : gmap nat thread :=
  <[t := mkThread (th_key th) p (th_start th)]> ths.

Definition with_threads (s : sys) (ths : gmap nat thread) : sys :=
  mkSys (cache s) (calls s) (next_call s) ths (clock s) (g_all s) (g_key s) (g_loaded s).

Definition loaded_stamp (s : sys) (k : ServiceKey) : nat * nat :=
  default (0%nat, 0%nat) (g_loaded s !! k).

(** One goroutine takes its next step; [reply] is what [load] returns when the
    step is its return. [None] when the goroutine cannot move: it has
    returned, or its call is not done. *)
Definition thread_step (t : nat) (reply : res ServiceLocation) (s : sys) : option sys :=
  match threads s !! t with
  | None => None
  | Some th =>
      let key := th_key th in
      let goto p := with_threads s (set_pc t th p (threads s)) in
      match th_pc th with
      | AtHead => Some (goto (AtRead (clock s)))
      | AtRead now =>
          match read_hit key now (cache s) with
          | Some l => Some (goto (Returned (Ok l) (loaded_stamp s key)))
          | None => Some (goto AtLock)
          end
      | AtLock =>
          let '(c, m) := lock_miss key (clock s) (calls s) (next_call s) (cache s) in
          let step p calls' next :=
            Some (mkSys c calls' next (set_pc t th p (threads s)) (clock s) (g_all s) (g_key s)
                    (g_loaded s)) in
          match m with
          | Hit l => step (Returned (Ok l) (loaded_stamp s key)) (calls s) (next_call s)
          | Join a => step (Waiting a) (calls s) (next_call s)
          | Begin a ep rev =>
              step (Loading a)
                (<[a := mkCall key false (Ok (mkServiceLocation "" 0 0 "")) ep rev false
                          (now_stamp s key)]> (calls s))
                (S (next_call s))
          end
      | Waiting a =>
          match calls s !! a with
          | Some call =>
              if done call then
                if stale call then Some (goto AtHead)
                else Some (goto (Returned (answer call) (stamp call)))
              else None
          | None => None
          end
      | Loading a => Some (goto (Storing a reply))
      | Storing a result =>
          match calls s !! a with
          | Some call =>
              let '(c, call') := lock_finish key (clock s) a call result (cache s) in
              let p := if stale call' then AtHead else Returned result (stamp call) in
              Some (mkSys c (<[a := call']> (calls s)) (next_call s) (set_pc t th p (threads s))
                      (clock s) (g_all s) (g_key s)
                      (match result with
                       | Ok _ => if negb (stale call') && enabled c
                                 then <[key := stamp call]> (g_loaded s) else g_loaded s
                       | Err _ => g_loaded s
                       end))
          | None => None
          end
      | Returned _ _ => None
      end
  end.

Definition spawn (t : nat) (key : ServiceKey) (s : sys) : sys :=
  with_threads s (<[t := mkThread key AtHead (now_stamp s key)]> (threads s)).

Definition sys_invalidate (key : ServiceKey) (s : sys) : sys :=
  mkSys (invalidate key (cache s)) (calls s) (next_call s) (threads s) (clock s) (g_all s)
    (<[key := S (default 0%nat (g_key s !! key))]> (g_key s)) (g_loaded s).

Definition sys_invalidateAll (s : sys) : sys :=
  mkSys (invalidateAll (cache s)) (calls s) (next_call s) (threads s) (clock s) (S (g_all s))
    (g_key s) (g_loaded s).

Definition tick (d : Z) (s : sys) : sys :=
  mkSys (cache s) (calls s) (next_call s) (threads s) (clock s + d) (g_all s) (g_key s)
    (g_loaded s).

Inductive step : sys -> sys -> Prop :=
| step_spawn t key s : threads s !! t = None -> step s (spawn t key s)
| step_thread t reply s s' : thread_step t reply s = Some s' -> step s s'
| step_invalidate key s : step s (sys_invalidate key s)
| step_invalidateAll s : step s (sys_invalidateAll s)
| step_tick d s : 0 <= d -> step s (tick d s).

Definition reachable (ttl : Z) (enabled : bool) (s : sys) : Prop :=
  steps step (sys_init ttl enabled) s.

(** ** Invariant *)

Definition le_stamp (a b : nat * nat) : Prop := (a.1 <= b.1 /\ a.2 <= b.2)%nat.

(** Fewer than 2^64 invalidations of each kind. *)
Definition bounded (s : sys) : Prop :=
  Z.of_nat (g_all s) < 2 ^ 64 /\ forall k, Z.of_nat (default 0%nat (g_key s !! k)) < 2 ^ 64.

(** The call a goroutine has to complete. *)
Definition owns (th : thread) (a : nat) : Prop :=
  th_pc th = Loading a \/ exists r, th_pc th = Storing a r.

Definition has_owner (s : sys) (a : nat) : Prop :=
  exists t th, threads s !! t = Some th /\ owns th a.

(** What holds of a goroutine at each place. *)
Definition thread_ok (s : sys) (th : thread) : Prop :=
  le_stamp (th_start th) (now_stamp s (th_key th)) /\
  match th_pc th with
  | Waiting a =>
      exists call, calls s !! a = Some call /\ call_key call = th_key th /\
        le_stamp (th_start th) (stamp call) /\ (done call = true \/ has_owner s a)
  | Loading a | Storing a _ =>
      exists call, calls s !! a = Some call /\ call_key call = th_key th /\
        le_stamp (th_start th) (stamp call) /\ done call = false /\
        (stamp call = now_stamp s (th_key th) -> lookups (cache s) !! th_key th = Some a)
  | Returned _ p => le_stamp (th_start th) p
  | _ => True
  end.

Record inv (s : sys) : Prop := {
  inv_epoch : epoch (cache s) = Z.of_nat (g_all s);
  inv_revision : forall k, revision_of (cache s) k = Z.of_nat (default 0%nat (g_key s !! k));
  inv_entry : forall k, is_Some (entries (cache s) !! k) -> loaded_stamp s k = now_stamp s k;
  inv_call : forall a call, calls s !! a = Some call ->
    (a < next_call s)%nat /\ le_stamp (stamp call) (now_stamp s (call_key call)) /\
    call_epoch call = Z.of_nat (stamp call).1 /\ call_revision call = Z.of_nat (stamp call).2;
  inv_lookup : forall k a, lookups (cache s) !! k = Some a ->
    has_owner s a /\ exists call, calls s !! a = Some call /\ call_key call = k;
  inv_owner : forall t1 t2 th1 th2 a, threads s !! t1 = Some th1 -> threads s !! t2 = Some th2 ->
    owns th1 a -> owns th2 a -> t1 = t2;
  inv_thread : forall t th, threads s !! t = Some th -> thread_ok s th
}.

Lemma le_stamp_refl a : le_stamp a a.
Proof. unfold le_stamp. lia. Qed.

Lemma le_stamp_trans a b c : le_stamp a b -> le_stamp b c -> le_stamp a c.
Proof. unfold le_stamp. lia. Qed.

Lemma uint64_small z : 0 <= z < 2 ^ 64 -> uint64 z = z.
Proof. apply Z.mod_small. Qed.

#[local] Hint Resolve le_stamp_refl : xt.

Lemma inv_init ttl enabled : inv (sys_init ttl enabled).
Proof. split; done. Qed.

(** A step never takes an invalidation back. *)
Lemma step_grows s s' :
  step s s' -> (g_all s <= g_all s')%nat /\
    forall k, (default 0 (g_key s !! k) <= default 0 (g_key s' !! k))%nat.
Proof.
  destruct 1 as [t k s|t reply s s' H|k s|s|d s]; simpl; try (split; [lia|intros; lia]).
  - unfold thread_step in H. destruct (threads s !! t) as [th|]; [|done]. cbv zeta in H.
    repeat (case_match; simplify_eq/=); split; intros; lia.
  - split; [done|]. intros k'. rewrite lookup_insert. case_decide; subst; simpl; lia.
Qed.

(** Calls are never forgotten. *)
Lemma step_calls s s' : step s s' -> (next_call s <= next_call s')%nat.
Proof.
  destruct 1 as [t k s|t reply s s' H|k s|s|d s]; simpl; try lia.
  unfold thread_step in H. destruct (threads s !! t) as [th|]; [|done]. cbv zeta in H.
  repeat (case_match; simplify_eq/=); try lia.
Qed.

Lemma bounded_back s s' : step s s' -> bounded s' -> bounded s.
Proof.
  intros Hs%step_grows [H1 H2]. destruct Hs as [G1 G2]. split; [lia|].
  intros k. specialize (H2 k). specialize (G2 k). lia.
Qed.

Definition moved (th : thread) (p : pc) : thread := mkThread (th_key th) p (th_start th).

(** Moving one goroutine that keeps the call it owns, if any. *)
Lemma has_owner_moved s t th p a :
  threads s !! t = Some th -> (forall a, owns (moved th p) a <-> owns th a) ->
  has_owner (with_threads s (set_pc t th p (threads s))) a <-> has_owner s a.
Proof.
  intros Ht Ho. unfold has_owner, set_pc; simpl. split.
  - intros (t' & th' & Ht' & Hown). rewrite lookup_insert in Ht'. case_decide; simplify_eq; [|eauto].
    exists t', th. split; [done|]. by apply Ho.
  - intros (t' & th' & Ht' & Hown). destruct (decide (t = t')) as [->|Hne].
    + simplify_eq. eexists t', _. rewrite lookup_insert_eq. split; [done|]. by apply Ho.
    + exists t', th'. by rewrite lookup_insert_ne.
Qed.

Lemma thread_ok_moved s t th p th' :
  threads s !! t = Some th -> (forall a, owns (moved th p) a <-> owns th a) ->
  thread_ok s th' -> thread_ok (with_threads s (set_pc t th p (threads s))) th'.
Proof.
  intros Ht Ho [Hle H]. split; [done|]. destruct (th_pc th'); simpl in *; try done.
  destruct H as (cl & ? & ? & ? & H). exists cl. split_and!; try done.
  by rewrite has_owner_moved.
Qed.

Lemma inv_goto s t th p :
  inv s -> threads s !! t = Some th -> (forall a, owns (moved th p) a <-> owns th a) ->
  thread_ok s (moved th p) -> inv (with_threads s (set_pc t th p (threads s))).
Proof.
  intros Hs Ht Ho Hok.
  split; try (by apply Hs).
  - intros k a Hl. rewrite has_owner_moved by done. by apply (inv_lookup _ Hs).
  - intros t1 t2 th1 th2 a. simpl. unfold set_pc. rewrite !lookup_insert. intros H1 H2 O1 O2.
    fold (moved th p) in *.
    assert (forall t' th', (if decide (t = t') then Some (moved th p) else threads s !! t') = Some th' ->
      owns th' a -> exists th0, threads s !! t' = Some th0 /\ owns th0 a) as Hback.
    { intros t' th' H O. case_decide; simplify_eq; [|eauto]. exists th. split; [done|]. by apply Ho. }
    destruct (Hback _ _ H1 O1) as (?&?&?), (Hback _ _ H2 O2) as (?&?&?).
    by eapply (inv_owner _ Hs).
  - intros t' th'. simpl. unfold set_pc. rewrite lookup_insert. fold (moved th p).
    intros H. apply thread_ok_moved; [done|done|].
    case_decide; simplify_eq; [done|]. by apply (inv_thread _ Hs t').
Qed.

Definition with_cache (s : sys) (c : serviceRouteCache) : sys :=
  mkSys c (calls s) (next_call s) (threads s) (clock s) (g_all s) (g_key s) (g_loaded s).

Definition drop_entry (key : ServiceKey) (c : serviceRouteCache) : serviceRouteCache :=
  mkCache (ttl c) (enabled c) (delete key (entries c)) (lookups c) (epoch c) (revisions c).

Lemma inv_drop_entry s key : inv s -> inv (with_cache s (drop_entry key (cache s))).
Proof.
  intros Hs. split; try (by apply Hs).
  intros k. simpl. rewrite lookup_delete. case_decide; [by intros []|]. apply Hs.
Qed.

Lemma owns_none th a :
  (forall a, th_pc th <> Loading a) -> (forall a r, th_pc th <> Storing a r) -> ~ owns th a.
Proof. unfold owns. naive_solver. Qed.

Ltac no_owner := intros ?; split; intros Howns; exfalso; revert Howns; apply owns_none; simpl; congruence.

Lemma inv_spawn s t key : inv s -> threads s !! t = None -> inv (spawn t key s).
Proof.
  intros Hs Ht.
  assert (forall a, has_owner s a -> has_owner (spawn t key s) a) as Hown.
  { intros a (t' & th' & H' & O). exists t', th'. simpl. rewrite lookup_insert_ne by congruence. done. }
  split; try (by apply Hs).
  - intros k a Hl. destruct (inv_lookup _ Hs k a Hl). auto.
  - intros t1 t2 th1 th2 a. simpl. rewrite !lookup_insert. intros H1 H2 O1 O2.
    destruct (decide (t = t1)), (decide (t = t2)); simplify_eq; try done.
    + by destruct O1 as [|[]].
    + by destruct O2 as [|[]].
    + by eapply (inv_owner _ Hs).
  - intros t' th'. simpl. rewrite lookup_insert. intros H. case_decide; simplify_eq.
    + split; simpl; [apply le_stamp_refl|done].
    + destruct (inv_thread _ Hs _ _ H) as [Hle Hok]. split; [done|].
      destruct (th_pc th'); try done. destruct Hok as (cl & ? & ? & ? & []); eauto 10.
Qed.

Lemma inv_tick s d : inv s -> inv (tick d s).
Proof. intros Hs. split; apply Hs. Qed.

Lemma now_stamp_invalidate s key k :
  now_stamp (sys_invalidate key s) k =
  (g_all s, if decide (key = k) then S (now_stamp s k).2 else (now_stamp s k).2).
Proof. unfold now_stamp; simpl. rewrite lookup_insert. case_decide; subst; done. Qed.

Lemma le_stamp_invalidate s key k : le_stamp (now_stamp s k) (now_stamp (sys_invalidate key s) k).
Proof. rewrite now_stamp_invalidate. unfold le_stamp; simpl. case_decide; simpl; lia. Qed.

Lemma le_stamp_invalidateAll s k : le_stamp (now_stamp s k) (now_stamp (sys_invalidateAll s) k).
Proof. unfold le_stamp; simpl. lia. Qed.

(** Goroutines and calls after an invalidation: only the current stamps grow. *)
Lemma thread_ok_invalidated s s' th :
  calls s' = calls s -> threads s' = threads s -> lookups (cache s') = lookups (cache s) ->
  (forall k, le_stamp (now_stamp s k) (now_stamp s' k)) ->
  (forall a call, calls s !! a = Some call -> le_stamp (stamp call) (now_stamp s (call_key call))) ->
  thread_ok s th -> thread_ok s' th.
Proof.
  intros Hc Ht Hl Hle Hcl [H1 H2]. split; [by eapply le_stamp_trans|].
  assert (forall a, has_owner s a -> has_owner s' a) as Hown.
  { intros a. unfold has_owner. by rewrite Ht. }
  destruct (th_pc th); try done; rewrite Hc, ?Hl; destruct H2 as (cl & H2 & Hk & H3 & H4);
    exists cl; split_and!; try done.
  - destruct H4; auto.
  - apply H4.
  - destruct H4 as [_ H4]. intros E. apply H4. specialize (Hcl _ _ H2). specialize (Hle (th_key th)).
    rewrite Hk in Hcl. rewrite E in *. unfold le_stamp in *. apply injective_projections; lia.
  - apply H4.
  - destruct H4 as [_ H4]. intros E. apply H4. specialize (Hcl _ _ H2). specialize (Hle (th_key th)).
    rewrite Hk in Hcl. rewrite E in *. unfold le_stamp in *. apply injective_projections; lia.
Qed.

Lemma inv_invalidated s s' :
  inv s -> calls s' = calls s -> threads s' = threads s -> lookups (cache s') = lookups (cache s) ->
  next_call s' = next_call s -> (forall k, le_stamp (now_stamp s k) (now_stamp s' k)) ->
  epoch (cache s') = Z.of_nat (g_all s') ->
  (forall k, revision_of (cache s') k = Z.of_nat (default 0%nat (g_key s' !! k))) ->
  (forall k, is_Some (entries (cache s') !! k) -> loaded_stamp s' k = now_stamp s' k) ->
  inv s'.
Proof.
  intros Hs Hc Ht Hl Hn Hle He Hr Hen. split; try done.
  - intros a call. rewrite Hc, Hn. intros H. destruct (inv_call _ Hs a call H) as (? & ? & ? & ?).
    split_and!; try done. by eapply le_stamp_trans.
  - intros k a. unfold has_owner. rewrite Hc, Hl, Ht. apply Hs.
  - intros t1 t2 th1 th2 a. rewrite Ht. apply Hs.
  - intros t th. rewrite Ht. intros H. eapply (thread_ok_invalidated s); try done.
    + intros a call Ha. by apply (inv_call _ Hs) in Ha as (? & ? & _).
    + by apply (inv_thread _ Hs t).
Qed.

Lemma inv_invalidate s key :
  inv s -> bounded (sys_invalidate key s) -> inv (sys_invalidate key s).
Proof.
  intros Hs [_ Hb]. apply (inv_invalidated s); try done; [apply le_stamp_invalidate|apply Hs| |].
  - intros k. specialize (Hb k). unfold revision_of. simpl in *. rewrite lookup_insert.
    destruct (decide (key = k)) as [->|Hne]; simpl in *;
      [|rewrite lookup_insert_ne by done; apply Hs].
    rewrite lookup_insert_eq in *; simpl in *. rewrite (inv_revision _ Hs), uint64_small; lia.
  - intros k. simpl. rewrite lookup_delete. case_decide; [by intros []|].
    intros Hk. unfold loaded_stamp; simpl. fold (loaded_stamp s k). rewrite (inv_entry _ Hs) by done.
    rewrite now_stamp_invalidate. by case_decide.
Qed.

Lemma inv_invalidateAll s :
  inv s -> bounded (sys_invalidateAll s) -> inv (sys_invalidateAll s).
Proof.
  intros Hs [Hb _]. apply (inv_invalidated s); try done; [apply le_stamp_invalidateAll| |apply Hs|].
  - simpl in *. rewrite (inv_epoch _ Hs), uint64_small; lia.
  - intros k. simpl. by intros [].
Qed.

Lemma owns_inj th a b : owns th a -> owns th b -> a = b.
Proof. intros [|[]] [|[]]; congruence. Qed.

Lemma thread_ok_owns s th a :
  thread_ok s th -> owns th a ->
  exists call, calls s !! a = Some call /\ call_key call = th_key th /\
    le_stamp (th_start th) (stamp call) /\ done call = false /\
    (stamp call = now_stamp s (th_key th) -> lookups (cache s) !! th_key th = Some a).
Proof. intros [_ H] [E|[r E]]; by rewrite E in H. Qed.

(** A goroutine becomes the loader of a new call. *)
Definition begun (t : nat) (th : thread) (s : sys) : sys :=
  let key := th_key th in
  let c := cache s in
  mkSys (mkCache (ttl c) (enabled c) (entries c) (<[key := next_call s]> (lookups c)) (epoch c)
           (revisions c))
    (<[next_call s := mkCall key false (Ok (mkServiceLocation "" 0 0 "")) (epoch c)
         (revision_of c key) false (now_stamp s key)]> (calls s))
    (S (next_call s)) (set_pc t th (Loading (next_call s)) (threads s)) (clock s) (g_all s)
    (g_key s) (g_loaded s).

(** No call in flight for the key has the current epoch and revision. *)
Definition no_join (s : sys) (key : ServiceKey) : Prop :=
  forall a call, lookups (cache s) !! key = Some a -> calls s !! a = Some call ->
    (call_epoch call =? epoch (cache s)) && (call_revision call =? revision_of (cache s) key) = false.

Lemma has_owner_begun s t th a :
  threads s !! t = Some th -> th_pc th = AtLock -> has_owner s a -> has_owner (begun t th s) a.
Proof.
  intros Ht Hpc (t' & th' & Ht' & Ho). exists t', th'. simpl. unfold set_pc.
  rewrite lookup_insert_ne; [done|]. intros <-. simplify_eq. destruct Ho as [|[]]; congruence.
Qed.

Lemma calls_fresh s a call : inv s -> calls s !! a = Some call -> a <> next_call s.
Proof. intros Hs H. apply (inv_call _ Hs) in H as [? _]. lia. Qed.

Lemma stamp_current s a call key :
  inv s -> calls s !! a = Some call -> call_key call = key ->
  stamp call = now_stamp s key <->
  call_epoch call = epoch (cache s) /\ call_revision call = revision_of (cache s) key.
Proof.
  intros Hs H <-. destruct (inv_call _ Hs _ _ H) as (_ & _ & -> & ->).
  rewrite (inv_epoch _ Hs), (inv_revision _ Hs). unfold now_stamp.
  destruct (stamp call) as [x y]; simpl. split; [intros [= -> ->]; done|].
  intros [->%Nat2Z.inj ->%Nat2Z.inj]. done.
Qed.

Lemma inv_begun_thread s t th t' th' :
  inv s -> threads s !! t = Some th -> th_pc th = AtLock -> no_join s (th_key th) ->
  t' <> t -> threads s !! t' = Some th' -> thread_ok (begun t th s) th'.
Proof.
  intros Hs Ht Hpc Hnj Hne Ht'. destruct (inv_thread _ Hs _ _ Ht') as [Hle Hok].
  split; [done|].
  destruct (th_pc th'); try done; destruct Hok as (cl & Hcl & Hk & Hle2 & Hok); exists cl;
    pose proof (calls_fresh _ _ _ Hs Hcl); simpl; rewrite lookup_insert_ne by done;
    split_and!; try done; try apply Hok.
  - destruct Hok; [by left|]. right. by apply has_owner_begun.
  - destruct Hok as [_ Hok]. intros E. rewrite lookup_insert_ne; [by apply Hok|]. intros Hkey.
    specialize (Hok E). rewrite <- Hkey in Hok. specialize (Hnj _ _ Hok Hcl).
    apply (stamp_current s _ _ (th_key th') Hs Hcl Hk) in E as [E1 E2].
    rewrite Hkey, E1, E2, !Z.eqb_refl in Hnj. done.
  - destruct Hok as [_ Hok]. intros E. rewrite lookup_insert_ne; [by apply Hok|]. intros Hkey.
    specialize (Hok E). rewrite <- Hkey in Hok. specialize (Hnj _ _ Hok Hcl).
    apply (stamp_current s _ _ (th_key th') Hs Hcl Hk) in E as [E1 E2].
    rewrite Hkey, E1, E2, !Z.eqb_refl in Hnj. done.
Qed.

Lemma no_owner_fresh s t th : inv s -> threads s !! t = Some th -> ~ owns th (next_call s).
Proof.
  intros Hs Ht Ho. destruct (thread_ok_owns _ _ _ (inv_thread _ Hs _ _ Ht) Ho) as (cl & H & _).
  by apply (calls_fresh _ _ _ Hs) in H.
Qed.

Lemma owns_begun s t th t' th' a :
  set_pc t th (Loading (next_call s)) (threads s) !! t' = Some th' -> owns th' a ->
  (t' = t /\ a = next_call s) \/ (t' <> t /\ threads s !! t' = Some th').
Proof.
  unfold set_pc. rewrite lookup_insert. intros H Ho. case_decide; simplify_eq; [|by right].
  left. split; [done|]. destruct Ho as [[=]|[? [=]]]; done.
Qed.

Lemma inv_begun s t th :
  inv s -> threads s !! t = Some th -> th_pc th = AtLock -> no_join s (th_key th) ->
  inv (begun t th s).
Proof.
  intros Hs Ht Hpc Hnj. split; try (by apply Hs).
  - intros a call. simpl. rewrite lookup_insert. case_decide as Ha; intros H; simplify_eq.
    + split_and!; simpl; [lia|apply le_stamp_refl|apply Hs|apply Hs].
    + destruct (inv_call _ Hs _ _ H) as (? & ? & ?). split; [simpl; lia|done].
  - intros k a. simpl. rewrite lookup_insert. intros H. case_decide; simplify_eq.
    + split.
      * exists t, (moved th (Loading (next_call s))). simpl. unfold set_pc.
        rewrite lookup_insert_eq. split; [done|by left].
      * eexists. rewrite lookup_insert_eq. done.
    + destruct (inv_lookup _ Hs _ _ H) as (? & cl & Hcl & ?). split; [by apply has_owner_begun|].
      exists cl. rewrite lookup_insert_ne; [done|]. by apply not_eq_sym, (calls_fresh _ _ cl Hs).
  - intros t1 t2 th1 th2 a. simpl. intros H1 H2 O1 O2.
    destruct (owns_begun _ _ _ _ _ _ H1 O1) as [[-> ->]|[? H1']],
      (owns_begun _ _ _ _ _ _ H2 O2) as [[-> E]|[? H2']]; try done.
    + by apply (no_owner_fresh _ _ _ Hs) in H2'.
    + subst. by apply (no_owner_fresh _ _ _ Hs) in H1'.
    + by eapply (inv_owner _ Hs).
  - intros t' th'. simpl. unfold set_pc. rewrite lookup_insert. intros H. case_decide; simplify_eq.
    + split; [apply (inv_thread _ Hs _ _ Ht)|]. simpl. eexists. rewrite lookup_insert_eq.
      split_and!; try done; [apply (inv_thread _ Hs _ _ Ht)|]. by rewrite lookup_insert_eq.
    + by eapply inv_begun_thread.
Qed.

(** A loader completes its call: the state [thread_step] reaches. *)
Definition finished (t : nat) (th : thread) (a : nat) (call : routeLookupCall)
    (result : res ServiceLocation) (s : sys) : sys :=
  let '(c, call') := lock_finish (th_key th) (clock s) a call result (cache s) in
  let p := if stale call' then AtHead else Returned result (stamp call) in
  mkSys c (<[a := call']> (calls s)) (next_call s) (set_pc t th p (threads s)) (clock s) (g_all s)
    (g_key s)
    (match result with
     | Ok _ => if negb (stale call') && enabled c
               then <[th_key th := stamp call]> (g_loaded s) else g_loaded s
     | Err _ => g_loaded s
     end).

Definition is_stale (s : sys) (key : ServiceKey) (call : routeLookupCall) : bool :=
  negb (epoch (cache s) =? call_epoch call)
  || negb (revision_of (cache s) key =? call_revision call).

Lemma not_stale_current s a call key :
  inv s -> calls s !! a = Some call -> call_key call = key ->
  is_stale s key call = false -> stamp call = now_stamp s key.
Proof.
  intros Hs Hcl Hk H. unfold is_stale in H. bool_prop. by apply (stamp_current s a call key).
Qed.

Section Finish.
Context (s : sys) (t a : nat) (th : thread) (call : routeLookupCall) (result : res ServiceLocation).
Hypothesis Hs : inv s.
Hypothesis Ht : threads s !! t = Some th.
Hypothesis Hpc : th_pc th = Storing a result.
Hypothesis Hcall : calls s !! a = Some call.
Let key := th_key th.
Let s' := finished t th a call result s.

Lemma finish_call_key : call_key call = key /\ le_stamp (th_start th) (stamp call).
Proof.
  destruct (inv_thread _ Hs _ _ Ht) as [_ H]. rewrite Hpc in H.
  destruct H as (cl & H & ? & ? & _). simplify_eq. done.
Qed.

Lemma finish_threads t' :
  threads s' !! t' =
  if decide (t = t')
  then Some (moved th (if is_stale s key call then AtHead else Returned result (stamp call)))
  else threads s !! t'.
Proof. unfold s', finished, is_stale. simpl. unfold set_pc. rewrite lookup_insert. done. Qed.

Lemma finish_calls a' :
  calls s' !! a' =
  if decide (a = a')
  then Some (mkCall (call_key call) true result (call_epoch call) (call_revision call)
               (is_stale s key call) (stamp call))
  else calls s !! a'.
Proof. unfold s', finished. simpl. rewrite lookup_insert. done. Qed.

Lemma finish_lookups k a' :
  lookups (cache s') !! k = Some a' <-> lookups (cache s) !! k = Some a' /\ a' <> a.
Proof.
  unfold s', finished; simpl. fold key. split.
  - intros H. case_bool_decide as Hb.
    + apply lookup_delete_Some in H as [Hne H]. split; [done|]. intros ->.
      destruct (inv_lookup _ Hs _ _ H) as (_ & cl & Hcl & Hk). simplify_eq.
      by destruct finish_call_key.
    + split; [done|]. intros ->. destruct (inv_lookup _ Hs _ _ H) as (_ & cl & Hcl & Hk).
      simplify_eq. destruct finish_call_key as [E _]. by rewrite E in H.
  - intros [H Hne]. case_bool_decide as Hb; [|done].
    apply lookup_delete_Some. split; [|done]. intros <-. congruence.
Qed.

Lemma finish_no_owner a' t' th' :
  threads s' !! t' = Some th' -> owns th' a' -> t' <> t /\ threads s !! t' = Some th' /\ a' <> a.
Proof.
  rewrite finish_threads. intros H Ho. case_decide as E; simplify_eq.
  - destruct Ho as [Ho|[? Ho]]; simpl in Ho; case_match; done.
  - split_and!; try done. intros ->. apply E. symmetry.
    eapply (inv_owner _ Hs); try done. right. eauto.
Qed.

Lemma finish_has_owner a' : has_owner s a' -> a' <> a -> has_owner s' a'.
Proof.
  intros (t' & th' & Ht' & Ho) Hne. exists t', th'. rewrite finish_threads.
  case_decide; [|done]. subst. simplify_eq. destruct Hne. eapply owns_inj; [done|]. right. eauto.
Qed.

Lemma finish_entry k :
  is_Some (entries (cache s') !! k) -> loaded_stamp s' k = now_stamp s' k.
Proof.
  destruct finish_call_key as [Hck _].
  change (now_stamp s' k) with (now_stamp s k). unfold s', finished, loaded_stamp; simpl.
  fold key. fold (is_stale s key call). destruct result as [l|e]; [|apply Hs].
  destruct (negb (is_stale s key call) && enabled (cache s)) eqn:E; [|apply Hs].
  rewrite !lookup_insert. bool_prop. case_decide; [|apply Hs]. subst. intros _. simpl.
  by eapply not_stale_current.
Qed.

Lemma finish_thread t' th' : threads s' !! t' = Some th' -> thread_ok s' th'.
Proof.
  rewrite finish_threads. intros H. destruct (decide (t = t')) as [_|Et]; [injection H as <-|].
  - split; [apply (inv_thread _ Hs _ _ Ht)|]. simpl.
    destruct (is_stale s key call); [done|apply finish_call_key].
  - destruct (inv_thread _ Hs _ _ H) as [Hle Hok]. split; [done|].
    assert (forall b, owns th' b -> b <> a) as Hnb.
    { intros b Hb ->. apply Et. symmetry. eapply (inv_owner _ Hs); try done. right. eauto. }
    destruct (th_pc th') as [| | |b|b|b r|] eqn:Hp; try done;
      destruct Hok as (cl & Hcl & Hk & Hle2 & Hok).
    + rewrite finish_calls. destruct (decide (a = b)) as [<-|E].
      { rewrite Hcall in Hcl. injection Hcl as <-. eexists. split; [done|]. by auto. }
      exists cl. split_and!; try done. destruct Hok; [by left|right]. by apply finish_has_owner.
    + assert (b <> a) by (apply Hnb; by left). exists cl. rewrite finish_calls.
      rewrite decide_False by done. split_and!; try done; [apply Hok|].
      intros E. apply finish_lookups. split; [by apply Hok|done].
    + assert (b <> a) by (apply Hnb; right; eauto). exists cl. rewrite finish_calls.
      rewrite decide_False by done. split_and!; try done; [apply Hok|].
      intros E. apply finish_lookups. split; [by apply Hok|done].
Qed.

Lemma inv_finished : inv s'.
Proof.
  split.
  - apply Hs.
  - apply Hs.
  - apply finish_entry.
  - intros a' call'. rewrite finish_calls. intros H. case_decide; simplify_eq; [|by apply Hs].
    simpl. by apply Hs.
  - intros k a' [H Hne]%finish_lookups. destruct (inv_lookup _ Hs _ _ H) as (? & ?).
    split; [by apply finish_has_owner|]. rewrite finish_calls. by rewrite decide_False.
  - intros t1 t2 th1 th2 a' H1 H2 O1 O2.
    apply (finish_no_owner a') in H1 as (_ & ? & _); [|done].
    apply (finish_no_owner a') in H2 as (_ & ? & _); [|done]. by eapply (inv_owner _ Hs).
  - apply finish_thread.
Qed.

End Finish.

(** [lock_miss] by cases, in terms of the states above. *)
Lemma lock_miss_cases key now calls fresh c :
  (exists l, read_hit key now c = Some l /\ lock_miss key now calls fresh c = (c, Hit l)) \/
  (exists a call, read_hit key now c = None /\ lookups c !! key = Some a /\
     calls !! a = Some call /\ call_epoch call = epoch c /\ call_revision call = revision_of c key /\
     lock_miss key now calls fresh c = (drop_entry key c, Join a)) \/
  (read_hit key now c = None /\
   (forall a call, lookups c !! key = Some a -> calls !! a = Some call ->
     (call_epoch call =? epoch c) && (call_revision call =? revision_of c key) = false) /\
   lock_miss key now calls fresh c =
     (mkCache (ttl c) (enabled c) (delete key (entries c)) (<[key := fresh]> (lookups c)) (epoch c)
        (revisions c), Begin fresh (epoch c) (revision_of c key))).
Proof.
  unfold lock_miss. destruct (read_hit key now c) as [l|]; [by eauto|right]. simpl.
  change (revision_of (drop_entry key c) key) with (revision_of c key).
  destruct (lookups c !! key) as [a|] eqn:Ea; [|right; by split_and!].
  destruct (calls !! a) as [call|] eqn:Ec; [|right; split_and!; naive_solver].
  unfold revision_of; simpl. fold (revision_of c key).
  destruct ((call_epoch call =? epoch c) && (call_revision call =? revision_of c key)) eqn:E.
  - left. bool_prop. exists a, call. by split_and!.
  - right. split_and!; naive_solver.
Qed.

Lemma read_hit_entry key now c l : read_hit key now c = Some l -> is_Some (entries c !! key).
Proof. unfold read_hit. by destruct (entries c !! key). Qed.

Lemma inv_hit s t th l :
  inv s -> threads s !! t = Some th -> is_Some (entries (cache s) !! th_key th) ->
  (forall a, ~ owns th a) ->
  inv (with_threads s (set_pc t th (Returned (Ok l) (loaded_stamp s (th_key th))) (threads s))).
Proof.
  intros Hs Ht He Hno. apply inv_goto; [done|done| |].
  - intros a. split; intros Ho; [by destruct Ho as [|[]]|by apply Hno in Ho].
  - split; simpl; [apply (inv_thread _ Hs _ _ Ht)|]. rewrite (inv_entry _ Hs) by done.
    apply (inv_thread _ Hs _ _ Ht).
Qed.

Lemma inv_lock s t th s' reply :
  inv s -> threads s !! t = Some th -> th_pc th = AtLock ->
  thread_step t reply s = Some s' -> inv s'.
Proof.
  intros Hs Ht Hpc. unfold thread_step. rewrite Ht, Hpc. cbv zeta.
  destruct (lock_miss_cases (th_key th) (clock s) (calls s) (next_call s) (cache s))
    as [(l & Hh & ->)|[(a & cl & Hh & Hl & Hcl & He & Hr & ->)|(Hh & Hnj & ->)]]; intros [= <-].
  - apply (inv_hit s t th l); try done; [by eapply read_hit_entry|].
    intros a. apply owns_none; congruence.
  - pose proof (inv_drop_entry s (th_key th) Hs) as Hd.
    apply (inv_goto _ _ _ (Waiting a) Hd Ht); [no_owner|].
    destruct (inv_lookup _ Hs _ _ Hl) as (Hown & cl' & Hcl' & Hk). simplify_eq.
    split; simpl; [apply (inv_thread _ Hs _ _ Ht)|]. exists cl. split_and!; try done; [|by right].
    rewrite (proj2 (stamp_current s a cl (th_key th) Hs Hcl Hk)) by done.
    apply (inv_thread _ Hs _ _ Ht).
  - apply (inv_begun _ _ _ (inv_drop_entry s (th_key th) Hs) Ht Hpc). done.
Qed.

Lemma inv_thread_step s t s' reply : inv s -> thread_step t reply s = Some s' -> inv s'.
Proof.
  intros Hs Hstep. pose proof Hstep as Hcase. unfold thread_step in Hcase.
  destruct (threads s !! t) as [th|] eqn:Ht; [|done]. cbv zeta in Hcase.
  destruct (inv_thread _ Hs _ _ Ht) as [Hle Hok].
  destruct (th_pc th) as [|now| |a|a|a r|] eqn:Hpc; try done.
  - injection Hcase as <-. apply inv_goto; [done|done|no_owner|done].
  - destruct (read_hit _ _ _) eqn:Hh; injection Hcase as <-.
    + apply inv_hit; try done; [by eapply read_hit_entry|]. intros a. apply owns_none; congruence.
    + apply inv_goto; [done|done|no_owner|done].
  - by eapply inv_lock.
  - destruct Hok as (cl & Hcl & Hk & Hle2 & Hok). rewrite Hcl in Hcase.
    destruct (done cl); [|done]. destruct (stale cl); injection Hcase as <-;
      (apply inv_goto; [done|done|no_owner|done]).
  - injection Hcase as <-. apply inv_goto; [done|done| |done].
    intros b. unfold owns; simpl. rewrite Hpc. naive_solver.
  - destruct (calls s !! a) as [cl|] eqn:Hcl; [|done]. injection Hcase as <-.
    by apply (inv_finished s t a th cl r).
Qed.

Lemma inv_step s s' : step s s' -> bounded s' -> inv s -> inv s'.
Proof.
  destruct 1; intros Hb Hs; eauto using inv_spawn, inv_thread_step, inv_invalidate,
    inv_invalidateAll, inv_tick.
Qed.

Lemma bounded_steps s s' : steps step s s' -> bounded s' -> bounded s.
Proof. induction 1; eauto using bounded_back. Qed.

Lemma inv_steps s s' : steps step s s' -> bounded s' -> inv s -> inv s'.
Proof. induction 1; intros; eauto using inv_step, bounded_steps. Qed.

Lemma inv_reachable ttl enabled s : reachable ttl enabled s -> bounded s -> inv s.
Proof. intros. eapply inv_steps; eauto using inv_init. Qed.

(** ** Completion *)

Definition returned (s : sys) (t : nat) : Prop :=
  exists th r p, threads s !! t = Some th /\ th_pc th = Returned r p.

Lemma run_storing s t th a r :
  inv s -> threads s !! t = Some th -> th_pc th = Storing a r ->
  exists s' call call', step s s' /\ inv s' /\ calls s !! a = Some call /\
    call_key call = th_key th /\ calls s' !! a = Some call' /\ done call' = true /\
    stale call' = is_stale s (th_key th) call /\
    (forall t', t' <> t -> threads s' !! t' = threads s !! t') /\
    threads s' !! t = Some (moved th (if stale call' then AtHead else Returned r (stamp call))).
Proof.
  intros Hs Ht Hpc.
  destruct (thread_ok_owns s th a (inv_thread _ Hs _ _ Ht)) as (cl & Hcl & Hk & _); [right; eauto|].
  exists (finished t th a cl r s). do 2 eexists. split_and!.
  - apply (step_thread t r). unfold thread_step. by rewrite Ht, Hpc, Hcl.
  - by apply inv_finished.
  - done.
  - done.
  - rewrite finish_calls. by rewrite decide_True.
  - done.
  - done.
  - intros t' Hne. rewrite finish_threads. by rewrite decide_False.
  - rewrite finish_threads. by rewrite decide_True.
Qed.

(** The owner of a call completes it in at most two steps. *)
Lemma run_owner s t th a :
  inv s -> threads s !! t = Some th -> owns th a ->
  exists s' r call call', steps step s s' /\ inv s' /\ calls s !! a = Some call /\
    call_key call = th_key th /\ calls s' !! a = Some call' /\ done call' = true /\
    stale call' = is_stale s (th_key th) call /\
    (forall t', t' <> t -> threads s' !! t' = threads s !! t') /\
    threads s' !! t = Some (moved th (if stale call' then AtHead else Returned r (stamp call))).
Proof.
  intros Hs Ht [Hpc|[r Hpc]].
  - set (r := Err (EText "") : res ServiceLocation).
    assert (thread_step t r s = Some (with_threads s (set_pc t th (Storing a r) (threads s)))) as Hst
      by (unfold thread_step; by rewrite Ht, Hpc).
    destruct (run_storing (with_threads s (set_pc t th (Storing a r) (threads s))) t
      (moved th (Storing a r)) a r) as (s' & c & c' & H1 & H2 & H3 & H4 & H5 & H6 & H7 & H8 & H9).
    + by eapply inv_thread_step.
    + apply lookup_insert_eq.
    + done.
    + exists s', r, c, c'. split_and!; try done.
      * eapply steps_trans; [by eapply step_thread|]. eapply steps_trans; [done|]. constructor.
      * intros t' Hne. rewrite H8 by done. by apply lookup_insert_ne.
  - destruct (run_storing s t th a r) as (s' & c & c' & H1 & H2); try done.
    exists s', r, c, c'. split; [|done]. eapply steps_trans; [done|]. constructor.
Qed.

Lemma current_not_stale s key call :
  call_epoch call = epoch (cache s) -> call_revision call = revision_of (cache s) key ->
  is_stale s key call = false.
Proof. unfold is_stale. intros -> ->. by rewrite !Z.eqb_refl. Qed.

(** A goroutine that waits for a call which is not stale returns. *)
Lemma run_waiting s t th a call :
  inv s -> threads s !! t = Some th -> th_pc th = Waiting a -> calls s !! a = Some call ->
  exists s', steps step s s' /\ inv s' /\
    ((exists r p, threads s' !! t = Some (moved th (Returned r p))) \/
     threads s' !! t = Some (moved th AtHead) /\
       (done call = true \/ is_stale s (th_key th) call = true)).
Proof.
  intros Hs Ht Hpc Hcl. destruct (inv_thread _ Hs _ _ Ht) as [_ Hok]. rewrite Hpc in Hok.
  destruct Hok as (cl & Hcl' & Hk & _ & Hdone). simplify_eq.
  assert (forall s' cl', inv s' -> threads s' !! t = Some th -> calls s' !! a = Some cl' ->
    done cl' = true -> exists s'', step s' s'' /\ inv s'' /\ threads s'' !! t =
      Some (moved th (if stale cl' then AtHead else Returned (answer cl') (stamp cl')))) as Hwake.
  { intros s' cl' Hs' Ht' Hcl2 Hd.
    set (s'' := with_threads s' (set_pc t th
      (if stale cl' then AtHead else Returned (answer cl') (stamp cl')) (threads s'))).
    assert (thread_step t (Err (EText "")) s' = Some s'') as Hst.
    { unfold thread_step. rewrite Ht', Hpc, Hcl2, Hd. unfold s''. by destruct (stale cl'). }
    exists s''. split_and!; [by eapply step_thread|by eapply inv_thread_step|apply lookup_insert_eq]. }
  destruct (done call) eqn:Ed.
  - destruct (Hwake s call) as (s'' & H1 & H2 & H3); try done. exists s''. split_and!; [|done|].
    { eapply steps_trans; [done|constructor]. }
    destruct (stale call); eauto.
  - destruct Hdone as [|(to & tho & Hto & Hown)]; [done|].
    destruct (run_owner s to tho a Hs Hto Hown)
      as (s' & r & c & c' & H1 & H2 & H3 & H4 & H5 & H6 & H7 & H8 & H9). simplify_eq.
    assert (to <> t) by (intros ->; simplify_eq; destruct Hown as [|[]]; congruence).
    destruct (Hwake s' c') as (s'' & H1' & H2' & H3'); try done; [by rewrite H8 by congruence|].
    exists s''. split_and!; [|done|].
    { eapply steps_app; [done|]. eapply steps_trans; [done|constructor]. }
    destruct (stale c') eqn:Es; [|eauto]. right. split; [done|]. right. congruence.
Qed.

Lemma run_lock s t th :
  inv s -> threads s !! t = Some th -> th_pc th = AtLock ->
  exists s', steps step s s' /\ returned s' t.
Proof.
  intros Hs Ht Hpc. set (r := Err (EText "") : res ServiceLocation).
  destruct (thread_step t r s) as [s1|] eqn:Hst.
  2:{ unfold thread_step in Hst. rewrite Ht, Hpc in Hst. destruct (lock_miss _ _ _ _ _) as [? []]; done. }
  pose proof (inv_thread_step _ _ _ _ Hs Hst) as Hs1. pose proof (step_thread _ _ _ _ Hst) as Hstep.
  unfold thread_step in Hst. rewrite Ht, Hpc in Hst. cbv zeta in Hst.
  destruct (lock_miss_cases (th_key th) (clock s) (calls s) (next_call s) (cache s))
    as [(l & Hh & E)|[(a & cl & Hh & Hl & Hcl & He & Hr & E)|(Hh & Hnj & E)]]; rewrite E in Hst;
    injection Hst as Hst.
  - exists s1. split; [eapply steps_trans; [done|constructor]|]. subst s1.
    do 3 eexists. split; [apply lookup_insert_eq|done].
  - destruct (inv_lookup _ Hs _ _ Hl) as (Hown & _).
    assert (threads s1 !! t = Some (moved th (Waiting a))) as Ht1
      by (subst s1; apply lookup_insert_eq).
    assert (done cl = false) as Hd.
    { destruct Hown as (to & tho & Hto & Hown).
      destruct (thread_ok_owns _ _ _ (inv_thread _ Hs _ _ Hto) Hown) as (? & ? & _ & _ & ? & _).
      congruence. }
    destruct (run_waiting s1 t _ a cl Hs1 Ht1 eq_refl) as (s2 & H1 & H2 & H3); [by subst s1|].
    exists s2. split; [by eapply steps_trans|]. destruct H3 as [(? & ? & H3)|[_ [H3|H3]]].
    + do 3 eexists. by split.
    + congruence.
    + rewrite current_not_stale in H3; subst s1; done.
  - assert (threads s1 !! t = Some (moved th (Loading (next_call s)))) as Ht1
      by (subst s1; apply lookup_insert_eq).
    destruct (run_owner s1 t _ (next_call s) Hs1 Ht1) as
      (s2 & r2 & c & c' & H1 & H2 & H3 & H4 & H5 & H6 & H7 & H8 & H9); [by left|].
    exists s2. split; [by eapply steps_trans|].
    assert (is_stale s1 (th_key th) c = false) as Hns.
    { subst s1. simpl in H3. rewrite lookup_insert_eq in H3. injection H3 as <-.
      by apply current_not_stale. }
    simpl in H7. rewrite Hns in H7. rewrite H7 in H9. do 3 eexists. by split.
Qed.

Lemma returned_pc s t th r p : threads s !! t = Some (moved th (Returned r p)) -> returned s t.
Proof. intros H. by exists (moved th (Returned r p)), r, p. Qed.

Lemma run_read s t th now :
  inv s -> threads s !! t = Some th -> th_pc th = AtRead now ->
  exists s', steps step s s' /\ returned s' t.
Proof.
  intros Hs Ht Hpc. set (r := Err (EText "") : res ServiceLocation).
  destruct (read_hit (th_key th) now (cache s)) as [l|] eqn:Hh.
  - exists (with_threads s (set_pc t th (Returned (Ok l) (loaded_stamp s (th_key th))) (threads s))).
    split; [|eapply (returned_pc _ _ th), lookup_insert_eq].
    eapply steps_trans; [|constructor]. apply (step_thread t r). unfold thread_step.
    by rewrite Ht, Hpc, Hh.
  - set (s1 := with_threads s (set_pc t th AtLock (threads s))).
    assert (thread_step t r s = Some s1) as H1 by (unfold thread_step; by rewrite Ht, Hpc, Hh).
    destruct (run_lock s1 t (moved th AtLock)) as (s2 & H2 & Hr); try done.
    + by eapply inv_thread_step.
    + apply lookup_insert_eq.
    + exists s2. split; [|done]. eapply steps_trans; [by eapply step_thread|done].
Qed.

Lemma run_head s t th :
  inv s -> threads s !! t = Some th -> th_pc th = AtHead ->
  exists s', steps step s s' /\ returned s' t.
Proof.
  intros Hs Ht Hpc. set (s1 := with_threads s (set_pc t th (AtRead (clock s)) (threads s))).
  assert (thread_step t (Err (EText "")) s = Some s1) as H1
    by (unfold thread_step; by rewrite Ht, Hpc).
  destruct (run_read s1 t (moved th (AtRead (clock s))) (clock s)) as (s2 & H2 & Hr); try done.
  - by eapply inv_thread_step.
  - apply lookup_insert_eq.
  - exists s2. split; [|done]. eapply steps_trans; [by eapply step_thread|done].
Qed.

(** From the loop head or from a result, whichever a goroutine reaches. *)
Lemma run_then s s1 t th :
  steps step s s1 -> inv s1 ->
  threads s1 !! t = Some (moved th AtHead) \/
    (exists r p, threads s1 !! t = Some (moved th (Returned r p))) ->
  exists s', steps step s s' /\ returned s' t.
Proof.
  intros H Hs1 [Ht|(r & p & Ht)]; [|exists s1; split; [done|by eapply returned_pc]].
  destruct (run_head s1 t _ Hs1 Ht eq_refl) as (s2 & ? & ?). exists s2. eauto using steps_app.
Qed.

Lemma run_owned s t th a :
  inv s -> threads s !! t = Some th -> owns th a -> exists s', steps step s s' /\ returned s' t.
Proof.
  intros Hs Ht Ho.
  destruct (run_owner s t th a Hs Ht Ho) as (s1 & r & c & c' & H1 & H2 & _ & _ & _ & _ & _ & _ & H9).
  apply (run_then s s1 t th); try done. destruct (stale c'); eauto.
Qed.

Lemma run_any s t th :
  inv s -> threads s !! t = Some th -> exists s', steps step s s' /\ returned s' t.
Proof.
  intros Hs Ht. destruct (th_pc th) as [|now| |a|a|a r|r p] eqn:Hpc.
  - by eapply run_head.
  - by eapply run_read.
  - by eapply run_lock.
  - destruct (inv_thread _ Hs _ _ Ht) as [_ Hok]. rewrite Hpc in Hok.
    destruct Hok as (cl & Hcl & _). destruct (run_waiting s t th a cl) as (s1 & H1 & H2 & H3); try done.
    apply (run_then s s1 t th); naive_solver.
  - eapply run_owned; eauto. by left.
  - eapply run_owned; eauto. right; eauto.
  - exists s. split; [constructor|]. by exists th, r, p.
Qed.

(** ** Executable schedules *)

Inductive action :=
| ASpawn (t : nat) (key : ServiceKey)
| AThread (t : nat) (reply : res ServiceLocation)
| AInvalidate (key : ServiceKey)
| AInvalidateAll
| ATick (d : Z).

Definition exec (a : action) (s : sys) : option sys :=
  match a with
  | ASpawn t key => match threads s !! t with None => Some (spawn t key s) | Some _ => None end
  | AThread t reply => thread_step t reply s
  | AInvalidate key => Some (sys_invalidate key s)
  | AInvalidateAll => Some (sys_invalidateAll s)
  | ATick d => if 0 <=? d then Some (tick d s) else None
  end.

Fixpoint exec_all (l : list action) (s : sys) : option sys :=
  match l with
  | [] => Some s
  | a :: l' => match exec a s with Some s' => exec_all l' s' | None => None end
  end.

Lemma exec_step a s s' : exec a s = Some s' -> step s s'.
Proof.
  destruct a as [t key|t reply|key| |d]; simpl; intros H.
  - destruct (threads s !! t) eqn:E; [done|]. injection H as <-. by constructor.
  - by eapply step_thread.
  - injection H as <-. constructor.
  - injection H as <-. constructor.
  - destruct (0 <=? d) eqn:E; [|done]. injection H as <-. bool_prop. by constructor.
Qed.

Lemma exec_all_steps l s s' : exec_all l s = Some s' -> steps step s s'.
Proof.
  revert s. induction l as [|a l IH]; simpl; intros s H; [injection H as <-; constructor|].
  destruct (exec a s) eqn:E; [|done]. eapply steps_trans; eauto using exec_step.
Qed.

Definition bounded_check (s : sys) : bool :=
  (Z.of_nat (g_all s) <? 2 ^ 64) &&
  forallb (fun '(_, n) => Z.of_nat n <? 2 ^ 64) (map_to_list (g_key s)).

Lemma bounded_check_ok s : bounded_check s = true -> bounded s.
Proof.
  unfold bounded_check. intros H. bool_prop. split; [done|]. intros k.
  destruct (g_key s !! k) as [n|] eqn:E; simpl; [|lia].
  rewrite forallb_forall in *. match goal with H : forall x, In x _ -> _ |- _ => specialize (H (k, n)) end.
  apply Z.ltb_lt, H0. by apply list_elem_of_In, elem_of_map_to_list.
Qed.

(** ** Properties *)

(** C6 (safety). A lookup never returns a route whose query to the main node
    began before an invalidation that preceded the lookup: counting
    invalidations of everything and of the key, the query behind the result
    saw at least all those that had happened when [lookup] was called.  The
    result may come from the cache, from the goroutine's own query or from a
    query it joined. *)
Theorem lookup_result_is_fresh (ttl : Z) (enabled : bool) (s : sys) (t : nat) (th : thread)
    (r : res ServiceLocation) (produced : nat * nat) :
  reachable ttl enabled s -> bounded s -> threads s !! t = Some th ->
  th_pc th = Returned r produced -> le_stamp (th_start th) produced.
Proof.
  intros Hr Hb Ht Hpc. destruct (inv_thread _ (inv_reachable _ _ _ Hr Hb) _ _ Ht) as [_ H].
  by rewrite Hpc in H.
Qed.

(** No route outlives its invalidation: at every moment a
    cached entry was loaded by a query that began after the last
    [invalidate] of its key and the last [invalidateAll], although the answer
    may arrive arbitrarily late and invalidations run in between. *)
Theorem cached_routes_are_current (ttl : Z) (enabled : bool) (s : sys) (key : ServiceKey)
    (e : routeCacheEntry) :
  reachable ttl enabled s -> bounded s -> entries (cache s) !! key = Some e ->
  loaded_stamp s key = now_stamp s key.
Proof. intros Hr Hb He. apply (inv_entry _ (inv_reachable _ _ _ Hr Hb)). eauto. Qed.

(** Concurrent misses are merged: of all goroutines that are
    querying the main node for one service, at most one does so for the
    current epoch and revision. *)
Theorem at_most_one_current_query (ttl : Z) (enabled : bool) (s : sys) (key : ServiceKey)
    (t1 t2 a1 a2 : nat) (th1 th2 : thread) (c1 c2 : routeLookupCall) :
  reachable ttl enabled s -> bounded s ->
  threads s !! t1 = Some th1 -> threads s !! t2 = Some th2 ->
  th_key th1 = key -> th_key th2 = key -> owns th1 a1 -> owns th2 a2 ->
  calls s !! a1 = Some c1 -> calls s !! a2 = Some c2 ->
  is_stale s key c1 = false -> is_stale s key c2 = false ->
  t1 = t2.
Proof.
  intros Hr Hb H1 H2 K1 K2 O1 O2 C1 C2 S1 S2. pose proof (inv_reachable _ _ _ Hr Hb) as Hs.
  assert (forall t th a c, threads s !! t = Some th -> th_key th = key -> owns th a ->
    calls s !! a = Some c -> is_stale s key c = false -> lookups (cache s) !! key = Some a) as Hl.
  { intros t th a c Ht <- Ho Hc Hst.
    destruct (thread_ok_owns _ _ _ (inv_thread _ Hs _ _ Ht) Ho) as (c' & Hc' & Hk & _ & _ & Hcur).
    simplify_eq. apply Hcur. by eapply not_stale_current. }
  pose proof (Hl _ _ _ _ H1 K1 O1 C1 S1). pose proof (Hl _ _ _ _ H2 K2 O2 C2 S2). simplify_eq.
  by eapply (inv_owner _ Hs).
Qed.

(** C30 (liveness). No goroutine is lost: wherever goroutines stand in
    [lookup] and whatever was invalidated before, there is a continuation in
    which any given one of them returns.  In particular the channel a waiter
    blocks on is always closed by a goroutine that is still there. *)
Theorem every_lookup_can_return (ttl : Z) (enabled : bool) (s : sys) (t : nat) (th : thread) :
  reachable ttl enabled s -> bounded s -> threads s !! t = Some th ->
  exists s', steps step s s' /\ returned s' t.
Proof. intros Hr Hb Ht. by eapply run_any; [eapply inv_reachable|]. Qed.

(** Expiry times respect [ttl], and a disabled cache stores nothing. *)
Definition expiry_ok (ttl0 : Z) (enabled0 : bool) (s : sys) : Prop :=
  ttl (cache s) = ttl0 /\ enabled (cache s) = enabled0 /\
  (enabled0 = false -> entries (cache s) = ∅) /\
  (forall k e, entries (cache s) !! k = Some e ->
     match expiresAt e with
     | Some x => 0 < ttl0 /\ x <= clock s + ttl0
     | None => ttl0 <= 0
     end).

Lemma expiry_ok_subset ttl0 enabled0 s s' :
  expiry_ok ttl0 enabled0 s -> ttl (cache s') = ttl (cache s) ->
  enabled (cache s') = enabled (cache s) -> clock s <= clock s' ->
  entries (cache s') ⊆ entries (cache s) -> expiry_ok ttl0 enabled0 s'.
Proof.
  intros (H1 & H2 & H3 & H4) E1 E2 Hc Hsub. split_and!; [congruence|congruence| |].
  - intros He. specialize (H3 He). rewrite H3 in Hsub. apply map_empty. intros k.
    eapply lookup_weaken_None; [|done]. apply lookup_empty.
  - intros k e He. eapply lookup_weaken in He; [|done]. specialize (H4 k e He).
    destruct (expiresAt e); [|done]. lia.
Qed.

Lemma expiry_ok_finish ttl0 enabled0 s t th a call r :
  expiry_ok ttl0 enabled0 s -> expiry_ok ttl0 enabled0 (finished t th a call r s).
Proof.
  intros (H1 & H2 & H3 & H4). unfold finished; simpl. split_and!; simpl; [done|done| |].
  - intros He. rewrite H2, He, andb_false_r. rewrite H3 by done. by destruct r.
  - intros k e. destruct r as [l|]; [|apply H4].
    destruct (_ && _); [|apply H4]. rewrite lookup_insert. case_decide; [|apply H4].
    intros [= <-]. simpl. rewrite H1. destruct (0 <? ttl0) eqn:E; bool_prop; lia.
Qed.

Lemma expiry_ok_step ttl0 enabled0 s s' :
  step s s' -> expiry_ok ttl0 enabled0 s -> expiry_ok ttl0 enabled0 s'.
Proof.
  intros Hst Hs. destruct Hst as [t k s|t reply s s' H|k s|s|d s].
  - by apply (expiry_ok_subset _ _ s).
  - unfold thread_step in H. destruct (threads s !! t) as [th|]; [|done]. cbv zeta in H.
    destruct (th_pc th) as [|now| |a|a|a r|].
    + injection H as <-. by apply (expiry_ok_subset _ _ s).
    + destruct (read_hit _ _ _); injection H as <-; by apply (expiry_ok_subset _ _ s).
    + destruct (lock_miss_cases (th_key th) (clock s) (calls s) (next_call s) (cache s))
        as [(l & Hh & E)|[(a & cl & Hh & Hl & Hcl & He & Hr & E)|(Hh & Hnj & E)]];
        rewrite E in H; injection H as <-; apply (expiry_ok_subset _ _ s); try done;
        apply delete_subseteq.
    + destruct (calls s !! a) as [cl|]; [|done]. destruct (done cl); [|done].
      destruct (stale cl); injection H as <-; by apply (expiry_ok_subset _ _ s).
    + injection H as <-. by apply (expiry_ok_subset _ _ s).
    + destruct (calls s !! a) as [cl|]; [|done]. injection H as <-. by apply expiry_ok_finish.
    + done.
  - apply (expiry_ok_subset _ _ s); try done. apply delete_subseteq.
  - apply (expiry_ok_subset _ _ s); try done. apply map_empty_subseteq.
  - apply (expiry_ok_subset _ _ s); simpl; try done. lia.
Qed.

(** With a positive TTL every cached route expires at most one
    TTL from now, with TTL zero none ever expires, and a disabled cache is
    always empty. *)
Theorem route_expiry_is_bounded (ttl : Z) (enabled : bool) (s : sys) :
  reachable ttl enabled s ->
  (enabled = false -> entries (cache s) = ∅) /\
  forall k e, entries (cache s) !! k = Some e ->
    match expiresAt e with
    | Some x => 0 < ttl /\ x <= clock s + ttl
    | None => ttl <= 0
    end.
Proof.
  intros Hr. assert (expiry_ok ttl enabled s) as (_ & _ & ? & ?); [|done].
  eapply (steps_invariant step); [apply expiry_ok_step|done|]. done.
Qed.

(** ** Witnesses

    Two goroutines miss on room:1 together, the second joins the first's
    query, a third service is invalidated meanwhile, and both return; then the
    route is invalidated and a third goroutine starts a new query. *)

Section Demo.

Let room : ServiceKey := mkServiceKey "room" 1.
Let there : ServiceLocation := mkServiceLocation "room" 1 2 "127.0.0.1:7002".
Let nil_reply : res ServiceLocation := Err (EText "").

Definition demo_schedule : list action :=
  [ASpawn 1 room; ASpawn 2 room; AThread 1 nil_reply; AThread 1 nil_reply; AThread 1 nil_reply;
   AThread 2 nil_reply; AThread 2 nil_reply; AThread 2 nil_reply; ATick 5;
   AInvalidate (mkServiceKey "map" 1); AThread 1 (Ok there); AThread 1 nil_reply;
   AThread 2 nil_reply].

Definition demo_later : list action :=
  [AInvalidate room; ASpawn 3 room; AThread 3 nil_reply; AThread 3 nil_reply; AThread 3 nil_reply].

Definition demo : sys := default (sys_init 10 true) (exec_all demo_schedule (sys_init 10 true)).
Definition demo2 : sys := default demo (exec_all demo_later demo).
Definition thread_of (s : sys) (t : nat) : thread :=
  default (mkThread room AtHead (0, 0)%nat) (threads s !! t).

Lemma demo_reachable : reachable 10 true demo.
Proof. apply (exec_all_steps demo_schedule). vm_compute. reflexivity. Qed.

Lemma demo2_reachable : reachable 10 true demo2.
Proof.
  eapply steps_app; [apply demo_reachable|]. apply (exec_all_steps demo_later).
  vm_compute. reflexivity.
Qed.

Lemma demo_bounded : bounded demo.
Proof. apply bounded_check_ok. vm_compute. reflexivity. Qed.

Lemma demo2_bounded : bounded demo2.
Proof. apply bounded_check_ok. vm_compute. reflexivity. Qed.

Lemma lookup_result_is_fresh_witness :
  th_pc (thread_of demo 2) = Returned (Ok there) (0, 0)%nat /\
  le_stamp (th_start (thread_of demo 2)) (0, 0)%nat.
Proof.
  assert (th_pc (thread_of demo 2) = Returned (Ok there) (0, 0)%nat) as H by (vm_compute; reflexivity).
  split; [exact H|].
  apply (lookup_result_is_fresh 10 true demo 2 (thread_of demo 2) (Ok there) (0, 0)%nat);
    [apply demo_reachable|apply demo_bounded|vm_compute; reflexivity|exact H].
Defined.

Lemma cached_routes_are_current_witness :
  entries (cache demo) !! room = Some (mkEntry there (Some 15)) /\
  loaded_stamp demo room = now_stamp demo room.
Proof.
  assert (entries (cache demo) !! room = Some (mkEntry there (Some 15))) as H
    by (vm_compute; reflexivity).
  split; [exact H|].
  apply (cached_routes_are_current 10 true demo room (mkEntry there (Some 15)));
    [apply demo_reachable|apply demo_bounded|exact H].
Defined.

Lemma at_most_one_current_query_witness :
  th_pc (thread_of demo2 3) = Loading 1 /\ 3%nat = 3%nat.
Proof.
  split; [vm_compute; reflexivity|].
  apply (at_most_one_current_query 10 true demo2 room 3 3 1 1 (thread_of demo2 3) (thread_of demo2 3)
    (mkCall room false (Ok (mkServiceLocation "" 0 0 "")) 0 1 false (0, 1)%nat)
    (mkCall room false (Ok (mkServiceLocation "" 0 0 "")) 0 1 false (0, 1)%nat));
    [apply demo2_reachable|apply demo2_bounded|..]; try (left; vm_compute; reflexivity);
    vm_compute; reflexivity.
Defined.

Lemma every_lookup_can_return_witness :
  exists s', steps step demo2 s' /\ returned s' 3.
Proof.
  apply (every_lookup_can_return 10 true demo2 3 (thread_of demo2 3));
    [apply demo2_reachable|apply demo2_bounded|vm_compute; reflexivity].
Defined.

Lemma route_expiry_is_bounded_witness :
  (true = false -> entries (cache demo) = ∅) /\
  forall k e, entries (cache demo) !! k = Some e ->
    match expiresAt e with
    | Some x => 0 < 10 /\ x <= clock demo + 10
    | None => 10 <= 0
    end.
Proof. apply (route_expiry_is_bounded 10 true demo). apply demo_reachable. Defined.

End Demo.
