(* ===== verification/Config.v ===== *)
(** * Configuration (config.go) and log levels (logger.go)

    The configuration records, [Validate] with the normalization it performs
    in place, and [Node].  [Validate] is translated with its state: it returns
    the configuration as it leaves it, also when it stops with an error.  The
    constants of xtnet's log package are the class [XtLog].

    A [LoggerConfig] is behind a pointer; two nodes of one configuration have
    two of them, as decoding YAML gives. *)

From stdpp Require Import base tactics list gmap sets strings.
From Stdlib Require Import ZArith Lia Strings.Byte.
From S2P Require Import Prelude GoString Errors Registry.
Local Open Scope string_scope.

Class XtLog := {
  FileSizeMin : Z;
  FileSizeMax : Z;
  LevelNone : Z;
  LevelError : Z;
  LevelWarn : Z;
  LevelDebug : Z
}.

(** ** Data *)

Record LoggerConfig := mkLoggerConfig {
  Dir : string;
  Level : string;
  FileSize : Z;
  Screen : bool;
  Async : bool
}.

Record ServiceLoopConfig := mkLoopConfig { Size : Z; FullWarn : bool }.

(** The values YAML decodes an [any] to; the framework never looks inside. *)
Inductive any :=
| ANull
| ABool (b : bool)
| AInt (z : Z)
| AFloat (lexeme : string)
| AString (s : string)
| AList (l : list any)
| AMap (l : list (string * any)).

Record ServiceConfig := mkServiceConfig {
  sc_Name : string;
  sc_ID : Z;
  Loop : option ServiceLoopConfig;
  Options : list (string * any)
}.

(** [time.Duration] in nanoseconds. *)
Record NodeConfig := mkNodeConfig {
  nc_ID : Z;
  ListenAddr : string;
  ServiceCallTimeout : Z;
  Logger : option LoggerConfig;
  Services : list ServiceConfig
}.

Record Config := mkConfig { MainNode : Z; Nodes : list NodeConfig }.

Section Validate.
Context `{UnicodeTables} `{XtLog}.

(** ** Log levels *)

Definition parseLogLevel (level : string) : res Z :=
  let l := ToLower (TrimSpace level) in
  if bool_decide (l = "none") then Ok LevelNone
  else if bool_decide (l = "error") then Ok LevelError
  else if bool_decide (l = "warn") then Ok LevelWarn
  else if bool_decide (l = "debug") then Ok LevelDebug
  else Err (EText ("level " +:+ Quote level +:+ " must be one of none, error, warn, debug")).

(** ** [Validate] *)

Definition nodes_at (i : Z) : string := "nodes[" +:+ fmt_d i +:+ "]".
Definition services_at (i j : Z) : string := nodes_at i +:+ ".services[" +:+ fmt_d j +:+ "]".

Definition sc_key (s : ServiceConfig) : ServiceKey := mkServiceKey (sc_Name s) (sc_ID s).

Definition trim_service (s : ServiceConfig) : ServiceConfig :=
  mkServiceConfig (TrimSpace (sc_Name s)) (sc_ID s) (Loop s) (Options s).

Definition bad_loop (s : ServiceConfig) : bool :=
  match Loop s with Some l => (Size l <? 0)%Z | None => false end.

(** The loop over [n.Services]. *)
Fixpoint validate_services (i j : Z) (seen : gset ServiceKey) (l : list ServiceConfig)
    : list ServiceConfig * option error :=
  match l with
  | [] => ([], None)
  | s :: rest =>
      let s := trim_service s in
      if bool_decide (sc_Name s = "")
      then (s :: rest, Some (EText (services_at i j +:+ ".name must not be empty")))
      else if (sc_ID s <=? 0)%Z
      then (s :: rest, Some (EText (services_at i j +:+ ".id must be positive")))
      else if bad_loop s
      then (s :: rest, Some (EText (services_at i j +:+ ".loop.size must not be negative")))
      else if bool_decide (sc_key s ∈ seen)
      then (s :: rest, Some (EText (services_at i j +:+ " " +:+ sc_Name s +:+ ":" +:+ fmt_d (sc_ID s)
                                    +:+ " is duplicated")))
      else
        let '(rest', e) := validate_services i (j + 1) ({[sc_key s]} ∪ seen) rest in
        (s :: rest', e)
  end.

(** The block for [n.Logger]; the result carries the map [logDirs]. *)
Definition validate_logger (i nodeID : Z) (logDirs : gmap string Z) (lg : LoggerConfig)
    : LoggerConfig * res (gmap string Z) :=
  let logDir := TrimSpace (Dir lg) in
  if bool_decide (logDir = "")
  then (lg, Err (EText (nodes_at i +:+ ".logger.dir must not be empty")))
  else
    let lg := mkLoggerConfig (Clean logDir) (Level lg) (FileSize lg) (Screen lg) (Async lg) in
    let logDirKey := ToLower (Dir lg) in
    match logDirs !! logDirKey with
    | Some owner =>
        (lg, Err (EText (nodes_at i +:+ ".logger.dir " +:+ Quote (Dir lg) +:+ " is also used by node "
                         +:+ fmt_d owner)))
    | None =>
        let lg := mkLoggerConfig (Dir lg) (ToLower (TrimSpace (Level lg))) (FileSize lg) (Screen lg)
                    (Async lg) in
        match parseLogLevel (Level lg) with
        | Err e => (lg, Err (prefixf (nodes_at i +:+ ".logger: ") e))
        | Ok _ =>
            if (FileSize lg <? FileSizeMin)%Z || (FileSizeMax <? FileSize lg)%Z
            then (lg, Err (EText (nodes_at i +:+ ".logger.file_size must be between "
                                  +:+ fmt_d FileSizeMin +:+ " and " +:+ fmt_d FileSizeMax)))
            else (lg, Ok (<[logDirKey := nodeID]> logDirs))
        end
    end.

(** The maps [Validate] fills while it walks the nodes. *)
Record seen_nodes := mkSeen {
  nodeIDs : gset Z;
  addresses : gmap string Z;
  logDirs : gmap string Z;
  mainFound : bool
}.

Definition set_addr (n : NodeConfig) (a : string) : NodeConfig :=
  mkNodeConfig (nc_ID n) a (ServiceCallTimeout n) (Logger n) (Services n).
Definition set_logger (n : NodeConfig) (l : option LoggerConfig) : NodeConfig :=
  mkNodeConfig (nc_ID n) (ListenAddr n) (ServiceCallTimeout n) l (Services n).
Definition set_services (n : NodeConfig) (l : list ServiceConfig) : NodeConfig :=
  mkNodeConfig (nc_ID n) (ListenAddr n) (ServiceCallTimeout n) (Logger n) l.

(** One turn of the loop over [c.Nodes]. *)
Definition validate_node (mainNode i : Z) (acc : seen_nodes) (n : NodeConfig)
    : NodeConfig * res seen_nodes :=
  if (nc_ID n <=? 0)%Z then (n, Err (EText (nodes_at i +:+ ".id must be positive")))
  else if bool_decide (nc_ID n ∈ nodeIDs acc)
  then (n, Err (EText (nodes_at i +:+ ".id " +:+ fmt_d (nc_ID n) +:+ " is duplicated")))
  else
    let n := set_addr n (TrimSpace (ListenAddr n)) in
    if bool_decide (ListenAddr n = "")
    then (n, Err (EText (nodes_at i +:+ ".listen_addr must not be empty")))
    else match addresses acc !! ListenAddr n with
    | Some owner =>
        (n, Err (EText (nodes_at i +:+ ".listen_addr " +:+ Quote (ListenAddr n)
                        +:+ " is also used by node " +:+ fmt_d owner)))
    | None =>
        if (ServiceCallTimeout n <? 0)%Z
        then (n, Err (EText (nodes_at i +:+ ".service_call_timeout must not be negative")))
        else
          let '(logger, dirs) :=
            match Logger n with
            | None => (None, Ok (logDirs acc))
            | Some lg => let '(lg', d) := validate_logger i (nc_ID n) (logDirs acc) lg in (Some lg', d)
            end in
          let n := set_logger n logger in
          match dirs with
          | Err e => (n, Err e)
          | Ok dirs =>
              let '(svcs, e) := validate_services i 0 ∅ (Services n) in
              let n := set_services n svcs in
              match e with
              | Some e => (n, Err e)
              | None =>
                  (n, Ok (mkSeen ({[nc_ID n]} ∪ nodeIDs acc) (<[ListenAddr n := nc_ID n]> (addresses acc))
                            dirs (mainFound acc || (nc_ID n =? mainNode)%Z)))
              end
          end
    end.

Fixpoint validate_nodes (mainNode i : Z) (acc : seen_nodes) (l : list NodeConfig)
    : list NodeConfig * res seen_nodes :=
  match l with
  | [] => ([], Ok acc)
  | n :: rest =>
      let '(n', r) := validate_node mainNode i acc n in
      match r with
      | Err e => (n' :: rest, Err e)
      | Ok acc' => let '(rest', r') := validate_nodes mainNode (i + 1) acc' rest in (n' :: rest', r')
      end
  end.

(** [None] is the nil pointer. *)
Definition Validate (c : option Config) : option Config * option error :=
  match c with
  | None => (None, Some (EText "config is nil"))
  | Some c =>
      match Nodes c with
      | [] => (Some c, Some (EText "nodes must not be empty"))
      | _ =>
          let '(nodes, r) := validate_nodes (MainNode c) 0 (mkSeen ∅ ∅ ∅ false) (Nodes c) in
          let c := mkConfig (MainNode c) nodes in
          match r with
          | Err e => (Some c, Some e)
          | Ok acc =>
              if (MainNode c <=? 0)%Z || negb (mainFound acc)
              then (Some c, Some (EText ("main_node " +:+ fmt_d (MainNode c)
                                         +:+ " does not refer to a configured node")))
              else (Some c, None)
          end
      end
  end.

(** ** Loading

    [ReadFile] is the file system and [yaml_Unmarshal] the YAML library. *)

Section Load.
Context (ReadFile : string -> res (list Byte.byte)) (yaml_Unmarshal : list Byte.byte -> res Config).

Definition LoadConfig (path : string) : res Config :=
  try data <- res_map_err (prefixf ("read config " +:+ Quote path +:+ ": ")) (ReadFile path) in
  try cfg <- res_map_err (prefixf ("parse config " +:+ Quote path +:+ ": ")) (yaml_Unmarshal data) in
  match Validate (Some cfg) with
  | (_, Some e) => Err (prefixf ("validate config " +:+ Quote path +:+ ": ") e)
  | (Some cfg, None) => Ok cfg
  | (None, None) => Err (EText "config is nil")
  end.

End Load.

End Validate.

(** [Config.Node]: the first node with the id. *)
Definition Node (c : option Config) (id : Z) : option NodeConfig :=
  match c with
  | None => None
  | Some c => find (fun n => (nc_ID n =? id)%Z) (Nodes c)
  end.

(** ** What [Validate] accepts, declaratively *)

(** Elements that are new and pairwise distinct. *)
Definition fresh_list {A} `{Countable A} (seen : gset A) (l : list A) : Prop :=
  NoDup l /\ forall x, x ∈ l -> x ∉ seen.

Lemma fresh_list_cons {A} `{Countable A} (seen : gset A) x l :
  fresh_list seen (x :: l) <-> (x ∉ seen) /\ fresh_list ({[x]} ∪ seen) l.
Proof. unfold fresh_list. rewrite NoDup_cons. set_solver. Qed.

Lemma fresh_list_empty {A} `{Countable A} (l : list A) : fresh_list ∅ l <-> NoDup l.
Proof. unfold fresh_list. set_solver. Qed.

Lemma fresh_list_nil {A} `{Countable A} (seen : gset A) : fresh_list seen [] <-> True.
Proof. unfold fresh_list. pose proof (@NoDup_nil A). set_solver. Qed.

Section Accepts.
Context `{UnicodeTables} `{XtLog}.

Definition normalize_logger (lg : LoggerConfig) : LoggerConfig :=
  mkLoggerConfig (Clean (TrimSpace (Dir lg))) (ToLower (TrimSpace (Level lg))) (FileSize lg)
    (Screen lg) (Async lg).

Definition normalize_node (n : NodeConfig) : NodeConfig :=
  mkNodeConfig (nc_ID n) (TrimSpace (ListenAddr n)) (ServiceCallTimeout n)
    (normalize_logger <$> Logger n) (map trim_service (Services n)).

Definition normalize (c : Config) : Config :=
  mkConfig (MainNode c) (map normalize_node (Nodes c)).

Definition service_accepts (s : ServiceConfig) : Prop :=
  TrimSpace (sc_Name s) <> "" /\ (0 < sc_ID s)%Z /\ bad_loop s = false.

Definition logger_accepts (lg : LoggerConfig) : Prop :=
  TrimSpace (Dir lg) <> "" /\ (exists v, parseLogLevel (ToLower (TrimSpace (Level lg))) = Ok v) /\
  (FileSizeMin <= FileSize lg <= FileSizeMax)%Z.

Definition dir_key (lg : LoggerConfig) : string := ToLower (Clean (TrimSpace (Dir lg))).
Definition dir_keys (l : list NodeConfig) : list string :=
  omap (fun n => (dir_key <$> Logger n)) l.

Definition node_accepts (n : NodeConfig) : Prop :=
  (0 < nc_ID n)%Z /\ TrimSpace (ListenAddr n) <> "" /\ (0 <= ServiceCallTimeout n)%Z /\
  (forall lg, Logger n = Some lg -> logger_accepts lg) /\
  Forall service_accepts (Services n) /\
  NoDup (map (sc_key ∘ trim_service) (Services n)).

(** Positive unique ids, unique addresses, unique log directories up to case,
    well-formed services unique per node, and a main node among the nodes. *)
Definition accepts (c : Config) : Prop :=
  Nodes c <> [] /\ Forall node_accepts (Nodes c) /\
  NoDup (map nc_ID (Nodes c)) /\
  NoDup (map (TrimSpace ∘ ListenAddr) (Nodes c)) /\
  NoDup (dir_keys (Nodes c)) /\
  (0 < MainNode c)%Z /\ MainNode c ∈ map nc_ID (Nodes c).

Lemma validate_services_sound i j seen l l' :
  validate_services i j seen l = (l', None) ->
  l' = map trim_service l /\ Forall service_accepts l /\
  fresh_list seen (map (sc_key ∘ trim_service) l).
Proof.
  revert j seen l'. induction l as [|s l IH]; intros j seen l'; simpl.
  { intros [= <-]. split_and!; [done|constructor|by apply fresh_list_nil]. }
  case_bool_decide as E1; [done|]. destruct (sc_ID s <=? 0)%Z eqn:E2; [done|].
  destruct (bad_loop (trim_service s)) eqn:E3; [done|]. case_bool_decide as E4; [done|].
  destruct (validate_services i (j + 1) _ l) as [rest' e] eqn:E5.
  intros [= <- ->]. apply IH in E5 as (-> & ? & ?). bool_prop.
  split_and!; [done|by constructor|]. by apply fresh_list_cons.
Qed.

Lemma validate_services_complete i j seen l :
  Forall service_accepts l -> fresh_list seen (map (sc_key ∘ trim_service) l) ->
  validate_services i j seen l = (map trim_service l, None).
Proof.
  revert j seen. induction l as [|s l IH]; intros j seen Hl Hf; simpl; [done|].
  inversion Hl as [|? ? (H1 & H2 & H3) Hl']; subst. apply fresh_list_cons in Hf as [Hk Hf].
  rewrite bool_decide_eq_false_2 by done. rewrite (proj2 (Z.leb_gt _ _)) by done.
  change (bad_loop (trim_service s)) with (bad_loop s). rewrite H3.
  rewrite bool_decide_eq_false_2 by done. by rewrite IH.
Qed.

Lemma validate_logger_sound i id dirs lg lg' dirs' :
  validate_logger i id dirs lg = (lg', Ok dirs') ->
  lg' = normalize_logger lg /\ logger_accepts lg /\ dirs !! dir_key lg = None /\
  dirs' = <[dir_key lg := id]> dirs.
Proof.
  unfold validate_logger. cbv zeta. case_bool_decide as E1; [done|]. cbn [Dir Level FileSize].
  fold (dir_key lg). destruct (dirs !! dir_key lg) eqn:E2; [done|].
  destruct (parseLogLevel _) as [v|] eqn:E3; [|done]. destruct (_ || _) eqn:E4; [done|].
  intros [= <- <-]. bool_prop. split_and!; try done. split_and!; eauto.
Qed.

Lemma validate_logger_complete i id dirs lg :
  logger_accepts lg -> dirs !! dir_key lg = None ->
  validate_logger i id dirs lg = (normalize_logger lg, Ok (<[dir_key lg := id]> dirs)).
Proof.
  intros (H1 & (v & H2) & H3) Hd. unfold validate_logger. cbv zeta.
  rewrite bool_decide_eq_false_2 by done. cbn [Dir Level FileSize]. fold (dir_key lg). rewrite Hd, H2.
  rewrite !(proj2 (Z.ltb_ge _ _)) by lia. done.
Qed.

(** What one node adds to the maps, and the tests it must pass against them. *)
Definition next_seen (mainNode : Z) (acc : seen_nodes) (n : NodeConfig) : seen_nodes :=
  mkSeen ({[nc_ID n]} ∪ nodeIDs acc) (<[TrimSpace (ListenAddr n) := nc_ID n]> (addresses acc))
    (match Logger n with Some lg => <[dir_key lg := nc_ID n]> (logDirs acc) | None => logDirs acc end)
    (mainFound acc || (nc_ID n =? mainNode)%Z).

Definition node_fresh (acc : seen_nodes) (n : NodeConfig) : Prop :=
  (nc_ID n ∉ nodeIDs acc) /\ (TrimSpace (ListenAddr n) ∉ dom (addresses acc)) /\
  forall lg, Logger n = Some lg -> dir_key lg ∉ dom (logDirs acc).

Lemma validate_node_sound mainNode i acc n n' acc' :
  validate_node mainNode i acc n = (n', Ok acc') ->
  n' = normalize_node n /\ node_accepts n /\ node_fresh acc n /\ acc' = next_seen mainNode acc n.
Proof.
  unfold validate_node. cbv zeta. destruct (nc_ID n <=? 0)%Z eqn:E1; [done|].
  case_bool_decide as E2; [done|]. case_bool_decide as E3; [done|]. simpl in *.
  destruct (addresses acc !! _) eqn:E4; [done|].
  destruct (ServiceCallTimeout n <? 0)%Z eqn:E5; [done|]. bool_prop.
  unfold normalize_node, node_accepts, node_fresh, next_seen. rewrite not_elem_of_dom.
  destruct (Logger n) as [lg|] eqn:El.
  - destruct (validate_logger _ _ _ lg) as [lg' [dirs|]] eqn:E6; [|done].
    apply validate_logger_sound in E6 as (-> & ? & ? & ->).
    destruct (validate_services _ _ _ _) as [svcs [e|]] eqn:E7; [done|].
    apply validate_services_sound in E7 as (-> & ? & Hf). rewrite fresh_list_empty in Hf.
    intros [= <- <-]. split_and!; try done.
    + by intros ? [= <-].
    + intros ? [= <-]. by apply not_elem_of_dom.
  - destruct (validate_services _ _ _ _) as [svcs [e|]] eqn:E7; [done|].
    apply validate_services_sound in E7 as (-> & ? & Hf). rewrite fresh_list_empty in Hf.
    intros [= <- <-]. by split_and!.
Qed.

Lemma validate_node_complete mainNode i acc n :
  node_accepts n -> node_fresh acc n ->
  validate_node mainNode i acc n = (normalize_node n, Ok (next_seen mainNode acc n)).
Proof.
  intros (H1 & H2 & H3 & H4 & H5 & H6) (F1 & F2 & F3). unfold validate_node. cbv zeta.
  rewrite (proj2 (Z.leb_gt _ _)) by done. rewrite !bool_decide_eq_false_2 by done. simpl.
  apply not_elem_of_dom in F2. rewrite F2, (proj2 (Z.ltb_ge _ _)) by done.
  unfold normalize_node, next_seen.
  destruct (Logger n) as [lg|] eqn:El.
  - rewrite validate_logger_complete; [|by apply H4|by apply not_elem_of_dom, F3].
    by rewrite validate_services_complete by (done || by apply fresh_list_empty).
  - by rewrite validate_services_complete by (done || by apply fresh_list_empty).
Qed.

(** The same for the whole list, with the maps it starts from. *)
Definition nodes_fresh (acc : seen_nodes) (l : list NodeConfig) : Prop :=
  fresh_list (nodeIDs acc) (map nc_ID l) /\
  fresh_list (dom (addresses acc)) (map (TrimSpace ∘ ListenAddr) l) /\
  fresh_list (dom (logDirs acc)) (dir_keys l).

Lemma nodes_fresh_cons mainNode acc n l :
  nodes_fresh acc (n :: l) <-> node_fresh acc n /\ nodes_fresh (next_seen mainNode acc n) l.
Proof.
  unfold nodes_fresh, node_fresh, next_seen, dir_keys. simpl. rewrite !fresh_list_cons.
  rewrite dom_insert_L. destruct (Logger n) as [lg|]; simpl.
  - rewrite fresh_list_cons, dom_insert_L. split.
    + intros ((? & ?) & (? & ?) & ? & ?). split_and!; try done. by intros ? [= <-].
    + intros ((? & ? & Hl) & ? & ? & ?). split_and!; try done. by apply Hl.
  - split.
    + intros ((? & ?) & (? & ?) & ?). by split_and!.
    + intros ((? & ? & ?) & ? & ? & ?). by split_and!.
Qed.

Definition main_found (mainNode : Z) (acc : seen_nodes) (l : list NodeConfig) : bool :=
  mainFound acc || existsb (fun n => (nc_ID n =? mainNode)%Z) l.

Lemma validate_nodes_sound mainNode i acc l l' acc' :
  validate_nodes mainNode i acc l = (l', Ok acc') ->
  l' = map normalize_node l /\ Forall node_accepts l /\ nodes_fresh acc l /\
  mainFound acc' = main_found mainNode acc l.
Proof.
  revert i acc l'. induction l as [|n l IH]; intros i acc l'; simpl.
  { intros [= <- <-]. split_and!; [done|done|by split_and!; apply fresh_list_nil|].
    symmetry. apply orb_false_r. }
  destruct (validate_node _ _ _ _) as [n' [acc1|]] eqn:E1; [|done].
  destruct (validate_nodes _ _ _ _) as [rest' r'] eqn:E2. intros [= <- ->].
  apply validate_node_sound in E1 as (-> & ? & ? & ->). apply IH in E2 as (-> & ? & ? & Hm).
  split_and!; [done|by constructor|by apply (nodes_fresh_cons mainNode)|].
  rewrite Hm. unfold main_found; simpl. by rewrite orb_assoc.
Qed.

Lemma validate_nodes_complete mainNode i acc l :
  Forall node_accepts l -> nodes_fresh acc l ->
  exists acc', validate_nodes mainNode i acc l = (map normalize_node l, Ok acc') /\
    mainFound acc' = main_found mainNode acc l.
Proof.
  revert i acc. induction l as [|n l IH]; intros i acc Hl Hf; simpl.
  { exists acc. split; [done|]. symmetry. apply orb_false_r. }
  inversion Hl; subst. apply (nodes_fresh_cons mainNode) in Hf as [Hn Hf].
  rewrite validate_node_complete by done. destruct (IH (i + 1)%Z _ ltac:(done) Hf) as (acc' & -> & Hm).
  exists acc'. split; [done|]. rewrite Hm. unfold main_found; simpl. by rewrite orb_assoc.
Qed.

Lemma existsb_id (mainNode : Z) l :
  existsb (fun n => (nc_ID n =? mainNode)%Z) l = true <-> mainNode ∈ map nc_ID l.
Proof.
  rewrite existsb_exists, list_elem_of_fmap. setoid_rewrite <- list_elem_of_In.
  setoid_rewrite Z.eqb_eq. split; intros (n & ? & ?); eauto.
Qed.

Lemma nodes_fresh_empty l :
  nodes_fresh (mkSeen ∅ ∅ ∅ false) l <->
  NoDup (map nc_ID l) /\ NoDup (map (TrimSpace ∘ ListenAddr) l) /\ NoDup (dir_keys l).
Proof. unfold nodes_fresh; simpl. rewrite !dom_empty_L, !fresh_list_empty. done. Qed.

Lemma Validate_spec c c' :
  Validate (Some c) = (Some c', None) <-> c' = normalize c /\ accepts c.
Proof.
  unfold Validate, accepts. destruct (Nodes c) as [|n l] eqn:En; [by split; [|intros (_ & Hne & _)]|].
  rewrite <- En. split.
  - destruct (validate_nodes _ _ _ _) as [nodes [acc|]] eqn:E; [|done].
    apply validate_nodes_sound in E as (-> & ? & Hf & Hm). apply nodes_fresh_empty in Hf.
    simpl. destruct (_ || _) eqn:Eb; [done|]. bool_prop. intros [= <-].
    rewrite Hm in *. unfold main_found in *. simpl in *. split; [done|].
    split_and!; try done; try apply Hf; [by rewrite En|]. by apply existsb_id.
  - intros (-> & _ & Ha & H1 & H2 & H3 & Hpos & Hin).
    destruct (validate_nodes_complete (MainNode c) 0 (mkSeen ∅ ∅ ∅ false) (Nodes c) Ha)
      as (acc & -> & Hm); [by apply nodes_fresh_empty|].
    simpl. rewrite Hm. unfold main_found. rewrite (proj2 (existsb_id _ _) Hin), orb_true_r.
    by rewrite (proj2 (Z.leb_gt _ _)).
Qed.

End Accepts.

Section Properties.
Context `{UnicodeTables} `{XtLog}.

(** C38 (functional). [Validate] accepts exactly the configurations described
    by [accepts] and leaves them in normal form; every other configuration is
    rejected with an error. *)
Theorem validate_accepts_exactly (c : Config) :
  (forall c', Validate (Some c) = (Some c', None) <-> c' = normalize c /\ accepts c) /\
  (~ accepts c -> exists c' e, Validate (Some c) = (c', Some e)).
Proof.
  split; [intros c'; apply Validate_spec|]. intros Hn.
  destruct (Validate (Some c)) as [[c'|] [e|]] eqn:E; eauto.
  - apply Validate_spec in E. naive_solver.
  - exfalso. revert E. unfold Validate. repeat case_match; congruence.
Qed.

(** [LoadConfig] returns the normal form of an acceptable file, and nothing
    else. *)
Lemma LoadConfig_Ok ReadFile yaml_Unmarshal path c :
  LoadConfig ReadFile yaml_Unmarshal path = Ok c <->
  exists data cfg, ReadFile path = Ok data /\ yaml_Unmarshal data = Ok cfg /\ accepts cfg /\ c = normalize cfg.
Proof.
  unfold LoadConfig. split.
  - intros Hl. inv_res. destruct (Validate (Some a0)) as [[cfg|] [e|]] eqn:Ev; simplify_eq.
    apply Validate_spec in Ev as [-> Ha']. eauto 10.
  - intros (data & cfg & -> & Hy & Ha & ->). cbn [res_map_err res_bind]. rewrite Hy. cbn [res_map_err res_bind].
    by rewrite (proj2 (Validate_spec cfg (normalize cfg))).
Qed.

(** ** Validating twice

    [LoadConfig] validates what it loads and [NewNode] validates it again. *)

Definition levels : list string := ["none"; "error"; "warn"; "debug"].

(** The normal form of a logger is one of the normalizations' fixed points. *)
Definition logger_stable (lg : LoggerConfig) : Prop :=
  TrimSpace (Clean (TrimSpace (Dir lg))) = Clean (TrimSpace (Dir lg)) /\
  ToLower (TrimSpace (Level lg)) ∈ levels.

Definition loggers_stable (c : Config) : Prop :=
  forall n lg, n ∈ Nodes c -> Logger n = Some lg -> logger_stable lg.

Lemma levels_fixpoint l : l ∈ levels -> ToLower (TrimSpace l) = l.
Proof.
  unfold levels. rewrite !elem_of_cons, elem_of_nil.
  intros [->|[->|[->|[->|[]]]]]; vm_compute; reflexivity.
Qed.

Lemma trim_service_idemp s : trim_service (trim_service s) = trim_service s.
Proof. unfold trim_service; simpl. by rewrite TrimSpace_idemp. Qed.

Lemma normalize_logger_idemp lg :
  logger_stable lg -> normalize_logger (normalize_logger lg) = normalize_logger lg.
Proof.
  intros [H1 H2]. unfold normalize_logger. cbn [Dir Level FileSize Screen Async].
  by rewrite H1, Clean_idemp, levels_fixpoint.
Qed.

Lemma Clean_nonempty s : Clean s <> "".
Proof.
  unfold Clean. intros E%(f_equal bytes). rewrite bytes_of_bytes in E. revert E.
  unfold clean_bytes. destruct (is_rooted _); [done|].
  by destruct (join_slash _).
Qed.

Lemma logger_accepts_normalized lg :
  logger_stable lg -> logger_accepts lg -> logger_accepts (normalize_logger lg).
Proof.
  intros [H1 H2] (_ & H4 & H5). unfold normalize_logger. split_and!; cbn [Dir Level FileSize].
  - rewrite H1. apply Clean_nonempty.
  - by rewrite levels_fixpoint.
  - apply H5.
  - apply H5.
Qed.

Lemma dir_key_normalized lg : logger_stable lg -> dir_key (normalize_logger lg) = dir_key lg.
Proof. intros [H1 _]. unfold dir_key. cbn [normalize_logger Dir]. by rewrite H1, Clean_idemp. Qed.

Lemma normalize_node_idemp n :
  (forall lg, Logger n = Some lg -> logger_stable lg) ->
  normalize_node (normalize_node n) = normalize_node n.
Proof.
  intros Hl. unfold normalize_node.
  cbn [nc_ID ListenAddr ServiceCallTimeout Logger Services]. f_equal.
  - apply TrimSpace_idemp.
  - destruct (Logger n) as [lg|]; [|done]. simpl. f_equal. by apply normalize_logger_idemp, Hl.
  - rewrite map_map. apply map_ext. intros s. apply trim_service_idemp.
Qed.

Lemma node_accepts_normalized n :
  (forall lg, Logger n = Some lg -> logger_stable lg) ->
  node_accepts n -> node_accepts (normalize_node n).
Proof.
  intros Hl (H1 & H2 & H3 & H4 & H5 & H6). unfold normalize_node.
  split_and!; cbn [nc_ID ListenAddr ServiceCallTimeout Logger Services].
  - done.
  - by rewrite TrimSpace_idemp.
  - done.
  - intros lg' (lg & Elg & ->)%fmap_Some. apply logger_accepts_normalized; auto.
  - apply Forall_map. apply (Forall_impl _ _ _ H5). intros s (Hs & Hr).
    split; [|done]. simpl. by rewrite TrimSpace_idemp.
  - rewrite map_map. erewrite map_ext; [exact H6|]. intros s. simpl. by rewrite trim_service_idemp.
Qed.

Lemma dir_keys_normalized l :
  (forall n lg, n ∈ l -> Logger n = Some lg -> logger_stable lg) ->
  dir_keys (map normalize_node l) = dir_keys l.
Proof.
  induction l as [|n l IH]; intros Hl; [done|]. cbn [map].
  change (dir_keys (?x :: ?l)) with (from_option (fun k => k :: dir_keys l) (dir_keys l) (dir_key <$> Logger x)).
  rewrite IH by set_solver.
  unfold normalize_node. cbn [Logger]. destruct (Logger n) as [lg|] eqn:E; [|done]. simpl.
  rewrite dir_key_normalized; [done|]. eapply Hl; [|done]. set_solver.
Qed.

Lemma normalize_idemp c : loggers_stable c -> normalize (normalize c) = normalize c.
Proof.
  intros Hl. unfold normalize; simpl. f_equal. rewrite map_map. apply map_ext_in.
  intros n Hn%list_elem_of_In. apply normalize_node_idemp. eauto.
Qed.

Lemma accepts_normalized c : loggers_stable c -> accepts c -> accepts (normalize c).
Proof.
  intros Hl (H1 & H2 & H3 & H4 & H5 & H6 & H7). unfold normalize. split_and!; cbn [MainNode Nodes].
  - by destruct (Nodes c).
  - apply Forall_map, Forall_forall. intros n Hn. rewrite Forall_forall in H2.
    apply node_accepts_normalized; eauto.
  - by rewrite map_map.
  - rewrite map_map. erewrite map_ext; [exact H4|]. intros n. apply TrimSpace_idemp.
  - by rewrite dir_keys_normalized.
  - done.
  - by rewrite map_map.
Qed.

(** A configuration [LoadConfig] accepted is accepted again,
    unchanged, by [NewNode], provided the cleaned log directories carry no
    white space at their ends. *)
Theorem validate_twice (c c' : Config) :
  loggers_stable c -> Validate (Some c) = (Some c', None) ->
  Validate (Some c') = (Some c', None).
Proof.
  intros Hl [-> Ha]%Validate_spec. apply Validate_spec. split.
  - symmetry. by apply normalize_idemp.
  - by apply accepts_normalized.
Qed.

(** In a validated configuration the main node is found, an id
    finds at most one node and finds exactly the configured nodes: the
    branches of [mainClient] and [recoverMainNode] for a missing main node
    cannot be taken. *)
Theorem validated_nodes_are_found (c c' : Config) (n : NodeConfig) :
  Validate (Some c) = (Some c', None) ->
  is_Some (Node (Some c') (MainNode c')) /\
  (Node (Some c') (nc_ID n) = Some n <-> n ∈ Nodes c').
Proof.
  intros [-> Ha]%Validate_spec. destruct Ha as (_ & _ & Hid & _ & _ & _ & Hmain).
  unfold Node. split.
  - apply list_elem_of_fmap in Hmain as (m & Em & Hm).
    destruct (find _ _) eqn:E; [done|]. exfalso.
    pose proof (find_none _ _ E (normalize_node m)) as Hf.
    specialize (Hf (in_map _ _ _ (proj1 (list_elem_of_In _ _) Hm))). simpl in Hf. bool_prop. congruence.
  - assert (NoDup (map nc_ID (Nodes (normalize c)))) as Hnd by (simpl; by rewrite map_map).
    split.
    + intros [H1 _]%find_some. by apply list_elem_of_In.
    + intros Hn. generalize dependent (Nodes (normalize c)). clear.
      induction l as [|m l IH]; simpl; intros Hnd Hn; [by apply not_elem_of_nil in Hn|].
      apply NoDup_cons in Hnd as [Hm Hnd]. apply elem_of_cons in Hn as [->|Hn].
      * by rewrite Z.eqb_refl.
      * destruct (nc_ID m =? nc_ID n)%Z eqn:E; [|auto]. bool_prop. exfalso. apply Hm.
        rewrite E. by apply list_elem_of_fmap_2.
Qed.

End Properties.

(** ** Witnesses

    Concrete tables and constants, and the two-node deployment of the README
    with untrimmed fields. *)

Definition ascii_tables : UnicodeTables := {| unicode_lower r := r; unicode_print _ := true |}.
Definition sample_xtlog : XtLog :=
  {| FileSizeMin := 1024; FileSizeMax := 67108864; LevelNone := 0; LevelError := 1; LevelWarn := 2;
     LevelDebug := 3 |}.

Section Samples.
#[local] Existing Instance ascii_tables.
#[local] Existing Instance sample_xtlog.

Definition sample_node (id : Z) (addr dir level : string) (svcs : list ServiceConfig) : NodeConfig :=
  mkNodeConfig id addr 3000000000 (Some (mkLoggerConfig dir level 67108864 true true)) svcs.

Definition sample_config : Config :=
  mkConfig 1
    [sample_node 1 " 127.0.0.1:7001" "./logs/node_1/" "DEBUG" [mkServiceConfig "center " 1 None []];
     sample_node 2 "127.0.0.1:7002" "./logs/node_2" " debug"
       [mkServiceConfig "room" 1 None []; mkServiceConfig "room" 2 (Some (mkLoopConfig 10000 true)) []]].

Definition sample_valid : Config := normalize sample_config.

Lemma sample_validates : Validate (Some sample_config) = (Some sample_valid, None).
Proof. vm_compute. reflexivity. Qed.

Lemma validate_accepts_exactly_witness :
  (Validate (Some sample_config) = (Some sample_valid, None) <->
     sample_valid = normalize sample_config /\ accepts sample_config) /\
  exists c' e, Validate (Some (mkConfig 3 (Nodes sample_config))) = (c', Some e).
Proof.
  split; [apply (validate_accepts_exactly sample_config)|].
  apply (validate_accepts_exactly (mkConfig 3 (Nodes sample_config))).
  intros (_ & _ & _ & _ & _ & _ & Hin). simpl in Hin.
  rewrite !elem_of_cons, elem_of_nil in Hin. naive_solver.
Defined.

Lemma sample_stable : loggers_stable sample_config.
Proof.
  intros n lg Hn Hlg. simpl in Hn. rewrite !elem_of_cons, elem_of_nil in Hn.
  destruct Hn as [->|[->|[]]]; injection Hlg as <-; split; try (vm_compute; reflexivity);
    unfold levels; rewrite !elem_of_cons; right; right; right; left; vm_compute; reflexivity.
Qed.

Lemma validate_twice_witness : Validate (Some sample_valid) = (Some sample_valid, None).
Proof.
  exact (validate_twice sample_config sample_valid sample_stable sample_validates).
Defined.

Definition sample_second : NodeConfig :=
  normalize_node (sample_node 2 "127.0.0.1:7002" "./logs/node_2" " debug"
    [mkServiceConfig "room" 1 None []; mkServiceConfig "room" 2 (Some (mkLoopConfig 10000 true)) []]).

Lemma validated_nodes_are_found_witness :
  is_Some (Node (Some sample_valid) (MainNode sample_valid)) /\
  (Node (Some sample_valid) (nc_ID sample_second) = Some sample_second <->
   sample_second ∈ Nodes sample_valid).
Proof.
  apply (validated_nodes_are_found sample_config sample_valid sample_second).
  exact sample_validates.
Defined.

Definition spaced_dirs : Config :=
  mkConfig 1 [sample_node 1 "127.0.0.1:7001" "logs /" "debug" [];
              sample_node 2 "127.0.0.1:7002" "logs" "debug" []].

(** Validating twice is not harmless in general: trimming happens before
    cleaning, so the directory "logs /" is normalized to "logs " first and to
    "logs" the second time.  Two nodes that log to "logs /" and "logs" pass
    the validation of [LoadConfig] and are then rejected by [NewNode]. *)
Theorem validate_is_not_idempotent :
  exists c c' e, Validate (Some c) = (Some c', None) /\ snd (Validate (Some c')) = Some e.
Proof.
  exists spaced_dirs, (normalize spaced_dirs).
  exists (EText (nodes_at 1 +:+ ".logger.dir " +:+ Quote "logs" +:+ " is also used by node 1")).
  split; vm_compute; reflexivity.
Qed.

End Samples.
