(* ===== verification/Service.v ===== *)
(** * Messages and factories (service.go)

    Message identifiers with their validation, the registry of service
    factories and the context a handler answers through. *)

From stdpp Require Import base tactics list gmap strings.
From Stdlib Require Import ZArith Lia.
From S2P Require Import Prelude GoString Errors Registry Config.
Local Open Scope string_scope.

(** ** Message identifiers *)

(** [serviceMessageIDKind] is a uint8; the zero value is not a kind. *)
Definition serviceMessageIDNumeric : Z := 1.
Definition serviceMessageIDString : Z := 2.
Definition maxStringMessageIDSize : Z := 256.

Record serviceMessageID := mkMessageID { kind : Z; number : Z; text : string }.

#[export] Instance serviceMessageID_eq_dec : EqDecision serviceMessageID.
Proof. solve_decision. Defined.

Definition numericServiceMessageID (value : Z) : serviceMessageID :=
  mkMessageID serviceMessageIDNumeric value "".
Definition stringServiceMessageID (value : string) : serviceMessageID :=
  mkMessageID serviceMessageIDString 0 value.

Definition invalid_message (tail : string) : error := wrapf (ESentinel ErrInvalidMessage) tail.

(** [validate]: nil or an error that wraps [ErrInvalidMessage]. *)
Definition validate_id (id : serviceMessageID) : option error :=
  if (kind id =? serviceMessageIDNumeric)%Z then
    if (number id =? 0)%Z then Some (invalid_message ": numeric message id is zero") else None
  else if (kind id =? serviceMessageIDString)%Z then
    if bool_decide (text id = "") then Some (invalid_message ": string message id is empty")
    else if (maxStringMessageIDSize <? len (text id))%Z
    then Some (invalid_message (": string message id is too long: " +:+ fmt_d (len (text id))
                                +:+ " bytes"))
    else if negb (ValidString (text id))
    then Some (invalid_message ": string message id is not valid UTF-8")
    else None
  else Some (invalid_message ": message id kind is invalid").

Definition messageID_String `{UnicodeTables} (id : serviceMessageID) : string :=
  if (kind id =? serviceMessageIDString)%Z then Quote (text id) else fmt_d (number id).

Lemma validate_id_Is id e : validate_id id = Some e -> Is e ErrInvalidMessage = true.
Proof. unfold validate_id. intros. repeat case_match; simplify_eq; done. Qed.

(** ** Factories *)

Section Factories.
Context {Factory : Type}.

Record FactoryRegistry := mkFactories { factories : gmap string Factory }.

Definition NewFactoryRegistry : FactoryRegistry := mkFactories ∅.

(** [FactoryRegistry.Register]; [None] is a nil factory. *)
Definition RegisterFactory `{UnicodeTables} (name : string) (factory : option Factory)
    (r : FactoryRegistry) : FactoryRegistry * option error :=
  match factory with
  | None => (r, Some (EText "service name and factory are required"))
  | Some f =>
      if bool_decide (name = "") then (r, Some (EText "service name and factory are required"))
      else match factories r !! name with
           | Some _ => (r, Some (EText ("service factory " +:+ Quote name +:+ " already registered")))
           | None => (mkFactories (<[name := f]> (factories r)), None)
           end
  end.

(** The same on the registry of the process. *)
Definition RegisterServiceFactory `{UnicodeTables} (name : string) (factory : option Factory)
    (defaultFactories : FactoryRegistry) : FactoryRegistry * option error :=
  RegisterFactory name factory defaultFactories.

(** [FactoryRegistry.Get] *)
Definition GetFactory (name : string) (r : FactoryRegistry) : option Factory := factories r !! name.

End Factories.
Arguments FactoryRegistry : clear implicits.

(** ** Contexts *)

(** [respond] is absent for one-way messages and synchronous requests. *)
Record MessageContext (R : Type) := mkContext {
  source : ServiceKey;
  target : ServiceKey;
  respond : option R
}.
Arguments mkContext {R}.
Arguments source {R}.
Arguments target {R}.
Arguments respond {R}.

(** [MessageContext.Respond] runs [respond] on a state. *)
Definition Respond {S P : Type} (c : MessageContext (P -> option error -> S -> S)) (payload : P)
    (err : option error) (s : S) : S * option error :=
  match respond c with
  | None => (s, Some (EText "message context cannot respond"))
  | Some f => (f payload err s, None)
  end.
