(* ===== verification/Wire.v ===== *)
(** * The RPC wire format (rpc_wire.go, internal/rpcpb)

    The protobuf messages as records, the envelope of requests, the result of
    responses and the conversions between framework values and messages.

    Protobuf and xtnet's packets are libraries: they enter through [ProtoLib]
    and [PacketLib], and what the framework relies on is stated by the laws
    [ProtoLaws] (round trip, announced size, strings must be UTF-8) and
    [PacketLaws] (a big-endian int16, a string behind its int16 length).  A
    Go [int] has 32 or 64 bits, class [Platform]. *)

From stdpp Require Import base tactics list gmap strings.
From Stdlib Require Import ZArith Lia.
From Stdlib Require Import Strings.Byte.
From S2P Require Import Prelude GoString Errors Registry Service.
Local Open Scope string_scope.
Local Open Scope list_scope.

(** ** Messages *)

Record PbServiceKey := mkPbKey { pb_name : string; pb_id : Z }.
Record PbServiceLocation := mkPbLocation {
  pb_service_name : string;
  pb_service_id : Z;
  pb_node_id : Z;
  pb_node_addr : string
}.
Record RegisterNodeRequest := mkRegisterNode { rn_node_id : Z; rn_node_addr : string }.
Record RegisterRequest := mkRegister { rg_location : option PbServiceLocation }.
Record UnregisterRequest := mkUnregister { un_target : option PbServiceKey }.
Record LookupRequest := mkLookup { lk_target : option PbServiceKey }.
Record LookupResponse := mkLookupResponse { lr_location : option PbServiceLocation }.
Record RouteInvalidate := mkRouteInvalidate { ri_target : option PbServiceKey }.
Record SubscribeRequest := mkSubscribe {
  su_subscriber : option PbServiceKey;
  su_service_name : string
}.
Record ServiceDiscovery := mkDiscovery {
  sd_subscriber : option PbServiceKey;
  sd_service_name : string;
  sd_event_type : Z;
  sd_services : list PbServiceKey
}.
Record DeliverRequest := mkDeliver {
  dl_source : option PbServiceKey;
  dl_target : option PbServiceKey;
  dl_message_id : Z;
  dl_string_message_id : string;
  dl_payload : list byte;
  dl_mode : Z
}.
Record DeliverResponse := mkDeliverResponse { dr_payload : list byte }.

(** The message types that travel; the empty ones carry [unit]. *)
Inductive mtype :=
| TRegisterNodeRequest | TRegisterNodeResponse
| THeartbeatRequest | THeartbeatResponse
| TRegisterRequest | TRegisterResponse
| TUnregisterRequest | TUnregisterResponse
| TLookupRequest | TLookupResponse
| TRouteInvalidate
| TSubscribeRequest | TSubscribeResponse
| TServiceDiscovery
| TDeliverRequest | TDeliverResponse.

Definition msg (t : mtype) : Type :=
  match t with
  | TRegisterNodeRequest => RegisterNodeRequest
  | TRegisterRequest => RegisterRequest
  | TUnregisterRequest => UnregisterRequest
  | TLookupRequest => LookupRequest
  | TLookupResponse => LookupResponse
  | TRouteInvalidate => RouteInvalidate
  | TSubscribeRequest => SubscribeRequest
  | TServiceDiscovery => ServiceDiscovery
  | TDeliverRequest => DeliverRequest
  | TDeliverResponse => DeliverResponse
  | _ => unit
  end.

(** ** Operations, modes and event types *)

Definition opNone : Z := 0.
Definition opRegisterNode : Z := 1.
Definition opRegister : Z := 2.
Definition opUnregister : Z := 3.
Definition opLookup : Z := 4.
Definition opDeliver : Z := 5.
Definition opRouteInvalidate : Z := 6.
Definition opHeartbeat : Z := 7.
Definition opSubscribe : Z := 8.
Definition opServiceDiscovery : Z := 9.

Definition deliverRequestModeDirect : Z := 1.
Definition deliverRequestModeSync : Z := 2.
Definition deliverRequestModeAsync : Z := 3.

Definition eventSnapshot : Z := 1.
Definition eventOnline : Z := 2.
Definition eventOffline : Z := 3.

(** The generated [String] methods: the declared name, or the number. *)
Definition mode_String (m : Z) : string :=
  if (m =? 0)%Z then "DELIVER_REQUEST_MODE_UNSPECIFIED"
  else if (m =? 1)%Z then "DELIVER_REQUEST_MODE_DIRECT"
  else if (m =? 2)%Z then "DELIVER_REQUEST_MODE_SYNC"
  else if (m =? 3)%Z then "DELIVER_REQUEST_MODE_ASYNC"
  else fmt_d m.

Definition event_String (m : Z) : string :=
  if (m =? 0)%Z then "SERVICE_DISCOVERY_EVENT_TYPE_UNSPECIFIED"
  else if (m =? 1)%Z then "SERVICE_DISCOVERY_EVENT_TYPE_SNAPSHOT"
  else if (m =? 2)%Z then "SERVICE_DISCOVERY_EVENT_TYPE_ONLINE"
  else if (m =? 3)%Z then "SERVICE_DISCOVERY_EVENT_TYPE_OFFLINE"
  else fmt_d m.

(** ** The libraries *)

Class Platform := {
  int_bits : Z;
  int_bits_ok : int_bits = 32%Z \/ int_bits = 64%Z
}.

Class ProtoLib := {
  proto_Size : forall t, msg t -> Z;
  proto_Marshal : forall t, msg t -> res (list byte);
  proto_Unmarshal : forall t, list byte -> res (msg t)
}.

(** The string fields of a message. *)
Definition key_strings (k : option PbServiceKey) : list string :=
  match k with Some k => [pb_name k] | None => [] end.
Definition location_strings (l : option PbServiceLocation) : list string :=
  match l with Some l => [pb_service_name l; pb_node_addr l] | None => [] end.

Definition strings_of (t : mtype) : msg t -> list string :=
  match t with
  | TRegisterNodeRequest => fun m => [rn_node_addr m]
  | TRegisterRequest => fun m => location_strings (rg_location m)
  | TUnregisterRequest => fun m => key_strings (un_target m)
  | TLookupRequest => fun m => key_strings (lk_target m)
  | TLookupResponse => fun m => location_strings (lr_location m)
  | TRouteInvalidate => fun m => key_strings (ri_target m)
  | TSubscribeRequest => fun m => su_service_name m :: key_strings (su_subscriber m)
  | TServiceDiscovery => fun m =>
      sd_service_name m :: key_strings (sd_subscriber m) ++ map pb_name (sd_services m)
  | TDeliverRequest => fun m =>
      dl_string_message_id m :: key_strings (dl_source m) ++ key_strings (dl_target m)
  | _ => fun _ => []
  end.

Class ProtoLaws `{ProtoLib} := {
  proto_roundtrip : forall t m b, proto_Marshal t m = Ok b -> proto_Unmarshal t b = Ok m;
  proto_size : forall t m b, proto_Marshal t m = Ok b -> Z.of_nat (length b) = proto_Size t m;
  proto_total : forall t m, forallb ValidString (strings_of t m) = true ->
    exists b, proto_Marshal t m = Ok b
}.

(** A packet is the bytes from the read position on. *)
Class PacketLib := {
  WriteInt16 : Z -> list byte;
  WriteString : string -> list byte;
  PeakInt16 : list byte -> Z;
  ReadString : list byte -> string * list byte
}.

Definition maxRPCStringSize : Z := 2 ^ 15 - 1.

Class PacketLaws `{PacketLib} := {
  WriteInt16_length : forall v, length (WriteInt16 v) = 2%nat;
  PeakInt16_range : forall b, in_signed 16 (PeakInt16 b);
  PeakInt16_write : forall v r, in_signed 16 v -> PeakInt16 (WriteInt16 v ++ r) = v;
  WriteString_layout : forall s, (len s <= maxRPCStringSize)%Z ->
    WriteString s = WriteInt16 (len s) ++ String.list_byte_of_string s;
  ReadString_write : forall s r, (len s <= maxRPCStringSize)%Z ->
    ReadString (WriteString s ++ r) = (s, r)
}.

(** A Go value of type [operationProtocol]: a nil interface, a nil message or
    a message. *)
Inductive protocol :=
| NilInterface
| NilMessage
| Message (t : mtype) (m : msg t).

Definition size_changed (got want : Z) : error :=
  EText ("protobuf size changed during marshal: got " +:+ fmt_d got +:+ ", want " +:+ fmt_d want).

Section Wire.
Context `{Platform} `{ProtoLib} `{PacketLib}.

(** ** Envelopes *)

Definition encodeEnvelope (op : Z) (message : protocol) : res (list byte) :=
  match message with
  | NilInterface | NilMessage => Err (EText "encode rpc operation payload: message is nil")
  | Message t m =>
      try data <- proto_Marshal t m in
      if (Z.of_nat (length data) =? proto_Size t m)%Z
      then Ok (WriteInt16 (wrap_signed 16 op) ++ data)
      else Err (size_changed (Z.of_nat (length data)) (proto_Size t m))
  end.

Definition decodeEnvelope (rpk : list byte) : res (Z * list byte) :=
  if (Z.of_nat (length rpk) <? 2)%Z
  then Err (EText "decode rpc envelope: missing operation")
  else Ok (PeakInt16 rpk, drop 2 rpk).

Definition decodeOperationPayload (t : mtype) (payload : list byte) : res (msg t) :=
  res_map_err (prefixf "decode rpc payload: ") (proto_Unmarshal t payload).

(** ** Results *)

Definition encodeResult (code errMessage : string) (message : protocol) : res (list byte) :=
  if (maxRPCStringSize <? len code)%Z
  then Err (EText ("encode rpc result: code is too long: " +:+ fmt_d (len code)))
  else if (maxRPCStringSize <? len errMessage)%Z
  then Err (EText ("encode rpc result: error message is too long: " +:+ fmt_d (len errMessage)))
  else
    let head := WriteString code ++ WriteString errMessage in
    match message with
    | NilInterface => Ok head
    | NilMessage => Err (EText "encode rpc result: message is nil")
    | Message t m =>
        try data <- res_map_err (prefixf "encode rpc result: ") (proto_Marshal t m) in
        if (Z.of_nat (length data) =? proto_Size t m)%Z then Ok (head ++ data)
        else Err (size_changed (Z.of_nat (length data)) (proto_Size t m))
    end.

Definition readResultString (rpk : list byte) (name : string) : res (string * list byte) :=
  if (Z.of_nat (length rpk) <? 2)%Z
  then Err (EText ("decode rpc result: missing " +:+ name +:+ " length"))
  else
    let size := PeakInt16 rpk in
    if (size <? 0)%Z
    then Err (EText ("decode rpc result: invalid " +:+ name +:+ " length " +:+ fmt_d size))
    else if (Z.of_nat (length rpk) <? size + 2)%Z
    then Err (EText ("decode rpc result: incomplete " +:+ name))
    else Ok (ReadString rpk).

(** The sentinel a code stands for. *)
Definition code_cause (code : string) : option sentinel :=
  if bool_decide (code = "service_not_found") then Some ErrServiceNotFound
  else if bool_decide (code = "service_exists") then Some ErrServiceExists
  else if bool_decide (code = "node_not_found") then Some ErrNodeNotFound
  else if bool_decide (code = "node_exists") then Some ErrNodeExists
  else if bool_decide (code = "invalid_message") then Some ErrInvalidMessage
  else None.

Definition decodeResult (rpk : list byte) : res (list byte) :=
  try r1 <- readResultString rpk "code" in
  let '(code, rpk) := r1 in
  try r2 <- readResultString rpk "error message" in
  let '(errMessage, rpk) := r2 in
  if bool_decide (code <> "") then
    match code_cause code with
    | Some cause => Err (wrapf (ESentinel cause) (": remote rpc: " +:+ errMessage))
    | None => Err (EText ("remote rpc: " +:+ errMessage))
    end
  else Ok rpk.

Definition decodeResultPayload (t : mtype) (payload : list byte) : res (msg t) :=
  res_map_err (prefixf "decode rpc operation result: ") (proto_Unmarshal t payload).

(** The switch of [respondRPCError] in node.go. *)
Definition error_code (e : error) : string :=
  if Is e ErrServiceNotFound then "service_not_found"
  else if Is e ErrServiceExists then "service_exists"
  else if Is e ErrNodeNotFound then "node_not_found"
  else if Is e ErrNodeExists then "node_exists"
  else if Is e ErrInvalidMessage then "invalid_message"
  else "rpc_error".

(** The packet [respondRPCError] sends, or the error it reports instead. *)
Definition encodeError (e : option error) : res (list byte) :=
  match e with
  | Some e => encodeResult (error_code e) (Error e) NilInterface
  | None => encodeResult "" "" NilInterface
  end.

(** ** Conversions *)

Definition rpcInt (value : Z) (name : string) : res Z :=
  let converted := wrap_signed int_bits value in
  if (converted =? value)%Z then Ok converted
  else Err (EText (name +:+ " " +:+ fmt_d value +:+ " overflows int")).

Definition serviceKeyToProto (key : ServiceKey) : PbServiceKey := mkPbKey (Name key) (ID key).

Definition serviceKeyFromProto (key : option PbServiceKey) : res ServiceKey :=
  match key with
  | None => Err (EText "service key is missing")
  | Some key => try id <- rpcInt (pb_id key) "service id" in Ok (mkServiceKey (pb_name key) id)
  end.

Definition serviceLocationToProto (l : ServiceLocation) : PbServiceLocation :=
  mkPbLocation (ServiceName l) (ServiceID l) (NodeID l) (NodeAddr l).

Definition serviceLocationFromProto (l : option PbServiceLocation) : res ServiceLocation :=
  match l with
  | None => Err (EText "service location is missing")
  | Some l =>
      try serviceID <- rpcInt (pb_service_id l) "service id" in
      try nodeID <- rpcInt (pb_node_id l) "node id" in
      Ok (mkServiceLocation (pb_service_name l) serviceID nodeID (pb_node_addr l))
  end.

(** Keys and locations that must be present and valid (node.go). *)
Definition valid_key (k : ServiceKey) : bool := negb (bool_decide (Name k = "") || (ID k <=? 0)%Z).

Definition requiredRPCServiceKey (message : option PbServiceKey) (name : string) : res ServiceKey :=
  try key <- res_map_err (prefixf (name +:+ ": ")) (serviceKeyFromProto message) in
  if bool_decide (Name key = "") || (ID key <=? 0)%Z
  then Err (EText (name +:+ " is invalid: " +:+ ServiceKey_String key))
  else Ok key.

Fixpoint required_keys (keys : list PbServiceKey) (name : string) (i : Z) : res (list ServiceKey) :=
  match keys with
  | [] => Ok []
  | message :: rest =>
      try key <- requiredRPCServiceKey (Some message) (name +:+ "[" +:+ fmt_d i +:+ "]") in
      try rest <- required_keys rest name (i + 1) in
      Ok (key :: rest)
  end.

Definition requiredRPCServiceKeys (keys : list PbServiceKey) (name : string)
    : res (list ServiceKey) := required_keys keys name 0.

Definition requiredRPCServiceLocation (message : option PbServiceLocation) (name : string)
    : res ServiceLocation :=
  try l <- res_map_err (prefixf (name +:+ ": ")) (serviceLocationFromProto message) in
  if bool_decide (ServiceName l = "") || (ServiceID l <=? 0)%Z || (NodeID l <=? 0)%Z
     || bool_decide (NodeAddr l = "")
  then Err (EText (name +:+ " is invalid: " +:+ fmt_location l))
  else Ok l.

Definition rpcNodeID (value : Z) : res Z :=
  try nodeID <- rpcInt value "node id" in
  if (nodeID <=? 0)%Z then Err (EText "node id must be positive") else Ok nodeID.

Definition rpcInvalidMessage (e : error) : error :=
  wrapf (ESentinel ErrInvalidMessage) (": rpc protocol: " +:+ Error e).

(** ** Deliver requests *)

(** The object a new [deliverSendRequestPool] entry is. *)
Definition blankDeliver : DeliverRequest :=
  mkDeliver (Some (mkPbKey "" 0)) (Some (mkPbKey "" 0)) 0 "" [] 0.

(** Filling a request in place: the nested keys are overwritten, and only the
    field of the identifier's kind is set. [None] stands for the nil-pointer
    panic of a request without nested keys. *)
Definition initializeDeliverRequest (request : DeliverRequest) (source target : ServiceKey)
    (messageID : serviceMessageID) (payload : list byte) (mode : Z) : option DeliverRequest :=
  match dl_source request, dl_target request with
  | Some _, Some _ =>
      Some (mkDeliver (Some (mkPbKey (Name source) (ID source)))
              (Some (mkPbKey (Name target) (ID target)))
              (if (kind messageID =? serviceMessageIDString)%Z then dl_message_id request
               else number messageID)
              (if (kind messageID =? serviceMessageIDString)%Z then text messageID
               else dl_string_message_id request)
              payload mode)
  | _, _ => None
  end.

(** [releaseDeliverSendRequest]: reset the request and its nested keys, which
    are kept or made anew. *)
Definition releaseDeliverSendRequest (request : DeliverRequest) : DeliverRequest :=
  let source := match dl_source request with Some _ => mkPbKey "" 0 | None => mkPbKey "" 0 end in
  let target := match dl_target request with Some _ => mkPbKey "" 0 | None => mkPbKey "" 0 end in
  mkDeliver (Some source) (Some target) 0 "" [] 0.

Definition decodeDeliverRequest (request : DeliverRequest)
    : res (ServiceKey * ServiceKey * serviceMessageID * Z) :=
  try source <- res_map_err (prefixf "deliver source: ") (serviceKeyFromProto (dl_source request)) in
  if negb (bool_decide (source = zeroServiceKey))
     && (bool_decide (Name source = "") || (ID source <=? 0)%Z)
  then Err (EText ("deliver source is invalid: " +:+ ServiceKey_String source))
  else
    try target <- requiredRPCServiceKey (dl_target request) "deliver target" in
    if negb (dl_message_id request =? 0)%Z && negb (bool_decide (dl_string_message_id request = ""))
    then Err (EText "deliver contains both numeric and string message ids")
    else
      let messageID :=
        if bool_decide (dl_string_message_id request = "")
        then numericServiceMessageID (dl_message_id request)
        else stringServiceMessageID (dl_string_message_id request) in
      match validate_id messageID with
      | Some e => Err (prefixf "deliver message id: " e)
      | None =>
          let mode := dl_mode request in
          if (mode =? deliverRequestModeDirect)%Z || (mode =? deliverRequestModeSync)%Z
             || (mode =? deliverRequestModeAsync)%Z
          then Ok (source, target, messageID, mode)
          else Err (EText ("deliver mode " +:+ fmt_d mode +:+ " is invalid"))
      end.

End Wire.

(** ** Laws of the conversions *)

Section Conversions.
Context `{Platform}.

Lemma int_bits_pos : (0 < int_bits)%Z.
Proof. destruct int_bits_ok as [->| ->]; lia. Qed.

(** Every Go int is an int64. *)
Lemma int_is_int64 v : in_signed int_bits v -> in_signed 64 v.
Proof. unfold in_signed. destruct int_bits_ok as [->| ->]; simpl; lia. Qed.

Lemma rpcInt_Ok v name w : rpcInt v name = Ok w <-> w = v /\ in_signed int_bits v.
Proof.
  unfold rpcInt. cbv zeta. split.
  - intros Hr. inv_res. bool_prop. split; [congruence|].
    rewrite <- Hb. apply wrap_signed_range, int_bits_pos.
  - intros [-> Hv]. rewrite wrap_signed_id by auto using int_bits_pos. by rewrite Z.eqb_refl.
Qed.

Lemma valid_key_spec k : valid_key k = true <-> Name k <> "" /\ (0 < ID k)%Z.
Proof.
  unfold valid_key. rewrite negb_true_iff, orb_false_iff, bool_decide_eq_false, Z.leb_gt. done.
Qed.

Lemma serviceKeyFromProto_Ok k key :
  serviceKeyFromProto (Some k) = Ok key <->
  key = mkServiceKey (pb_name k) (pb_id k) /\ in_signed int_bits (pb_id k).
Proof.
  unfold serviceKeyFromProto. rewrite res_bind_Ok. setoid_rewrite rpcInt_Ok. naive_solver.
Qed.

Lemma requiredRPCServiceKey_Ok m name key :
  requiredRPCServiceKey m name = Ok key <->
  m = Some (serviceKeyToProto key) /\ valid_key key = true /\ in_signed int_bits (ID key).
Proof.
  unfold requiredRPCServiceKey. split.
  - intros Hr. inv_res. subst. destruct m as [m|]; [|done].
    apply serviceKeyFromProto_Ok in Ha as [-> Hi]. unfold valid_key. rewrite Hb.
    by destruct m.
  - intros (-> & Hv & Hi).
    assert (serviceKeyFromProto (Some (serviceKeyToProto key)) = Ok key) as ->
      by (apply serviceKeyFromProto_Ok; by destruct key).
    simpl. unfold valid_key in Hv. apply negb_true_iff in Hv. by rewrite Hv.
Qed.

(** What a decoded deliver request can be. *)
Lemma decodeDeliverRequest_Ok request source target id mode :
  decodeDeliverRequest request = Ok (source, target, id, mode) ->
  (source = zeroServiceKey \/ valid_key source = true) /\ valid_key target = true /\ validate_id id = None.
Proof.
  unfold decodeDeliverRequest. intros Hd. apply res_bind_Ok in Hd as (src & _ & Hd).
  destruct (negb _ && _) eqn:Es; [done|]. apply res_bind_Ok in Hd as (tgt & Ht & Hd).
  destruct (negb _ && negb _); [done|]. cbv zeta in Hd.
  revert Hd. set (x := if bool_decide _ then _ else _). destruct (validate_id x) eqn:Ev; [done|].
  destruct (_ || _ || _); [|done]. intros [= -> -> <- _]. split_and!; [| |done].
  - unfold valid_key. apply andb_false_iff in Es as [Es|Es]; [left; by bool_prop|right; by rewrite Es].
  - by apply requiredRPCServiceKey_Ok in Ht as (_ & ? & _).
Qed.

Lemma requiredRPCServiceKeys_Ok keys name :
  Forall (fun k => valid_key k = true /\ in_signed int_bits (ID k)) keys ->
  requiredRPCServiceKeys (map serviceKeyToProto keys) name = Ok keys.
Proof.
  unfold requiredRPCServiceKeys. generalize 0%Z.
  induction keys as [|k keys IH]; intros i Hk; simpl; [done|].
  inversion Hk as [|? ? [Hv Hi]]; subst.
  rewrite (proj2 (requiredRPCServiceKey_Ok _ _ k)) by done. simpl. by rewrite IH.
Qed.

Lemma requiredRPCServiceLocation_Ok m name l :
  requiredRPCServiceLocation m name = Ok l <->
  m = Some (serviceLocationToProto l) /\ valid_location l = true /\
  in_signed int_bits (ServiceID l) /\ in_signed int_bits (NodeID l).
Proof.
  unfold requiredRPCServiceLocation. split.
  - intros Hr. inv_res. subst. destruct m as [m|]; [|done]. simpl in Ha. inv_res. subst.
    apply rpcInt_Ok in Ha0 as [-> ?], Ha1 as [-> ?]. unfold valid_location. rewrite Hb.
    by destruct m.
  - intros (-> & Hv & H1 & H2). unfold serviceLocationFromProto, serviceLocationToProto; simpl.
    rewrite !(proj2 (rpcInt_Ok _ _ _)) by done. simpl.
    unfold valid_location in Hv. apply negb_true_iff in Hv. rewrite Hv. by destruct l.
Qed.

End Conversions.

(** ** Laws of the packets *)

Section Packets.
Context `{ProtoLib} `{!ProtoLaws} `{PacketLib} `{!PacketLaws}.

Lemma encodeEnvelope_Ok op t m pkt :
  encodeEnvelope op (Message t m) = Ok pkt <->
  exists data, proto_Marshal t m = Ok data /\ pkt = WriteInt16 (wrap_signed 16 op) ++ data.
Proof.
  unfold encodeEnvelope. rewrite res_bind_Ok. split; intros (data & Hm & Hr); exists data.
  - inv_res. done.
  - rewrite (proto_size _ _ _ Hm), Z.eqb_refl. naive_solver.
Qed.

Lemma encodeEnvelope_total op t m :
  forallb ValidString (strings_of t m) = true -> exists pkt, encodeEnvelope op (Message t m) = Ok pkt.
Proof.
  intros (data & Hd)%proto_total. eexists. apply encodeEnvelope_Ok. eauto.
Qed.

Lemma decode_encodeEnvelope op t m pkt :
  in_signed 16 op -> encodeEnvelope op (Message t m) = Ok pkt ->
  exists payload, decodeEnvelope pkt = Ok (op, payload) /\ decodeOperationPayload t payload = Ok m.
Proof.
  intros Hop (data & Hm & ->)%encodeEnvelope_Ok. exists data.
  unfold decodeEnvelope, decodeOperationPayload.
  rewrite length_app, WriteInt16_length, (proj2 (Z.ltb_ge _ _)) by lia.
  rewrite wrap_signed_id, PeakInt16_write by (done || lia). split.
  - do 2 f_equal. rewrite drop_app_ge; rewrite WriteInt16_length; [done|lia].
  - by rewrite (proto_roundtrip _ _ _ Hm).
Qed.

Lemma readResultString_write s name r :
  (len s <= maxRPCStringSize)%Z -> readResultString (WriteString s ++ r) name = Ok (s, r).
Proof.
  intros Hs. unfold readResultString. rewrite ReadString_write by done.
  rewrite WriteString_layout by done. rewrite <- app_assoc.
  assert (Z.of_nat (length (String.list_byte_of_string s)) = len s) as Hl.
  { unfold len. f_equal. clear. induction s; simpl; auto. }
  assert (0 <= len s)%Z by (unfold len; lia). unfold maxRPCStringSize in Hs.
  rewrite !length_app, WriteInt16_length, PeakInt16_write by (unfold in_signed; lia).
  rewrite !(proj2 (Z.ltb_ge _ _)) by lia. done.
Qed.

Lemma decodeResult_head code msg r :
  (len code <= maxRPCStringSize)%Z -> (len msg <= maxRPCStringSize)%Z ->
  decodeResult ((WriteString code ++ WriteString msg) ++ r) =
  if bool_decide (code <> "") then
    match code_cause code with
    | Some cause => Err (wrapf (ESentinel cause) (": remote rpc: " +:+ msg))
    | None => Err (EText ("remote rpc: " +:+ msg))
    end
  else Ok r.
Proof.
  intros. unfold decodeResult. rewrite <- app_assoc.
  rewrite readResultString_write by done. simpl. by rewrite readResultString_write.
Qed.

Lemma encodeResult_message t m pkt :
  encodeResult "" "" (Message t m) = Ok pkt ->
  exists payload, decodeResult pkt = Ok payload /\ decodeResultPayload t payload = Ok m.
Proof.
  unfold encodeResult. intros Hr. simpl in Hr. inv_res. subst.
  eexists. rewrite decodeResult_head by done. split; [done|].
  unfold decodeResultPayload. by rewrite (proto_roundtrip _ _ _ Ha).
Qed.

Lemma encodeResult_total t m :
  forallb ValidString (strings_of t m) = true ->
  exists pkt, encodeResult "" "" (Message t m) = Ok pkt.
Proof.
  intros (data & Hd)%proto_total. unfold encodeResult. simpl. rewrite Hd. simpl.
  rewrite (proto_size _ _ _ Hd), Z.eqb_refl. eauto.
Qed.

End Packets.

(** The sentinels that have a code, in the order of the switch. *)
Definition wire_sentinels : list sentinel :=
  [ErrServiceNotFound; ErrServiceExists; ErrNodeNotFound; ErrNodeExists; ErrInvalidMessage].

Lemma error_code_cause e :
  error_code e <> "" /\ (len (error_code e) <= maxRPCStringSize)%Z /\
  code_cause (error_code e) = find (Is e) wire_sentinels.
Proof. unfold error_code. simpl. repeat case_match; done. Qed.
