(* ===== verification/WireInstances.v ===== *)
(** * Concrete libraries for the wire

    Instances of [Platform], [PacketLib] and [ProtoLib] with their laws, used
    to evaluate the model on concrete inputs and to show that the laws can
    hold.  The packet functions are the big-endian layout the framework asks
    xtnet for; the message encoding is an arbitrary injective one, since the
    development never depends on protobuf's. *)

From stdpp Require Import base tactics list gmap strings countable.
From Stdlib Require Import ZArith Lia Strings.Byte.
From S2P Require Import Prelude GoString Errors Registry Service Wire.
Local Open Scope Z_scope.

#[export] Instance platform64 : Platform := {| int_bits := 64; int_bits_ok := or_intror eq_refl |}.

(** ** Packets *)

Definition byte_of (z : Z) : byte := default x00 (Byte.of_N (Z.to_N (z `mod` 256))).
Definition of_byte (b : byte) : Z := Z.of_N (Byte.to_N b).

Lemma of_byte_of z : of_byte (byte_of z) = z `mod` 256.
Proof.
  unfold of_byte, byte_of. pose proof (Z.mod_pos_bound z 256 eq_refl) as Hz.
  destruct (Byte.of_N (Z.to_N (z `mod` 256))) as [b|] eqn:E; simpl.
  - apply Byte.to_of_N in E. rewrite E. lia.
  - apply Byte.of_N_None_iff in E. lia.
Qed.

Definition be16 (v : Z) : list byte := [byte_of (v / 256); byte_of v].

Definition peak16 (b : list byte) : Z :=
  match b with
  | h :: l :: _ => wrap_signed 16 (256 * of_byte h + of_byte l)
  | _ => 0
  end.

#[export] Instance big_endian_packets : PacketLib := {
  WriteInt16 := be16;
  WriteString s := be16 (len s) ++ String.list_byte_of_string s;
  PeakInt16 := peak16;
  ReadString b :=
    let n := Z.to_nat (peak16 b) in
    (String.string_of_list_byte (take n (drop 2 b)), drop n (drop 2 b))
}.

Lemma peak16_be16 v r : in_signed 16 v -> peak16 (be16 v ++ r) = v.
Proof.
  intros Hv. unfold be16; simpl. rewrite !of_byte_of. unfold in_signed in Hv. unfold wrap_signed.
  change (2 ^ (16 - 1)) with 32768 in *. change (2 ^ 16) with 65536.
  assert (256 * ((v / 256) `mod` 256) + v `mod` 256 = v `mod` 65536) as ->.
  { change 65536 with (256 * 256). rewrite (Z.rem_mul_r v 256 256) by lia. lia. }
  rewrite Zplus_mod_idemp_l. rewrite Z.mod_small; lia.
Qed.

#[export, refine] Instance big_endian_laws : PacketLaws := {}.
Proof.
  - done.
  - intros b. simpl. unfold peak16. destruct b as [|h [|l b]]; try (unfold in_signed; lia).
    by apply wrap_signed_range.
  - intros v r Hv. by apply peak16_be16.
  - done.
  - intros s r Hs. cbn [ReadString WriteString big_endian_packets]. rewrite <- app_assoc.
    assert (length (String.list_byte_of_string s) = Z.to_nat (len s)) as Hl
      by (unfold len; rewrite Nat2Z.id; clear; induction s; simpl; auto).
    rewrite peak16_be16 by (unfold in_signed, maxRPCStringSize, len in *; lia).
    cbv zeta. change (drop 2 (be16 (len s) ++ ?x)) with x.
    rewrite take_app_length', drop_app_length' by done.
    by rewrite String.string_of_list_byte_of_string.
Defined.

(** ** Messages *)

#[export] Instance byte_eq_dec : EqDecision byte := Byte.byte_eq_dec.
#[export] Instance byte_countable : Countable byte.
Proof. by refine (inj_countable Byte.to_N Byte.of_N Byte.of_to_N). Defined.

#[export] Instance PbServiceKey_eq_dec : EqDecision PbServiceKey.
Proof. solve_decision. Defined.
#[export] Instance PbServiceKey_countable : Countable PbServiceKey.
Proof. refine (inj_countable' (fun k => (pb_name k, pb_id k)) (fun p => mkPbKey p.1 p.2) _). by intros []. Defined.
#[export] Instance PbServiceLocation_eq_dec : EqDecision PbServiceLocation.
Proof. solve_decision. Defined.
#[export] Instance PbServiceLocation_countable : Countable PbServiceLocation.
Proof.
  refine (inj_countable' (fun l => (pb_service_name l, pb_service_id l, pb_node_id l, pb_node_addr l))
    (fun p => mkPbLocation p.1.1.1 p.1.1.2 p.1.2 p.2) _). by intros [].
Defined.

(** The fields of a message as a tuple of countable data. *)
Definition fields (t : mtype) : Type :=
  match t with
  | TRegisterNodeRequest => Z * string
  | TRegisterRequest | TLookupResponse => option PbServiceLocation
  | TUnregisterRequest | TLookupRequest | TRouteInvalidate => option PbServiceKey
  | TSubscribeRequest => option PbServiceKey * string
  | TServiceDiscovery => option PbServiceKey * string * Z * list PbServiceKey
  | TDeliverRequest =>
      option PbServiceKey * option PbServiceKey * Z * string * list byte * Z
  | TDeliverResponse => list byte
  | _ => unit
  end.

Definition to_fields (t : mtype) : msg t -> fields t :=
  match t with
  | TRegisterNodeRequest => fun m => (rn_node_id m, rn_node_addr m)
  | TRegisterRequest => rg_location
  | TLookupResponse => lr_location
  | TUnregisterRequest => un_target
  | TLookupRequest => lk_target
  | TRouteInvalidate => ri_target
  | TSubscribeRequest => fun m => (su_subscriber m, su_service_name m)
  | TServiceDiscovery => fun m => (sd_subscriber m, sd_service_name m, sd_event_type m, sd_services m)
  | TDeliverRequest => fun m =>
      (dl_source m, dl_target m, dl_message_id m, dl_string_message_id m, dl_payload m, dl_mode m)
  | TDeliverResponse => dr_payload
  | _ => fun m => m
  end.

Definition of_fields (t : mtype) : fields t -> msg t :=
  match t with
  | TRegisterNodeRequest => fun p => mkRegisterNode p.1 p.2
  | TRegisterRequest => mkRegister
  | TLookupResponse => mkLookupResponse
  | TUnregisterRequest => mkUnregister
  | TLookupRequest => mkLookup
  | TRouteInvalidate => mkRouteInvalidate
  | TSubscribeRequest => fun p => mkSubscribe p.1 p.2
  | TServiceDiscovery => fun p => mkDiscovery p.1.1.1 p.1.1.2 p.1.2 p.2
  | TDeliverRequest => fun p => mkDeliver p.1.1.1.1.1 p.1.1.1.1.2 p.1.1.1.2 p.1.1.2 p.1.2 p.2
  | TDeliverResponse => mkDeliverResponse
  | _ => fun m => m
  end.

Lemma of_to_fields t m : of_fields t (to_fields t m) = m.
Proof. destruct t; destruct m; reflexivity. Qed.

#[export] Instance fields_eq_dec t : EqDecision (fields t).
Proof. destruct t; apply _. Defined.
#[export] Instance fields_countable t : Countable (fields t).
Proof. destruct t; simpl; apply _. Defined.

Fixpoint pos_bytes (p : positive) : list byte :=
  match p with
  | xH => []
  | xO p => x00 :: pos_bytes p
  | xI p => x01 :: pos_bytes p
  end.

Fixpoint bytes_pos (l : list byte) : positive :=
  match l with
  | [] => xH
  | x00 :: l => xO (bytes_pos l)
  | _ :: l => xI (bytes_pos l)
  end.

Lemma bytes_pos_bytes p : bytes_pos (pos_bytes p) = p.
Proof. induction p; simpl; congruence. Qed.

Definition plain_bytes (t : mtype) (m : msg t) : list byte := pos_bytes (encode (to_fields t m)).

#[export] Instance plain_messages : ProtoLib := {
  proto_Size t m := Z.of_nat (length (plain_bytes t m));
  proto_Marshal t m :=
    if forallb ValidString (strings_of t m) then Ok (plain_bytes t m)
    else Err (EText "string field contains invalid UTF-8");
  proto_Unmarshal t b :=
    match decode (A := fields t) (bytes_pos b) with
    | Some f => Ok (of_fields t f)
    | None => Err (EText "cannot parse invalid wire-format data")
    end
}.

#[export, refine] Instance plain_message_laws : ProtoLaws := {}.
Proof.
  - intros t m b. simpl. destruct (forallb _ _); [|done]. intros [= <-].
    unfold plain_bytes. rewrite bytes_pos_bytes, decode_encode. by rewrite of_to_fields.
  - intros t m b. simpl. destruct (forallb _ _); [|done]. by intros [= <-].
  - intros t m Hv. simpl. rewrite Hv. eauto.
Defined.
