(* ===== verification/WireTheorems.v ===== *)
(** * Properties of the wire format

    Round trips of envelopes, results, errors and deliver requests, and the
    behaviour of the conversions at the bounds of Go's int. *)

From stdpp Require Import base tactics list gmap strings.
From Stdlib Require Import ZArith Lia Strings.Byte.
From S2P Require Import Prelude GoString Errors Registry Service Wire WireInstances.
Local Open Scope string_scope.
Local Open Scope list_scope.

Section Theorems.
Context `{Platform} `{ProtoLib} `{!ProtoLaws} `{PacketLib} `{!PacketLaws}.

(** C34 (roundtrip). A request or notification whose strings are UTF-8 is
    always encoded, and the receiver decodes the operation and the message
    that were sent; a successful response comes back as the message that was
    answered. *)
Theorem wire_roundtrip (op : Z) (t : mtype) (m : msg t) :
  in_signed 16 op -> forallb ValidString (strings_of t m) = true ->
  (exists pkt payload, encodeEnvelope op (Message t m) = Ok pkt /\
     decodeEnvelope pkt = Ok (op, payload) /\ decodeOperationPayload t payload = Ok m) /\
  (exists pkt payload, encodeResult "" "" (Message t m) = Ok pkt /\
     decodeResult pkt = Ok payload /\ decodeResultPayload t payload = Ok m).
Proof.
  intros Hop Hs. split.
  - destruct (encodeEnvelope_total op t m Hs) as [pkt Hp]. exists pkt.
    destruct (decode_encodeEnvelope op t m pkt Hop Hp) as (payload & ?). eauto.
  - destruct (encodeResult_total t m Hs) as [pkt Hp]. exists pkt.
    destruct (encodeResult_message t m pkt Hp) as (payload & ?). eauto.
Qed.

(** What the caller decodes from an encoded error. *)
Lemma encodeError_roundtrip (e : error) :
  (len (Error e) <= maxRPCStringSize)%Z ->
  exists pkt e' head, encodeError (Some e) = Ok pkt /\ decodeResult pkt = Err e' /\
    (forall s, Is e' s = bool_decide (find (Is e) wire_sentinels = Some s)) /\
    Error e' = head +:+ "remote rpc: " +:+ Error e.
Proof.
  intros Hl. destruct (error_code_cause e) as (Hne & Hc & Hf). unfold encodeError, encodeResult.
  rewrite !(proj2 (Z.ltb_ge _ _)) by done.
  exists (WriteString (error_code e) ++ WriteString (Error e)).
  exists (match find (Is e) wire_sentinels with
          | Some s => wrapf (ESentinel s) (": remote rpc: " +:+ Error e)
          | None => EText ("remote rpc: " +:+ Error e)
          end).
  exists (match find (Is e) wire_sentinels with Some s => sentinel_text s +:+ ": " | None => "" end).
  split; [done|].
  rewrite <- (app_nil_r (WriteString (error_code e) ++ WriteString (Error e))).
  rewrite decodeResult_head, bool_decide_eq_true_2, Hf by done.
  destruct (find (Is e) wire_sentinels) as [s|]; [|done]. split_and!; [done| |by destruct s].
  intros s'. simpl. apply bool_decide_ext. naive_solver.
Qed.

(** C35 (error). Errors keep their identity across the wire: when a handler
    fails with an error whose text fits the packet, the caller gets an error
    that is, for [errors.Is], the first sentinel of the switch the original
    was, and none if it was none; the text of the original is part of it. *)
Theorem remote_error_identity (e : error) :
  (len (Error e) <= maxRPCStringSize)%Z ->
  exists pkt e' head, encodeError (Some e) = Ok pkt /\ decodeResult pkt = Err e' /\
    (forall s, Is e' s = bool_decide (find (Is e) wire_sentinels = Some s)) /\
    Error e' = head +:+ "remote rpc: " +:+ Error e.
Proof. apply encodeError_roundtrip. Qed.

(** An error whose text exceeds 32767 bytes has no packet:
    [respondRPCError] only reports the encoding error and answers nothing, so
    the remote caller waits for its timeout. *)
Theorem oversized_error_has_no_packet (e : error) :
  (maxRPCStringSize < len (Error e))%Z -> exists e', encodeError (Some e) = Err e'.
Proof.
  intros Hl. destruct (error_code_cause e) as (_ & Hc & _). unfold encodeError, encodeResult.
  rewrite (proj2 (Z.ltb_ge _ _) Hc), (proj2 (Z.ltb_lt _ _) Hl). eauto.
Qed.

(** C36 (bounds). No conversion truncates: whatever number arrives, the Go
    int obtained from it is that very number or an error; a location that
    was sent arrives unchanged exactly if it is valid and its ids fit the
    receiver's int. *)
Theorem conversions_never_truncate (l : ServiceLocation) (value : Z) (name : string) :
  (forall w, rpcInt value name = Ok w <-> w = value /\ in_signed int_bits value) /\
  (requiredRPCServiceLocation (Some (serviceLocationToProto l)) name = Ok l <->
   valid_location l = true /\ in_signed int_bits (ServiceID l) /\ in_signed int_bits (NodeID l)) /\
  (forall l', requiredRPCServiceLocation (Some (serviceLocationToProto l)) name = Ok l' -> l' = l).
Proof.
  split; [intros w; apply rpcInt_Ok|]. split.
  - rewrite requiredRPCServiceLocation_Ok. naive_solver.
  - intros l' (Heq & _)%requiredRPCServiceLocation_Ok. destruct l, l'. by injection Heq as -> -> -> ->.
Qed.

(** A key a deliver request may carry as its source. *)
Definition source_ok (k : ServiceKey) : Prop := k = zeroServiceKey \/ valid_key k = true.

(** Identifiers as [numericServiceMessageID] and [stringServiceMessageID]
    build them. *)
Definition built_id (id : serviceMessageID) : Prop :=
  (exists v, id = numericServiceMessageID v) \/ (exists v, id = stringServiceMessageID v).

Lemma decode_initialized id source target payload mode :
  source_ok source -> valid_key target = true ->
  in_signed int_bits (ID source) -> in_signed int_bits (ID target) ->
  built_id id -> validate_id id = None ->
  mode ∈ [deliverRequestModeDirect; deliverRequestModeSync; deliverRequestModeAsync] ->
  exists req, initializeDeliverRequest blankDeliver source target id payload mode = Some req /\
    dl_payload req = payload /\ decodeDeliverRequest req = Ok (source, target, id, mode).
Proof.
  intros Hs Ht Is It Hid Hv Hm. eexists. split; [done|]. split; [done|].
  unfold decodeDeliverRequest. cbn [dl_source dl_target dl_message_id dl_string_message_id dl_mode].
  rewrite (proj2 (serviceKeyFromProto_Ok _ source)) by (by destruct source). simpl res_bind.
  assert (negb (bool_decide (source = zeroServiceKey))
    && (bool_decide (Name source = "") || (ID source <=? 0)%Z) = false) as ->.
  { destruct Hs as [->|Hs]; [done|]. unfold valid_key in Hs. apply negb_true_iff in Hs.
    by rewrite Hs, andb_false_r. }
  rewrite (proj2 (requiredRPCServiceKey_Ok _ _ target)) by done. simpl res_bind.
  assert ((mode =? deliverRequestModeDirect)%Z || (mode =? deliverRequestModeSync)%Z
    || (mode =? deliverRequestModeAsync)%Z = true) as Hmode.
  { rewrite !elem_of_cons, elem_of_nil in Hm. by destruct Hm as [->|[->|[->|[]]]]. }
  cbv zeta. destruct Hid as [[v ->]|[v ->]].
  - change (kind (numericServiceMessageID v) =? serviceMessageIDString)%Z with false. cbv iota.
    change (dl_string_message_id blankDeliver) with "".
    change (number (numericServiceMessageID v)) with v.
    rewrite bool_decide_eq_true_2, andb_false_r, Hv, Hmode by done. done.
  - change (kind (stringServiceMessageID v) =? serviceMessageIDString)%Z with true. cbv iota.
    change (dl_message_id blankDeliver) with 0%Z. change (text (stringServiceMessageID v)) with v.
    destruct (decide (v = "")) as [->|Hne]; [done|].
    rewrite bool_decide_eq_false_2 by done. rewrite Hv, Hmode. done.
Qed.

(** The strings of an initialized request are UTF-8 if its keys' names are. *)
Lemma initialized_strings id source target payload mode req :
  initializeDeliverRequest blankDeliver source target id payload mode = Some req ->
  ValidString (Name source) = true -> ValidString (Name target) = true ->
  built_id id -> validate_id id = None ->
  forallb ValidString (strings_of TDeliverRequest req) = true.
Proof.
  intros [= <-] Us Ut Hid Hv. simpl. rewrite Us, Ut.
  destruct Hid as [[v ->]|[v ->]]; simpl; [done|].
  revert Hv. unfold validate_id, stringServiceMessageID. cbn [kind text]. simpl.
  repeat case_match; try done. by destruct (ValidString v).
Qed.

(** A deliver request built in a recycled pool object
    arrives as it was sent: whatever the object carried before its release,
    the receiver decodes source, target, message id, mode and payload of the
    new message, for numeric and for string ids. *)
Theorem deliver_roundtrip (used : DeliverRequest) (id : serviceMessageID)
    (source target : ServiceKey) (payload : list byte) (mode : Z) :
  source_ok source -> valid_key target = true ->
  in_signed int_bits (ID source) -> in_signed int_bits (ID target) ->
  built_id id -> validate_id id = None ->
  ValidString (Name source) = true -> ValidString (Name target) = true ->
  mode ∈ [deliverRequestModeDirect; deliverRequestModeSync; deliverRequestModeAsync] ->
  exists req pkt body,
    initializeDeliverRequest (releaseDeliverSendRequest used) source target id payload mode = Some req /\
    encodeEnvelope opDeliver (Message TDeliverRequest req) = Ok pkt /\
    decodeEnvelope pkt = Ok (opDeliver, body) /\
    exists req', decodeOperationPayload TDeliverRequest body = Ok req' /\
      decodeDeliverRequest req' = Ok (source, target, id, mode) /\ dl_payload req' = payload.
Proof.
  intros Hs Ht Is It Hid Hv Us Ut Hm.
  assert (releaseDeliverSendRequest used = blankDeliver) as ->
    by (unfold releaseDeliverSendRequest; by destruct (dl_source used), (dl_target used)).
  destruct (decode_initialized id source target payload mode) as (req & Hreq & Hp & Hd); try done.
  pose proof (initialized_strings id source target payload mode req Hreq Us Ut Hid Hv) as Hu.
  destruct (encodeEnvelope_total opDeliver TDeliverRequest req Hu) as [pkt He].
  destruct (decode_encodeEnvelope opDeliver TDeliverRequest req pkt) as (body & Hde & Hdo); [done|done|].
  exists req, pkt, body. by eauto 10.
Qed.

End Theorems.

(** ** Witnesses *)

Lemma wire_roundtrip_witness :
  exists pkt payload,
    encodeEnvelope opRouteInvalidate
      (Message TRouteInvalidate (mkRouteInvalidate (Some (mkPbKey "room" 1)))) = Ok pkt /\
    decodeEnvelope pkt = Ok (opRouteInvalidate, payload) /\
    decodeOperationPayload TRouteInvalidate payload = Ok (mkRouteInvalidate (Some (mkPbKey "room" 1))).
Proof.
  apply (wire_roundtrip opRouteInvalidate TRouteInvalidate (mkRouteInvalidate (Some (mkPbKey "room" 1))));
    [split; vm_compute; congruence|vm_compute; reflexivity].
Defined.

Lemma remote_error_identity_witness :
  exists pkt e' head, encodeError (Some (wrapf (ESentinel ErrServiceNotFound) ": room:1")) = Ok pkt /\
    decodeResult pkt = Err e' /\
    (forall s, Is e' s =
       bool_decide (find (Is (wrapf (ESentinel ErrServiceNotFound) ": room:1")) wire_sentinels = Some s)) /\
    Error e' = head +:+ "remote rpc: " +:+ "service not found: room:1".
Proof.
  apply (remote_error_identity (wrapf (ESentinel ErrServiceNotFound) ": room:1")).
  vm_compute. congruence.
Defined.

(** A text of 2^n bytes. *)
Fixpoint doubled (n : nat) (s : string) : string :=
  match n with O => s | S n => doubled n (s +:+ s) end.

Lemma oversized_error_has_no_packet_witness :
  exists e', encodeError (Some (EText (doubled 15 "x"))) = Err e'.
Proof. apply (oversized_error_has_no_packet (EText (doubled 15 "x"))). vm_compute. reflexivity. Defined.

Lemma deliver_roundtrip_witness :
  exists req pkt body,
    initializeDeliverRequest
      (releaseDeliverSendRequest (mkDeliver None (Some (mkPbKey "old" 7)) 99 "stale" [x01] 2))
      (mkServiceKey "gateway" 1) (mkServiceKey "room" 2) (stringServiceMessageID "player.enter")
      [x01; x02] 3 = Some req /\
    encodeEnvelope opDeliver (Message TDeliverRequest req) = Ok pkt /\
    decodeEnvelope pkt = Ok (opDeliver, body) /\
    exists req', decodeOperationPayload TDeliverRequest body = Ok req' /\
      decodeDeliverRequest req' =
        Ok (mkServiceKey "gateway" 1, mkServiceKey "room" 2, stringServiceMessageID "player.enter", 3%Z) /\
      dl_payload req' = [x01; x02].
Proof.
  apply (deliver_roundtrip (mkDeliver None (Some (mkPbKey "old" 7)) 99 "stale" [x01] 2)
    (stringServiceMessageID "player.enter") (mkServiceKey "gateway" 1) (mkServiceKey "room" 2)
    [x01; x02] 3); try (vm_compute; reflexivity).
  - right. vm_compute. reflexivity.
  - split; vm_compute; congruence.
  - split; vm_compute; congruence.
  - right. by exists "player.enter".
  - rewrite !elem_of_cons. by right; right; left.
Defined.
