(* ===== verification/Dispatch.v ===== *)
(** * Local services and dispatch (node.go, service_subscription.go)

    What a Node keeps per local service, and the functions that turn a message
    into a job for the target's serial loop: [dispatchLocalDirect],
    [dispatchLocalRequestSync], [dispatchLocalRequestAsync] and
    [dispatchLocalServiceDiscovery].  A job is the closure these functions
    post; the responder says where its answer goes. *)

From stdpp Require Import base tactics list gmap sets strings.
From Stdlib Require Import ZArith Lia Strings.Byte.
From S2P Require Import Prelude GoString Errors Registry Service Wire.
Local Open Scope string_scope.
Local Open Scope list_scope.

(** [serviceRuntime]: whether the service implements
    [ServiceSubscriptionHandler], and the flags and desired subscriptions the
    Node keeps for it. *)
Record serviceRuntime := mkRuntime {
  rt_discovery : bool;
  rt_started : bool;
  rt_registered : bool;
  rt_subscriptions : gset string
}.

(** Where the answer of a request goes: back over an RPC session, or to a
    call of this process. *)
Inductive responder :=
| RemoteResponder (session : nat) (contextID : Z)
| LocalResponder (call : nat).

Inductive job :=
| JDirect (source target : ServiceKey) (id : serviceMessageID) (payload : list byte)
| JSync (source target : ServiceKey) (id : serviceMessageID) (payload : list byte) (r : responder)
| JAsync (source target : ServiceKey) (id : serviceMessageID) (payload : list byte) (r : responder)
| JDiscovery (subscriber : ServiceKey) (serviceName : string) (event : Z) (services : list ServiceKey).

(** The service whose loop runs the job. *)
Definition job_service (j : job) : ServiceKey :=
  match j with
  | JDirect _ t _ _ | JSync _ t _ _ _ | JAsync _ t _ _ _ => t
  | JDiscovery s _ _ _ => s
  end.

Definition service_not_found (tail : string) : error :=
  wrapf (ESentinel ErrServiceNotFound) (": " +:+ tail).

(** The switch on [messageID.kind] shared by the three dispatch functions. *)
Definition dispatchable (services : gmap ServiceKey serviceRuntime) (target : ServiceKey)
    (id : serviceMessageID) (j : job) : res job :=
  match services !! target with
  | None => Err (service_not_found (ServiceKey_String target))
  | Some _ =>
      if (kind id =? serviceMessageIDNumeric)%Z || (kind id =? serviceMessageIDString)%Z then Ok j
      else Err (invalid_message ": message id kind is invalid")
  end.

Definition dispatchLocalDirect (services : gmap ServiceKey serviceRuntime)
    (source target : ServiceKey) (id : serviceMessageID) (payload : list byte) : res job :=
  dispatchable services target id (JDirect source target id payload).

Definition dispatchLocalRequestSync (services : gmap ServiceKey serviceRuntime)
    (source target : ServiceKey) (id : serviceMessageID) (payload : list byte) (r : responder)
    : res job :=
  dispatchable services target id (JSync source target id payload r).

Definition dispatchLocalRequestAsync (services : gmap ServiceKey serviceRuntime)
    (source target : ServiceKey) (id : serviceMessageID) (payload : list byte) (r : responder)
    : res job :=
  dispatchable services target id (JAsync source target id payload r).

Definition dispatchLocalServiceDiscovery (services : gmap ServiceKey serviceRuntime)
    (subscriber : ServiceKey) (serviceName : string) (event : Z) (keys : list ServiceKey) : res job :=
  match services !! subscriber with
  | None => Err (service_not_found ("subscriber " +:+ ServiceKey_String subscriber))
  | Some runtime =>
      if negb (rt_discovery runtime) then
        Err (EText ("service " +:+ ServiceKey_String subscriber
                    +:+ " does not implement ServiceSubscriptionHandler"))
      else if (event =? eventSnapshot)%Z then Ok (JDiscovery subscriber serviceName event keys)
      else if (event =? eventOnline)%Z || (event =? eventOffline)%Z then
        if Nat.eqb (length keys) 1 then Ok (JDiscovery subscriber serviceName event keys)
        else Err (EText ("discovery event " +:+ event_String event +:+ " contains "
                         +:+ fmt_d (Z.of_nat (length keys)) +:+ " services, want 1"))
      else Err (EText ("unsupported discovery event type " +:+ event_String event))
  end.

(** The callbacks of a subscriber, on its own state. *)
Class ServiceSubscriptionHandler (S : Type) := {
  HandleServiceSnapshot : string -> list ServiceKey -> S -> S;
  HandleServiceOnline : ServiceKey -> S -> S;
  HandleServiceOffline : ServiceKey -> S -> S
}.

(** The posted function of [dispatchLocalServiceDiscovery]; [None] is a panic,
    which is reported. *)
Definition run_discovery {S} `{ServiceSubscriptionHandler S} (serviceName : string) (event : Z)
    (services : list ServiceKey) (x : S) : option S :=
  if (event =? eventSnapshot)%Z then Some (HandleServiceSnapshot serviceName services x)
  else if (event =? eventOnline)%Z then
    match services with k :: _ => Some (HandleServiceOnline k x) | [] => None end
  else if (event =? eventOffline)%Z then
    match services with k :: _ => Some (HandleServiceOffline k x) | [] => None end
  else Some x.

(** A dispatched message becomes its job, on the loop of an existing service. *)
Lemma dispatchable_Ok services target id j j' :
  dispatchable services target id j = Ok j' <->
  j' = j /\ is_Some (services !! target) /\
  (kind id = serviceMessageIDNumeric \/ kind id = serviceMessageIDString).
Proof.
  unfold dispatchable. destruct (services !! target) as [rt|].
  - destruct (_ || _) eqn:E.
    + apply orb_true_iff in E. rewrite !Z.eqb_eq in E. split; [by intros [= <-]|by intros [-> _]].
    + apply orb_false_iff in E as [E1 E2]. apply Z.eqb_neq in E1, E2. split; [done|].
      by intros (_ & _ & [|]).
  - split; [done|]. by intros (_ & [? ?] & _).
Qed.

(** A discovery event becomes the job that carries it. *)
Lemma dispatchLocalServiceDiscovery_Ok services k name ev keys j :
  dispatchLocalServiceDiscovery services k name ev keys = Ok j -> j = JDiscovery k name ev keys.
Proof.
  unfold dispatchLocalServiceDiscovery. destruct (services !! k) as [rt|]; [|done].
  destruct (negb _); [done|]. destruct (ev =? eventSnapshot)%Z; [by intros [= <-]|].
  destruct (_ || _); [|done]. destruct (Nat.eqb _ _); [by intros [= <-]|done].
Qed.

(** The events the main node sends: snapshots, and one service at a time. *)
Definition sendable (ev : Z) (ks : list ServiceKey) : Prop :=
  ev = eventSnapshot \/ ((ev = eventOnline \/ ev = eventOffline) /\ length ks = 1).

Lemma dispatchLocalServiceDiscovery_total services k name ev ks rt :
  services !! k = Some rt -> rt_discovery rt = true -> sendable ev ks ->
  dispatchLocalServiceDiscovery services k name ev ks = Ok (JDiscovery k name ev ks).
Proof.
  intros Hrt Hd Hev. unfold dispatchLocalServiceDiscovery. rewrite Hrt, Hd. simpl.
  destruct Hev as [->|[[-> | ->] Hlen]]; [done|..]; simpl; by rewrite Hlen.
Qed.
