(* ===== verification/LocalCall.v ===== *)
(** * Calls to services of the same Node (node.go)

    The local branch of [callServiceSync] and [callServiceAsync], and the jobs
    that [dispatchLocalRequestSync] and [dispatchLocalRequestAsync] post.  The
    caller, the timeout timer, the loop of the target service and every
    goroutine that answers share one flag [completed]; whoever swaps it first
    completes the call.  The state of one call is a record, an actor is a
    goroutine between two of its atomic operations, and the events are the
    choices of the scheduler, of the timer and of the service's handler. *)

From stdpp Require Import base tactics list gmap sets strings.
From Stdlib Require Import ZArith Lia Strings.Byte.
From S2P Require Import Prelude GoString Errors Registry Config Service Wire Dispatch.
Local Open Scope string_scope.
Local Open Scope list_scope.

(** ** State *)

Inductive call_mode := CallSync | CallAsync.

(** What a responder is given, and what a callback or the channel receives. *)
Definition reply : Type := list byte * option error.

Inductive timer_state := TimerArmed | TimerStopped | TimerFired.

Inductive origin := FromTimer | FromService.

Inductive actor :=
| AExpire                          (** the timer's function, before its swap *)
| AAnswer (r : reply)              (** [respondOnce], before it swaps [responded] *)
| AComplete (r : reply)            (** the responder, before it swaps [completed] *)
| AStopTimer (r : reply)           (** the responder, before [timer.Stop] *)
| ADeliver (o : origin) (r : reply). (** before the callback or the channel send *)

(** Where the caller stands.  [Halting] is the select's branch for a stopped
    Node. *)
Inductive caller :=
| Dispatching
| Waiting
| Halting
| Accepted                         (** an asynchronous call returned nil *)
| ReturnedReply (r : reply)
| ReturnedError (e : error).

Record call := mkLocalCall {
  caller_at : caller;
  completed : bool;
  responded : bool;
  timer : timer_state;
  queued : bool;                   (** the job is on the target's loop *)
  handling : bool;                 (** the loop took the job *)
  actors : list actor;
  channel : list reply;            (** [responses], capacity 1 *)
  delivered : list (origin * reply); (** callbacks run, or channel sends *)
  reported : list error;
  halted : bool;                   (** ghost: the caller completed the call itself *)
  asked : nat                      (** ghost: how often the service answered *)
}.

Section LocalCall.
Context `{UnicodeTables}.
Context (services : gmap ServiceKey serviceRuntime).
Context (mode : call_mode) (source target : ServiceKey) (id : serviceMessageID) (payload : list byte).
(** The text [%s] prints for the configured timeout. *)
Context (timeout : string).

Implicit Types c : call.

Definition set_caller p c := mkLocalCall p (completed c) (responded c) (timer c) (queued c) (handling c)
  (actors c) (channel c) (delivered c) (reported c) (halted c) (asked c).
Definition set_completed b c := mkLocalCall (caller_at c) b (responded c) (timer c) (queued c) (handling c)
  (actors c) (channel c) (delivered c) (reported c) (halted c) (asked c).
Definition set_responded b c := mkLocalCall (caller_at c) (completed c) b (timer c) (queued c) (handling c)
  (actors c) (channel c) (delivered c) (reported c) (halted c) (asked c).
Definition set_timer t c := mkLocalCall (caller_at c) (completed c) (responded c) t (queued c) (handling c)
  (actors c) (channel c) (delivered c) (reported c) (halted c) (asked c).
Definition set_job q h c := mkLocalCall (caller_at c) (completed c) (responded c) (timer c) q h
  (actors c) (channel c) (delivered c) (reported c) (halted c) (asked c).
Definition set_actors a c := mkLocalCall (caller_at c) (completed c) (responded c) (timer c) (queued c)
  (handling c) a (channel c) (delivered c) (reported c) (halted c) (asked c).
Definition deliver_to ch o r c := mkLocalCall (caller_at c) (completed c) (responded c) (timer c) (queued c)
  (handling c) (actors c) ch (delivered c ++ [(o, r)]) (reported c) (halted c) (asked c).
Definition set_channel ch c := mkLocalCall (caller_at c) (completed c) (responded c) (timer c) (queued c)
  (handling c) (actors c) ch (delivered c) (reported c) (halted c) (asked c).
Definition report e c := mkLocalCall (caller_at c) (completed c) (responded c) (timer c) (queued c)
  (handling c) (actors c) (channel c) (delivered c) (reported c ++ [e]) (halted c) (asked c).
Definition set_halted c := mkLocalCall (caller_at c) (completed c) (responded c) (timer c) (queued c)
  (handling c) (actors c) (channel c) (delivered c) (reported c) true (asked c).
Definition ask c := mkLocalCall (caller_at c) (completed c) (responded c) (timer c) (queued c)
  (handling c) (actors c) (channel c) (delivered c) (reported c) (halted c) (S (asked c)).

(** ** Errors *)

Definition call_timeout : error :=
  EText ("call service " +:+ ServiceKey_String target +:+ ": timeout after " +:+ timeout).
Definition late_response : error := EText "response arrived after call completion".
Definition responded_twice : error :=
  EText ("service " +:+ ServiceKey_String target +:+ " responded more than once to message "
         +:+ messageID_String id).
Definition respond_failed (e : error) : error :=
  prefixf ("respond to message " +:+ messageID_String id +:+ " from service "
           +:+ ServiceKey_String target +:+ ": ") e.
(** [text] is what [%v] and the stack print. *)
Definition handler_panic (text : string) : error :=
  EText ("service " +:+ ServiceKey_String target +:+ " panic: " +:+ text).

(** ** The caller *)

(** The guards before the target is looked at. *)
Definition call_guard (operational callback_nil : bool) : option error :=
  if negb operational then Some (ESentinel ErrNodeStopped)
  else match validate_id id with
       | Some e => Some e
       | None =>
           match mode with
           | CallAsync => if callback_nil then Some (EText "service call callback is nil") else None
           | CallSync => None
           end
       end.

(** Up to the armed timer.  [operational] and [still] are the two readings of
    the Node's state; [None] is the branch for a target that is not local. *)
Definition begin_call (operational still callback_nil : bool) : option (res call) :=
  match call_guard operational callback_nil with
  | Some e => Some (Err e)
  | None =>
      match services !! target with
      | None => None
      | Some _ =>
          if negb still then Some (Err (ESentinel ErrNodeStopped))
          else Some (Ok (mkLocalCall Dispatching false false TimerArmed false false [] [] [] [] false 0))
      end
  end.

Definition dispatch_call : res job :=
  match mode with
  | CallSync => dispatchLocalRequestSync services source target id payload (LocalResponder 0)
  | CallAsync => dispatchLocalRequestAsync services source target id payload (LocalResponder 0)
  end.

(** [if completed.CompareAndSwap(false, true) { timer.Stop() }] of the caller. *)
Definition abandon c : call :=
  if completed c then c else set_halted (set_timer TimerStopped (set_completed true c)).

Definition dispatch_step c : call :=
  match dispatch_call with
  | Err e => set_caller (ReturnedError e) (abandon c)
  | Ok _ =>
      set_caller (match mode with CallSync => Waiting | CallAsync => Accepted end)
        (set_job true false c)
  end.

(** ** The goroutines that complete the call

    The result is the call and what the actor does next; [None] if the actor
    is blocked. *)
Definition actor_step (a : actor) c : option (call * option actor) :=
  match a with
  | AExpire =>
      if completed c then Some (c, None)
      else Some (set_completed true c, Some (ADeliver FromTimer ([], Some call_timeout)))
  | AAnswer r =>
      if responded c then Some (report responded_twice c, None)
      else Some (set_responded true c, Some (AComplete r))
  | AComplete r =>
      if completed c then Some (report (respond_failed late_response) c, None)
      else Some (set_completed true c, Some (AStopTimer r))
  | AStopTimer r =>
      Some (set_timer (match timer c with TimerArmed => TimerStopped | t => t end) c,
            Some (ADeliver FromService r))
  | ADeliver o r =>
      match mode with
      | CallAsync => Some (deliver_to (channel c) o r c, None)
      | CallSync =>
          match channel c with
          | [] => Some (deliver_to [r] o r c, None)
          | _ => None
          end
      end
  end.

(** ** Events *)

(** How the handler of a synchronous request ends. *)
Inductive outcome := Returns (r : reply) | Panics (text : string).

Definition outcome_reply (h : outcome) : reply :=
  match h with Returns r => r | Panics text => ([], Some (handler_panic text)) end.

Inductive call_event :=
| VDispatch
| VFire                          (** the timer *)
| VHandle (h : outcome)          (** the loop runs the job of a synchronous request *)
| VTake                          (** the loop starts the handler of an asynchronous request *)
| VRespond (r : reply)           (** [MessageContext.Respond], from any goroutine *)
| VPanic (text : string)         (** the asynchronous handler panics *)
| VActor (i : nat)
| VReceive                       (** the caller receives from [responses] *)
| VStopped                       (** the caller receives from [serviceCallStop] *)
| VHalt.                         (** the caller goes on in that branch *)

Definition spawn_actor (a : actor) c : call := set_actors (actors c ++ [a]) c.

Definition call_step (v : call_event) c : option call :=
  match v with
  | VDispatch => match caller_at c with Dispatching => Some (dispatch_step c) | _ => None end
  | VFire =>
      match timer c with
      | TimerArmed => Some (spawn_actor AExpire (set_timer TimerFired c))
      | _ => None
      end
  | VHandle h =>
      match mode with
      | CallSync =>
          if queued c
          then Some (spawn_actor (AComplete (outcome_reply h)) (ask (set_job false true c)))
          else None
      | CallAsync => None
      end
  | VTake =>
      match mode with
      | CallAsync => if queued c then Some (set_job false true c) else None
      | CallSync => None
      end
  | VRespond r =>
      match mode with
      | CallAsync => if handling c then Some (spawn_actor (AAnswer r) (ask c)) else None
      | CallSync => None
      end
  | VPanic text =>
      match mode with
      | CallAsync =>
          if handling c
          then Some (spawn_actor (AAnswer ([], Some (handler_panic text))) (ask c)) else None
      | CallSync => None
      end
  | VActor i =>
      match actors c !! i with
      | None => None
      | Some a =>
          match actor_step a c with
          | None => None
          | Some (c', a') => Some (set_actors (replace_at i a' (actors c')) c')
          end
      end
  | VReceive =>
      match caller_at c, channel c with
      | Waiting, r :: rest => Some (set_caller (ReturnedReply r) (set_channel rest c))
      | _, _ => None
      end
  | VStopped => match caller_at c with Waiting => Some (set_caller Halting c) | _ => None end
  | VHalt =>
      match caller_at c with
      | Halting => Some (set_caller (ReturnedError (ESentinel ErrNodeStopped)) (abandon c))
      | _ => None
      end
  end.

Definition call_step_rel c c' : Prop := exists v, call_step v c = Some c'.

(** Calls that were begun and their later states. *)
Definition call_reachable c : Prop :=
  exists still callback_nil c0,
    begin_call true still callback_nil = Some (Ok c0) /\ steps call_step_rel c0 c.

(** ** Invariant *)

(** Actors that won the swap of [completed]. *)
Definition completing (a : actor) : nat :=
  match a with AStopTimer _ | ADeliver _ _ => 1 | _ => 0 end.
(** Actors that carry an answer of the service. *)
Definition answering (a : actor) : nat :=
  match a with AExpire | ADeliver FromTimer _ => 0 | _ => 1 end.
Definition from_service (d : origin * reply) : nat :=
  match d.1 with FromService => 1 | FromTimer => 0 end.

Definition expired_reply : reply := ([], Some call_timeout).

Record call_inv c : Prop := {
  ci_tokens : sum_list_with completing (actors c) + length (delivered c) + Nat.b2n (halted c)
              = Nat.b2n (completed c);
  ci_account : asked c = sum_list_with answering (actors c)
                         + sum_list_with from_service (delivered c) + length (reported c);
  ci_channel :
    match caller_at c with
    | ReturnedReply r => channel c = [] /\ map snd (delivered c) = [r]
    | _ => channel c = match mode with CallSync => map snd (delivered c) | CallAsync => [] end
    end;
  ci_timer :
    match timer c with
    | TimerArmed => True
    | TimerStopped => completed c = true
    | TimerFired => completed c = true \/ AExpire ∈ actors c
    end;
  ci_caller :
    match caller_at c with
    | Dispatching => True
    | Waiting | Halting | ReturnedReply _ => mode = CallSync
    | Accepted => mode = CallAsync
    | ReturnedError e => mode = CallSync /\ e = ESentinel ErrNodeStopped
    end;
  ci_expired : forall r, ADeliver FromTimer r ∈ actors c \/ (FromTimer, r) ∈ delivered c ->
    r = expired_reply;
  ci_halted : halted c = true -> exists e, caller_at c = ReturnedError e
}.

Section Begun.
Hypothesis valid : validate_id id = None.
Hypothesis local : is_Some (services !! target).

(** Nothing is left for the dispatch to reject. *)
Lemma dispatch_total : exists j, dispatch_call = Ok j.
Proof.
  assert (kind id = serviceMessageIDNumeric \/ kind id = serviceMessageIDString) as Hk.
  { unfold validate_id in valid. destruct (kind id =? serviceMessageIDNumeric)%Z eqn:E1; bool_prop; [by left|].
    destruct (kind id =? serviceMessageIDString)%Z eqn:E2; bool_prop; [by right|done]. }
  unfold dispatch_call. destruct mode; eexists; apply dispatchable_Ok; by split_and!.
Qed.

(** A new actor that has not won anything; [c'] is [c] with at most the
    timer, the job and the number of answers changed. *)
Lemma spawn_inv a c c' :
  completing a = 0 -> asked c' = asked c + answering a ->
  caller_at c' = caller_at c -> completed c' = completed c -> actors c' = actors c ->
  channel c' = channel c -> delivered c' = delivered c -> reported c' = reported c ->
  halted c' = halted c -> (timer c' = timer c \/ (timer c' = TimerFired /\ a = AExpire)) ->
  call_inv c -> call_inv (spawn_actor a c').
Proof.
  intros Ha Eask Eca Eco Eac Ech Ed Er Eh Et [Ht Hacc Hch Htm Hcal Hex Hh].
  split; simpl; rewrite ?Eca, ?Eco, ?Eac, ?Ech, ?Ed, ?Er, ?Eh, ?Eask, ?sum_list_with_app; simpl; try done.
  - lia.
  - lia.
  - destruct Et as [->|[-> ->]].
    + destruct (timer c); try done. destruct Htm; [by left|right]. apply elem_of_app. by left.
    + right. apply elem_of_app. right. by left.
  - intros r [[Hr|Hr%list_elem_of_singleton]%elem_of_app|Hr]; [apply Hex; by left| |apply Hex; by right].
    by subst a.
Qed.

(** What an actor's step leaves alone. *)
Lemma actor_step_frame a c c' a' :
  actor_step a c = Some (c', a') ->
  actors c' = actors c /\ caller_at c' = caller_at c /\ halted c' = halted c /\ asked c' = asked c.
Proof.
  destruct a; simpl; intros Hs;
    repeat match goal with
    | E : context [match ?d with _ => _ end] |- _ => destruct d
    end; by simplify_eq.
Qed.

(** The account of an actor's step. *)
Lemma actor_step_account a c c' a' :
  actor_step a c = Some (c', a') ->
  sum_list_with completing (option_list a') + length (delivered c') + Nat.b2n (completed c)
  = completing a + length (delivered c) + Nat.b2n (completed c') /\
  sum_list_with answering (option_list a') + sum_list_with from_service (delivered c')
    + length (reported c')
  = answering a + sum_list_with from_service (delivered c) + length (reported c).
Proof.
  destruct a as [|r|r|r|o r]; simpl; intros Hs.
  - destruct (completed c) eqn:E; simplify_eq/=; rewrite ?E; simpl; lia.
  - destruct (responded c); simplify_eq/=; rewrite ?length_app; simpl; lia.
  - destruct (completed c) eqn:E; simplify_eq/=; rewrite ?E, ?length_app; simpl; lia.
  - simplify_eq/=. lia.
  - destruct mode; [destruct (channel c); [|done]|]; simplify_eq/=;
      rewrite !length_app, !sum_list_with_app; destruct o; simpl; lia.
Qed.

Lemma actor_step_channel a c c' a' :
  actor_step a c = Some (c', a') -> completing a <= length (actors c) ->
  sum_list_with completing (actors c) + length (delivered c) <= 1 ->
  completing a <= sum_list_with completing (actors c) ->
  (match caller_at c with
   | ReturnedReply r => channel c = [] /\ map snd (delivered c) = [r]
   | _ => channel c = match mode with CallSync => map snd (delivered c) | CallAsync => [] end
   end) ->
  match caller_at c with
  | ReturnedReply r => channel c' = [] /\ map snd (delivered c') = [r]
  | _ => channel c' = match mode with CallSync => map snd (delivered c') | CallAsync => [] end
  end.
Proof.
  destruct a as [|r|r|r|o r]; simpl; intros Hs _ Hle Ha Hch.
  - destruct (completed c); by simplify_eq/=.
  - destruct (responded c); by simplify_eq/=.
  - destruct (completed c); by simplify_eq/=.
  - by simplify_eq/=.
  - destruct (delivered c) as [|d l] eqn:Ed; [|simpl in Hle; lia].
    destruct mode; [destruct (channel c) eqn:Ec; [|done]|]; simplify_eq/=; rewrite Ed;
      destruct (caller_at c); try done; by destruct Hch.
Qed.

Lemma actor_step_expired a c c' a' :
  actor_step a c = Some (c', a') ->
  (forall r, ADeliver FromTimer r = a \/ (FromTimer, r) ∈ delivered c -> r = expired_reply) ->
  forall r, Some (ADeliver FromTimer r) = a' \/ (FromTimer, r) ∈ delivered c' -> r = expired_reply.
Proof.
  intros Hs Hex x. destruct a as [|r|r|r|o r]; simpl in Hs.
  - destruct (completed c); injection Hs as <- <-; simpl; intros [Hx|Hx]; simplify_eq; auto.
  - destruct (responded c); injection Hs as <- <-; simpl; intros [Hx|Hx]; simplify_eq; auto.
  - destruct (completed c); injection Hs as <- <-; simpl; intros [Hx|Hx]; simplify_eq; auto.
  - injection Hs as <- <-; simpl; intros [Hx|Hx]; simplify_eq; auto.
  - assert (delivered c' = delivered c ++ [(o, r)] /\ a' = None) as [-> ->]
      by (destruct mode; [destruct (channel c); [|done]|]; injection Hs as <- <-; done).
    intros [Hx|[Hx|Hx%list_elem_of_singleton]%elem_of_app]; simplify_eq; auto.
Qed.

Lemma actor_step_timer a c c' a' :
  actor_step a c = Some (c', a') -> (completing a = 1 -> completed c = true) ->
  (completed c = true -> completed c' = true) /\
  match timer c' with
  | TimerArmed => timer c = TimerArmed
  | TimerStopped => completed c' = true \/ timer c = TimerStopped
  | TimerFired => timer c = TimerFired /\ (a = AExpire -> completed c' = true)
  end.
Proof.
  intros Hs Hc. destruct a as [|r|r|r|o r]; simpl in Hs.
  - destruct (completed c) eqn:E; injection Hs as <- <-; simpl; rewrite ?E; destruct (timer c); split_and!; auto; done.
  - destruct (responded c); injection Hs as <- <-; simpl; destruct (timer c); split_and!; auto; done.
  - destruct (completed c) eqn:E; injection Hs as <- <-; simpl; rewrite ?E; destruct (timer c); split_and!; auto; done.
  - injection Hs as <- <-; simpl; destruct (timer c); split_and!; auto; done.
  - destruct mode; [destruct (channel c); [|done]|]; injection Hs as <- <-; simpl; destruct (timer c); split_and!; auto; done.
Qed.

Lemma actor_inv i a c c' a' :
  actors c !! i = Some a -> actor_step a c = Some (c', a') -> call_inv c ->
  call_inv (set_actors (replace_at i a' (actors c')) c').
Proof.
  intros Hi Hs [Ht Hacc Hch Htm Hcal Hex Hh].
  destruct (actor_step_frame _ _ _ _ Hs) as (Eac & Eca & Eh & Eask).
  destruct (actor_step_account _ _ _ _ Hs) as [Htok Hans].
  assert (sum_list_with completing (actors c)
          = completing a + sum_list_with completing (delete i (actors c))) as Es1
    by (by rewrite (delete_Permutation _ _ _ Hi) at 1).
  assert (sum_list_with answering (actors c)
          = answering a + sum_list_with answering (delete i (actors c))) as Es2
    by (by rewrite (delete_Permutation _ _ _ Hi) at 1).
  assert (Nat.b2n (completed c) <= 1) as Hb by (destruct (completed c); simpl; lia).
  destruct (actor_step_timer _ _ _ _ Hs) as [Hmono Htm'].
  { intros Ha. destruct (completed c); [done|]. simpl in Ht. lia. }
  split; simpl; rewrite ?Eac, ?Eca, ?Eh, ?Eask.
  - rewrite (replace_at_Permutation _ _ _ _ Hi), sum_list_with_app. lia.
  - rewrite (replace_at_Permutation _ _ _ _ Hi), sum_list_with_app. lia.
  - eapply (actor_step_channel _ _ _ _ Hs); try done; try lia.
    rewrite (delete_Permutation _ _ _ Hi). simpl. destruct a; simpl; lia.
  - destruct (timer c') eqn:Et'; [done| |].
    + destruct Htm' as [?|E]; [done|]. rewrite E in Htm. auto.
    + destruct Htm' as [E Hae]. rewrite E in Htm. destruct Htm as [Hc|Hin]; [by left; apply Hmono|].
      apply (elem_of_delete_split _ _ _ _ Hi) in Hin as [Heq|Hin]; [left; by apply Hae|right].
      rewrite (replace_at_Permutation _ _ _ _ Hi), elem_of_app. by right.
  - done.
  - assert (forall x, ADeliver FromTimer x = a \/ (FromTimer, x) ∈ delivered c -> x = expired_reply) as Hex'.
    { intros x [Hx|Hx]; apply Hex; [left|by right]. rewrite Hx. by eapply list_elem_of_lookup_2. }
    intros r [Hr|Hr]; [|apply (actor_step_expired _ _ _ _ Hs Hex'); by right].
    rewrite (replace_at_Permutation _ _ _ _ Hi), elem_of_app in Hr. destruct Hr as [Hr|Hr].
    + apply (actor_step_expired _ _ _ _ Hs Hex'). left. destruct a'; simpl in Hr; [|by apply elem_of_nil in Hr].
      apply list_elem_of_singleton in Hr. by subst.
    + apply Hex. left. apply (elem_of_delete_split _ _ _ _ Hi). by right.
  - done.
Qed.

(** The caller's own steps.  [p] is where it goes; it takes [abandon] if it
    stops waiting. *)
Lemma abandon_inv e c :
  mode = CallSync -> e = ESentinel ErrNodeStopped ->
  match caller_at c with Waiting | Halting => True | _ => False end ->
  call_inv c -> call_inv (set_caller (ReturnedError e) (abandon c)).
Proof.
  intros Hm He Hw [Ht Hacc Hch Htm Hcal Hex Hh]. unfold abandon.
  assert (channel c = match mode with CallSync => map snd (delivered c) | CallAsync => [] end) as Hch'
    by (by destruct (caller_at c)).
  assert (halted c = false) as Hnh.
  { destruct (halted c); [|done]. destruct (Hh eq_refl) as [x Hx]. by rewrite Hx in Hw. }
  destruct (completed c) eqn:Ec; split; simpl; rewrite ?Ec, ?Hnh in *; simpl in *; try done; try lia; eauto.
Qed.

Lemma call_step_inv v c c' : call_step v c = Some c' -> call_inv c -> call_inv c'.
Proof.
  intros Hv Hc. pose proof Hc as [Ht Hacc Hch Htm Hcal Hex Hh].
  destruct v as [| |h| |r|text|i| | |]; simpl in Hv.
  - destruct (caller_at c) eqn:Eca; try done. injection Hv as <-.
    unfold dispatch_step. destruct dispatch_total as [j ->].
    assert (halted c = false) as Hnh.
    { destruct (halted c); [|done]. by destruct (Hh eq_refl). }
    destruct mode eqn:Em; split; simpl; rewrite ?Em; try done; intros Hx; congruence.
  - destruct (timer c) eqn:Et; try done. injection Hv as <-.
    apply (spawn_inv _ c); simpl; auto with lia.
  - destruct mode; [|done]. destruct (queued c); [|done]. injection Hv as <-.
    apply (spawn_inv _ c); simpl; auto with lia.
  - destruct mode eqn:Em; [done|]. destruct (queued c); [|done]. injection Hv as <-.
    split; simpl; rewrite ?Em; done.
  - destruct mode; [done|]. destruct (handling c); [|done]. injection Hv as <-.
    apply (spawn_inv _ c); simpl; auto with lia.
  - destruct mode; [done|]. destruct (handling c); [|done]. injection Hv as <-.
    apply (spawn_inv _ c); simpl; auto with lia.
  - destruct (actors c !! i) as [a|] eqn:Ei; [|done].
    destruct (actor_step a c) as [[c1 a1]|] eqn:Es; [|done]. injection Hv as <-. by eapply actor_inv.
  - destruct (caller_at c) eqn:Eca; try done. destruct (channel c) as [|r rest] eqn:Ech; [done|].
    injection Hv as <-. rewrite Hcal in Hch. symmetry in Hch.
    assert (length (delivered c) <= 1) as Hl by (destruct (completed c); simpl in Ht; lia).
    destruct (delivered c) as [|d [|]] eqn:Ed; simplify_eq/=; [|lia].
    assert (halted c = false) as Hnh.
    { destruct (halted c); [|done]. by destruct (Hh eq_refl). }
    split; simpl; rewrite ?Ed; simpl; try done. by rewrite Hnh.
  - destruct (caller_at c) eqn:Eca; try done. injection Hv as <-.
    split; simpl; try done. intros Hx. by destruct (Hh Hx).
  - destruct (caller_at c) eqn:Eca; try done. injection Hv as <-.
    apply abandon_inv; try done. by rewrite Eca.
Qed.

End Begun.

Lemma begun_inv still nil c0 :
  begin_call true still nil = Some (Ok c0) ->
  validate_id id = None /\ is_Some (services !! target) /\ call_inv c0.
Proof.
  unfold begin_call, call_guard. simpl. destruct (validate_id id); [done|]. intros Hb.
  assert (is_Some (services !! target) /\
    c0 = mkLocalCall Dispatching false false TimerArmed false false [] [] [] [] false 0) as [? ->].
  { destruct mode; [|destruct nil; [done|]]; destruct (services !! target); try done;
      destruct still; simplify_eq/=; eauto. }
  split_and!; [done..|]. split; simpl; try done; [by destruct mode|].
  intros r [Hr|Hr]; by apply elem_of_nil in Hr.
Qed.

Lemma call_reachable_inv c :
  call_reachable c -> validate_id id = None /\ is_Some (services !! target) /\ call_inv c.
Proof.
  intros (still & nil & c0 & Hb & Hs). destruct (begun_inv _ _ _ Hb) as (Hv & Hl & Hi).
  split_and!; [done..|]. revert Hs Hi. apply steps_invariant. intros c1 c2 [v Hv'].
  by eapply call_step_inv.
Qed.

Lemma call_reachable_step c v c' : call_reachable c -> call_step v c = Some c' -> call_reachable c'.
Proof.
  intros (still & nil & c0 & Hb & Hs) Hv. exists still, nil, c0. split; [done|].
  eapply steps_app; [done|]. eapply steps_trans; [by exists v|apply steps_refl].
Qed.

(** C10 (safety). A local call is completed at most once.  However the timer,
    the service's answers (any number of them, from any goroutine), panics and
    the stop of the Node interleave, the callback runs at most once or the
    channel gets at most one response, and no goroutine ever blocks on it.
    What arrives is an answer of the service or the timeout error, and it is
    what a synchronous caller returns.  A begun call fails only as a
    synchronous call of a Node that stops; an asynchronous call that was begun
    is always accepted, so a caller that gets an error gets no callback. *)
Theorem local_call_completes_once c :
  call_reachable c ->
  length (delivered c) <= 1 /\
  (forall i a, actors c !! i = Some a -> actor_step a c <> None) /\
  (forall r, (FromTimer, r) ∈ delivered c -> r = ([], Some call_timeout)) /\
  match caller_at c with
  | ReturnedReply r => exists o, delivered c = [(o, r)]
  | ReturnedError e => mode = CallSync /\ e = ESentinel ErrNodeStopped
  | _ => True
  end.
Proof.
  intros (_ & _ & [Ht Hacc Hch Htm Hcal Hex Hh])%call_reachable_inv.
  assert (length (delivered c) <= 1) as Hl by (destruct (completed c); simpl in Ht; lia).
  split_and!; [done| | |].
  - intros i a Hi. destruct a as [| | | |o r]; simpl; try (by destruct (completed c));
      try (by destruct (responded c)); try done.
    destruct mode eqn:Em; [|done].
    assert (1 + length (delivered c) <= 1) as Hd.
    { rewrite (delete_Permutation _ _ _ Hi) in Ht. simpl in Ht. destruct (completed c); simpl in Ht; lia. }
    destruct (delivered c) eqn:Ed; [|simpl in Hd; lia].
    destruct (caller_at c); try (by rewrite Hch). by destruct Hch.
  - intros r Hr. apply Hex. by right.
  - destruct (caller_at c); try done. destruct Hch as [_ Hd].
    destruct (delivered c) as [|[o x] [|]]; simplify_eq/=. by exists o.
Qed.

(** No answer of a service is lost silently: when no
    goroutine is in the middle of answering, the answers the service gave are
    the one that was delivered, if the call was not completed by the timeout,
    and otherwise one reported error each. *)
Theorem answers_are_accounted c :
  call_reachable c -> actors c = [] ->
  asked c = sum_list_with from_service (delivered c) + length (reported c) /\
  sum_list_with from_service (delivered c) <= 1.
Proof.
  intros (_ & _ & [Ht Hacc Hch Htm Hcal Hex Hh])%call_reachable_inv Ha.
  rewrite Ha in *. simpl in *. split; [done|].
  assert (length (delivered c) <= 1) as Hl by (destruct (completed c); simpl in Ht; lia).
  destruct (delivered c) as [|[[] r] [|]]; simpl in *; lia.
Qed.

(** ** A synchronous caller can always return *)

Definition can_return c : Prop :=
  exists c' r, steps call_step_rel c c' /\ caller_at c' = ReturnedReply r.

Lemma can_return_step v c c' : call_step v c = Some c' -> can_return c' -> can_return c.
Proof. intros Hv (c2 & r & Hs & Hr). exists c2, r. split; [|done]. eapply steps_trans; [by exists v|done]. Qed.

Lemma return_receive r rest c : caller_at c = Waiting -> channel c = r :: rest -> can_return c.
Proof.
  intros Hw Hc. eapply (can_return_step VReceive); [simpl; by rewrite Hw, Hc|].
  eexists _, r. split; [apply steps_refl|done].
Qed.

Section Waiting.
Hypothesis sync : mode = CallSync.

Lemma return_deliver i o r c :
  call_reachable c -> caller_at c = Waiting -> actors c !! i = Some (ADeliver o r) -> can_return c.
Proof.
  intros Hr Hw Hi. destruct (channel c) as [|x rest] eqn:Ec; [|by eapply return_receive].
  eapply (can_return_step (VActor i)).
  - simpl. rewrite Hi. simpl. rewrite sync, Ec. reflexivity.
  - by eapply (return_receive r []).
Qed.

Lemma return_stop i r c :
  call_reachable c -> caller_at c = Waiting -> actors c !! i = Some (AStopTimer r) -> can_return c.
Proof.
  intros Hr Hw Hi. assert (exists c', call_step (VActor i) c = Some c') as [c' Hs]
    by (simpl; rewrite Hi; eauto).
  apply (can_return_step _ _ _ Hs). apply (return_deliver i FromService r).
  - by eapply call_reachable_step.
  - simpl in Hs. rewrite Hi in Hs. by injection Hs as <-.
  - simpl in Hs. rewrite Hi in Hs. injection Hs as <-. simpl. apply list_lookup_insert_eq.
    by eapply lookup_lt_Some.
Qed.

(** Whoever completed the call is about to deliver. *)
Lemma return_completed c :
  call_reachable c -> caller_at c = Waiting -> completed c = true -> can_return c.
Proof.
  intros Hr Hw Hc. destruct (call_reachable_inv _ Hr) as (_ & _ & [Ht _ Hch _ _ _ Hh]).
  destruct (channel c) as [|x rest] eqn:Ec; [|by eapply return_receive].
  assert (delivered c = []) as Hd.
  { rewrite Hw, sync in Hch. by destruct (delivered c). }
  assert (halted c = false) as Hnh.
  { destruct (halted c); [|done]. destruct (Hh eq_refl) as [e He]. congruence. }
  rewrite Hd, Hnh, Hc in Ht. simpl in Ht.
  assert (exists a, a ∈ actors c /\ completing a <> 0) as (a & Ha & Hne).
  { clear -Ht. induction (actors c) as [|a l IH]; simpl in Ht; [lia|].
    destruct (decide (completing a = 0)) as [E|E]; [|exists a; split; [by left|done]].
    destruct IH as (b & ? & ?); [lia|]. exists b. split; [by right|done]. }
  apply list_elem_of_lookup in Ha as [i Hi].
  destruct a; try done; [by eapply return_stop|by eapply return_deliver].
Qed.

Lemma return_expire c :
  call_reachable c -> caller_at c = Waiting -> AExpire ∈ actors c -> can_return c.
Proof.
  intros Hr Hw [i Hi]%list_elem_of_lookup. destruct (completed c) eqn:Hc; [by apply return_completed|].
  assert (exists c', call_step (VActor i) c = Some c') as [c' Hs]
    by (simpl; rewrite Hi; simpl; rewrite Hc; eauto).
  apply (can_return_step _ _ _ Hs). apply return_completed; [by eapply call_reachable_step|..];
    simpl in Hs; rewrite Hi in Hs; simpl in Hs; rewrite Hc in Hs; by injection Hs as <-.
Qed.

End Waiting.

(** C33 (liveness). A synchronous caller is never stuck: wherever the call
    stands while it waits, there is a continuation in which it receives a
    response, without the Node being stopped and whether or not the service
    ever answers; in particular the timer is never disarmed before somebody
    else is bound to respond. *)
Theorem waiting_call_can_return c :
  call_reachable c -> caller_at c = Waiting ->
  exists c' r, steps call_step_rel c c' /\ caller_at c' = ReturnedReply r.
Proof.
  intros Hr Hw. destruct (call_reachable_inv _ Hr) as (_ & _ & Hi).
  pose proof (ci_caller _ Hi) as Hsync. rewrite Hw in Hsync. pose proof (ci_timer _ Hi) as Htm.
  fold (can_return c). destruct (timer c) eqn:Et.
  - assert (call_step VFire c = Some (spawn_actor AExpire (set_timer TimerFired c))) as Hs
      by (simpl; by rewrite Et).
    apply (can_return_step _ _ _ Hs). apply return_expire; [done|by eapply call_reachable_step|done|].
    simpl. apply elem_of_app. right. by left.
  - by apply return_completed.
  - destruct Htm; [by apply return_completed|by apply return_expire].
Qed.

Fixpoint call_run (l : list call_event) c : option call :=
  match l with
  | [] => Some c
  | v :: l => match call_step v c with Some c' => call_run l c' | None => None end
  end.

Lemma call_run_reachable l c c' : call_reachable c -> call_run l c = Some c' -> call_reachable c'.
Proof.
  revert c. induction l as [|v l IH]; intros c Hc; simpl; [by intros [= <-]|].
  destruct (call_step v c) eqn:E; [|done]. apply IH. by eapply call_reachable_step.
Qed.

End LocalCall.

(** ** Witnesses *)

Section Witnesses.
#[local] Existing Instance ascii_tables.

Definition a_room : ServiceKey := mkServiceKey "room" 1.
Definition rooms : gmap ServiceKey serviceRuntime := {[ a_room := mkRuntime true true true ∅ ]}.
Definition begun_call : call :=
  mkLocalCall Dispatching false false TimerArmed false false [] [] [] [] false 0.

(** A call to [a_room] in either mode. *)
Abbreviation reaches m := (call_reachable rooms m (mkServiceKey "gate" 1) a_room
  (numericServiceMessageID 7) [x01] "3s").

Lemma begun_reachable m : reaches m begun_call.
Proof.
  exists true, false, begun_call. split; [|apply steps_refl]. destruct m; vm_compute; reflexivity.
Qed.

(** The timer fires while the service answers twice. *)
Definition contested : list call_event :=
  [VDispatch; VTake; VRespond ([x02], None); VFire; VActor 1; VRespond ([x03], None);
   VActor 0; VActor 0; VActor 0; VActor 0].

Definition contested_call : call :=
  default begun_call (call_run rooms CallAsync (mkServiceKey "gate" 1) a_room
    (numericServiceMessageID 7) [x01] "3s" contested begun_call).

Lemma contested_reachable : reaches CallAsync contested_call.
Proof.
  eapply (call_run_reachable _ _ _ _ _ _ _ contested); [apply begun_reachable|vm_compute; reflexivity].
Qed.

Lemma local_call_completes_once_witness : length (delivered contested_call) <= 1.
Proof. exact (proj1 (local_call_completes_once rooms CallAsync _ _ _ _ "3s" _ contested_reachable)). Defined.

Lemma answers_are_accounted_witness :
  asked contested_call = 2 /\
  asked contested_call =
    sum_list_with from_service (delivered contested_call) + length (reported contested_call).
Proof.
  split; [vm_compute; reflexivity|].
  exact (proj1 (answers_are_accounted rooms CallAsync _ _ _ _ "3s" _ contested_reachable
    ltac:(vm_compute; reflexivity))).
Defined.

(** A synchronous call whose service never runs. *)
Definition waiting_call : call :=
  default begun_call (call_run rooms CallSync (mkServiceKey "gate" 1) a_room
    (numericServiceMessageID 7) [x01] "3s" [VDispatch] begun_call).

Lemma waiting_call_can_return_witness :
  exists c' r, steps (call_step_rel rooms CallSync (mkServiceKey "gate" 1) a_room
    (numericServiceMessageID 7) [x01] "3s") waiting_call c' /\ caller_at c' = ReturnedReply r.
Proof.
  refine (waiting_call_can_return rooms CallSync _ _ _ _ "3s" waiting_call _ _);
    [|vm_compute; reflexivity].
  eapply (call_run_reachable _ _ _ _ _ _ _ [VDispatch]); [apply begun_reachable|vm_compute; reflexivity].
Defined.

End Witnesses.
