(* ===== verification/ControlPlane.v ===== *)
(** * The server side of a Node (node.go, service_subscription.go)

    The state a Node shares between the goroutines of its RPC sessions and its
    control loop: the registry, the subscription index, the remote nodes and
    the control queue.  The RPC handlers run on the goroutine of the session;
    what they post runs on the control loop.  [removeRemoteNode] gives up the
    lock between its parts, so it is a sequence of [micro] steps that other
    goroutines interleave with.

    A session is identified with the [RemoteNode] object that [OnAccept]
    attaches to it.  The body of a control-loop task is one step: the several
    short read sections over [remoteNodes] inside one task are merged. *)

From stdpp Require Import base tactics list gmap sets strings.
From Stdlib Require Import ZArith Lia Strings.Byte.
From S2P Require Import Prelude GoString Errors Registry Subscription Config Service Wire Dispatch.
Local Open Scope string_scope.
Local Open Scope list_scope.

(** ** State *)

Record RemoteNode := mkRemote {
  remote_id : Z;        (** 0 until the session registered as a node *)
  remote_addr : string;
  active : bool;
  armed : bool          (** the heartbeat timer is running *)
}.

(** What a session goroutine or a local caller posts to the control loop. *)
Inductive task :=
| TArm (session : nat)
| TExpire (session : nat)
| TRegister (session : nat) (contextID sourceNode : Z) (location : ServiceLocation)
| TUnregister (session : nat) (contextID sourceNode : Z) (target : ServiceKey)
| TSubscribe (session : nat) (contextID sourceNode : Z) (subscriber : ServiceKey) (name : string)
| TCleanup (nodeID : Z)
| TLocalRegister (key : ServiceKey)
| TLocalUnregister (key : ServiceKey)
| TLocalSubscribe (subscriber : ServiceKey) (name : string).

(** The rest of what a goroutine has to do. *)
Inductive micro :=
| MPost (t : task)
| MSwap (session : nat) (closeSession : bool)
| MUnlink (session : nat) (closeSession : bool)
| MCleanup (nodeID : Z) (session : nat) (closeSession : bool)
| MClose (session : nat) (closeSession : bool)
| MBody (t : task).

Inductive output :=
| OSend (session : nat) (packet : list byte)
| ORespond (session : nat) (contextID : Z) (packet : list byte)
| OReport (e : error)
| OUnsent (session : nat) (contextID : Z) (e : error) (** a report, in place of the answer to a request *)
| OPost (j : job)
| OClose (session : nat)
| OReturn (e : option error)  (** what [callOnLoop] hands back to its caller *).

Record node (R : Type) := mkNode {
  registry : R;
  subscriptions : serviceSubscriptionIndex;
  remotes : gmap nat RemoteNode;   (** the objects behind the sessions *)
  remoteNodes : gmap Z nat;
  controlQueue : list task;
  running : option micro;          (** what the control loop is in the middle of *)
  goroutines : list micro;
  outputs : list output            (** in order *)
}.
Arguments mkNode {R}.
Arguments registry {R}.
Arguments subscriptions {R}.
Arguments remotes {R}.
Arguments remoteNodes {R}.
Arguments controlQueue {R}.
Arguments running {R}.
Arguments goroutines {R}.
Arguments outputs {R}.

(** The fields of the Node that do not change. *)
Record node_env := mkEnv {
  self : Z;
  mainNodeID : Z;
  config : Config;
  listenAddr : string;
  localServices : gmap ServiceKey serviceRuntime
}.

Definition IsMainNode (n : node_env) : bool := (self n =? mainNodeID n)%Z.

Section Setters.
Context {R : Type}.
Implicit Types s : node R.

Definition set_registry (r : R) s := mkNode r (subscriptions s) (remotes s) (remoteNodes s)
  (controlQueue s) (running s) (goroutines s) (outputs s).
Definition set_subscriptions i s := mkNode (registry s) i (remotes s) (remoteNodes s)
  (controlQueue s) (running s) (goroutines s) (outputs s).
Definition set_remotes m s := mkNode (registry s) (subscriptions s) m (remoteNodes s)
  (controlQueue s) (running s) (goroutines s) (outputs s).
Definition set_remoteNodes m s := mkNode (registry s) (subscriptions s) (remotes s) m
  (controlQueue s) (running s) (goroutines s) (outputs s).
Definition set_queue q s := mkNode (registry s) (subscriptions s) (remotes s) (remoteNodes s)
  q (running s) (goroutines s) (outputs s).
Definition set_running r s := mkNode (registry s) (subscriptions s) (remotes s) (remoteNodes s)
  (controlQueue s) r (goroutines s) (outputs s).
Definition set_goroutines g s := mkNode (registry s) (subscriptions s) (remotes s) (remoteNodes s)
  (controlQueue s) (running s) g (outputs s).
Definition emit (o : list output) s := mkNode (registry s) (subscriptions s) (remotes s)
  (remoteNodes s) (controlQueue s) (running s) (goroutines s) (outputs s ++ o).

(** [controlLoop.Post] *)
Definition post (t : task) s := set_queue (controlQueue s ++ [t]) s.
Definition go (m : micro) s := set_goroutines (goroutines s ++ [m]) s.
End Setters.

Section Node.
Context `{UnicodeTables} `{Platform} `{ProtoLib} `{PacketLib} {R : Type} `{ServiceRegistry R}.
Context (n : node_env).
Implicit Types s : node R.

(** ** Answers *)

Definition respondRPCError (session : nat) (contextID : Z) (e : error) : list output :=
  match encodeError (Some e) with
  | Ok wpk => [ORespond session contextID wpk]
  | Err e' => [OUnsent session contextID e']
  end.

(** The outputs of [respondRPC] and the error it returns. *)
Definition respondRPC (session : nat) (contextID : Z) (response : protocol)
    : list output * option error :=
  match encodeResult "" "" response with
  | Ok wpk => ([ORespond session contextID wpk], None)
  | Err e => ([OUnsent session contextID e], Some e)
  end.

(** ** Remote nodes *)

(** [remote.active.Load() && remote.id != 0 && n.remoteNodes[remote.id] == remote] *)
Definition is_current (session : nat) (remote : RemoteNode) s : bool :=
  active remote && negb (remote_id remote =? 0)%Z
  && bool_decide (remoteNodes s !! remote_id remote = Some session).

Definition not_registered : error :=
  wrapf (ESentinel ErrNodeNotFound) ": rpc session is not registered".

Definition registeredRemoteNode (session : nat) s : res RemoteNode :=
  match remotes s !! session with
  | None => Err not_registered
  | Some remote => if is_current session remote s then Ok remote else Err not_registered
  end.

Definition remoteNodeIsCurrent (session : nat) s : bool :=
  match remotes s !! session with
  | None => false
  | Some remote => is_current session remote s
  end.

(** [refreshRemoteHeartbeat] and [armRemoteNodeTimeout] post to the loop. *)
Definition armRemoteNodeTimeout (session : nat) s : node R := post (TArm session) s.

(** ** Broadcasts, run on the control loop *)

Definition sessions_of s : list nat := map snd (map_to_list (remoteNodes s)).

(** The packets for one key to all sessions; an encoding error ends the whole
    broadcast, which [false] signals. *)
Fixpoint invalidate_sessions (key : ServiceKey) (sessions : list nat) : list output * bool :=
  match sessions with
  | [] => ([], true)
  | session :: rest =>
      match encodeEnvelope opRouteInvalidate
              (Message TRouteInvalidate (mkRouteInvalidate (Some (serviceKeyToProto key)))) with
      | Err e => ([OReport e], false)
      | Ok wpk => let '(o, b) := invalidate_sessions key rest in (OSend session wpk :: o, b)
      end
  end.

Fixpoint invalidate_keys (keys : list ServiceKey) (sessions : list nat) : list output :=
  match keys with
  | [] => []
  | key :: rest =>
      let '(o, b) := invalidate_sessions key sessions in
      if b then o ++ invalidate_keys rest sessions else o
  end.

Definition broadcastRouteInvalidation (keys : list ServiceKey) s : list output :=
  if negb (IsMainNode n) || bool_decide (keys = []) then []
  else invalidate_keys keys (sessions_of s).

Definition sendServiceDiscovery (subscriber : ServiceKey) (serviceName : string) (event : Z)
    (services : list ServiceKey) s : list output :=
  match Lookup subscriber (registry s) with
  | None => []
  | Some location =>
      if (NodeID location =? self n)%Z then
        match dispatchLocalServiceDiscovery (localServices n) subscriber serviceName event services with
        | Ok j => [OPost j]
        | Err e => [OReport e]
        end
      else
        match remoteNodes s !! NodeID location with
        | None => []
        | Some session =>
            match encodeEnvelope opServiceDiscovery
                    (Message TServiceDiscovery
                       (mkDiscovery (Some (serviceKeyToProto subscriber)) serviceName event
                          (map serviceKeyToProto services))) with
            | Ok wpk => [OSend session wpk]
            | Err e => [OReport e]
            end
        end
  end.

Definition notify (event : Z) (service : ServiceKey) s : list output :=
  concat (map (fun subscriber => sendServiceDiscovery subscriber (Name service) event [service] s)
            (subscribers (Name service) (subscriptions s))).

Definition serviceRegistered (service : ServiceKey) s : node R :=
  emit (broadcastRouteInvalidation [service] s ++ notify eventOnline service s) s.

Definition servicesUnregistered (services : list ServiceKey) s : node R :=
  let s := set_subscriptions (foldl (fun i k => removeSubscriber k i) (subscriptions s) services) s in
  emit (broadcastRouteInvalidation services s
        ++ concat (map (fun service => notify eventOffline service s) services)) s.

Definition serviceUnregistered (service : ServiceKey) s : node R := servicesUnregistered [service] s.

Definition serviceKeysForNode (nodeID : Z) (r : R) : list ServiceKey :=
  sortServiceKeys (map Key (filter (fun l => NodeID l = nodeID) (List r))).

Definition serviceSnapshot (serviceName : string) (r : R) : list ServiceKey :=
  sortServiceKeys (map Key (filter (fun l => ServiceName l = serviceName) (List r))).

Definition addServiceSubscription (subscriber : ServiceKey) (sourceNode : Z) (serviceName : string) s
    : res (node R) :=
  match Lookup subscriber (registry s) with
  | None => Err (service_not_found ("subscriber " +:+ ServiceKey_String subscriber))
  | Some location =>
      if (NodeID location =? sourceNode)%Z
      then Ok (set_subscriptions (subscribe subscriber serviceName (subscriptions s)).1 s)
      else Err (EText ("subscriber " +:+ ServiceKey_String subscriber +:+ " belongs to node "
                       +:+ fmt_d (NodeID location) +:+ ", not node " +:+ fmt_d sourceNode))
  end.

Definition node_disconnected (sourceNode : Z) : error :=
  wrapf (ESentinel ErrNodeNotFound) (": node " +:+ fmt_d sourceNode +:+ " disconnected").

Definition own_location (key : ServiceKey) : ServiceLocation :=
  mkServiceLocation (Name key) (ID key) (self n) (listenAddr n).

(** ** The control loop *)

(** The closures [handleRPCRequest] posts, after their check that the remote
    node is still current, and the closures of the Node's own services. *)
Definition run_body (t : task) s : node R :=
  match t with
  | TRegister session contextID sourceNode location =>
      match Register location (registry s) with
      | Err e => emit (respondRPCError session contextID e) s
      | Ok r =>
          let s := serviceRegistered (Key location) (set_registry r s) in
          emit (respondRPC session contextID (Message TRegisterResponse tt)).1 s
      end
  | TUnregister session contextID sourceNode target =>
      match Unregister target sourceNode (registry s) with
      | Err e => emit (respondRPCError session contextID e) s
      | Ok r =>
          let s := serviceUnregistered target (set_registry r s) in
          emit (respondRPC session contextID (Message TUnregisterResponse tt)).1 s
      end
  | TSubscribe session contextID sourceNode subscriber serviceName =>
      match addServiceSubscription subscriber sourceNode serviceName s with
      | Err e => emit (respondRPCError session contextID e) s
      | Ok s =>
          let services := serviceSnapshot serviceName (registry s) in
          let s := emit (sendServiceDiscovery subscriber serviceName eventSnapshot services s) s in
          emit (respondRPC session contextID (Message TSubscribeResponse tt)).1 s
      end
  | TCleanup nodeID =>
      let keys := serviceKeysForNode nodeID (registry s) in
      servicesUnregistered keys (set_registry (UnregisterNode nodeID (registry s)) s)
  | TLocalRegister key =>
      match Register (own_location key) (registry s) with
      | Err e => emit [OReturn (Some e)] s
      | Ok r => emit [OReturn None] (serviceRegistered key (set_registry r s))
      end
  | TLocalUnregister key =>
      match Unregister key (self n) (registry s) with
      | Err e => emit [OReturn (Some e)] s
      | Ok r => emit [OReturn None] (serviceUnregistered key (set_registry r s))
      end
  | TLocalSubscribe subscriber serviceName =>
      match addServiceSubscription subscriber (self n) serviceName s with
      | Err e => emit [OReturn (Some e)] s
      | Ok s =>
          let services := serviceSnapshot serviceName (registry s) in
          emit [OReturn None]
            (emit (sendServiceDiscovery subscriber serviceName eventSnapshot services s) s)
      end
  | TArm session =>
      match remotes s !! session with
      | Some remote =>
          if active remote
          then set_remotes (<[session := mkRemote (remote_id remote) (remote_addr remote) true true]>
                              (remotes s)) s
          else s
      | None => s
      end
  | TExpire _ => s
  end.

(** The loop takes the next task: a remote node's request is checked first and
    its body is what the loop does next; an expired heartbeat starts
    [removeRemoteNode] on the loop. *)
Definition begin_task (t : task) s : node R :=
  match t with
  | TRegister session contextID sourceNode _ | TUnregister session contextID sourceNode _
  | TSubscribe session contextID sourceNode _ _ =>
      if remoteNodeIsCurrent session s then set_running (Some (MBody t)) s
      else emit (respondRPCError session contextID (node_disconnected sourceNode)) s
  | TExpire session => set_running (Some (MSwap session true)) s
  | _ => run_body t s
  end.

(** ** Goroutine steps, shared by the loop and the session goroutines

    The result is the state and what is left to do. *)
Definition run_micro (m : micro) s : node R * option micro :=
  match m with
  | MPost t => (post t s, None)
  | MSwap session closeSession =>
      match remotes s !! session with
      | None => (s, None)
      | Some remote =>
          if active remote then
            (set_remotes (<[session := mkRemote (remote_id remote) (remote_addr remote) false false]>
                            (remotes s)) s,
             Some (MUnlink session closeSession))
          else (s, None)
      end
  | MUnlink session closeSession =>
      match remotes s !! session with
      | None => (s, None)
      | Some remote =>
          if negb (remote_id remote =? 0)%Z
             && bool_decide (remoteNodes s !! remote_id remote = Some session)
          then (set_remoteNodes (delete (remote_id remote) (remoteNodes s)) s,
                Some (if IsMainNode n then MCleanup (remote_id remote) session closeSession
                      else MClose session closeSession))
          else (s, Some (MClose session closeSession))
      end
  | MCleanup nodeID session closeSession =>
      (post (TCleanup nodeID) s, Some (MClose session closeSession))
  | MClose session closeSession => (if closeSession then emit [OClose session] s else s, None)
  | MBody t => (run_body t s, None)
  end.

(** ** Session handlers *)

(** [OnAccept] *)
Definition on_accept (session : nat) s : node R :=
  armRemoteNodeTimeout session (set_remotes (<[session := mkRemote 0 "" true false]> (remotes s)) s).

Definition node_exists (tail : string) : error := wrapf (ESentinel ErrNodeExists) tail.

Definition handleRegisterNode (session : nat) (contextID : Z) (payload : list byte) s : node R :=
  let fail e := emit (respondRPCError session contextID e) s in
  match decodeOperationPayload TRegisterNodeRequest payload with
  | Err e => fail (rpcInvalidMessage e)
  | Ok request =>
      match rpcNodeID (rn_node_id request) with
      | Err e => fail (rpcInvalidMessage e)
      | Ok nodeID =>
          match Config.Node (Some (config n)) nodeID with
          | None => fail (wrapf (ESentinel ErrNodeNotFound) (": id=" +:+ fmt_d nodeID))
          | Some configured =>
              if (nodeID =? self n)%Z then
                fail (rpcInvalidMessage (EText ("node " +:+ fmt_d nodeID
                                                +:+ " cannot register with itself")))
              else if negb (bool_decide (rn_node_addr request = ListenAddr configured)) then
                fail (rpcInvalidMessage (EText ("node " +:+ fmt_d nodeID +:+ " address "
                  +:+ Quote (rn_node_addr request) +:+ " does not match configured address "
                  +:+ Quote (ListenAddr configured))))
              else
                match remotes s !! session with
                | None => fail (rpcInvalidMessage (EText "rpc session is not tracked"))
                | Some remote =>
                    if negb (active remote) then
                      fail (wrapf (ESentinel ErrNodeNotFound) ": rpc session is closed")
                    else if negb (remote_id remote =? 0)%Z then
                      fail (node_exists (": rpc session is already registered as node "
                                         +:+ fmt_d (remote_id remote)))
                    else if bool_decide (is_Some (remoteNodes s !! nodeID)) then
                      fail (node_exists (": node " +:+ fmt_d nodeID))
                    else
                      let s := set_remoteNodes (<[nodeID := session]> (remoteNodes s))
                        (set_remotes (<[session := mkRemote nodeID (rn_node_addr request)
                                          (active remote) (armed remote)]> (remotes s)) s) in
                      emit (respondRPC session contextID (Message TRegisterNodeResponse tt)).1
                        (armRemoteNodeTimeout session s)
                end
          end
      end
  end.

Definition not_main : error := EText ("node " +:+ fmt_d (self n) +:+ " is not the main node").

(** The branches of [handleRPCRequest] for a registered remote node.  A branch
    that posts to the control loop leaves the post to its goroutine. *)
Definition handle_op (session : nat) (contextID : Z) (remote : RemoteNode) (op : Z)
    (payload : list byte) s : node R :=
  let fail e := emit (respondRPCError session contextID e) s in
  let sourceNode := remote_id remote in
  if (op =? opHeartbeat)%Z then
    match decodeOperationPayload THeartbeatRequest payload with
    | Err e => fail (rpcInvalidMessage e)
    | Ok _ =>
        emit (respondRPC session contextID (Message THeartbeatResponse tt)).1
          (armRemoteNodeTimeout session s)
    end
  else if (op =? opRegister)%Z then
    match decodeOperationPayload TRegisterRequest payload with
    | Err e => fail (rpcInvalidMessage e)
    | Ok request =>
        match requiredRPCServiceLocation (rg_location request) "register location" with
        | Err e => fail (rpcInvalidMessage e)
        | Ok location =>
            if negb (IsMainNode n) then fail not_main
            else if negb (NodeID location =? sourceNode)%Z
                    || negb (bool_decide (NodeAddr location = remote_addr remote))
            then fail (EText ("register location does not match registered node "
                              +:+ fmt_d sourceNode))
            else go (MPost (TRegister session contextID sourceNode location)) s
        end
    end
  else if (op =? opUnregister)%Z then
    match decodeOperationPayload TUnregisterRequest payload with
    | Err e => fail (rpcInvalidMessage e)
    | Ok request =>
        match requiredRPCServiceKey (un_target request) "unregister target" with
        | Err e => fail (rpcInvalidMessage e)
        | Ok target =>
            if negb (IsMainNode n) then fail not_main
            else go (MPost (TUnregister session contextID sourceNode target)) s
        end
    end
  else if (op =? opSubscribe)%Z then
    match decodeOperationPayload TSubscribeRequest payload with
    | Err e => fail (rpcInvalidMessage e)
    | Ok request =>
        match requiredRPCServiceKey (su_subscriber request) "subscribe subscriber" with
        | Err e => fail (rpcInvalidMessage e)
        | Ok subscriber =>
            match normalizeSubscribedServiceName (su_service_name request) with
            | Err e => fail (rpcInvalidMessage e)
            | Ok serviceName =>
                if negb (bool_decide (serviceName = su_service_name request))
                then fail (rpcInvalidMessage (EText "subscribed service name is not normalized"))
                else if negb (IsMainNode n) then fail not_main
                else go (MPost (TSubscribe session contextID sourceNode subscriber serviceName)) s
            end
        end
    end
  else if (op =? opLookup)%Z then
    match decodeOperationPayload TLookupRequest payload with
    | Err e => fail (rpcInvalidMessage e)
    | Ok request =>
        match requiredRPCServiceKey (lk_target request) "lookup target" with
        | Err e => fail (rpcInvalidMessage e)
        | Ok target =>
            if negb (IsMainNode n) then fail not_main
            else match Lookup target (registry s) with
                 | None => fail (service_not_found (ServiceKey_String target))
                 | Some location =>
                     emit (respondRPC session contextID
                             (Message TLookupResponse
                                (mkLookupResponse (Some (serviceLocationToProto location))))).1 s
                 end
        end
    end
  else if (op =? opDeliver)%Z then
    match decodeOperationPayload TDeliverRequest payload with
    | Err e => fail (rpcInvalidMessage e)
    | Ok request =>
        match decodeDeliverRequest request with
        | Err e => fail (rpcInvalidMessage e)
        | Ok (source, target, messageID, mode) =>
            let r := RemoteResponder session contextID in
            let dispatched :=
              if (mode =? deliverRequestModeSync)%Z then
                dispatchLocalRequestSync (localServices n) source target messageID (dl_payload request) r
              else if (mode =? deliverRequestModeAsync)%Z then
                dispatchLocalRequestAsync (localServices n) source target messageID (dl_payload request) r
              else Err (rpcInvalidMessage (EText ("deliver mode " +:+ mode_String mode
                                                  +:+ " is invalid for a request"))) in
            match dispatched with
            | Ok j => emit [OPost j] s
            | Err e => fail e
            end
        end
    end
  else fail (EText ("unsupported rpc operation " +:+ fmt_d op)).

Definition handleRPCRequest (session : nat) (contextID : Z) (rpk : list byte) s : node R :=
  match decodeEnvelope rpk with
  | Err e => emit (respondRPCError session contextID (rpcInvalidMessage e)) s
  | Ok (op, payload) =>
      if (op =? opRegisterNode)%Z then handleRegisterNode session contextID payload s
      else match registeredRemoteNode session s with
           | Err e => emit (respondRPCError session contextID e) s
           | Ok remote => handle_op session contextID remote op payload s
           end
  end.

Definition handleRPCDirect (session : nat) (rpk : list byte) s : node R :=
  match decodeEnvelope rpk with
  | Err e => emit [OReport e] s
  | Ok (op, payload) =>
      match registeredRemoteNode session s with
      | Err e => emit [OReport e] s
      | Ok _ =>
          if (op =? opDeliver)%Z then
            match decodeOperationPayload TDeliverRequest payload with
            | Err e => emit [OReport (rpcInvalidMessage e)] s
            | Ok request =>
                match decodeDeliverRequest request with
                | Err e => emit [OReport (rpcInvalidMessage e)] s
                | Ok (source, target, messageID, mode) =>
                    if negb (mode =? deliverRequestModeDirect)%Z then
                      emit [OReport (rpcInvalidMessage (EText ("deliver mode " +:+ mode_String mode
                              +:+ " is invalid for a direct message")))] s
                    else match dispatchLocalDirect (localServices n) source target messageID
                                 (dl_payload request) with
                         | Ok j => emit [OPost j] s
                         | Err e => emit [OReport e] s
                         end
                end
            end
          else emit [OReport (EText ("unsupported direct rpc operation " +:+ fmt_d op))] s
      end
  end.

(** ** The running Node as a transition system *)

Inductive event :=
| EAccept (session : nat)
| EClose (session : nat)                               (** [OnSessionClose] *)
| ERequest (session : nat) (contextID : Z) (rpk : list byte)
| EDirect (session : nat) (rpk : list byte)
| ETimer (session : nat)                               (** the heartbeat timer fires *)
| ELocal (t : task)                                    (** [callOnLoop] of a local service *)
| EGoroutine (i : nat)
| EControl.

Definition is_local (t : task) : bool :=
  match t with TLocalRegister _ | TLocalUnregister _ | TLocalSubscribe _ _ => true | _ => false end.

Definition node_step (e : event) s : option (node R) :=
  match e with
  | EAccept session =>
      match remotes s !! session with Some _ => None | None => Some (on_accept session s) end
  | EClose session => Some (go (MSwap session false) s)
  | ERequest session contextID rpk => Some (handleRPCRequest session contextID rpk s)
  | EDirect session rpk => Some (handleRPCDirect session rpk s)
  | ETimer session =>
      match remotes s !! session with
      | Some remote =>
          if armed remote then
            Some (post (TExpire session)
                    (set_remotes (<[session := mkRemote (remote_id remote) (remote_addr remote)
                                      (active remote) false]> (remotes s)) s))
          else None
      | None => None
      end
  | ELocal t => if is_local t && IsMainNode n then Some (post t s) else None
  | EGoroutine i =>
      match goroutines s !! i with
      | None => None
      | Some m => let '(s', m') := run_micro m s in
                  Some (set_goroutines (replace_at i m' (goroutines s')) s')
      end
  | EControl =>
      match running s with
      | Some m => let '(s', m') := run_micro m s in Some (set_running m' s')
      | None =>
          match controlQueue s with
          | [] => None
          | t :: q => Some (begin_task t (set_queue q s))
          end
      end
  end.

Fixpoint node_run (l : list event) s : option (node R) :=
  match l with
  | [] => Some s
  | e :: l' => match node_step e s with Some s' => node_run l' s' | None => None end
  end.

Definition step_rel s s' : Prop := exists e, node_step e s = Some s'.

End Node.

(** A Node right after its server started, on an empty registry. *)
Definition node_init {R} (r : R) : node R :=
  mkNode r newServiceSubscriptionIndex ∅ ∅ [] None [] [].
