(* ===== verification/ControlInvariant.v ===== *)
(** * Invariants of the control plane

    The invariant of the transition system of [ControlPlane] and its
    preservation by every step: who is in [remoteNodes], which entries the
    registry may hold and what is still going to remove them, and that every
    subscriber in the index is a registered service. *)

From stdpp Require Import base tactics list gmap sets strings.
From Stdlib Require Import ZArith Lia Strings.Byte.
From S2P Require Import Prelude GoString Errors Registry Subscription Config Service Wire Dispatch.
From S2P Require Import ControlPlane.
Local Open Scope string_scope.
Local Open Scope list_scope.

Section Invariant.
Context `{UnicodeTables} `{Platform} `{ProtoLib} `{PacketLib}.
Context {R : Type} `{ServiceRegistry R} `{!ServiceRegistryLaws R}.
Context (n : node_env).
Implicit Types s : node R.
Implicit Types ms : list micro.

(** What the goroutines and the loop are in the middle of. *)
Definition micros s : list micro := option_list (running s) ++ goroutines s.

Definition connected s (m : Z) : Prop := is_Some (remoteNodes s !! m).
Definition unlinking ms (session : nat) : Prop := exists b, MUnlink session b ∈ ms.
Definition cleaning ms s (m : Z) : Prop :=
  TCleanup m ∈ controlQueue s \/ exists session b, MCleanup m session b ∈ ms.

(** The configured address of a node. *)
Definition configured_addr (m : Z) (addr : string) : Prop :=
  exists c, Config.Node (Some (config n)) m = Some c /\ addr = ListenAddr c.

(** A register task carries what its session was registered with; only the
    main node has tasks of its own services. *)
Definition task_ok s (t : task) : Prop :=
  match t with
  | TRegister session _ sourceNode location =>
      IsMainNode n = true /\ NodeID location = sourceNode /\ sourceNode <> 0%Z /\
      exists r, remotes s !! session = Some r /\ remote_id r = sourceNode /\
        NodeAddr location = remote_addr r
  | TLocalRegister _ | TLocalUnregister _ | TLocalSubscribe _ _ => IsMainNode n = true
  | _ => True
  end.

(** [ms] are the pending goroutine steps of the state. *)
Record node_inv ms s : Prop := {
  i_reg : reg_ok (registry s);
  i_idx : index_wf (subscriptions s);
  i_sub : forall k name, subscribed (subscriptions s) k name -> is_Some (Lookup k (registry s));
  i_remote : forall m session, remoteNodes s !! m = Some session ->
    exists r, remotes s !! session = Some r /\ remote_id r = m /\ m <> 0%Z /\
      (active r = true \/ unlinking ms session);
  i_id : forall session r, remotes s !! session = Some r -> remote_id r <> 0%Z ->
    remote_id r <> self n /\ configured_addr (remote_id r) (remote_addr r);
  i_loc : forall k l, Lookup k (registry s) = Some l ->
    (NodeID l = self n /\ NodeAddr l = listenAddr n) \/
    (IsMainNode n = true /\ NodeID l <> self n /\ configured_addr (NodeID l) (NodeAddr l) /\
     (connected s (NodeID l) \/ cleaning ms s (NodeID l)));
  i_queue : forall t, t ∈ controlQueue s -> task_ok s t;
  i_post : forall t, MPost t ∈ ms -> task_ok s t;
  i_body : forall t, MBody t ∈ ms -> task_ok s t /\
    match t with
    | TRegister _ _ src _ => connected s src \/ cleaning ms s src
    | TExpire _ | TArm _ | TCleanup _ => False
    | _ => True
    end
}.

(** ** Changing the pending steps *)

Lemma node_inv_micros ms ms' s :
  (forall m session, remoteNodes s !! m = Some session -> unlinking ms session -> unlinking ms' session) ->
  (forall x, cleaning ms s x -> cleaning ms' s x) ->
  (forall t, MPost t ∈ ms' -> MPost t ∈ ms \/ task_ok s t) ->
  (forall t, MBody t ∈ ms' -> MBody t ∈ ms) ->
  node_inv ms s -> node_inv ms' s.
Proof.
  intros Hu Hc Hp Hb Hs. split; try apply Hs.
  - intros m session Hm. destruct (i_remote _ _ Hs _ _ Hm) as (r & ? & ? & ? & [?|?]);
      exists r; split_and!; eauto.
  - intros k l Hl. destruct (i_loc _ _ Hs _ _ Hl) as [|(? & ? & ? & [|])]; auto 10.
  - intros t Ht. destruct (Hp t Ht); [|done]. by apply (i_post _ _ Hs).
  - intros t Ht. destruct (i_body _ _ Hs t (Hb t Ht)) as [? Hbody]. split; [done|].
    destruct t; try done. destruct Hbody; auto.
Qed.

Lemma cleaning_mono ms ms' s x : ms ⊆ ms' -> cleaning ms s x -> cleaning ms' s x.
Proof. intros Hsub [|(se & b & ?)]; [by left|]. right. exists se, b. by apply Hsub. Qed.

Lemma cleaning_tail m ms s x :
  (forall y se b, m <> MCleanup y se b) -> cleaning (m :: ms) s x -> cleaning ms s x.
Proof.
  intros Hm [|(se & b & [<-|?]%elem_of_cons)]; [by left|by destruct (Hm x se b)|]. right. eauto.
Qed.

Lemma node_inv_ext ms ms' s :
  (forall m, m ∈ ms <-> m ∈ ms') -> node_inv ms s -> node_inv ms' s.
Proof.
  intros E. apply node_inv_micros.
  - intros m se _ [b Hb]. exists b. by apply E.
  - intros x. apply cleaning_mono. intros m. by apply E.
  - intros t. rewrite E. auto.
  - intros t. by rewrite E.
Qed.

(** A new pending step that is not a body. *)
Lemma node_inv_more ms s m :
  (forall t, m = MPost t -> task_ok s t) -> (forall t, m <> MBody t) ->
  node_inv ms s -> node_inv (m :: ms) s.
Proof.
  intros Hm Hnb. apply node_inv_micros.
  - intros x se _ [b Hb]. exists b. by right.
  - intros x. apply cleaning_mono. intros y Hy. by right.
  - intros t [Ht|Ht]%elem_of_cons; auto.
  - intros t [Ht|Ht]%elem_of_cons; [by destruct (Hnb t)|done].
Qed.

(** Dropping a pending step nothing waits for. *)
Lemma node_inv_less ms s m :
  (forall y se b, m <> MCleanup y se b) ->
  (forall y se b, m = MUnlink se b -> remoteNodes s !! y <> Some se) ->
  node_inv (m :: ms) s -> node_inv ms s.
Proof.
  intros Hm Hu. apply node_inv_micros.
  - intros x se Hx [b [Hb|Hb]%elem_of_cons]; [by destruct (Hu x se b)|]. by exists b.
  - intros x. by apply cleaning_tail.
  - intros t Ht. left. by right.
  - intros t Ht. by right.
Qed.

(** ** Updates of the state *)

Lemma node_inv_view ms s s' :
  registry s' = registry s -> subscriptions s' = subscriptions s -> remotes s' = remotes s ->
  remoteNodes s' = remoteNodes s -> controlQueue s' = controlQueue s ->
  node_inv ms s -> node_inv ms s'.
Proof.
  intros Er Es Ero En Eq Hs. destruct s, s'; simpl in *; subst. split; apply Hs.
Qed.

Lemma node_inv_emit ms s o : node_inv ms s -> node_inv ms (emit o s).
Proof. by apply node_inv_view. Qed.

Lemma node_inv_post ms s t : node_inv ms s -> task_ok s t -> node_inv ms (post t s).
Proof.
  intros Hs Ht. assert (forall x, cleaning ms s x -> cleaning ms (post t s) x) as Hc.
  { intros x [?|?]; [|by right]. left. simpl. apply elem_of_app. by left. }
  split; try apply Hs.
  - intros k l Hl. destruct (i_loc _ _ Hs _ _ Hl) as [|(? & ? & ? & [|])]; auto 10.
  - intros u [Hu| ->%list_elem_of_singleton]%elem_of_app; [by apply (i_queue _ _ Hs)|done].
  - intros u Hu. destruct (i_body _ _ Hs u Hu) as [? Hb].
    split; [done|]. destruct u; try done. destruct Hb; auto.
Qed.

(** Taking a task off the queue. *)
Lemma node_inv_pop ms s t q :
  controlQueue s = t :: q -> (forall m, t <> TCleanup m) ->
  node_inv ms s -> node_inv ms (set_queue q s) /\ task_ok s t.
Proof.
  intros Eq Hne Hs. assert (forall x, cleaning ms s x -> cleaning ms (set_queue q s) x) as Hc.
  { intros x [Hx|?]; [|by right]. left. simpl. rewrite Eq, elem_of_cons in Hx.
    destruct Hx as [<-|?]; [by destruct (Hne x)|done]. }
  split; [|apply (i_queue _ _ Hs); rewrite Eq; by left].
  split; try apply Hs.
  - intros k l Hl. destruct (i_loc _ _ Hs _ _ Hl) as [|(? & ? & ? & [|])]; auto 10.
  - intros u Hu. apply (i_queue _ _ Hs). rewrite Eq. by right.
  - intros u Hu. destruct (i_body _ _ Hs u Hu) as [? Hb].
    split; [done|]. destruct u; try done. destruct Hb; auto.
Qed.

(** A change of the session objects keeps what registered sessions registered
    with. *)
Lemma task_ok_remotes rs s t :
  (forall session r, remotes s !! session = Some r -> remote_id r <> 0%Z ->
     exists r', rs !! session = Some r' /\ remote_id r' = remote_id r /\ remote_addr r' = remote_addr r) ->
  task_ok s t -> task_ok (set_remotes rs s) t.
Proof.
  intros Hk Ht. destruct t; simpl in *; try done.
  destruct Ht as (? & ? & ? & r & Hr & Ei & Ea). split_and!; auto.
  destruct (Hk _ _ Hr) as (r' & ? & ? & ?); [congruence|]. exists r'. split_and!; congruence.
Qed.

Lemma node_inv_remotes ms rs s :
  (forall session r, remotes s !! session = Some r -> remote_id r <> 0%Z ->
     exists r', rs !! session = Some r' /\ remote_id r' = remote_id r /\
       remote_addr r' = remote_addr r /\
       (active r' = active r \/ unlinking ms session)) ->
  (forall session r, rs !! session = Some r -> remote_id r <> 0%Z ->
     remote_id r <> self n /\ configured_addr (remote_id r) (remote_addr r)) ->
  node_inv ms s -> node_inv ms (set_remotes rs s).
Proof.
  intros Hk Hid Hs.
  assert (forall t, task_ok s t -> task_ok (set_remotes rs s) t) as Ht.
  { intros t. apply task_ok_remotes. intros se r Hr Hz.
    destruct (Hk _ _ Hr Hz) as (r' & ? & ? & ? & ?). eauto. }
  split; try apply Hs; try done.
  - intros m session Hm. destruct (i_remote _ _ Hs _ _ Hm) as (r & Hr & Hi & Hz & Ha).
    destruct (Hk _ _ Hr) as (r' & Hr' & Hi' & _ & Ha'); [congruence|]. exists r'.
    split_and!; [done|congruence|done|]. destruct Ha', Ha; auto. left. congruence.
  - intros t Hq. apply Ht. by apply (i_queue _ _ Hs).
  - intros t Hq. apply Ht. by apply (i_post _ _ Hs).
  - intros t Hq. destruct (i_body _ _ Hs t Hq) as [? Hb]. split; [by apply Ht|done].
Qed.

(** Rewriting one session object without changing who it is. *)
Lemma node_inv_remote ms s session r r' :
  remotes s !! session = Some r -> remote_id r' = remote_id r -> remote_addr r' = remote_addr r ->
  (active r' = active r \/ unlinking ms session) ->
  node_inv ms s -> node_inv ms (set_remotes (<[session := r']> (remotes s)) s).
Proof.
  intros Hr Ei Ea Hact Hs. apply node_inv_remotes; [..|done].
  - intros se x Hx Hz. destruct (decide (se = session)) as [->|].
    + rewrite lookup_insert_eq. exists r'. simplify_eq. auto.
    + rewrite lookup_insert_ne by done. exists x. auto.
  - intros se x. rewrite lookup_insert_Some. intros [[<- <-]|[_ Hx]] Hz.
    + rewrite Ei, Ea in *. by apply (i_id _ _ Hs session).
    + by apply (i_id _ _ Hs se).
Qed.

(** The registry and the index change together. *)
Lemma node_inv_registry ms s r i :
  reg_ok r -> index_wf i ->
  (forall k name, subscribed i k name -> is_Some (Lookup k r)) ->
  (forall k l, Lookup k r = Some l -> Lookup k (registry s) = Some l \/
     (NodeID l = self n /\ NodeAddr l = listenAddr n) \/
     (IsMainNode n = true /\ NodeID l <> self n /\ configured_addr (NodeID l) (NodeAddr l) /\
      (connected s (NodeID l) \/ cleaning ms s (NodeID l)))) ->
  node_inv ms s -> node_inv ms (set_subscriptions i (set_registry r s)).
Proof.
  intros Hr Hi Hsub Hloc Hs. split; try apply Hs; try done.
  intros k l Hl. destruct (Hloc _ _ Hl) as [Ho|]; [|done]. apply (i_loc _ _ Hs _ _ Ho).
Qed.

(** ** Tasks of the control loop *)

Lemma elem_of_serviceKeysForNode m (r : R) k :
  reg_ok r ->
  k ∈ serviceKeysForNode m r <-> exists l, Lookup k r = Some l /\ NodeID l = m.
Proof.
  intros Hr. unfold serviceKeysForNode. rewrite elem_of_sortServiceKeys, list_elem_of_fmap.
  setoid_rewrite list_elem_of_filter. setoid_rewrite List_lookup; [|done..]. split.
  - intros (l & -> & <- & Hl). eauto.
  - intros (l & Hl & <-). destruct (Lookup_Key _ _ _ Hr Hl) as [<- _]. eauto.
Qed.

(** A registration adds the one location. *)
Lemma node_inv_register ms s l r :
  Register l (registry s) = Ok r -> node_inv ms s ->
  ((NodeID l = self n /\ NodeAddr l = listenAddr n) \/
   (IsMainNode n = true /\ NodeID l <> self n /\ configured_addr (NodeID l) (NodeAddr l) /\
    (connected s (NodeID l) \/ cleaning ms s (NodeID l)))) ->
  node_inv ms (serviceRegistered n (Key l) (set_registry r s)).
Proof.
  intros Hr Hs Hl. destruct (Register_Ok _ _ _ (i_reg _ _ Hs) Hr) as (Hok & _ & _ & Hlk).
  apply node_inv_emit.
  apply (node_inv_view _ (set_subscriptions (subscriptions s) (set_registry r s))); try done.
  apply node_inv_registry; [done|apply Hs|..|done].
  - intros k name Hk%(i_sub _ _ Hs). rewrite Hlk. case_decide; eauto.
  - intros k l'. rewrite Hlk. case_decide; [|by left]. intros [= <-]. by right.
Qed.

(** Taking services away takes their subscriptions away. *)
Lemma node_inv_unregistered ms s r ks :
  reg_ok r -> (forall k l, Lookup k r = Some l -> Lookup k (registry s) = Some l) ->
  (forall k, k ∉ ks -> Lookup k r = Lookup k (registry s)) ->
  node_inv ms s -> node_inv ms (servicesUnregistered n ks (set_registry r s)).
Proof.
  intros Hok Hlk Hks Hs. apply node_inv_emit. apply node_inv_registry; [done|..|done].
  - apply index_wf_remove_all, Hs.
  - intros k name [Hk Hn]%subscribed_remove_all; [|apply Hs].
    rewrite Hks by done. by apply (i_sub _ _ Hs _ _ Hn).
  - intros k l Hl. left. by apply Hlk.
Qed.

Lemma node_inv_unregister ms s k nd r :
  Unregister k nd (registry s) = Ok r -> node_inv ms s ->
  node_inv ms (serviceUnregistered n k (set_registry r s)).
Proof.
  intros Hr Hs. destruct (Unregister_Ok _ _ _ _ (i_reg _ _ Hs) Hr) as (Hok & _ & Hlk).
  apply node_inv_unregistered; [done|..|done].
  - intros k' l. rewrite Hlk. by case_decide.
  - intros k' Hk'. rewrite Hlk. case_decide; [|done]. subst. by destruct Hk'; left.
Qed.

Lemma node_inv_subscribe ms s s' k nd name :
  addServiceSubscription k nd name s = Ok s' -> node_inv ms s -> node_inv ms s'.
Proof.
  unfold addServiceSubscription. destruct (Lookup k (registry s)) as [l|] eqn:El; [|done].
  destruct (NodeID l =? nd)%Z; [|done]. intros [= <-] Hs.
  apply (node_inv_view _ (set_subscriptions (subscribe k name (subscriptions s)).1
           (set_registry (registry s) s))); try done.
  apply node_inv_registry; [apply Hs|apply index_wf_subscribe, Hs|..|done].
  - intros k' n'. unfold subscribed. rewrite lookup_subscribe_named. case_decide; subst.
    + rewrite elem_of_union, elem_of_singleton. intros [->|?]; [by rewrite El|].
      by eapply (i_sub _ _ Hs).
    + apply (i_sub _ _ Hs).
  - auto.
Qed.

(** What a task may assume when its body runs. *)
Definition may_run ms s (t : task) : Prop :=
  task_ok s t /\
  match t with
  | TRegister _ _ src _ => connected s src \/ cleaning ms s src
  | TCleanup _ => False
  | _ => True
  end.

Lemma run_body_inv ms s t : may_run ms s t -> node_inv ms s -> node_inv ms (run_body n t s).
Proof.
  intros [Ht Hc] Hs.
  destruct t as [se|se|se c src l|se c src tg|se c src sub nm|m|k|k|sub nm]; simpl; try done.
  - destruct (remotes s !! se) as [r|] eqn:Er; [|done]. destruct (active r) eqn:Ea; [|done].
    eapply node_inv_remote; eauto.
  - destruct (Register l (registry s)) as [r|e] eqn:Er; [|by apply node_inv_emit].
    apply node_inv_emit, node_inv_register; [done..|]. right.
    destruct Ht as (Hm & Hl & Hz & x & Hx & Hi & Ha).
    rewrite Hl, Ha, <- Hi. destruct (i_id _ _ Hs _ _ Hx); [congruence|].
    rewrite Hi. rewrite Hi in *. auto.
  - destruct (Unregister tg src (registry s)) as [r|e] eqn:Er; [|by apply node_inv_emit].
    eapply node_inv_emit, node_inv_unregister; eauto.
  - destruct (addServiceSubscription sub src nm s) as [s'|e] eqn:Er; [|by apply node_inv_emit].
    eapply node_inv_emit, node_inv_emit, node_inv_subscribe; eauto.
  - destruct (Register (own_location n k) (registry s)) as [r|e] eqn:Er; [|by apply node_inv_emit].
    apply node_inv_emit. replace k with (Key (own_location n k)) at 1 by (by destruct k).
    apply node_inv_register; auto.
  - destruct (Unregister k (self n) (registry s)) as [r|e] eqn:Er; [|by apply node_inv_emit].
    eapply node_inv_emit, node_inv_unregister; eauto.
  - destruct (addServiceSubscription sub (self n) nm s) as [s'|e] eqn:Er; [|by apply node_inv_emit].
    eapply node_inv_emit, node_inv_emit, node_inv_subscribe; eauto.
Qed.

(** The cleanup of a node that left, which the loop runs between two bodies:
    afterwards nothing of that node is in the registry. *)
Lemma cleanup_inv ms s m q :
  controlQueue s = TCleanup m :: q -> (forall t, MBody t ∉ ms) ->
  node_inv ms s -> node_inv ms (run_body n (TCleanup m) (set_queue q s)).
Proof.
  intros Eq Hnb Hs. destruct (UnregisterNode_lookup m _ (i_reg _ _ Hs)) as [Hok Hlk].
  apply node_inv_emit. simpl. split; simpl; try apply Hs.
  - done.
  - apply index_wf_remove_all, Hs.
  - intros k name [Hk Hn]%subscribed_remove_all; [|apply Hs].
    rewrite elem_of_serviceKeysForNode in Hk by apply Hs.
    destruct (i_sub _ _ Hs _ _ Hn) as [l Hl]. rewrite Hlk, Hl. case_decide; [|done].
    destruct Hk; eauto.
  - intros k l. rewrite Hlk. destruct (Lookup k (registry s)) as [l'|] eqn:El; [|done].
    case_decide as Hm; [done|]. intros [= <-].
    destruct (i_loc _ _ Hs _ _ El) as [|(? & ? & ? & Hc)]; [by left|right]. split_and!; try done.
    destruct Hc as [?|[Hq|?]]; [by left|right; left|by right; right].
    rewrite Eq, elem_of_cons in Hq. destruct Hq as [[= ?]|]; [by destruct Hm|done].
  - intros t Ht. apply (i_queue _ _ Hs). rewrite Eq. by right.
  - intros t Ht. by destruct (Hnb t).
Qed.

(** ** Goroutine steps *)

(** Taking a node out of [remoteNodes]: its cleanup is now pending. *)
Lemma unlink_present ms s session b r m' :
  remotes s !! session = Some r -> remote_id r <> 0%Z ->
  remoteNodes s !! remote_id r = Some session ->
  (IsMainNode n = true -> m' = MCleanup (remote_id r) session b) ->
  (forall t, m' <> MPost t) -> (forall t, m' <> MBody t) ->
  node_inv (MUnlink session b :: ms) s ->
  node_inv (m' :: ms) (set_remoteNodes (delete (remote_id r) (remoteNodes s)) s).
Proof.
  intros Hr Hz Hc Hm' Hnp Hnb Hs.
  set (s' := set_remoteNodes _ _).
  assert (forall x, IsMainNode n = true ->
    connected s x \/ cleaning (MUnlink session b :: ms) s x ->
    connected s' x \/ cleaning (m' :: ms) s' x) as Hcc.
  { intros x Hmain [Hx|[?|(se & b' & [?|?]%elem_of_cons)]];
      [|by right; left|done|right; right; exists se, b'; by right].
    destruct (decide (x = remote_id r)) as [->|Hne].
    - right; right. exists session, b. rewrite Hm' by done. by left.
    - left. unfold connected, s'; simpl. by rewrite lookup_delete_ne. }
  split; try apply Hs.
  - intros m se. unfold s'; simpl. rewrite lookup_delete_Some. intros [Hne Hm].
    destruct (i_remote _ _ Hs _ _ Hm) as (x & Hx & Hi & Hzx & Hu).
    exists x. split_and!; try done. destruct Hu as [|[b' [[= -> ->]|Hu]%elem_of_cons]]; [by left|..].
    + simplify_eq.
    + right. exists b'. by right.
  - intros k l Hl. destruct (i_loc _ _ Hs _ _ Hl) as [|(? & ? & ? & Hcl)]; [by left|right].
    split_and!; auto.
  - intros t [Ht|Ht]%elem_of_cons; [by destruct (Hnp t)|]. apply (i_post _ _ Hs). by right.
  - intros t [Ht|Ht]%elem_of_cons; [by destruct (Hnb t)|].
    destruct (i_body _ _ Hs t) as [Hok Hb]; [by right|]. split; [done|].
    destruct t; try done. apply Hcc; [apply Hok|done].
Qed.

Local Ltac drop_head := eapply node_inv_less; [| |eassumption]; done.

Lemma run_micro_inv ms s s' m o :
  run_micro n m s = (s', o) -> node_inv (m :: ms) s -> node_inv (option_list o ++ ms) s'.
Proof.
  intros Hrun Hs. destruct m as [t|se b|se b|m se b|se b|t]; simpl in Hrun.
  - simplify_eq/=. apply node_inv_post; [drop_head|].
    apply (i_post _ _ Hs). by left.
  - destruct (remotes s !! se) as [r|] eqn:Er; [|simplify_eq/=; drop_head].
    destruct (active r) eqn:Ea; simplify_eq/=; [|drop_head].
    eapply node_inv_remote; eauto; [right; exists b; by left|].
    apply node_inv_more; [done..|]. drop_head.
  - destruct (remotes s !! se) as [r|] eqn:Er; [destruct (_ && _) eqn:Eb|]; simplify_eq/=.
    + bool_prop. eapply unlink_present; try done; by destruct (IsMainNode n).
    + apply node_inv_more; [done..|]. eapply node_inv_less; [| |exact Hs]; [done|].
      intros y se' b' [= <- <-] Hy. destruct (i_remote _ _ Hs _ _ Hy) as (r' & ? & <- & ? & _).
      simplify_eq. apply andb_false_iff in Eb as [Eb|Eb]; bool_prop; done.
    + eapply node_inv_less; [| |exact Hs]; [done|]. intros y se' b' [= <- <-] Hy.
      destruct (i_remote _ _ Hs _ _ Hy) as (r' & ? & _). congruence.
  - simplify_eq/=. apply node_inv_more; [done..|].
    eapply (node_inv_micros (MCleanup m se b :: ms)); [| | | |by apply node_inv_post].
    + intros x se' _ [b' [?|?]%elem_of_cons]; [done|]. by exists b'.
    + intros x [?|(se' & b' & [[= -> -> ->]|?]%elem_of_cons)]; [by left| |right; eauto].
      left. simpl. apply elem_of_app. right. by left.
    + intros t Ht. left. by right.
    + intros t Ht. by right.
  - simplify_eq/=. destruct b; [apply node_inv_emit|]; drop_head.
  - simplify_eq/=. assert (MBody t ∈ MBody t :: ms) as Hin by left.
    destruct (i_body _ _ Hs _ Hin) as [Hok Hb]. apply run_body_inv.
    + split; [done|]. destruct t; try done. destruct Hb as [|Hb]; [by left|right].
      eapply cleaning_tail; [|done]. done.
    + drop_head.
Qed.

(** ** Handlers *)

Lemma on_accept_inv ms s session :
  remotes s !! session = None -> node_inv ms s -> node_inv ms (on_accept session s).
Proof.
  intros Hn Hs. apply node_inv_post; [|done]. apply node_inv_remotes; [..|done].
  - intros se r Hr Hz. exists r. rewrite lookup_insert_ne by congruence. auto.
  - intros se r. rewrite lookup_insert_Some. intros [[<- <-]|[_ Hr]] Hz; [done|].
    by eapply (i_id _ _ Hs).
Qed.

(** A goroutine starts. *)
Lemma go_inv s m :
  (forall t, m = MPost t -> task_ok s t) -> (forall t, m <> MBody t) ->
  node_inv (micros s) s -> node_inv (micros (go m s)) (go m s).
Proof.
  intros Hp Hb Hs. apply (node_inv_view _ s); try done.
  apply (node_inv_ext (m :: micros s)); [|by apply node_inv_more].
  intros x. unfold micros; simpl. rewrite elem_of_cons, !elem_of_app, list_elem_of_singleton. tauto.
Qed.

(** A session becomes the session of a configured node. *)
Lemma register_remote_inv ms s session r m addr :
  remotes s !! session = Some r -> active r = true -> remote_id r = 0%Z ->
  m <> 0%Z -> m <> self n -> configured_addr m addr -> remoteNodes s !! m = None ->
  node_inv ms s ->
  node_inv ms (set_remoteNodes (<[m := session]> (remoteNodes s))
    (set_remotes (<[session := mkRemote m addr (active r) (armed r)]> (remotes s)) s)).
Proof.
  intros Hr Ha Hi Hz Hself Hcf Hm Hs. set (r' := mkRemote _ _ _ _).
  set (s' := set_remoteNodes _ _).
  assert (node_inv ms (set_remotes (<[session := r']> (remotes s)) s)) as Hs1.
  { apply node_inv_remotes; [..|done].
    - intros se x Hx Hzx. exists x. rewrite lookup_insert_ne by congruence. auto.
    - intros se x. rewrite lookup_insert_Some. intros [[<- <-]|[_ Hx]] Hzx; [done|].
      by eapply (i_id _ _ Hs). }
  assert (forall x, connected s x -> connected s' x) as Hconn.
  { intros x Hx. unfold connected, s' in *; simpl. rewrite lookup_insert_ne; [done|].
    intros ->. rewrite Hm in Hx. by destruct Hx. }
  split; try apply Hs1.
  - intros x se. unfold s'; simpl. rewrite lookup_insert_Some. intros [[<- <-]|[Hne Hx]].
    + exists r'. rewrite lookup_insert_eq. auto.
    + destruct (i_remote _ _ Hs1 _ _ Hx) as (y & ? & ? & ? & ?). by exists y.
  - intros k l Hl. destruct (i_loc _ _ Hs1 _ _ Hl) as [|(? & ? & ? & [|])]; auto 10.
  - intros t Ht. destruct (i_body _ _ Hs1 t Ht) as [? Hb]. split; [done|].
    destruct t; try done. destruct Hb; auto.
Qed.

Lemma handleRegisterNode_inv ms s session c payload :
  node_inv ms s -> node_inv ms (handleRegisterNode n session c payload s).
Proof.
  intros Hs. unfold handleRegisterNode.
  destruct (decodeOperationPayload _ _) as [rq|e]; [|by apply node_inv_emit].
  destruct (rpcNodeID _) as [m|e] eqn:Em; [|by apply node_inv_emit].
  destruct (Config.Node _ m) as [cf|] eqn:Ec; [|by apply node_inv_emit].
  destruct (m =? self n)%Z eqn:Eself; [by apply node_inv_emit|].
  destruct (negb (bool_decide _)) eqn:Ea; [by apply node_inv_emit|].
  destruct (remotes s !! session) as [r|] eqn:Er; [|by apply node_inv_emit].
  destruct (negb (active r)) eqn:Eact; [by apply node_inv_emit|].
  destruct (negb (remote_id r =? 0)%Z) eqn:Eid; [by apply node_inv_emit|].
  destruct (bool_decide (is_Some (remoteNodes s !! m))) eqn:Efree; [by apply node_inv_emit|].
  bool_prop. apply node_inv_emit, node_inv_post; [|done].
  apply register_remote_inv with (r := r); try done.
  - unfold rpcNodeID in Em. inv_res. subst. bool_prop. lia.
  - exists cf. split; [done|congruence].
  - by apply eq_None_not_Some.
Qed.

(** A message for a local service, checked by the decoder. *)
Definition message_ok (source target : ServiceKey) (id : serviceMessageID) : Prop :=
  is_Some (localServices n !! target) /\ (source = zeroServiceKey \/ valid_key source = true) /\
  valid_key target = true /\ validate_id id = None.

Definition answer_packet (pkt : list byte) : Prop :=
  (exists t m, encodeResult "" "" (Message t m) = Ok pkt) \/ exists e, encodeError (Some e) = Ok pkt.

(** Outputs that are neither pushed packets nor discovery events: answers, and
    messages whose answer goes back over a session. *)
Definition plain (o : output) : Prop :=
  match o with
  | OSend _ _ | OPost (JDiscovery _ _ _ _) => False
  | OPost (JDirect source target id _) => message_ok source target id
  | OPost (JSync source target id _ r) | OPost (JAsync source target id _ r) =>
      message_ok source target id /\ exists session c, r = RemoteResponder session c
  | ORespond _ _ pkt => answer_packet pkt
  | _ => True
  end.

Lemma plain_error session c e : Forall plain (respondRPCError session c e).
Proof.
  unfold respondRPCError. destruct (encodeError (Some e)) eqn:E; [|by repeat constructor].
  apply Forall_singleton. right. eauto.
Qed.

Lemma plain_respond session c t m : Forall plain (respondRPC session c (Message t m)).1.
Proof.
  unfold respondRPC. destruct (encodeResult "" "" (Message t m)) eqn:E; [|by repeat constructor].
  apply Forall_singleton. left. eauto.
Qed.

Local Ltac plain_job :=
  match goal with
  | E : _ = Ok ?j, D : decodeDeliverRequest _ = Ok _ |- Forall plain [OPost ?j] =>
      apply dispatchable_Ok in E as (-> & ? & _); apply decodeDeliverRequest_Ok in D as (? & ? & ?);
      apply Forall_singleton; simpl; unfold message_ok; split_and?; eauto
  end.

Local Ltac split_handler :=
  repeat match goal with
  | |- context [if ?b then _ else _] => destruct b eqn:?
  | |- context [match decodeOperationPayload ?t ?p with _ => _ end] =>
      destruct (decodeOperationPayload t p) eqn:?
  | |- context [match requiredRPCServiceKey ?t ?p with _ => _ end] =>
      destruct (requiredRPCServiceKey t p) eqn:?
  | |- context [match requiredRPCServiceLocation ?t ?p with _ => _ end] =>
      destruct (requiredRPCServiceLocation t p) eqn:?
  | |- context [match normalizeSubscribedServiceName ?t with _ => _ end] =>
      destruct (normalizeSubscribedServiceName t) eqn:?
  | |- context [match Lookup ?t ?p with _ => _ end] => destruct (Lookup t p) eqn:?
  | |- context [match decodeDeliverRequest ?t with _ => _ end] =>
      destruct (decodeDeliverRequest t) as [[[[? ?] ?] ?]|] eqn:?
  | |- context [match ?d with Ok _ => _ | Err _ => _ end] => destruct d eqn:?
  end.

(** The tasks a session goroutine leaves to the control loop for a request. *)
Definition posted_request (t : task) : bool :=
  match t with TRegister _ _ _ _ | TUnregister _ _ _ _ | TSubscribe _ _ _ _ _ => true | _ => false end.

(** The branches of [handleRPCRequest] change nothing but what they post. *)
Lemma handle_op_shape s session c r op payload :
  is_current session r s = true -> remotes s !! session = Some r ->
  exists o, Forall plain o /\ let s' := handle_op n session c r op payload s in
  (s' = emit o s \/ s' = emit o (armRemoteNodeTimeout session s) \/
   exists t, s' = go (MPost t) s /\ task_ok s t /\ posted_request t = true).
Proof.
  intros Hc Hr. unfold is_current in Hc. bool_prop. cbv zeta. unfold handle_op. split_handler.
  all: try (refine (ex_intro _ _ (conj _ (or_introl eq_refl)));
    first [apply plain_error|apply plain_respond|plain_job]).
  all: try (refine (ex_intro _ _ (conj _ (or_intror (or_introl eq_refl)))); apply plain_respond).
  all: exists []; split; [by constructor|]; right; right; eexists; (split; [reflexivity|]); try done.
  split; [|done]. simpl. bool_prop. split_and!; try done. exists r. done.
Qed.

Lemma handle_op_inv s session c r op payload :
  is_current session r s = true -> remotes s !! session = Some r ->
  node_inv (micros s) s -> node_inv (micros (handle_op n session c r op payload s))
    (handle_op n session c r op payload s).
Proof.
  intros Hc Hr Hs. destruct (handle_op_shape s session c r op payload Hc Hr)
    as (o & _ & [->|[->|(t & -> & Ht & _)]]).
  - by apply node_inv_emit.
  - by apply node_inv_emit, node_inv_post.
  - apply go_inv; [by intros ? [= <-]|done..].
Qed.

(** ** Every step *)

(** Only the control loop runs bodies. *)
Definition inv s : Prop := node_inv (micros s) s /\ forall t, MBody t ∉ goroutines s.

Lemma addServiceSubscription_Ok k nd name s s' :
  addServiceSubscription k nd name s = Ok s' ->
  s' = set_subscriptions (subscribe k name (subscriptions s)).1 s /\
  exists l, Lookup k (registry s) = Some l /\ NodeID l = nd.
Proof.
  unfold addServiceSubscription. destruct (Lookup k (registry s)) as [l|]; [|done].
  destruct (NodeID l =? nd)%Z eqn:E; [|done]. bool_prop. intros [= <-]. eauto.
Qed.

(** What a task's body leaves alone. *)
Lemma run_body_keeps t s :
  running (run_body n t s) = running s /\ goroutines (run_body n t s) = goroutines s /\
  controlQueue (run_body n t s) = controlQueue s /\ remoteNodes (run_body n t s) = remoteNodes s.
Proof.
  destruct t; simpl;
    repeat match goal with
    | |- context [match addServiceSubscription ?a ?b ?c ?d with _ => _ end] =>
        destruct (addServiceSubscription a b c d) as [s'|] eqn:Ha;
          [apply addServiceSubscription_Ok in Ha as [-> _]|]; simpl
    | |- context [match ?d with _ => _ end] => destruct d; simpl
    end; done.
Qed.

Lemma run_body_frame t s :
  running (run_body n t s) = running s /\ goroutines (run_body n t s) = goroutines s.
Proof. by destruct (run_body_keeps t s) as (? & ? & _). Qed.

Lemma run_micro_frame m s s' o :
  run_micro n m s = (s', o) ->
  running s' = running s /\ goroutines s' = goroutines s /\ (forall t, o <> Some (MBody t)).
Proof.
  destruct m; simpl; intros Hr;
    repeat match goal with
    | H : context [match ?d with _ => _ end] |- _ => destruct d; try done
    end; simplify_eq/=; try done.
  destruct (run_body_frame t s). done.
Qed.

Lemma goroutine_step_inv i m s s' o :
  goroutines s !! i = Some m -> run_micro n m s = (s', o) -> inv s ->
  inv (set_goroutines (replace_at i o (goroutines s')) s').
Proof.
  intros Hi Hrun [Hs Hnb]. destruct (run_micro_frame _ _ _ _ Hrun) as (Er & Eg & Ho).
  rewrite Eg. split.
  - apply (node_inv_view _ s'); try done.
    apply (node_inv_ext (option_list o ++ option_list (running s) ++ delete i (goroutines s))).
    + intros x. unfold micros; simpl. rewrite Er.
      rewrite (replace_at_Permutation _ _ _ _ Hi), !elem_of_app. tauto.
    + eapply run_micro_inv; [done|]. eapply node_inv_ext; [|done].
      intros x. unfold micros.
      rewrite elem_of_cons, !elem_of_app, (elem_of_delete_split _ _ _ _ Hi). tauto.
  - intros t. simpl. rewrite (replace_at_Permutation _ _ _ _ Hi), elem_of_app.
    intros [Ht|Ht].
    + destruct o; simpl in Ht; [|by apply elem_of_nil in Ht].
      apply list_elem_of_singleton in Ht. by destruct (Ho t); f_equal.
    + apply (Hnb t), (elem_of_delete_split _ _ _ _ Hi). by right.
Qed.

Lemma loop_step_inv m s s' o :
  running s = Some m -> run_micro n m s = (s', o) -> inv s -> inv (set_running o s').
Proof.
  intros Hm Hrun [Hs Hnb]. destruct (run_micro_frame _ _ _ _ Hrun) as (_ & Eg & _).
  split; [|simpl; by rewrite Eg]. apply (node_inv_view _ s'); try done.
  unfold micros in *. simpl. rewrite Eg, Hm in *. by eapply run_micro_inv.
Qed.

(** The loop turns to the body of a request. *)
Lemma node_inv_body ms s t :
  may_run ms s t -> match t with TExpire _ | TArm _ => False | _ => True end ->
  node_inv ms s -> node_inv (MBody t :: ms) s.
Proof.
  intros [Hok Hrun] Hkind Hs.
  assert (forall x, cleaning ms s x -> cleaning (MBody t :: ms) s x) as Hc.
  { intros x. apply cleaning_mono. intros y Hy. by right. }
  split; try apply Hs.
  - intros m se Hm. destruct (i_remote _ _ Hs _ _ Hm) as (r & ? & ? & ? & [|[b Hb]]);
      exists r; split_and!; auto. right. exists b. by right.
  - intros k l Hl. destruct (i_loc _ _ Hs _ _ Hl) as [|(? & ? & ? & [|])]; auto 10.
  - intros u [?|Hu]%elem_of_cons; [done|]. by apply (i_post _ _ Hs).
  - intros u [[= ->]|Hu]%elem_of_cons.
    + split; [done|]. destruct t; try done. destruct Hrun; auto.
    + destruct (i_body _ _ Hs u Hu) as [? Hb]. split; [done|]. destruct u; try done.
      destruct Hb; auto.
Qed.

Lemma remoteNodeIsCurrent_spec session s :
  remoteNodeIsCurrent session s = true ->
  exists r, remotes s !! session = Some r /\ is_current session r s = true /\
    active r = true /\ remoteNodes s !! remote_id r = Some session.
Proof.
  unfold remoteNodeIsCurrent. destruct (remotes s !! session) as [r|]; [|done].
  intros Hc. exists r. split; [done|]. split; [done|]. unfold is_current in Hc. by bool_prop.
Qed.

Lemma request_task_inv s t session c src :
  running s = None -> task_ok s t ->
  match t with
  | TRegister se _ _ _ => se = session
  | TUnregister _ _ _ _ | TSubscribe _ _ _ _ _ => True
  | _ => False
  end ->
  node_inv (micros s) s ->
  let s' := if remoteNodeIsCurrent session s then set_running (Some (MBody t)) s
            else emit (respondRPCError session c (node_disconnected src)) s in
  node_inv (micros s') s'.
Proof.
  intros Hr Hok Hkind Hs. cbv zeta.
  destruct (remoteNodeIsCurrent session s) eqn:Ec; [|by apply node_inv_emit].
  apply (node_inv_view _ s); try done. unfold micros in *; simpl. rewrite Hr in Hs.
  apply node_inv_body; [|by destruct t|done]. split; [done|]. destruct t; try done. left.
  subst. destruct (remoteNodeIsCurrent_spec _ _ Ec) as (r & Hx & _ & _ & Hl).
  destruct Hok as (_ & _ & _ & r' & Hr' & <- & _). simplify_eq. by exists session.
Qed.

Lemma begin_task_inv s t q :
  running s = None -> controlQueue s = t :: q -> inv s -> inv (begin_task n t (set_queue q s)).
Proof.
  intros Hr Eq [Hs Hnb]. set (s1 := set_queue q s).
  assert (running s1 = None) as Hr1 by done.
  assert (forall u, may_run (micros s1) s1 u -> node_inv (micros s1) s1 ->
    node_inv (micros (run_body n u s1)) (run_body n u s1)) as Hdirect.
  { intros u Hu Hn. unfold micros. destruct (run_body_frame u s1) as [-> ->].
    by apply run_body_inv. }
  split.
  - destruct t as [se|se|se c src l|se c src tg|se c src sub nm|m|k|k|sub nm];
      try (destruct (node_inv_pop _ _ _ _ Eq ltac:(done) Hs) as [Hs' Hok]);
      try (by apply Hdirect); try (by apply request_task_inv).
    + apply (node_inv_view _ s1); try done. unfold micros in *; simpl. rewrite Hr in Hs'.
      by apply node_inv_more.
    + change (begin_task n (TCleanup m) s1) with (run_body n (TCleanup m) s1).
      unfold micros. destruct (run_body_frame (TCleanup m) s1) as [-> ->].
      apply cleanup_inv; [done| |done]. intros t. simpl. by rewrite Hr.
  - intros u. assert (goroutines (begin_task n t s1) = goroutines s) as ->; [|apply Hnb].
    destruct t; try apply (run_body_frame _ s1); simpl; try done; by destruct (remoteNodeIsCurrent _ _).
Qed.

Lemma handleRPCDirect_shape session rpk s :
  exists o, Forall plain o /\ handleRPCDirect n session rpk s = emit o s.
Proof.
  unfold handleRPCDirect.
  destruct (decodeEnvelope rpk) as [[op payload]|]; [|eexists; split; [|reflexivity]; by repeat constructor].
  destruct (registeredRemoteNode session s); [|eexists; split; [|reflexivity]; by repeat constructor].
  split_handler; eexists; (split; [|reflexivity]); try (by repeat constructor).
  plain_job.
Qed.

Lemma registeredRemoteNode_Ok session s r :
  registeredRemoteNode session s = Ok r <->
  remotes s !! session = Some r /\ is_current session r s = true.
Proof.
  unfold registeredRemoteNode. destruct (remotes s !! session) as [x|]; [|by split; [|intros [? _]]].
  destruct (is_current session x s) eqn:E; split.
  - by intros [= <-].
  - by intros [[= <-] _].
  - done.
  - intros [[= <-] ?]. congruence.
Qed.

Lemma handleRegisterNode_frame session c payload s :
  let s' := handleRegisterNode n session c payload s in
  running s' = running s /\ goroutines s' = goroutines s.
Proof.
  unfold handleRegisterNode. repeat match goal with
  | |- context [match ?d with _ => _ end] => destruct d
  end; done.
Qed.

Lemma handleRPCRequest_inv session c rpk s : inv s -> inv (handleRPCRequest n session c rpk s).
Proof.
  intros [Hs Hnb]. unfold handleRPCRequest.
  destruct (decodeEnvelope rpk) as [[op payload]|e]; [|split; [by apply node_inv_emit|done]].
  destruct (op =? opRegisterNode)%Z.
  - destruct (handleRegisterNode_frame session c payload s) as [Er Eg].
    split; [|by rewrite Eg]. unfold micros. rewrite Er, Eg. by apply handleRegisterNode_inv.
  - destruct (registeredRemoteNode session s) as [r|e] eqn:Er;
      [|split; [by apply node_inv_emit|done]].
    apply registeredRemoteNode_Ok in Er as [Hr Hc]. split; [by apply handle_op_inv|].
    destruct (handle_op_shape s session c r op payload Hc Hr) as (o & _ & [->|[->|(t & -> & _)]]);
      try done.
    intros u. simpl. rewrite elem_of_app, list_elem_of_singleton.
    intros [Hu|Hu]; [by apply (Hnb u)|done].
Qed.

Lemma node_step_inv e s s' : node_step n e s = Some s' -> inv s -> inv s'.
Proof.
  intros He Hs. pose proof Hs as [Hn Hnb]. destruct e as [se|se|se c rpk|se rpk|se|t|i|]; simpl in He.
  - destruct (remotes s !! se) eqn:Er; simplify_eq. split; [|done]. by apply on_accept_inv.
  - simplify_eq. split; [by apply go_inv|]. simpl. intros t.
    rewrite elem_of_app, list_elem_of_singleton. intros [Ht|Ht]; [by apply (Hnb t)|done].
  - simplify_eq. by apply handleRPCRequest_inv.
  - simplify_eq. destruct (handleRPCDirect_shape se rpk s) as (o & _ & ->).
    split; [by apply node_inv_emit|done].
  - destruct (remotes s !! se) as [r|] eqn:Er; [|done]. destruct (armed r); simplify_eq.
    split; [|done]. apply node_inv_post; [|done]. by eapply node_inv_remote; eauto.
  - destruct (_ && _) eqn:Et; simplify_eq. bool_prop. split; [|done].
    apply node_inv_post; [done|]. by destruct t.
  - destruct (goroutines s !! i) as [m|] eqn:Ei; [|done].
    destruct (run_micro n m s) as [s1 o] eqn:Er. simplify_eq. by eapply goroutine_step_inv.
  - destruct (running s) as [m|] eqn:Er.
    + destruct (run_micro n m s) as [s1 o] eqn:Em. simplify_eq. by eapply loop_step_inv.
    + destruct (controlQueue s) as [|t q] eqn:Eq; simplify_eq. by apply begin_task_inv.
Qed.

(** ** Sessions of a node

    A session that belongs to a node keeps belonging to it, once it has left
    [remoteNodes] it never comes back, and a node does not change its session
    in one step. *)

Definition session_fixed s s' : Prop :=
  (forall session r, remotes s !! session = Some r -> remote_id r <> 0%Z ->
    (exists r', remotes s' !! session = Some r' /\ remote_id r' = remote_id r) /\
    (remoteNodes s' !! remote_id r = Some session -> remoteNodes s !! remote_id r = Some session)) /\
  (forall m a b, remoteNodes s !! m = Some a -> remoteNodes s' !! m = Some b -> a = b).

Lemma session_fixed_same s s' :
  remotes s' = remotes s -> remoteNodes s' = remoteNodes s -> session_fixed s s'.
Proof. intros E1 E2. split; rewrite E2; [intros session r; rewrite E1; eauto|congruence]. Qed.

Lemma session_fixed_update s s' session r r' :
  remotes s !! session = Some r -> remote_id r' = remote_id r ->
  remotes s' = <[session := r']> (remotes s) -> remoteNodes s' = remoteNodes s -> session_fixed s s'.
Proof.
  intros Hr Eid E1 E2. split; rewrite E2; [|congruence]. intros x rx Hx Hid. rewrite E1. split; [|done].
  destruct (decide (session = x)) as [<-|Hne].
  - simplify_eq. exists r'. by rewrite lookup_insert_eq.
  - exists rx. by rewrite lookup_insert_ne.
Qed.

Lemma session_fixed_body t s : session_fixed s (run_body n t s).
Proof.
  destruct (run_body_keeps t s) as (_ & _ & _ & En).
  destruct t; try (apply session_fixed_same; [|done]; simpl;
    repeat match goal with
    | |- context [match addServiceSubscription ?a ?b ?c ?d with _ => _ end] =>
        destruct (addServiceSubscription a b c d) as [s'|] eqn:Ha;
          [apply addServiceSubscription_Ok in Ha as [-> _]|]; simpl
    | |- context [match ?d with _ => _ end] => destruct d; simpl
    end; done).
  simpl. destruct (remotes s !! session) as [r|] eqn:Er; [|by apply session_fixed_same].
  destruct (active r); [|by apply session_fixed_same].
  by apply (session_fixed_update s _ session r (mkRemote (remote_id r) (remote_addr r) true true)).
Qed.

Lemma session_fixed_micro m s s' o : run_micro n m s = (s', o) -> session_fixed s s'.
Proof.
  intros Hr. destruct m as [t|se b|se b|m se b|se b|t]; simpl in Hr.
  - simplify_eq. by apply session_fixed_same.
  - destruct (remotes s !! se) as [r|] eqn:Er; [|simplify_eq; by apply session_fixed_same].
    destruct (active r); simplify_eq; [|by apply session_fixed_same].
    by apply (session_fixed_update s _ se r (mkRemote (remote_id r) (remote_addr r) false false)).
  - destruct (remotes s !! se) as [r|] eqn:Er; [|simplify_eq; by apply session_fixed_same].
    destruct (_ && _); simplify_eq; [|by apply session_fixed_same].
    split; simpl; [|intros x y z Ha [_ Hb]%lookup_delete_Some; congruence].
    intros x rx Hx Hid. split; [by exists rx|]. by intros [_ ?]%lookup_delete_Some.
  - simplify_eq. by apply session_fixed_same.
  - destruct b; simplify_eq; by apply session_fixed_same.
  - simplify_eq. apply session_fixed_body.
Qed.

Lemma session_fixed_begin t s : session_fixed s (begin_task n t s).
Proof.
  destruct t; try (by apply session_fixed_body); simpl;
    try (destruct (remoteNodeIsCurrent _ _)); by apply session_fixed_same.
Qed.

Lemma session_fixed_register session c payload s :
  session_fixed s (handleRegisterNode n session c payload s).
Proof.
  unfold handleRegisterNode.
  repeat match goal with
  | |- context [match remotes s !! session with _ => _ end] => destruct (remotes s !! session) as [r|] eqn:Er
  | |- context [match ?d with _ => _ end] => destruct d eqn:?
  end; try (by apply session_fixed_same).
  bool_prop. split; simpl;
    [|intros x y z Ha [[<- _]|[_ Hb]]%lookup_insert_Some;
      [match goal with H : ~ is_Some _ |- _ => by destruct H end|congruence]].
  intros x rx Hx Hid. split.
  - destruct (decide (session = x)) as [<-|Hne]; [by simplify_eq|].
    exists rx. by rewrite lookup_insert_ne.
  - intros [[<- <-]|[_ ?]]%lookup_insert_Some; [by simplify_eq|done].
Qed.

Lemma session_fixed_request session c rpk s : session_fixed s (handleRPCRequest n session c rpk s).
Proof.
  unfold handleRPCRequest.
  destruct (decodeEnvelope rpk) as [[op payload]|e]; [|by apply session_fixed_same].
  destruct (op =? opRegisterNode)%Z; [apply session_fixed_register|].
  destruct (registeredRemoteNode session s) as [r|e] eqn:Er; [|by apply session_fixed_same].
  apply registeredRemoteNode_Ok in Er as [Hr Hc].
  destruct (handle_op_shape s session c r op payload Hc Hr) as (o & _ & [->|[->|(t & -> & _)]]);
    by apply session_fixed_same.
Qed.

Lemma node_step_sessions e s s' : node_step n e s = Some s' -> session_fixed s s'.
Proof.
  intros He. destruct e as [se|se|se c rpk|se rpk|se|t|i|]; simpl in He.
  - destruct (remotes s !! se) eqn:Er; simplify_eq. split; simpl; [|congruence]. intros x rx Hx Hid.
    split; [|done]. exists rx. rewrite lookup_insert_ne; [done|]. congruence.
  - simplify_eq. by apply session_fixed_same.
  - simplify_eq. apply session_fixed_request.
  - simplify_eq. destruct (handleRPCDirect_shape se rpk s) as (o & _ & ->). by apply session_fixed_same.
  - destruct (remotes s !! se) as [r|] eqn:Er; [|done]. destruct (armed r); simplify_eq.
    by apply (session_fixed_update s _ se r (mkRemote (remote_id r) (remote_addr r) (active r) false)).
  - destruct (_ && _); simplify_eq. by apply session_fixed_same.
  - destruct (goroutines s !! i) as [m|]; [|done]. destruct (run_micro n m s) as [s1 o] eqn:Er. simplify_eq.
    by apply (session_fixed_micro _ _ _ _ Er).
  - destruct (running s) as [m|].
    + destruct (run_micro n m s) as [s1 o] eqn:Er. simplify_eq. by apply (session_fixed_micro _ _ _ _ Er).
    + destruct (controlQueue s) as [|t q]; simplify_eq. by apply (session_fixed_begin t (set_queue q s)).
Qed.

(** ** Cleanups under way

    Once the cleanup of a node is under way it stays so until it has removed
    every service of the node. *)

Definition vacated s (m : Z) : Prop := forall k l, Lookup k (registry s) = Some l -> NodeID l <> m.

Lemma cleaning_kept ms ms' s s' m :
  controlQueue s ⊆ controlQueue s' -> ms ⊆ ms' -> cleaning ms s m -> cleaning ms' s' m.
Proof. intros Hq Hms [Hc|(se & b & Hc)]; [left; by apply Hq|right; exists se, b; by apply Hms]. Qed.

Lemma handleRPCRequest_kept session c rpk s :
  let s' := handleRPCRequest n session c rpk s in
  controlQueue s ⊆ controlQueue s' /\ micros s ⊆ micros s'.
Proof.
  cbv zeta. unfold handleRPCRequest. destruct (decodeEnvelope rpk) as [[op payload]|e]; [|done].
  destruct (op =? opRegisterNode)%Z.
  - unfold micros. destruct (handleRegisterNode_frame session c payload s) as [-> ->]. split; [|done].
    unfold handleRegisterNode. repeat match goal with |- context [match ?d with _ => _ end] => destruct d end;
      simpl; set_solver.
  - destruct (registeredRemoteNode session s) as [r|e] eqn:Er; [|done].
    apply registeredRemoteNode_Ok in Er as [Hr Hc].
    destruct (handle_op_shape s session c r op payload Hc Hr) as (o & _ & [->|[->|(t & -> & _)]]);
      unfold micros; simpl; set_solver.
Qed.

(** What a step of a goroutine does to a cleanup. *)
Lemma cleaning_micro mi s s' o m :
  run_micro n mi s = (s', o) ->
  controlQueue s ⊆ controlQueue s' /\
  (forall se b, mi = MCleanup m se b -> TCleanup m ∈ controlQueue s').
Proof.
  intros Hr. destruct mi as [t|se b|se b|x se b|se b|t]; simpl in Hr.
  - simplify_eq. simpl. set_solver.
  - destruct (remotes s !! se) as [r|]; [destruct (active r)|]; by simplify_eq.
  - destruct (remotes s !! se) as [r|]; [destruct (_ && _)|]; by simplify_eq.
  - simplify_eq. simpl. split; [set_solver|]. intros ? ? [= -> _ _]. set_solver.
  - destruct b; by simplify_eq.
  - simplify_eq. destruct (run_body_keeps t s) as (_ & _ & -> & _). done.
Qed.

Lemma cleaning_goroutines i mi s s' o m :
  goroutines s !! i = Some mi -> run_micro n mi s = (s', o) -> cleaning (micros s) s m ->
  let s'' := set_goroutines (replace_at i o (goroutines s')) s' in cleaning (micros s'') s'' m.
Proof.
  intros Hi Hr Hc. cbv zeta. destruct (cleaning_micro mi s s' o m Hr) as [Hq Hm].
  destruct (run_micro_frame _ _ _ _ Hr) as (Er & Eg & _).
  destruct Hc as [Hc|(se & b & Hc)]; [left; by apply Hq|].
  unfold micros in Hc. rewrite elem_of_app, (elem_of_delete_split _ _ _ _ Hi) in Hc.
  destruct Hc as [Hc|[Hc|Hc]]; [|left; by apply (Hm se b)|];
    (right; exists se, b; unfold micros; simpl; rewrite Er, Eg, elem_of_app;
    rewrite (replace_at_Permutation _ _ _ _ Hi), elem_of_app; auto).
Qed.

Lemma cleaning_loop mi s s' o m :
  running s = Some mi -> run_micro n mi s = (s', o) -> cleaning (micros s) s m ->
  let s'' := set_running o s' in cleaning (micros s'') s'' m.
Proof.
  intros Hm Hr Hc. cbv zeta. destruct (cleaning_micro mi s s' o m Hr) as [Hq Hcl].
  destruct (run_micro_frame _ _ _ _ Hr) as (_ & Eg & _).
  destruct Hc as [Hc|(se & b & Hc)]; [left; by apply Hq|].
  unfold micros in Hc. rewrite Hm in Hc. simpl in Hc. apply elem_of_cons in Hc as [<-|Hc].
  - left. by apply (Hcl se b).
  - right. exists se, b. unfold micros. simpl. rewrite Eg, elem_of_app. by right.
Qed.

Lemma cleaning_begin t q s m :
  controlQueue s = t :: q -> running s = None -> reg_ok (registry s) -> cleaning (micros s) s m ->
  let s' := begin_task n t (set_queue q s) in cleaning (micros s') s' m \/ vacated s' m.
Proof.
  intros Eq Er Hok Hc. cbv zeta.
  assert (t = TCleanup m \/ t <> TCleanup m) as [->|Hne]
    by (destruct t; try (by right); destruct (decide (nodeID = m)); [left; congruence|right; congruence]).
  - right. intros k l. simpl. destruct (UnregisterNode_lookup m _ Hok) as [_ Hlk]. rewrite Hlk.
    destruct (Lookup k (registry s)); [|done]. case_decide; congruence.
  - left. set (s1 := set_queue q s).
    assert (controlQueue (begin_task n t s1) = q /\ goroutines (begin_task n t s1) = goroutines s) as [Eq' Eg].
    { assert (forall u, controlQueue (run_body n u s1) = q /\ goroutines (run_body n u s1) = goroutines s) as Hu
        by (intros u; by destruct (run_body_keeps u s1) as (_ & -> & -> & _)).
      destruct t; try apply Hu; simpl; try (destruct (remoteNodeIsCurrent _ _)); done. }
    destruct Hc as [Hc|(se & b & Hc)].
    + left. rewrite Eq'. rewrite Eq in Hc. apply elem_of_cons in Hc as [<-|?]; done.
    + right. exists se, b. unfold micros in *. rewrite Er in Hc. rewrite Eg. apply elem_of_app. by right.
Qed.

Lemma node_step_cleaning e s s' m :
  node_step n e s = Some s' -> reg_ok (registry s) -> cleaning (micros s) s m ->
  cleaning (micros s') s' m \/ vacated s' m.
Proof.
  intros He Hok Hc. destruct e as [se|se|se c rpk|se rpk|se|t|i|]; simpl in He.
  - destruct (remotes s !! se); simplify_eq. left. revert Hc. apply cleaning_kept; [|done]. simpl. set_solver.
  - simplify_eq. left. revert Hc. apply cleaning_kept; [done|]. unfold micros. simpl. set_solver.
  - simplify_eq. left. revert Hc. apply cleaning_kept; apply handleRPCRequest_kept.
  - simplify_eq. destruct (handleRPCDirect_shape se rpk s) as (o & _ & ->). by left.
  - destruct (remotes s !! se) as [r|]; [|done]. destruct (armed r); simplify_eq.
    left. revert Hc. apply cleaning_kept; [simpl; set_solver|done].
  - destruct (_ && _); simplify_eq. left. revert Hc. apply cleaning_kept; [simpl; set_solver|done].
  - destruct (goroutines s !! i) as [mi|] eqn:Hi; [|done]. destruct (run_micro n mi s) as [s1 o] eqn:Er.
    simplify_eq. left. by apply (cleaning_goroutines i mi s s1 o m).
  - destruct (running s) as [mi|] eqn:Hr.
    + destruct (run_micro n mi s) as [s1 o] eqn:Er. simplify_eq. left. by apply (cleaning_loop mi s s1 o m).
    + destruct (controlQueue s) as [|t q] eqn:Eq; simplify_eq. by apply cleaning_begin.
Qed.

End Invariant.
