(* ===== verification/Client.v ===== *)
(** * The client side of a Node (rpc_client.go, node.go)

    What an [RPCClient] does with a packet pushed by its peer, how it sends
    and requests, and the remote branches of [lookupService], [send2Service]
    and [callServiceSync] with their effect on the route cache.  xtnet's RPC is
    a parameter: [exchange] is what [RequestSync] returns for a packet, the
    answer of the peer or an error. *)

From stdpp Require Import base tactics list gmap sets strings.
From Stdlib Require Import ZArith Lia Strings.Byte.
From S2P Require Import Prelude GoString Errors Registry Subscription Config Service Wire Dispatch.
From S2P Require Import ControlPlane.
Local Open Scope string_scope.
Local Open Scope list_scope.

Section Client.
Context `{UnicodeTables} `{Platform} `{ProtoLib} `{PacketLib}.
Context (n : node_env).

(** ** Pushed packets *)

(** The effect of a push on the Node. *)
Inductive push :=
| PReport (e : error)
| PInvalidate (key : ServiceKey)      (** [routeCache.invalidate(key)] *)
| PPost (j : job).                    (** a job on the loop of a local service *)

(** [c.nodeID != c.node.mainNodeID || c.node.IsMainNode()] *)
Definition not_from_main (peer : Z) : bool := negb (peer =? mainNodeID n)%Z || IsMainNode n.

Definition push_route (peer : Z) (payload : list byte) : push :=
  if not_from_main peer
  then PReport (EText ("route push from node " +:+ fmt_d peer +:+ " is not allowed"))
  else match decodeOperationPayload TRouteInvalidate payload with
       | Err e => PReport (rpcInvalidMessage e)
       | Ok notification =>
           match requiredRPCServiceKey (ri_target notification) "route invalidate target" with
           | Err e => PReport (rpcInvalidMessage e)
           | Ok key => PInvalidate key
           end
       end.

Definition push_discovery (peer : Z) (payload : list byte) : push :=
  if not_from_main peer
  then PReport (EText ("service discovery push from node " +:+ fmt_d peer +:+ " is not allowed"))
  else
    match decodeOperationPayload TServiceDiscovery payload with
    | Err e => PReport (rpcInvalidMessage e)
    | Ok notification =>
        match requiredRPCServiceKey (sd_subscriber notification) "discovery subscriber" with
        | Err e => PReport (rpcInvalidMessage e)
        | Ok subscriber =>
            match normalizeSubscribedServiceName (sd_service_name notification) with
            | Err e => PReport (rpcInvalidMessage e)
            | Ok serviceName =>
                if negb (bool_decide (serviceName = sd_service_name notification))
                then PReport (rpcInvalidMessage (EText "service name is not normalized"))
                else
                  match requiredRPCServiceKeys (sd_services notification) "discovery services" with
                  | Err e => PReport (rpcInvalidMessage e)
                  | Ok services =>
                      match find (fun k => negb (bool_decide (Name k = serviceName))) services with
                      | Some service =>
                          PReport (rpcInvalidMessage (EText ("discovery service "
                            +:+ ServiceKey_String service +:+ " does not match subscribed name "
                            +:+ Quote serviceName)))
                      | None =>
                          match dispatchLocalServiceDiscovery (localServices n) subscriber serviceName
                                  (sd_event_type notification) services with
                          | Err e => PReport e
                          | Ok j => PPost j
                          end
                      end
                  end
            end
        end
    end.

(** [RPCClient.handleRPCDirect] of the client connected to node [peer]. *)
Definition client_handleRPCDirect (peer : Z) (rpk : list byte) : push :=
  match decodeEnvelope rpk with
  | Err e => PReport e
  | Ok (op, payload) =>
      if (op =? opRouteInvalidate)%Z then push_route peer payload
      else if (op =? opServiceDiscovery)%Z then push_discovery peer payload
      else PReport (EText ("unsupported pushed rpc operation " +:+ fmt_d op))
  end.

(** ** Requests

    [ready] is [c.connected.Load() && session != nil]. *)

Definition client_send (ready : bool) (op : Z) (message : protocol) : res (list byte) :=
  if negb ready then Err (ESentinel ErrRPCDisconnected) else encodeEnvelope op message.

(** The decoding shared by [requestSync] and the callback of [requestAsync]. *)
Definition decode_response (t : mtype) (answer : res (list byte)) : res (msg t) :=
  try rpk <- answer in
  try payload <- decodeResult rpk in
  decodeResultPayload t payload.

Definition requestSync (ready : bool) (exchange : list byte -> res (list byte)) (op : Z)
    (request : protocol) (t : mtype) : res (msg t) :=
  try wpk <- client_send ready op request in
  decode_response t (exchange wpk).

(** [requestAsync]: the request on its way and the function that reads its
    answer for the callback, or the error. *)
Definition requestAsync (ready : bool) (op : Z) (request : protocol) (t : mtype)
    : res (list byte * (res (list byte) -> res (msg t))) :=
  try wpk <- client_send ready op request in
  Ok (wpk, decode_response t).

(** ** Routes *)

Definition lookupServiceFromMain (mainClient : res (bool * (list byte -> res (list byte))))
    (key : ServiceKey) : res ServiceLocation :=
  try client <- mainClient in
  try response <- requestSync client.1 client.2 opLookup
    (Message TLookupRequest (mkLookup (Some (serviceKeyToProto key)))) TLookupResponse in
  match lr_location response with
  | None => Err (service_not_found (ServiceKey_String key))
  | Some location =>
      res_map_err rpcInvalidMessage
        (requiredRPCServiceLocation (Some location) "lookup response location")
  end.

(** ** Calls of remote services

    [location] is what [lookupService] returned and [client] what
    [getRPCClient] returns for it.  The second component says whether the
    route cache is told to invalidate the target. *)

Definition route_error (e : error) : bool := Is e ErrServiceNotFound || Is e ErrRPCDisconnected.

Definition deliver_message (source target : ServiceKey) (id : serviceMessageID)
    (payload : list byte) (mode : Z) : protocol :=
  match initializeDeliverRequest blankDeliver source target id payload mode with
  | Some request => Message TDeliverRequest request
  | None => NilMessage
  end.

Definition remote_send (location : res ServiceLocation)
    (client : ServiceLocation -> res bool) (source target : ServiceKey)
    (id : serviceMessageID) (payload : list byte) : res (list byte) * bool :=
  match location with
  | Err e => (Err e, false)
  | Ok l =>
      match client l with
      | Err e => (Err e, true)
      | Ok ready =>
          match client_send ready opDeliver
                  (deliver_message source target id payload deliverRequestModeDirect) with
          | Err e => (Err e, true)
          | Ok wpk => (Ok wpk, false)
          end
      end
  end.

Definition remote_call_sync (location : res ServiceLocation)
    (client : ServiceLocation -> res (bool * (list byte -> res (list byte))))
    (source target : ServiceKey) (id : serviceMessageID) (payload : list byte)
    : res (list byte) * bool :=
  match location with
  | Err e => (Err e, false)
  | Ok l =>
      match client l with
      | Err e => (Err e, true)
      | Ok (ready, exchange) =>
          match requestSync ready exchange opDeliver
                  (deliver_message source target id payload deliverRequestModeSync) TDeliverResponse with
          | Err e => (Err e, route_error e)
          | Ok response => (Ok (dr_payload response), false)
          end
      end
  end.

(** ** The other end of a call

    The responder [handleRPCRequest] gives to the job of a deliver request:
    its outputs and the error it returns. *)
Definition deliver_responder (session : nat) (contextID : Z) (payload : list byte)
    (err : option error) : list output * option error :=
  match err with
  | Some e => (respondRPCError session contextID e, None)
  | None => respondRPC session contextID (Message TDeliverResponse (mkDeliverResponse payload))
  end.

End Client.
