(* ===== verification/ControlDemo.v ===== *)
(** * A small cluster

    A main node 1 with two local services and a remote node 2, over the
    concrete libraries of [WireInstances]: the states the examples and
    witnesses of the control plane are evaluated in. *)

From stdpp Require Import base tactics list gmap sets strings.
From Stdlib Require Import ZArith Lia Strings.Byte.
From S2P Require Import Prelude GoString Errors Registry Subscription Config Service Wire.
From S2P Require Import WireInstances Dispatch ControlPlane.
Local Open Scope string_scope.
Local Open Scope list_scope.

Module Demo.

#[local] Existing Instance ascii_tables.

Definition gate : ServiceKey := mkServiceKey "gate" 1.
Definition room (i : Z) : ServiceKey := mkServiceKey "room" i.

Definition env : node_env := {|
  self := 1;
  mainNodeID := 1;
  config := mkConfig 1 [mkNodeConfig 1 "10.0.0.1:9000" 0 None []; mkNodeConfig 2 "10.0.0.2:9000" 0 None []];
  listenAddr := "10.0.0.1:9000";
  localServices := {[ gate := mkRuntime true true true ∅ ]}
|}.

(** The packet of a request; the empty packet if it cannot be encoded. *)
Definition packet_of (op : Z) (t : mtype) (m : msg t) : list byte :=
  match encodeEnvelope op (Message t m) with Ok p => p | Err _ => [] end.

Definition join (session : nat) : event :=
  ERequest session 1 (packet_of opRegisterNode TRegisterNodeRequest (mkRegisterNode 2 "10.0.0.2:9000")).

Definition announce (session : nat) (c : Z) (k : ServiceKey) : event :=
  ERequest session c (packet_of opRegister TRegisterRequest
    (mkRegister (Some (serviceLocationToProto (mkServiceLocation (Name k) (ID k) 2 "10.0.0.2:9000"))))).

Definition start : node MemoryRegistry := node_init NewMemoryRegistry.

(** Node 2 joins on a session; both heartbeat tasks of the session ran. *)
Definition joined (session : nat) : list event :=
  [EAccept session; join session; EControl; EControl].

(** A request of a node that is posted, checked and executed. *)
Definition served (e : event) : list event := [e; EGoroutine 0; EControl; EControl].

(** The gate subscribes to rooms; node 2 joins and announces a room. *)
Definition opening : list event :=
  [ELocal (TLocalRegister gate); EControl; ELocal (TLocalSubscribe gate "room"); EControl]
  ++ joined 7 ++ served (announce 7 2 (room 1)).

Definition run (l : list event) (s : node MemoryRegistry) : node MemoryRegistry :=
  default s (node_run env l s).

Definition opened : node MemoryRegistry := Eval vm_compute in run opening start.

Lemma opened_run : node_run env opening start = Some opened.
Proof. vm_compute. reflexivity. Qed.

End Demo.
