(* ===== verification/ControlTheorems.v ===== *)
(** * Properties of the control plane

    What holds in every state a Node's server side can reach, under every
    interleaving of session goroutines, heartbeat timers, local callers and
    the control loop. *)

From stdpp Require Import base tactics list gmap sets strings.
From Stdlib Require Import ZArith Lia Strings.Byte.
From S2P Require Import Prelude GoString Errors Registry Subscription Config Service Wire Dispatch.
From S2P Require Import ControlPlane ControlInvariant WireInstances ControlDemo.
Local Open Scope string_scope.
Local Open Scope list_scope.

Section Reachable.
Context `{UnicodeTables} `{Platform} `{ProtoLib} `{PacketLib}.
Context {R : Type} `{ServiceRegistry R} `{!ServiceRegistryLaws R}.
Context (n : node_env).
Implicit Types s : node R.

(** A registry nobody registered with yet. *)
Definition fresh (r : R) : Prop := reg_ok r /\ forall k, Lookup k r = None.

Definition reachable s : Prop := exists r0, fresh r0 /\ steps (step_rel n) (node_init r0) s.

(** Nothing is posted, running or in the middle of [removeRemoteNode]. *)
Definition quiescent s : Prop :=
  controlQueue s = [] /\ running s = None /\ goroutines s = [].

Lemma inv_node_init r0 : fresh r0 -> inv n (node_init r0).
Proof.
  intros [Hr Hn]. split; [|intros t; apply not_elem_of_nil].
  assert (forall A (x : A), x ∉ []) as Hnil by (intros; apply not_elem_of_nil).
  split; try done; try (by intros t []%Hnil). intros k l. simpl. by rewrite Hn.
Qed.

Lemma reachable_inv s : reachable s -> inv n s.
Proof.
  intros (r0 & Hr & Hs). apply (steps_invariant (step_rel n) (inv n)) with (s := node_init r0);
    [|done|by apply inv_node_init].
  intros s1 s2 [e He]. by apply (node_step_inv n e).
Qed.

Lemma reachable_step s e s' : reachable s -> node_step n e s = Some s' -> reachable s'.
Proof.
  intros (r0 & Hr & Hs) He. exists r0. split; [done|]. eapply steps_app; [done|].
  eapply steps_trans; [by exists e|apply steps_refl].
Qed.

Lemma reachable_run l s s' : reachable s -> node_run n l s = Some s' -> reachable s'.
Proof.
  revert s. induction l as [|e l IH]; intros s Hs; simpl; [by intros [= <-]|].
  destruct (node_step n e s) as [s1|] eqn:E; [|done]. apply IH. by eapply reachable_step.
Qed.

Lemma quiescent_clean s x : quiescent s -> ~ cleaning (micros s) s x.
Proof.
  intros (Hq & Hr & Hg). unfold cleaning, micros. rewrite Hq, Hr, Hg. simpl.
  intros [Hx|(se & b & Hx)]; by apply elem_of_nil in Hx.
Qed.

(** The session that currently stands for node [m], and its object. *)
Definition live_session s (m : Z) : Prop :=
  exists session r, remoteNodes s !! m = Some session /\ remotes s !! session = Some r /\
    remote_id r = m /\ active r = true.

(** C1 (safety). No orphan and no forged routes.  In every reachable state a
    registered location sits under its own key, and it is either one of this
    Node's own services at its own address, or it belongs to another
    configured node, with exactly the address the configuration gives that
    node, and that node is connected or its cleanup is still to come.  Once
    the pending work is done, every remote route has a live session. *)
Theorem routes_are_backed s k l :
  reachable s -> Lookup k (registry s) = Some l ->
  Key l = k /\ valid_location l = true /\
  ((NodeID l = self n /\ NodeAddr l = listenAddr n) \/
   (IsMainNode n = true /\ NodeID l <> self n /\ configured_addr n (NodeID l) (NodeAddr l) /\
    (connected s (NodeID l) \/ cleaning (micros s) s (NodeID l)))) /\
  (quiescent s -> NodeID l = self n \/ live_session s (NodeID l)).
Proof.
  intros [Hs _]%reachable_inv Hl. destruct (Lookup_Key _ _ _ (i_reg _ _ _ Hs) Hl) as [Hk Hv].
  split_and!; [done..|by apply (i_loc _ _ _ Hs k)|]. intros Hq.
  destruct (i_loc _ _ _ Hs _ _ Hl) as [[? _]|(_ & _ & _ & [[se Hc]|Hc])]; [by left|right|].
  - destruct (i_remote _ _ _ Hs _ _ Hc) as (r & ? & ? & ? & [?|[b Hu]]); [by exists se, r|].
    destruct Hq as (_ & Hr & Hg). unfold micros in Hu. rewrite Hr, Hg in Hu. by apply elem_of_nil in Hu.
  - by destruct (quiescent_clean _ _ Hq Hc).
Qed.

(** Sessions and nodes correspond one to one: the session
    under a node's id is an object with that id, the node is a configured one
    other than this Node, the object carries the configured address, and no
    two nodes share a session. *)
Theorem sessions_are_unique s m session :
  reachable s -> remoteNodes s !! m = Some session ->
  m <> self n /\ (forall m', remoteNodes s !! m' = Some session -> m' = m) /\
  exists r, remotes s !! session = Some r /\ remote_id r = m /\ configured_addr n m (remote_addr r).
Proof.
  intros [Hs _]%reachable_inv Hm.
  destruct (i_remote _ _ _ Hs _ _ Hm) as (r & Hr & Hi & Hz & _).
  destruct (i_id _ _ _ Hs _ _ Hr) as [Hself Hc]; [congruence|]. rewrite Hi in *. split_and!; [done| |eauto].
  intros m' Hm'. destruct (i_remote _ _ _ Hs _ _ Hm') as (r' & Hr' & Hi' & _). congruence.
Qed.

(** The subscription index never names a service that is
    gone: every subscriber is in the registry, under all interleavings, and
    the two maps of the index agree. *)
Theorem subscribers_are_registered s k name :
  reachable s -> index_wf (subscriptions s) /\
  (k ∈ subscribers name (subscriptions s) -> exists l, Lookup k (registry s) = Some l /\ Key l = k).
Proof.
  intros [Hs _]%reachable_inv. split; [apply Hs|]. rewrite elem_of_subscribers.
  intros [l Hl]%(i_sub _ _ _ Hs). exists l. split; [done|].
  by destruct (Lookup_Key _ _ _ (i_reg _ _ _ Hs) Hl).
Qed.

(** ** The pending work drains *)

Definition task_work (t : task) : nat :=
  match t with
  | TExpire _ => 6
  | TRegister _ _ _ _ | TUnregister _ _ _ _ | TSubscribe _ _ _ _ _ => 2
  | _ => 1
  end.

Definition micro_work (m : micro) : nat :=
  match m with
  | MPost t => S (task_work t)
  | MSwap _ _ => 5
  | MUnlink _ _ => 4
  | MCleanup _ _ _ => 3
  | MClose _ _ | MBody _ => 1
  end.

(** How many internal steps the pending work can take. *)
Definition work s : nat :=
  sum_list_with micro_work (micros s) + sum_list_with task_work (controlQueue s).

(** The goroutines and the loop run until nothing is left. *)
Definition internal s : event := match goroutines s with [] => EControl | _ => EGoroutine 0 end.

Fixpoint drain (fuel : nat) s : node R :=
  match fuel with
  | O => s
  | S fuel => match node_step n (internal s) s with Some s' => drain fuel s' | None => s end
  end.

Lemma work_step_micro m s s' o :
  run_micro n m s = (s', o) ->
  sum_list_with micro_work (option_list o) + sum_list_with task_work (controlQueue s') <
  micro_work m + sum_list_with task_work (controlQueue s).
Proof.
  destruct m as [t|se b|se b|m se b|se b|t]; simpl; intros Hr.
  - simplify_eq/=. rewrite sum_list_with_app. simpl. lia.
  - destruct (remotes s !! se); [destruct (active _)|]; simplify_eq/=; lia.
  - destruct (remotes s !! se); [destruct (_ && _); [destruct (IsMainNode n)|]|]; simplify_eq/=; lia.
  - simplify_eq/=. rewrite sum_list_with_app. simpl. lia.
  - destruct b; simplify_eq/=; lia.
  - simplify_eq/=. assert (controlQueue (run_body n t s) = controlQueue s) as ->; [|lia].
    by destruct (run_body_keeps n t s) as (_ & _ & ? & _).
Qed.

Lemma begin_task_work t s :
  running s = None ->
  work (begin_task n t s) < task_work t + work s.
Proof.
  intros Hr.
  assert (forall u, work (run_body n u s) = work s) as Hb.
  { intros u. unfold work, micros. by destruct (run_body_keeps n u s) as (-> & -> & -> & _). }
  destruct t; try (cbn [begin_task task_work]; rewrite Hb; lia);
    simpl; try (destruct (remoteNodeIsCurrent _ _)); unfold work, micros; simpl; rewrite ?Hr; simpl; lia.
Qed.

(** An internal step is possible while work is pending, and takes some off. *)
Lemma internal_step s :
  match node_step n (internal s) s with
  | Some s' => work s' < work s
  | None => quiescent s
  end.
Proof.
  unfold internal. destruct (goroutines s) as [|m g] eqn:Eg; cbn [node_step].
  - destruct (running s) as [m|] eqn:Er.
    + destruct (run_micro n m s) as [s' o] eqn:Em. pose proof (work_step_micro _ _ _ _ Em).
      destruct (run_micro_frame _ _ _ _ _ Em) as (_ & Eg' & _). rewrite Eg in Eg'.
      unfold work, micros; simpl. rewrite Er, Eg, Eg', !sum_list_with_app. simpl. lia.
    + destruct (controlQueue s) as [|t q] eqn:Eq; [done|].
      pose proof (begin_task_work t (set_queue q s) Er) as Hw. eapply Nat.lt_le_trans; [done|].
      unfold work, micros. simpl. rewrite Eq. simpl. lia.
  - rewrite Eg. simpl. destruct (run_micro n m s) as [s' o] eqn:Em.
    pose proof (work_step_micro _ _ _ _ Em).
    destruct (run_micro_frame _ _ _ _ _ Em) as (Er & Eg' & _). rewrite Eg in Eg'.
    unfold work, micros; simpl. rewrite Er, Eg, Eg', !sum_list_with_app.
    destruct o; simpl in *; lia.
Qed.

Lemma drain_quiescent fuel s : work s <= fuel -> quiescent (drain fuel s).
Proof.
  revert s. induction fuel as [|fuel IH]; intros s Hw; simpl.
  - pose proof (internal_step s). destruct (node_step n (internal s) s); [lia|done].
  - pose proof (internal_step s). destruct (node_step n (internal s) s); [|done]. apply IH. lia.
Qed.

Lemma drain_reachable fuel s : reachable s -> reachable (drain fuel s).
Proof.
  revert s. induction fuel as [|fuel IH]; intros s Hs; simpl; [done|].
  destruct (node_step n (internal s) s) eqn:E; [|done]. apply IH. by eapply reachable_step.
Qed.

(** Internal steps connect nobody. *)
Lemma run_micro_disconnects mi s s' o m :
  run_micro n mi s = (s', o) -> remoteNodes s !! m = None -> remoteNodes s' !! m = None.
Proof.
  destruct mi as [t|se b|se b|x se b|se b|t]; simpl; intros Hr Hm.
  - by simplify_eq.
  - destruct (remotes s !! se); [destruct (active _)|]; by simplify_eq.
  - destruct (remotes s !! se); [destruct (_ && _)|]; simplify_eq/=; try done.
    rewrite lookup_delete_None. by right.
  - by simplify_eq.
  - destruct b; by simplify_eq.
  - simplify_eq. by destruct (run_body_keeps n t s) as (_ & _ & _ & ->).
Qed.

Lemma begin_task_disconnects t s : remoteNodes (begin_task n t s) = remoteNodes s.
Proof.
  destruct t; try apply (run_body_keeps n _ s); simpl; try done; by destruct (remoteNodeIsCurrent _ _).
Qed.

Lemma internal_disconnects s s' m :
  node_step n (internal s) s = Some s' -> remoteNodes s !! m = None -> remoteNodes s' !! m = None.
Proof.
  unfold internal. destruct (goroutines s) as [|x g] eqn:Eg; cbn [node_step].
  - destruct (running s) as [mi|].
    + destruct (run_micro n mi s) as [s1 o] eqn:Em. intros [= <-]. simpl. by eapply run_micro_disconnects.
    + destruct (controlQueue s); [done|]. intros [= <-]. by rewrite begin_task_disconnects.
  - rewrite Eg. simpl. destruct (run_micro n x s) as [s1 o] eqn:Em. intros [= <-]. simpl.
    by eapply run_micro_disconnects.
Qed.

Lemma drain_disconnects fuel s m :
  remoteNodes s !! m = None -> remoteNodes (drain fuel s) !! m = None.
Proof.
  revert s. induction fuel as [|fuel IH]; intros s Hm; simpl; [done|].
  destruct (node_step n (internal s) s) eqn:E; [|done]. apply IH. by eapply internal_disconnects.
Qed.

(** The pending work of a reachable state is finite: after at
    most [work s] internal steps the goroutines and the control loop are
    idle, and then nothing of a node that has no session any more is left,
    neither a route nor a subscription, whatever the session was doing when it
    was lost. *)
Theorem departed_nodes_disappear s m :
  reachable s -> remoteNodes s !! m = None -> m <> self n ->
  let s' := drain (work s) s in
  quiescent s' /\
  (forall k l, Lookup k (registry s') = Some l -> NodeID l <> m) /\
  (forall k name, k ∈ subscribers name (subscriptions s') ->
     exists l, Lookup k (registry s') = Some l /\ NodeID l <> m).
Proof.
  intros Hs Hm Hself. cbv zeta. pose proof (drain_quiescent (work s) s (le_n _)) as Hq.
  pose proof (drain_disconnects (work s) s m Hm) as Hm'.
  destruct (reachable_inv _ (drain_reachable (work s) s Hs)) as [Hi _].
  assert (forall k l, Lookup k (registry (drain (work s) s)) = Some l -> NodeID l <> m) as Hno.
  { intros k l Hl ->%symmetry. destruct (i_loc _ _ _ Hi _ _ Hl) as [[? _]|(_ & _ & _ & [[se Hc]|Hc])].
    - congruence.
    - congruence.
    - by destruct (quiescent_clean _ _ Hq Hc). }
  split_and!; [done..|]. intros k name Hk. apply elem_of_subscribers, (i_sub _ _ _ Hi) in Hk as [l Hl].
  eauto.
Qed.

End Reachable.

(** ** Witnesses: the cluster of [ControlDemo] *)

Section Witnesses.
#[local] Existing Instance ascii_tables.
Import Demo.

Lemma start_reachable : reachable env start.
Proof.
  exists NewMemoryRegistry. split; [|apply steps_refl]. split; [apply Memory.wf_new|done].
Qed.

Lemma opened_reachable : reachable env opened.
Proof. eapply reachable_run; [apply start_reachable|apply opened_run]. Qed.

Lemma routes_are_backed_witness :
  quiescent opened /\ (NodeID (mkServiceLocation "room" 1 2 "10.0.0.2:9000") = self env \/
                       live_session opened 2).
Proof.
  assert (quiescent opened) as Hq by (split_and!; reflexivity). split; [exact Hq|].
  exact (proj2 (proj2 (proj2 (routes_are_backed env opened (room 1)
    (mkServiceLocation "room" 1 2 "10.0.0.2:9000") opened_reachable ltac:(vm_compute; reflexivity)))) Hq).
Defined.

Lemma sessions_are_unique_witness :
  2%Z <> self env /\ forall m', remoteNodes opened !! m' = Some 7 -> m' = 2%Z.
Proof.
  destruct (sessions_are_unique env opened 2 7 opened_reachable ltac:(vm_compute; reflexivity))
    as (H1 & H2 & _). exact (conj H1 H2).
Defined.

Lemma subscribers_are_registered_witness :
  exists l, Lookup gate (registry opened) = Some l /\ Key l = gate.
Proof.
  destruct (subscribers_are_registered env opened gate "room" opened_reachable) as [_ Hl].
  apply Hl. apply elem_of_subscribers. vm_compute. reflexivity.
Defined.

(** The session of node 2 closes and leaves [remoteNodes]; the cleanup is
    still pending. *)
Definition leaving : node MemoryRegistry :=
  Eval vm_compute in run [EClose 7; EGoroutine 0; EGoroutine 0] opened.

Lemma departed_nodes_disappear_witness :
  is_Some (Lookup (room 1) (registry leaving)) /\
  forall k l, Lookup k (registry (drain env (work leaving) leaving)) = Some l -> NodeID l <> 2%Z.
Proof.
  assert (reachable env leaving) as Hl.
  { eapply (reachable_run env [EClose 7; EGoroutine 0; EGoroutine 0]); [apply opened_reachable|].
    vm_compute. reflexivity. }
  split; [vm_compute; eauto|].
  exact (proj1 (proj2 (departed_nodes_disappear env leaving 2 Hl eq_refl ltac:(vm_compute; congruence)))).
Defined.

End Witnesses.
