(* ===== verification/Departure.v ===== *)
(** * How a Node leaves (node.go)

    A session ends when its connection is lost or when its heartbeat timer
    fires.  Whatever the goroutines and the control Loop of the main node do
    after that, in any order, comes to an end, and then nothing of the Node is
    left. *)

From stdpp Require Import base tactics list gmap sets strings.
From Stdlib Require Import ZArith Lia Strings.Byte.
From S2P Require Import Prelude GoString Errors Registry Subscription Config Service Wire.
From S2P Require Import WireInstances Dispatch ControlPlane ControlInvariant ControlDemo ControlTheorems.
Local Open Scope string_scope.
Local Open Scope list_scope.

Section Departure.
Context `{UnicodeTables} `{Platform} `{ProtoLib} `{PacketLib}.
Context {R : Type} `{ServiceRegistry R} `{!ServiceRegistryLaws R}.
Context (n : node_env).
Implicit Types s : node R.

(** Steps of what is pending, as opposed to new requests and sessions. *)
Definition pending_step (e : event) : bool :=
  match e with EGoroutine _ | EControl => true | _ => false end.

(** ** Pending work ends *)

Lemma pending_work e s s' :
  node_step n e s = Some s' -> pending_step e = true -> work s' < work s.
Proof.
  intros He Hp. destruct e as [| | | | | |i|]; try done.
  - simpl in He. destruct (goroutines s !! i) as [m|] eqn:Ei; [|done].
    destruct (run_micro n m s) as [s1 o] eqn:Em. injection He as <-.
    pose proof (work_step_micro n _ _ _ _ Em) as Hw.
    destruct (run_micro_frame _ _ _ _ _ Em) as (Er & Eg & _).
    assert (sum_list_with micro_work (goroutines s)
            = micro_work m + sum_list_with micro_work (delete i (goroutines s))) as Hg
      by (by rewrite (delete_Permutation _ _ _ Ei) at 1).
    rewrite <- Eg in Ei. unfold work, micros. simpl.
    rewrite !sum_list_with_app, (replace_at_Permutation _ _ o _ Ei), sum_list_with_app, Er, Eg, Hg. lia.
  - pose proof (internal_step n s) as Hi. unfold internal in Hi. simpl in He.
    destruct (running s) as [m|] eqn:Er.
    + destruct (run_micro n m s) as [s1 o] eqn:Em. injection He as <-.
      pose proof (work_step_micro n _ _ _ _ Em). destruct (run_micro_frame _ _ _ _ _ Em) as (_ & Eg & _).
      unfold work, micros. simpl. rewrite Er, Eg, !sum_list_with_app. simpl. lia.
    + destruct (controlQueue s) as [|t q] eqn:Eq; [done|]. injection He as <-.
      pose proof (begin_task_work n t (set_queue q s) Er) as Hw. eapply Nat.lt_le_trans; [done|].
      unfold work, micros. simpl. rewrite Eq. simpl. lia.
Qed.

Lemma stuck_quiescent s : (forall e, pending_step e = true -> node_step n e s = None) -> quiescent s.
Proof.
  intros Hstuck. pose proof (internal_step n s) as Hi. rewrite Hstuck in Hi; [done|].
  unfold internal. by destruct (goroutines s).
Qed.

Lemma pending_disconnects e s s' m :
  node_step n e s = Some s' -> pending_step e = true ->
  remoteNodes s' !! m = remoteNodes s !! m \/ remoteNodes s' !! m = None.
Proof.
  assert (Hmicro : forall mi s1 o, run_micro n mi s = (s1, o) ->
    remoteNodes s1 !! m = remoteNodes s !! m \/ remoteNodes s1 !! m = None).
  { intros mi s1 o Hr. destruct mi as [t|se b|se b|x se b|se b|t]; simpl in Hr;
      [| |destruct (remotes s !! se) as [r|]; [destruct (_ && _)|]|..]; simplify_eq; auto.
    - destruct (remotes s !! se); [destruct (active _)|]; simplify_eq; auto.
    - simpl. destruct (decide (m = remote_id r)) as [->|]; [rewrite lookup_delete_eq|rewrite lookup_delete_ne]; auto.
    - destruct b; auto.
    - left. by destruct (run_body_keeps n t s) as (_ & _ & _ & ->). }
  intros He Hp. destruct e as [| | | | | |i|]; try done; simpl in He.
  - destruct (goroutines s !! i) as [mi|]; [|done]. destruct (run_micro n mi s) as [s1 o] eqn:Em.
    injection He as <-. by apply (Hmicro mi s1 o).
  - destruct (running s) as [mi|].
    + destruct (run_micro n mi s) as [s1 o] eqn:Em. injection He as <-. by apply (Hmicro mi s1 o).
    + destruct (controlQueue s); [done|]. injection He as <-. left. by rewrite begin_task_disconnects.
Qed.

(** ** A session that is about to end *)

Definition inactive (session : nat) s : Prop :=
  exists r, remotes s !! session = Some r /\ active r = false.

Definition ending (session : nat) s : Prop :=
  inactive session s \/ TExpire session ∈ controlQueue s \/ exists b, MSwap session b ∈ micros s.

(** The Node has no session, or only one that is about to end. *)
Definition departing (m : Z) s : Prop :=
  forall session, remoteNodes s !! m = Some session -> ending session s.

Lemma run_body_inactive t session s : inactive session s -> inactive session (run_body n t s).
Proof.
  intros (r & Hr & Ha). unfold inactive.
  assert (remotes (run_body n t s) !! session = Some r \/
    exists r', remotes (run_body n t s) !! session = Some r' /\ active r' = false) as [?|?]; [|by exists r|done].
  destruct t as [se|se|? ? ? l|? ? ? k|? ? ? k x|x|k|k|k x]; simpl; auto.
  - destruct (remotes s !! se) as [r0|] eqn:E; [|auto]. destruct (active r0) eqn:Ea; [|auto]. simpl.
    destruct (decide (se = session)) as [->|]; [congruence|]. rewrite lookup_insert_ne by done. auto.
  - destruct (Register l _); auto.
  - destruct (Unregister k _ _); auto.
  - destruct (addServiceSubscription _ _ _ s) as [s1|] eqn:E; [|auto].
    apply addServiceSubscription_Ok in E as [-> _]. auto.
  - destruct (Register _ _); auto.
  - destruct (Unregister k _ _); auto.
  - destruct (addServiceSubscription _ _ _ s) as [s1|] eqn:E; [|auto].
    apply addServiceSubscription_Ok in E as [-> _]. auto.
Qed.

Lemma run_micro_ending mi session s s1 o :
  run_micro n mi s = (s1, o) -> is_Some (remotes s !! session) ->
  (inactive session s -> inactive session s1) /\
  (TExpire session ∈ controlQueue s -> TExpire session ∈ controlQueue s1) /\
  (forall b, mi = MSwap session b -> inactive session s1).
Proof.
  intros Hm [r0 Hr0]. destruct mi as [t|se b|se b|x se b|se b|t]; simpl in Hm.
  - simplify_eq. split_and!; [done|intros; apply elem_of_app; by left|done].
  - destruct (remotes s !! se) as [r|] eqn:Er.
    + destruct (active r) eqn:Ea; simplify_eq.
      * split_and!; [|done|].
        -- intros (r' & Hr' & Ha). exists r'. simpl. destruct (decide (se = session)) as [->|]; [congruence|].
           by rewrite lookup_insert_ne.
        -- intros b' [= -> ->]. eexists. simpl. by rewrite lookup_insert_eq.
      * split_and!; [done..|]. intros b' [= -> ->]. by exists r.
    + simplify_eq. split_and!; [done..|]. intros b' [= -> ->]. congruence.
  - destruct (remotes s !! se); [destruct (_ && _)|]; by simplify_eq.
  - simplify_eq. split_and!; [done|intros; apply elem_of_app; by left|done].
  - destruct b; by simplify_eq.
  - simplify_eq. split_and!; [apply run_body_inactive| |done].
    by destruct (run_body_keeps n t s) as (_ & _ & -> & _).
Qed.

Lemma begin_task_keeps t s :
  goroutines (begin_task n t s) = goroutines s /\ controlQueue (begin_task n t s) = controlQueue s.
Proof.
  assert (forall u, goroutines (run_body n u s) = goroutines s /\ controlQueue (run_body n u s) = controlQueue s) as Hb
    by (intros u; by destruct (run_body_keeps n u s) as (_ & ? & ? & _)).
  destruct t; try apply Hb; simpl; try done; by destruct (remoteNodeIsCurrent _ _).
Qed.

Lemma begin_task_inactive t session s : inactive session s -> inactive session (begin_task n t s).
Proof.
  intros Hi. destruct t; try (by apply run_body_inactive); simpl; try done; by destruct (remoteNodeIsCurrent _ _).
Qed.

(** What is pending goes on until the session has ended. *)
Lemma pending_ending e session s s' :
  node_step n e s = Some s' -> pending_step e = true -> is_Some (remotes s !! session) ->
  ending session s -> ending session s'.
Proof.
  intros He Hp Hr Hend. destruct e as [| | | | | |i|]; try done; simpl in He.
  - destruct (goroutines s !! i) as [mi|] eqn:Ei; [|done].
    destruct (run_micro n mi s) as [s1 o] eqn:Em. injection He as <-.
    destruct (run_micro_ending mi session s s1 o Em Hr) as (Hin & Hex & Hsw).
    destruct (run_micro_frame _ _ _ _ _ Em) as (Erun & Eg & _).
    destruct Hend as [?|[?|[b Hb]]]; [left; by apply Hin|right; left; by apply Hex|].
    unfold micros in Hb. apply elem_of_app in Hb as [Hb|Hb].
    + right; right. exists b. unfold micros. simpl. rewrite Erun. apply elem_of_app. by left.
    + destruct (proj1 (elem_of_delete_split _ _ _ _ Ei) Hb) as [E|Hb']; [left; by apply (Hsw b)|].
      right; right. exists b. unfold micros. simpl. rewrite Eg. apply elem_of_app. right.
      rewrite (replace_at_Permutation _ _ _ _ Ei). apply elem_of_app. by right.
  - destruct (running s) as [mi|] eqn:Erun.
    + destruct (run_micro n mi s) as [s1 o] eqn:Em. injection He as <-.
      destruct (run_micro_ending mi session s s1 o Em Hr) as (Hin & Hex & Hsw).
      destruct (run_micro_frame _ _ _ _ _ Em) as (_ & Eg & _).
      destruct Hend as [?|[?|[b Hb]]]; [left; by apply Hin|right; left; by apply Hex|].
      unfold micros in Hb. rewrite Erun in Hb. simpl in Hb.
      apply elem_of_cons in Hb as [<-|Hb]; [left; by eapply Hsw|].
      right; right. exists b. unfold micros. simpl. rewrite Eg. apply elem_of_app. by right.
    + destruct (controlQueue s) as [|t q] eqn:Eq; [done|]. injection He as <-.
      destruct (begin_task_keeps t (set_queue q s)) as [Eg Ec]. simpl in Eg, Ec.
      destruct Hend as [Hi|[Hx|[b Hb]]].
      * left. by apply begin_task_inactive.
      * rewrite Eq in Hx. apply elem_of_cons in Hx as [<-|Hx]; [|right; left; by rewrite Ec].
        right; right. exists true. unfold micros. simpl. by left.
      * right; right. exists b. unfold micros in *. rewrite Erun in Hb. rewrite Eg. apply elem_of_app. by right.
Qed.

(** ** After the last step *)

Lemma departing_step e m s s' :
  inv n s -> node_step n e s = Some s' -> pending_step e = true -> departing m s -> departing m s'.
Proof.
  intros [Hi _] He Hp Hd session Hs. destruct (pending_disconnects e s s' m He Hp) as [E|E]; [|congruence].
  rewrite E in Hs. destruct (i_remote _ _ _ Hi _ _ Hs) as (r & Hr & _).
  eapply pending_ending; [done..| |by apply Hd]. by exists r.
Qed.

Lemma pending_run es m s s' :
  node_run n es s = Some s' -> forallb pending_step es = true -> inv n s -> departing m s ->
  length es + work s' <= work s /\ inv n s' /\ departing m s'.
Proof.
  revert s. induction es as [|e es IH]; intros s Hr Hp Hi Hd; simpl in *; [by simplify_eq; split_and!|].
  destruct (node_step n e s) as [s1|] eqn:He; [|done]. apply andb_true_iff in Hp as [Hpe Hp].
  pose proof (pending_work e s s1 He Hpe).
  destruct (IH s1 Hr Hp) as (Hle & Hrest); [by eapply node_step_inv|by eapply departing_step|].
  split; [lia|done].
Qed.

Lemma quiescent_departed m s : inv n s -> quiescent s -> departing m s -> remoteNodes s !! m = None.
Proof.
  intros [Hi _] Hq Hd. destruct (remoteNodes s !! m) as [session|] eqn:E; [|done]. exfalso.
  destruct Hq as (Hqu & Hru & Hgo). assert (micros s = []) as Hmic by (unfold micros; by rewrite Hru, Hgo).
  destruct (i_remote _ _ _ Hi _ _ E) as (r & Hr & _ & _ & Hact). rewrite Hmic in Hact.
  destruct (Hd session E) as [(r' & Hr' & Ha)|[Hx|[b Hb]]].
  - destruct Hact as [Hact|[b Hb]]; [congruence|by apply elem_of_nil in Hb].
  - rewrite Hqu in Hx. by apply elem_of_nil in Hx.
  - rewrite Hmic in Hb. by apply elem_of_nil in Hb.
Qed.

Lemma quiescent_nothing_left m s :
  inv n s -> quiescent s -> remoteNodes s !! m = None -> m <> self n ->
  (forall k l, Lookup k (registry s) = Some l -> NodeID l <> m) /\
  (forall k name, k ∈ subscribers name (subscriptions s) ->
     exists l, Lookup k (registry s) = Some l /\ NodeID l <> m).
Proof.
  intros [Hi _] Hq Hm Hself.
  assert (forall k l, Lookup k (registry s) = Some l -> NodeID l <> m) as Hno.
  { intros k l Hl ->%symmetry. destruct (i_loc _ _ _ Hi _ _ Hl) as [[? _]|(_ & _ & _ & [[se Hc]|Hc])];
      [congruence..|by destruct (quiescent_clean _ _ Hq Hc)]. }
  split; [done|]. intros k name Hk. apply elem_of_subscribers, (i_sub _ _ _ Hi) in Hk as [l Hl]. eauto.
Qed.

(** C11 (liveness). A Node that falls silent or loses its connection disappears,
    under every schedule.  When the heartbeat timer of its session fires, or
    the session closes, or it has no session any more, the goroutines and the
    control Loop have at most [work] steps left, whatever they were doing and
    in whatever order they go on; and when none of them can go on, the Node is
    not among the remote nodes, no route leads to it, and no subscription of
    it is left. *)
Theorem silent_nodes_disappear s m s1 es s2 :
  reachable n s -> m <> self n ->
  (remoteNodes s !! m = None /\ s1 = s \/
   exists session e, remoteNodes s !! m = Some session /\ (e = ETimer session \/ e = EClose session) /\
     node_step n e s = Some s1) ->
  node_run n es s1 = Some s2 -> forallb pending_step es = true ->
  length es <= work s1 /\
  ((forall e, pending_step e = true -> node_step n e s2 = None) ->
   remoteNodes s2 !! m = None /\
   (forall k l, Lookup k (registry s2) = Some l -> NodeID l <> m) /\
   (forall k name, k ∈ subscribers name (subscriptions s2) ->
      exists l, Lookup k (registry s2) = Some l /\ NodeID l <> m)).
Proof.
  intros Hs Hself Hev Hr Hp. assert (inv n s1 /\ departing m s1) as [Hi Hd].
  { pose proof (reachable_inv n s Hs) as Hi.
    destruct Hev as [[Hm ->]|(session & e & Hm & He & Hst)]; [split; [done|]; intros se; by rewrite Hm|].
    split; [by eapply node_step_inv|]. intros se Hse. destruct He as [-> | ->]; simpl in Hst.
    - destruct (remotes s !! session) as [x|]; [|done]. destruct (armed x); simplify_eq.
      simpl in Hse. assert (se = session) as -> by congruence. right; left. apply elem_of_app. right. by left.
    - simplify_eq. simpl in Hse. assert (se = session) as -> by congruence.
      right; right. exists false. unfold micros. simpl. rewrite app_assoc. apply elem_of_app. right. by left. }
  destruct (pending_run es m s1 s2 Hr Hp Hi Hd) as (Hle & Hi2 & Hd2). split; [lia|].
  intros Hstuck%stuck_quiescent. pose proof (quiescent_departed m s2 Hi2 Hstuck Hd2) as Hgone.
  split; [done|]. by apply quiescent_nothing_left.
Qed.

End Departure.

(** ** The theorem at work *)

Section Witness.
#[local] Existing Instance ascii_tables.
Import Demo.

(** The heartbeats of node 2 stop, and its timer fires. *)
Definition silent : node MemoryRegistry := Eval vm_compute in run [ETimer 7] opened.
Definition removed : node MemoryRegistry := Eval vm_compute in run (repeat EControl 6) silent.

Lemma silent_nodes_disappear_witness :
  is_Some (Lookup (room 1) (registry silent)) /\
  forall k l, Lookup k (registry removed) = Some l -> NodeID l <> 2%Z.
Proof.
  split; [vm_compute; eauto|].
  refine (proj1 (proj2 (proj2 (silent_nodes_disappear env opened 2 silent (repeat EControl 6) removed
    opened_reachable _ _ _ _) _))).
  - vm_compute. congruence.
  - right. exists 7, (ETimer 7). split; [vm_compute; reflexivity|]. split; [by left|vm_compute; reflexivity].
  - vm_compute. reflexivity.
  - reflexivity.
  - intros [| | | | | |i|] Hp; try discriminate Hp.
    + unfold node_step. change (goroutines removed) with (@nil micro). done.
    + vm_compute. reflexivity.
Defined.

End Witness.
