(* ===== verification/SessionEnd.v ===== *)
(** * How a session ends (node.go)

    A session that belonged to a Node and is not counted any more has ended:
    the network reported its end to the server ([OnSessionClose]), or the Node
    has closed it, or a goroutine is about to.  So the other side of a session
    the main node has dropped is never left with an open connection. *)

From stdpp Require Import base tactics list gmap sets strings.
From Stdlib Require Import ZArith Lia Strings.Byte.
From S2P Require Import Prelude GoString Errors Registry Subscription Config Service Wire.
From S2P Require Import Dispatch ControlPlane ControlInvariant.
Local Open Scope list_scope.

Section SessionEnd.
Context `{UnicodeTables} `{Platform} `{ProtoLib} `{PacketLib}.
Context {R : Type} `{ServiceRegistry R}.
Context (n : node_env).
Implicit Types s : node R.
Implicit Types ms : list micro.

(** The session a goroutine is removing, and whether it will close it. *)
Definition removes (m : micro) : option (nat * bool) :=
  match m with
  | MSwap se b | MUnlink se b | MCleanup _ se b | MClose se b => Some (se, b)
  | _ => None
  end.

(** A goroutine past the [Swap] that will close the session. *)
Definition shutting (m : micro) (se : nat) : Prop :=
  match m with MUnlink x true | MCleanup _ x true | MClose x true => x = se | _ => False end.

(** [reported] are the sessions whose end the network has reported. *)
Definition over (reported : gset nat) ms s (se : nat) : Prop :=
  se ∈ reported \/ OClose se ∈ outputs s \/ exists m, m ∈ ms /\ shutting m se.

Record ending (reported : gset nat) ms s : Prop := {
  en_flag : forall m se, m ∈ ms -> removes m = Some (se, false) -> se ∈ reported;
  en_over : forall se r, remotes s !! se = Some r -> remote_id r <> 0%Z ->
    remoteNodes s !! remote_id r = Some se \/ over reported ms s se
}.

Lemma over_mono (rep rep' : gset nat) ms ms' s s' se :
  rep ⊆ rep' -> (forall x, OClose x ∈ outputs s -> OClose x ∈ outputs s') ->
  (forall m, m ∈ ms -> shutting m se -> m ∈ ms') -> over rep ms s se -> over rep' ms' s' se.
Proof.
  intros Hr Ho Hm [?|[?|(m & Hin & Hs)]]; [left; by apply Hr|right; left; by apply Ho|].
  right; right. exists m. auto.
Qed.

(** Steps that leave the sessions of the nodes alone. *)
Lemma ending_same (rep rep' : gset nat) ms ms' s s' :
  rep ⊆ rep' ->
  (forall m, m ∈ ms' -> m ∈ ms \/ forall se, removes m = Some (se, false) -> se ∈ rep') ->
  (forall m, m ∈ ms -> (exists se, shutting m se) -> m ∈ ms') ->
  (forall x, OClose x ∈ outputs s -> OClose x ∈ outputs s') ->
  (forall se r', remotes s' !! se = Some r' -> remote_id r' <> 0%Z ->
     exists r, remotes s !! se = Some r /\ remote_id r = remote_id r') ->
  remoteNodes s' = remoteNodes s -> ending rep ms s -> ending rep' ms' s'.
Proof.
  intros Hr Hf Hm Ho Hrem Hn [F S]. split.
  - intros m se Hin Hre. destruct (Hf m Hin) as [Hin'|Hok]; [|by apply Hok]. apply Hr. by eapply F.
  - intros se r' Hr' Hid. destruct (Hrem se r' Hr' Hid) as (r & Hx & Heq). rewrite Hn, <- Heq.
    destruct (S se r Hx) as [?|Hov]; [congruence|by left|]. right.
    apply (over_mono rep rep' ms ms' s s'); [done..| |done]. eauto.
Qed.

Lemma ending_view rep ms ms' s s' :
  (forall m, m ∈ ms <-> m ∈ ms') -> outputs s' = outputs s -> remotes s' = remotes s ->
  remoteNodes s' = remoteNodes s -> ending rep ms s -> ending rep ms' s'.
Proof.
  intros Hm Ho Hr Hn. apply ending_same; rewrite ?Ho, ?Hr; try done; [intros m Hin; left; by apply Hm|..].
  - intros m Hin _. by apply Hm.
  - eauto.
Qed.

(** ** The steps of a goroutine *)

Lemma run_body_outputs t s : exists o, outputs (run_body n t s) = outputs s ++ o.
Proof.
  destruct t; simpl;
    repeat match goal with
    | |- context [match addServiceSubscription ?a ?b ?c ?d with _ => _ end] =>
        destruct (addServiceSubscription a b c d) as [s'|] eqn:Ha;
          [apply addServiceSubscription_Ok in Ha as [-> _]|]; simpl
    | |- context [match ?d with _ => _ end] => destruct d; simpl
    end; try (rewrite <- ?app_assoc; by eexists); exists []; by rewrite app_nil_r.
Qed.

Lemma run_body_remotes t s se r' :
  remotes (run_body n t s) !! se = Some r' -> exists r, remotes s !! se = Some r /\ remote_id r = remote_id r'.
Proof.
  destruct t; simpl;
    repeat match goal with
    | |- context [match addServiceSubscription ?a ?b ?c ?d with _ => _ end] =>
        destruct (addServiceSubscription a b c d) as [s'|] eqn:Ha;
          [apply addServiceSubscription_Ok in Ha as [-> _]|]; simpl
    | |- context [match ?d with _ => _ end] => destruct d eqn:?; simpl
    end; try (intros Hx; by exists r').
  intros [[<- <-]|[_ Hx]]%lookup_insert_Some; [by eexists|by exists r'].
Qed.

Lemma run_body_ending rep ms t s : ending rep (MBody t :: ms) s -> ending rep ms (run_body n t s).
Proof.
  destruct (run_body_keeps n t s) as (_ & _ & _ & En). destruct (run_body_outputs t s) as [o Eo].
  apply ending_same; try done.
  - intros m Hm. left. by right.
  - intros m [->|Hm]%elem_of_cons; [by intros [? []]|done].
  - intros x Hx. rewrite Eo. apply elem_of_app. by left.
  - intros se r' Hx _. by apply run_body_remotes in Hx.
Qed.

(** A step that replaces its own removal of a session by the next. *)
Lemma ending_next rep ms m o s s' :
  (forall x, OClose x ∈ outputs s -> OClose x ∈ outputs s') ->
  (forall se r', remotes s' !! se = Some r' -> remote_id r' <> 0%Z ->
     exists r, remotes s !! se = Some r /\ remote_id r = remote_id r') ->
  (forall m', o = Some m' -> removes m' = removes m) ->
  (forall se, is_Some (remotes s !! se) -> shutting m se ->
     OClose se ∈ outputs s' \/ exists m', o = Some m' /\ shutting m' se) ->
  (forall x se, remoteNodes s !! x = Some se -> remoteNodes s' !! x = Some se \/
     exists m' b, o = Some m' /\ removes m = Some (se, b) /\ (b = true -> shutting m' se)) ->
  ending rep (m :: ms) s -> ending rep (option_list o ++ ms) s'.
Proof.
  intros Ho Hrem Hfl Hsh Hn [F S]. split.
  - intros m' se [Hin|Hin]%elem_of_app Hre; [|by eapply F; [right|]].
    destruct o as [m1|]; [|by apply elem_of_nil in Hin]. apply list_elem_of_singleton in Hin as ->.
    eapply F; [by left|]. by rewrite <- (Hfl m1).
  - intros se r' Hr' Hid. destruct (Hrem se r' Hr' Hid) as (r & Hx & Heq).
    assert (forall m', m' ∈ ms -> m' ∈ option_list o ++ ms) as Hms by (intros m' Hm; apply elem_of_app; by right).
    destruct (S se r Hx) as [Hcur|[Hov|[Hov|(m' & [->|Hin]%elem_of_cons & Hs)]]]; [congruence|..].
    + rewrite <- Heq. destruct (Hn _ _ Hcur) as [?|(m' & b & -> & Hre & Hb)]; [by left|right].
      destruct b; [right; right; exists m'; split; [by left|auto]|].
      left. eapply F; [by left|done].
    + right. by left.
    + right; right; left. by apply Ho.
    + right; right. destruct (Hsh se) as [?|(m1 & -> & ?)]; [by eexists|done|by left|].
      right. exists m1. split; [by left|done].
    + right; right; right. exists m'. auto.
Qed.

Lemma ending_micro rep ms m s s' o :
  run_micro n m s = (s', o) -> ending rep (m :: ms) s -> ending rep (option_list o ++ ms) s'.
Proof.
  destruct m as [t|se b|se b|x se b|se b|t]; simpl; intros Hr.
  - simplify_eq. apply (ending_same rep rep (MPost t :: ms)); try done; [| |eauto].
    + intros m Hm. left. by right.
    + intros m [->|Hm]%elem_of_cons; [by intros [? []]|done].
  - destruct (remotes s !! se) as [r|] eqn:Er; [destruct (active r)|]; simplify_eq;
      apply ending_next; simpl; try done; eauto; try (by intros ? [= <-]).
    intros x r'. rewrite lookup_insert_Some. intros [[<- <-]|[_ ?]] _; [by exists r|by eexists].
  - destruct (remotes s !! se) as [r|] eqn:Er; [destruct (_ && _) eqn:Eb|]; simplify_eq;
      apply ending_next; simpl; try done; eauto.
    + intros m' [= <-]. by destruct (IsMainNode n).
    + intros y _ Hy. right. eexists. split; [done|]. destruct b; [|done]. by destruct (IsMainNode n).
    + intros x y Hx. bool_prop. destruct (decide (x = remote_id r)) as [->|Hne].
      * right. eexists _, b. split; [done|]. assert (y = se) as -> by congruence. split; [done|].
        intros ->. by destruct (IsMainNode n).
      * left. by rewrite lookup_delete_ne.
    + by intros m' [= <-].
    + intros y Hy. destruct b; [|done]. intros <-. rewrite Er in Hy. by destruct Hy.
  - simplify_eq. apply ending_next; simpl; try done; eauto. by intros m' [= <-].
  - destruct b; simplify_eq; apply ending_next; simpl; try done; eauto.
    + intros y Hy. apply elem_of_app. by left.
    + intros y _ <-. left. apply elem_of_app. right. by left.
  - simplify_eq. apply run_body_ending.
Qed.

(** ** Every step *)

Lemma register_ending rep ms se c payload s :
  ending rep ms s -> ending rep ms (handleRegisterNode n se c payload s).
Proof.
  assert (forall o, ending rep ms s -> ending rep ms (emit o s)) as Hemit.
  { intros o. apply ending_same; try done; [auto|..].
    - intros x Hx. apply elem_of_app. by left.
    - eauto. }
  intros Hs. unfold handleRegisterNode.
  repeat match goal with
  | |- context [match remotes s !! se with _ => _ end] => destruct (remotes s !! se) as [r|] eqn:Er
  | |- context [match ?d with _ => _ end] => destruct d eqn:?
  end; try (by apply Hemit).
  bool_prop. destruct Hs as [F S]. split; [done|].
  match goal with H : ~ is_Some (remoteNodes s !! ?x) |- _ => rename H into Hfree end.
  intros y r'. simpl. intros [[<- <-]|[Hne Hy]]%lookup_insert_Some Hid; [left; by rewrite lookup_insert_eq|].
  destruct (S y r' Hy Hid) as [Hc|[?|[Ho|?]]]; [|by right; left|right; right; left|by right; right; right].
  - left. rewrite lookup_insert_ne; [done|]. intros Heq. apply Hfree. rewrite Heq. by eexists.
  - apply elem_of_app. by left.
Qed.

(** More to do, none of it a removal the network did not report. *)
Lemma ending_more rep rep' ms m s s' :
  rep ⊆ rep' -> (forall se, removes m = Some (se, false) -> se ∈ rep') ->
  (exists o, outputs s' = outputs s ++ o) -> remotes s' = remotes s -> remoteNodes s' = remoteNodes s ->
  ending rep ms s -> ending rep' (m :: ms) s'.
Proof.
  intros Hr Hm [o Ho] Hrem Hn. apply ending_same; rewrite ?Hrem; try done.
  - intros m' [->|?]%elem_of_cons; auto.
  - intros m' Hin _. by right.
  - intros x Hx. rewrite Ho. apply elem_of_app. by left.
  - eauto.
Qed.

Lemma ending_frame rep ms s s' :
  (exists o, outputs s' = outputs s ++ o) -> remotes s' = remotes s -> remoteNodes s' = remoteNodes s ->
  ending rep ms s -> ending rep ms s'.
Proof.
  intros [o Ho] Hrem Hn. apply ending_same; rewrite ?Hrem; try done; [auto|..].
  - intros x Hx. rewrite Ho. apply elem_of_app. by left.
  - eauto.
Qed.

Lemma ending_go rep rep' m s s' :
  rep ⊆ rep' -> (forall se, removes m = Some (se, false) -> se ∈ rep') ->
  s' = go m s -> ending rep (micros s) s -> ending rep' (micros s') s'.
Proof.
  intros Hr Hm -> Hs. apply (ending_view _ (m :: micros s) _ (go m s)); try done.
  - intros x. unfold micros. simpl. rewrite elem_of_cons, !elem_of_app, list_elem_of_singleton. tauto.
  - apply (ending_more rep _ _ _ s); try done. exists []. by rewrite app_nil_r.
Qed.

Lemma handleRPCRequest_ending rep se c rpk s :
  ending rep (micros s) s ->
  ending rep (micros (handleRPCRequest n se c rpk s)) (handleRPCRequest n se c rpk s).
Proof.
  assert (forall o s0, ending rep (micros s0) s0 -> ending rep (micros (emit o s0)) (emit o s0)) as Hemit.
  { intros o s0. apply ending_frame; try done. by exists o. }
  intros Hs. unfold handleRPCRequest.
  destruct (decodeEnvelope rpk) as [[op payload]|e]; [|by apply Hemit].
  destruct (op =? opRegisterNode)%Z.
  { unfold micros. destruct (handleRegisterNode_frame n se c payload s) as [-> ->]. by apply register_ending. }
  destruct (registeredRemoteNode se s) as [r|e] eqn:Er; [|by apply Hemit].
  apply registeredRemoteNode_Ok in Er as [Hr Hc].
  destruct (handle_op_shape n s se c r op payload Hc Hr) as (o & _ & [->|[->|(t & -> & _)]]).
  - by apply Hemit.
  - apply Hemit. revert Hs. apply ending_frame; try done. exists []. by rewrite app_nil_r.
  - by apply (ending_go rep rep (MPost t) s).
Qed.

(** The Loop begins a task. *)
Lemma begin_ending rep t q s :
  running s = None -> ending rep (micros s) s ->
  ending rep (micros (begin_task n t (set_queue q s))) (begin_task n t (set_queue q s)).
Proof.
  intros Hr Hs. set (s1 := set_queue q s). assert (ending rep (micros s1) s1) as Hs1.
  { revert Hs. apply ending_frame; try done. exists []. by rewrite app_nil_r. }
  assert (forall m, (forall se, removes m = Some (se, false) -> False) ->
    ending rep (micros (set_running (Some m) s1)) (set_running (Some m) s1)) as Hrun.
  { intros m Hm. unfold micros in *. simpl in *. rewrite Hr in Hs1. simpl in Hs1.
    apply (ending_more rep _ _ _ s1); try done; [by intros se []%Hm|]. exists []. by rewrite app_nil_r. }
  assert (forall u, ending rep (micros (run_body n u s1)) (run_body n u s1)) as Hbody.
  { intros u. unfold micros. destruct (run_body_frame n u s1) as [-> ->]. fold (micros s1).
    apply run_body_ending. apply (ending_more rep _ _ _ s1); try done. exists []. by rewrite app_nil_r. }
  destruct t; try apply Hbody; simpl; try (by apply Hrun);
    (destruct (remoteNodeIsCurrent _ _); [by apply Hrun|]; revert Hs1; apply ending_frame; try done; by eexists).
Qed.

Definition reports (e : event) : gset nat := match e with EClose se => {[se]} | _ => ∅ end.

Lemma node_step_ending rep e s s' :
  node_step n e s = Some s' -> ending rep (micros s) s -> ending (reports e ∪ rep) (micros s') s'.
Proof.
  intros He Hs. assert (forall ms x, ending rep ms x -> ending (∅ ∪ rep) ms x) as Hrep
    by (intros ms x; by rewrite union_empty_l_L).
  destruct e as [se|se|se c rpk|se rpk|se|t|i|]; simpl in He |- *; try apply Hrep.
  - destruct (remotes s !! se) eqn:Er; simplify_eq. destruct Hs as [F S]. split; [done|].
    intros y r'. simpl. intros [[<- <-]|[_ Hy]]%lookup_insert_Some Hid; [done|]. by apply S.
  - simplify_eq. apply (ending_go rep _ (MSwap se false) s); [set_solver| |done..].
    intros x [= ->]. set_solver.
  - simplify_eq. by apply handleRPCRequest_ending.
  - simplify_eq. destruct (handleRPCDirect_shape n se rpk s) as (o & _ & ->).
    revert Hs. apply ending_frame; try done. by exists o.
  - destruct (remotes s !! se) as [r|] eqn:Er; [|done]. destruct (armed r); simplify_eq.
    revert Hs. apply ending_same; try done; [auto|]. intros y r'. simpl.
    rewrite lookup_insert_Some. intros [[<- <-]|[_ ?]] _; [by exists r|by eexists].
  - destruct (_ && _); simplify_eq. revert Hs. apply ending_frame; try done. exists []. by rewrite app_nil_r.
  - destruct (goroutines s !! i) as [m|] eqn:Ei; [|done].
    destruct (run_micro n m s) as [s1 o] eqn:Er. simplify_eq.
    destruct (run_micro_frame n _ _ _ _ Er) as (E1 & E2 & _).
    apply (ending_view _ (option_list o ++ option_list (running s) ++ delete i (goroutines s)) _ s1); try done.
    + intros x. unfold micros; simpl. rewrite E1, E2.
      rewrite (replace_at_Permutation _ _ _ _ Ei), !elem_of_app. tauto.
    + eapply ending_micro; [done|]. apply (ending_view _ (micros s) _ s); try done.
      intros x. unfold micros. rewrite elem_of_cons, !elem_of_app, (elem_of_delete_split _ _ _ _ Ei). tauto.
  - destruct (running s) as [m|] eqn:Er.
    + destruct (run_micro n m s) as [s1 o] eqn:Em. simplify_eq.
      destruct (run_micro_frame n _ _ _ _ Em) as (_ & E2 & _).
      apply (ending_view _ (option_list o ++ goroutines s) _ s1); try done.
      * intros x. unfold micros; simpl. by rewrite E2.
      * eapply ending_micro; [done|]. unfold micros in Hs. by rewrite Er in Hs.
    + destruct (controlQueue s) as [|t q] eqn:Eq; simplify_eq. by apply begin_ending.
Qed.

End SessionEnd.
