(* ===== verification/ControlRequests.v ===== *)
(** * Requests of remote nodes

    What a request does to the Node before the control loop is involved: who
    is admitted as a remote node, what an unknown session can cause, and that
    every request is answered exactly once. *)

From stdpp Require Import base tactics list gmap sets strings.
From Stdlib Require Import ZArith Lia Strings.Byte.
From S2P Require Import Prelude GoString Errors Registry Subscription Config Service Wire.
From S2P Require Import WireInstances WireTheorems Dispatch ControlPlane ControlInvariant.
From S2P Require Import ControlDemo ControlTheorems.
Local Open Scope string_scope.
Local Open Scope list_scope.

Section Requests.
Context `{UnicodeTables} `{Platform} `{ProtoLib} `{PacketLib}.
Context `{!PacketLaws} {R : Type} `{ServiceRegistry R}.
Context (n : node_env).
Implicit Types s : node R.

(** ** Counting answers *)

Section Counting.
Context (session : nat) (c : Z).

Definition addressed (session' : nat) (c' : Z) : nat :=
  if bool_decide (session' = session /\ c' = c) then 1 else 0.

(** What can become of a request: a response, a job of a local service that
    holds its responder, or a report that the response could not be encoded. *)
Definition out_responded (o : output) : nat :=
  match o with ORespond se c' _ => addressed se c' | _ => 0 end.

Definition out_handed (o : output) : nat :=
  match o with
  | OPost (JSync _ _ _ _ (RemoteResponder se c')) | OPost (JAsync _ _ _ _ (RemoteResponder se c')) =>
      addressed se c'
  | _ => 0
  end.

Definition out_unsent (o : output) : nat :=
  match o with OUnsent se c' _ => addressed se c' | _ => 0 end.

Definition out_settled (o : output) : nat := out_responded o + out_handed o + out_unsent o.

(** Why a response cannot be encoded: the text of the error is too long, or
    protobuf refuses the message. *)
Definition unencodable (e : error) : Prop :=
  (exists x, encodeError (Some x) = Err e /\ (maxRPCStringSize < len (Error x))%Z) \/
  exists m, encodeResult "" "" m = Err e.

(** An answer to this request is only left out for such a reason. *)
Definition accounted (o : output) : Prop :=
  match o with OUnsent se c' e => addressed se c' = 0 \/ unencodable e | _ => True end.

Definition task_owes (t : task) : nat :=
  match t with
  | TRegister se c' _ _ | TUnregister se c' _ _ | TSubscribe se c' _ _ _ => addressed se c'
  | _ => 0
  end.

Definition micro_owes (m : micro) : nat :=
  match m with MPost t | MBody t => task_owes t | _ => 0 end.

Definition answers s : nat := sum_list_with out_responded (outputs s).
Definition handed s : nat := sum_list_with out_handed (outputs s).
Definition unsent s : nat := sum_list_with out_unsent (outputs s).
Definition settled s : nat := sum_list_with out_settled (outputs s).

Lemma settled_split s : settled s = answers s + handed s + unsent s.
Proof.
  unfold settled, answers, handed, unsent. induction (outputs s) as [|o l IH]; [done|].
  simpl. unfold out_settled at 1. lia.
Qed.

(** Requests that are settled, or owed an answer by pending work. *)
Definition owed s : nat :=
  settled s + sum_list_with task_owes (controlQueue s) + sum_list_with micro_owes (micros s).

Definition requested (e : event) : nat :=
  match e with ERequest se c' _ => addressed se c' | _ => 0 end.

(** Outputs that settle [t] requests. *)
Definition settles (t : nat) (o : list output) : Prop :=
  sum_list_with out_settled o = t /\ Forall accounted o.

(** [s'] is [s] after outputs that settle [t]. *)
Definition said (t : nat) s s' : Prop :=
  exists o, outputs s' = outputs s ++ o /\ settles t o.

Lemma said_trans t1 t2 s1 s2 s3 : said t1 s1 s2 -> said t2 s2 s3 -> said (t1 + t2) s1 s3.
Proof.
  intros (o1 & E1 & H1') (o2 & E2 & H2'). exists (o1 ++ o2). rewrite E2, E1, app_assoc.
  split; [done|]. unfold settles in *. rewrite sum_list_with_app, Forall_app. destruct H1', H2'.
  split; [lia|done].
Qed.

Lemma said_emit t o s : settles t o -> said t s (emit o s).
Proof. by exists o. Qed.

(** Outputs that have nothing to do with the request. *)
Lemma settles_quiet o : sum_list_with out_settled o = 0 -> settles 0 o.
Proof.
  intros Ho. split; [done|]. induction o as [|x o IH]; [constructor|]. simpl in Ho.
  constructor; [|apply IH; lia]. destruct x; try done. simpl. left. unfold out_settled in Ho. simpl in Ho. lia.
Qed.

Lemma said_quiet o s : sum_list_with out_settled o = 0 -> said 0 s (emit o s).
Proof. intros Ho. by apply said_emit, settles_quiet. Qed.

(** A change of the other fields says nothing. *)
Lemma said_nothing s s' : outputs s' = outputs s -> said 0 s s'.
Proof. exists []. rewrite app_nil_r. split; [done|]. by apply settles_quiet. Qed.

Lemma settles_error se c' e : settles (addressed se c') (respondRPCError se c' e).
Proof.
  unfold respondRPCError. destruct (encodeError (Some e)) as [p|e'] eqn:E;
    (split; [unfold out_settled; simpl; lia|apply Forall_singleton; try done]).
  right; left. exists e. split; [done|].
  destruct (decide (len (Error e) <= maxRPCStringSize)%Z) as [Hl|]; [|lia].
  destruct (encodeError_roundtrip e Hl) as (p & ? & ? & Hp & _). congruence.
Qed.

Lemma settles_respond se c' m : settles (addressed se c') (respondRPC se c' m).1.
Proof.
  unfold respondRPC. destruct (encodeResult _ _ _) eqn:E;
    (split; [unfold out_settled; simpl; lia|apply Forall_singleton; try done]).
  right; right. eauto.
Qed.

Lemma quiet_broadcast keys s : sum_list_with out_settled (broadcastRouteInvalidation n keys s) = 0.
Proof.
  unfold broadcastRouteInvalidation. destruct (_ || _); [done|].
  assert (forall k se, sum_list_with out_settled (invalidate_sessions k se).1 = 0) as Hk.
  { intros k se. induction se as [|x se IH]; simpl; [done|]. case_match; [|done].
    destruct (invalidate_sessions k se). simpl in *. done. }
  induction keys as [|k keys IH]; simpl; [done|].
  specialize (Hk k (sessions_of s)). destruct (invalidate_sessions k (sessions_of s)) as [o []]; [|done].
  rewrite sum_list_with_app. simpl in *. lia.
Qed.

Lemma quiet_discovery k name ev ks s :
  sum_list_with out_settled (sendServiceDiscovery n k name ev ks s) = 0.
Proof.
  unfold sendServiceDiscovery. destruct (Lookup k (registry s)) as [l|]; [|done].
  destruct (NodeID l =? self n)%Z.
  - destruct (dispatchLocalServiceDiscovery _ _ _ _ _) as [j|] eqn:E; [|done].
    by apply dispatchLocalServiceDiscovery_Ok in E as ->.
  - destruct (remoteNodes s !! NodeID l); [|done]. by case_match.
Qed.

Lemma quiet_concat {A} (f : A -> list output) l :
  (forall x, sum_list_with out_settled (f x) = 0) ->
  sum_list_with out_settled (concat (map f l)) = 0.
Proof. intros Hf. induction l; simpl; [done|]. rewrite sum_list_with_app, Hf. lia. Qed.

Lemma quiet_notify ev k s : sum_list_with out_settled (notify n ev k s) = 0.
Proof. apply quiet_concat. intros x. apply quiet_discovery. Qed.

Lemma said_registered k r s : said 0 s (serviceRegistered n k (set_registry r s)).
Proof.
  apply (said_trans 0 0 _ (set_registry r s)); [by apply said_nothing|]. apply said_quiet.
  by rewrite sum_list_with_app, quiet_broadcast, quiet_notify.
Qed.

Lemma said_unregistered ks r s : said 0 s (servicesUnregistered n ks (set_registry r s)).
Proof.
  unfold servicesUnregistered. cbv zeta. set (s1 := set_subscriptions _ _).
  apply (said_trans 0 0 _ s1); [by apply said_nothing|]. apply said_quiet.
  rewrite sum_list_with_app, quiet_broadcast. apply quiet_concat. intros x. apply quiet_notify.
Qed.

Lemma said_subscribed k nd name ev ks s s' :
  addServiceSubscription k nd name s = Ok s' ->
  said 0 s (emit (sendServiceDiscovery n k name ev ks s') s').
Proof.
  intros [-> _]%addServiceSubscription_Ok. set (s1 := set_subscriptions _ s).
  apply (said_trans 0 0 _ s1); [by apply said_nothing|].
  apply said_quiet, quiet_discovery.
Qed.

(** A task's body settles what the task owed. *)
Lemma run_body_said t s : said (task_owes t) s (run_body n t s).
Proof.
  destruct t as [se|se|se c' src l|se c' src tg|se c' src sub nm|m|k|k|sub nm]; simpl.
  - apply said_nothing. by destruct (remotes s !! se) as [r|]; [destruct (active r)|].
  - by apply said_nothing.
  - destruct (Register l (registry s)) as [r|e]; [|apply said_emit, settles_error].
    eapply (said_trans 0); [apply said_registered|apply said_emit, settles_respond].
  - destruct (Unregister tg src (registry s)) as [r|e]; [|apply said_emit, settles_error].
    eapply (said_trans 0); [apply said_unregistered|apply said_emit, settles_respond].
  - destruct (addServiceSubscription sub src nm s) as [s'|e] eqn:Ea; [|apply said_emit, settles_error].
    eapply (said_trans 0); [by eapply said_subscribed|apply said_emit, settles_respond].
  - apply said_unregistered.
  - destruct (Register _ (registry s)) as [r|e]; [|by apply said_quiet].
    eapply (said_trans 0 0); [apply said_registered|by apply said_quiet].
  - destruct (Unregister _ _ (registry s)) as [r|e]; [|by apply said_quiet].
    eapply (said_trans 0 0); [apply said_unregistered|by apply said_quiet].
  - destruct (addServiceSubscription sub _ nm s) as [s'|e] eqn:Ea; [|by apply said_quiet].
    eapply (said_trans 0 0); [by eapply said_subscribed|by apply said_quiet].
Qed.

(** ** The account of a step

    [balanced t s s']: what is owed grows by exactly [t]. *)
Definition unsent_ok s : Prop := Forall accounted (outputs s).

Definition balanced (t : nat) s s' : Prop :=
  owed s' = owed s + t /\ (unsent_ok s -> unsent_ok s').

Lemma balanced_trans t1 t2 s1 s2 s3 : balanced t1 s1 s2 -> balanced t2 s2 s3 -> balanced (t1 + t2) s1 s3.
Proof. intros [E1 O1] [E2 O2]. split; [lia|auto]. Qed.

Definition pending s : nat :=
  sum_list_with task_owes (controlQueue s) + sum_list_with micro_owes (micros s).

(** A step that says [t1] and changes the pending work. *)
Lemma said_balanced t t' s s' : said t' s s' -> pending s + t = pending s' + t' -> balanced t s s'.
Proof.
  unfold said, balanced, owed, settled, unsent_ok, pending, settles. intros (o & -> & Ho & Hok) Hp.
  rewrite sum_list_with_app, Forall_app. split; [lia|done].
Qed.

Lemma run_micro_said m s s' o :
  run_micro n m s = (s', o) ->
  exists t, said t s s' /\
    sum_list_with task_owes (controlQueue s) + micro_owes m =
    sum_list_with task_owes (controlQueue s') + sum_list_with micro_owes (option_list o) + t.
Proof.
  destruct m as [t|se b|se b|m se b|se b|t]; simpl; intros Hr.
  - simplify_eq/=. exists 0. split; [by apply said_nothing|]. simpl. rewrite sum_list_with_app. simpl. lia.
  - destruct (remotes s !! se); [destruct (active _)|]; simplify_eq/=;
      (exists 0; split; [by apply said_nothing|simpl; lia]).
  - destruct (remotes s !! se); [destruct (_ && _); [destruct (IsMainNode n)|]|]; simplify_eq/=;
      (exists 0; split; [by apply said_nothing|simpl; lia]).
  - simplify_eq/=. exists 0. split; [by apply said_nothing|]. simpl. rewrite sum_list_with_app. simpl. lia.
  - simplify_eq/=. exists 0. destruct b; (split; [|simpl; lia]);
      [by apply said_quiet|by apply said_nothing].
  - simplify_eq/=. exists (task_owes t). split; [apply run_body_said|].
    destruct (run_body_keeps n t s) as (_ & _ & -> & _). lia.
Qed.

Lemma goroutine_balanced i m s s' o :
  goroutines s !! i = Some m -> run_micro n m s = (s', o) ->
  balanced 0 s (set_goroutines (replace_at i o (goroutines s')) s').
Proof.
  intros Hi Hr. destruct (run_micro_said _ _ _ _ Hr) as (t & Hs & Ht).
  destruct (run_micro_frame _ _ _ _ _ Hr) as (Er & Eg & _).
  apply (said_balanced _ t); [done|]. unfold pending, micros; simpl. rewrite Er, Eg.
  rewrite (replace_at_Permutation _ _ _ _ Hi), !sum_list_with_app.
  rewrite (delete_Permutation (goroutines s) _ _ Hi) at 1. simpl. lia.
Qed.

Lemma loop_balanced m s s' o :
  running s = Some m -> run_micro n m s = (s', o) -> balanced 0 s (set_running o s').
Proof.
  intros Hm Hr. destruct (run_micro_said _ _ _ _ Hr) as (t & Hs & Ht).
  destruct (run_micro_frame _ _ _ _ _ Hr) as (Er & Eg & _).
  apply (said_balanced _ t); [done|]. unfold pending, micros; simpl. rewrite Eg, Hm.
  rewrite !sum_list_with_app. simpl. lia.
Qed.

Lemma begin_task_balanced t q s :
  running s = None -> controlQueue s = t :: q -> balanced 0 s (begin_task n t (set_queue q s)).
Proof.
  intros Hr Eq. set (s1 := set_queue q s).
  assert (forall u, task_owes t = task_owes u -> balanced 0 s (run_body n u s1)) as Hbody.
  { intros u Hu. apply (said_balanced _ (task_owes u)).
    - apply (said_trans 0 _ _ s1); [by apply said_nothing|apply run_body_said].
    - destruct (run_body_keeps n u s1) as (Er & Eg & Eq1 & _). unfold pending, micros.
      rewrite Er, Eg, Eq1, Eq. simpl. lia. }
  assert (forall se c' src, task_owes t = addressed se c' -> balanced 0 s
    (if remoteNodeIsCurrent se s1 then set_running (Some (MBody t)) s1
     else emit (respondRPCError se c' (node_disconnected src)) s1)) as Hreq.
  { intros se c' src Ht. destruct (remoteNodeIsCurrent se s1).
    - apply (said_balanced _ 0); [by apply said_nothing|].
      unfold pending, micros; simpl. rewrite Hr, Eq. simpl. lia.
    - apply (said_balanced _ (addressed se c')).
      + apply (said_trans 0 _ _ s1); [by apply said_nothing|apply said_emit, settles_error].
      + unfold pending, micros; simpl. rewrite Hr, Eq. simpl. lia. }
  destruct t; try (by apply Hbody); try (by apply Hreq).
  apply (said_balanced _ 0); [by apply said_nothing|].
  unfold pending, micros; simpl. rewrite Hr, Eq. simpl. lia.
Qed.

(** ** Handlers *)

Lemma emit_balanced t o s : settles t o -> balanced t s (emit o s).
Proof. intros Ho. by apply (said_balanced _ t); [apply said_emit|]. Qed.

Lemma error_balanced se c' e s : balanced (addressed se c') s (emit (respondRPCError se c' e) s).
Proof. apply emit_balanced, settles_error. Qed.

Lemma respond_balanced se c' m s : balanced (addressed se c') s (emit (respondRPC se c' m).1 s).
Proof. apply emit_balanced, settles_respond. Qed.

(** A posted task that owes nothing. *)
Lemma post_balanced t s : task_owes t = 0 -> balanced 0 s (post t s).
Proof.
  intros Ht. apply (said_balanced _ 0); [by apply said_nothing|].
  unfold pending, micros; simpl. rewrite !sum_list_with_app. simpl. lia.
Qed.

Lemma go_balanced m s : balanced (micro_owes m) s (go m s).
Proof.
  apply (said_balanced _ 0); [by apply said_nothing|].
  unfold pending, micros; simpl. rewrite !sum_list_with_app. simpl. lia.
Qed.

Lemma answer_after_arm se c' m s :
  balanced (addressed se c') s (emit (respondRPC se c' m).1 (armRemoteNodeTimeout se s)).
Proof.
  apply (balanced_trans 0 _ _ (armRemoteNodeTimeout se s)); [by apply post_balanced|apply respond_balanced].
Qed.

Lemma handle_op_balanced se c' r op payload s :
  balanced (addressed se c') s (handle_op n se c' r op payload s).
Proof.
  assert (forall e, balanced (addressed se c') s (emit (respondRPCError se c' e) s)) as Hfail
    by (intros; apply error_balanced).
  unfold handle_op.
  repeat match goal with
  | |- context [match decodeOperationPayload ?t ?p with _ => _ end] =>
      destruct (decodeOperationPayload t p); [|by apply Hfail]
  | |- context [match requiredRPCServiceKey ?t ?p with _ => _ end] =>
      destruct (requiredRPCServiceKey t p); [|by apply Hfail]
  | |- context [match requiredRPCServiceLocation ?t ?p with _ => _ end] =>
      destruct (requiredRPCServiceLocation t p); [|by apply Hfail]
  | |- context [match normalizeSubscribedServiceName ?t with _ => _ end] =>
      destruct (normalizeSubscribedServiceName t); [|by apply Hfail]
  | |- context [match decodeDeliverRequest ?t with _ => _ end] =>
      destruct (decodeDeliverRequest t) as [[[[? ?] ?] ?]|]; [|by apply Hfail]
  | |- context [match Lookup ?t ?p with _ => _ end] => destruct (Lookup t p); [|by apply Hfail]
  | |- balanced _ _ (if ?b then _ else _) => destruct b
  | |- context [match (if ?b then _ else _) with _ => _ end] => destruct b
  | |- context [match ?d with Ok _ => _ | Err _ => _ end] => destruct d eqn:?; [|by apply Hfail]
  end; try (by apply Hfail); try apply respond_balanced; try apply answer_after_arm; try apply go_balanced.
  all: match goal with H : _ = Ok _ |- _ => apply dispatchable_Ok in H as [-> _] end.
  all: apply emit_balanced; split; [unfold out_settled; simpl; lia|repeat constructor].
Qed.

Lemma handleRegisterNode_balanced se c' payload s :
  balanced (addressed se c') s (handleRegisterNode n se c' payload s).
Proof.
  unfold handleRegisterNode.
  repeat match goal with
  | |- context [match ?d with _ => _ end] => destruct d; try apply error_balanced
  end.
  all: eapply (balanced_trans 0); [|apply answer_after_arm].
  all: apply (said_balanced _ 0); [by apply said_nothing|done].
Qed.

Lemma handleRPCRequest_balanced se c' rpk s :
  balanced (addressed se c') s (handleRPCRequest n se c' rpk s).
Proof.
  unfold handleRPCRequest. destruct (decodeEnvelope rpk) as [[op payload]|]; [|apply error_balanced].
  destruct (op =? opRegisterNode)%Z; [apply handleRegisterNode_balanced|].
  destruct (registeredRemoteNode se s); [apply handle_op_balanced|apply error_balanced].
Qed.

Lemma handleRPCDirect_balanced se rpk s : balanced 0 s (handleRPCDirect n se rpk s).
Proof.
  unfold handleRPCDirect. repeat match goal with
  | |- context [match ?d with _ => _ end] => destruct d eqn:?
  end; try (by apply emit_balanced, settles_quiet).
  match goal with H : _ = Ok _ |- _ => apply dispatchable_Ok in H as [-> _] end.
  by apply emit_balanced, settles_quiet.
Qed.

Lemma node_step_balanced e s s' : node_step n e s = Some s' -> balanced (requested e) s s'.
Proof.
  intros He. destruct e as [se|se|se c' rpk|se rpk|se|t|i|]; simpl in He |- *.
  - destruct (remotes s !! se); simplify_eq. eapply (balanced_trans 0 0); [|by apply post_balanced].
    by apply (said_balanced _ 0); [apply said_nothing|].
  - simplify_eq. apply (go_balanced (MSwap se false)).
  - simplify_eq. apply handleRPCRequest_balanced.
  - simplify_eq. apply handleRPCDirect_balanced.
  - destruct (remotes s !! se) as [r|]; [|done]. destruct (armed r); simplify_eq.
    eapply (balanced_trans 0 0); [|by apply post_balanced].
    by apply (said_balanced _ 0); [apply said_nothing|].
  - destruct (_ && _) eqn:Et; simplify_eq. bool_prop. apply post_balanced. by destruct t.
  - destruct (goroutines s !! i) as [m|] eqn:Ei; [|done].
    destruct (run_micro n m s) as [s1 o] eqn:Er. simplify_eq. by eapply goroutine_balanced.
  - destruct (running s) as [m|] eqn:Er.
    + destruct (run_micro n m s) as [s1 o] eqn:Em. simplify_eq. by eapply loop_balanced.
    + destruct (controlQueue s) as [|t q] eqn:Eq; simplify_eq. by apply begin_task_balanced.
Qed.

Lemma node_run_balanced l s s' :
  node_run n l s = Some s' -> balanced (sum_list_with requested l) s s'.
Proof.
  revert s. induction l as [|e l IH]; intros s; simpl.
  - intros [= <-]. unfold balanced. split; [lia|done].
  - destruct (node_step n e s) as [s1|] eqn:E; [|done]. intros Hr.
    eapply balanced_trans; [by apply node_step_balanced|by apply IH].
Qed.

(** C8 (functional). Every request is settled exactly once.  Over any run,
    however its steps interleave, the requests a session sent with a context id
    are, one for one, those it got an answer for, those handed with their
    responder to the Loop of the service they are addressed to, those whose
    answer could not be encoded and was reported instead, and those still
    pending; so once nothing is pending the first three add up to the requests,
    and at no time to more.  An answer is left out for no other reason than
    that the text of the error is longer than the wire format allows, or that
    protobuf refuses the response. *)
Theorem requests_are_answered_once (r0 : R) (l : list event) s :
  node_run n l (node_init r0) = Some s ->
  answers s + handed s + unsent s <= sum_list_with requested l /\
  (quiescent s -> answers s + handed s + unsent s = sum_list_with requested l) /\
  (forall e, OUnsent session c e ∈ outputs s -> unencodable e).
Proof.
  intros Hr. apply node_run_balanced in Hr as [Heq Hok].
  change (owed (node_init r0)) with 0 in *. unfold owed in Heq. rewrite settled_split in Heq.
  split_and!; [lia| |].
  - intros (Hq & Hrun & Hg). unfold micros in *. rewrite Hq, Hrun, Hg in *. simpl in *. lia.
  - intros e He. specialize (Hok (Forall_nil_2 _)). unfold unsent_ok in Hok.
    rewrite Forall_forall in Hok. specialize (Hok _ He) as [Ha|]; [|done].
    unfold addressed in Ha. by rewrite bool_decide_eq_true_2 in Ha.
Qed.

End Counting.

(** ** Who is admitted *)

(** An unsent error would have to be longer than any the Node builds here. *)
Lemma error_sent session c e s :
  (len (Error e) <= maxRPCStringSize)%Z ->
  exists p e', emit (respondRPCError session c e) s = emit [ORespond session c p] s /\
    decodeResult p = Err e' /\
    forall x, Is e' x = bool_decide (find (Is e) wire_sentinels = Some x).
Proof.
  intros Hl. destruct (encodeError_roundtrip e Hl) as (p & e' & head & Hp & Hd & Hi & _).
  exists p, e'. unfold respondRPCError. by rewrite Hp.
Qed.

(** C32 (safety). A session that is not registered as the current session of
    a node, because it never registered, lost its node to another session or
    is being removed, can change nothing by any packet but a RegisterNode
    request (for which see [register_node_admits_exactly]).  A request gets
    one answer, which its caller decodes as [ErrInvalidMessage] if the packet
    is no envelope (and the decoder's error fits an answer) and as
    [ErrNodeNotFound] otherwise; a direct message of any kind is reported and
    dropped; nothing else happens. *)
Theorem unregistered_sessions_are_inert session c rpk s :
  remoteNodeIsCurrent session s = false ->
  (match decodeEnvelope rpk with
   | Ok (op, _) => op <> opRegisterNode -> exists p e',
       handleRPCRequest n session c rpk s = emit [ORespond session c p] s /\
       decodeResult p = Err e' /\ Is e' ErrNodeNotFound = true
   | Err e => (len (Error (rpcInvalidMessage e)) <= maxRPCStringSize)%Z -> exists p e',
       handleRPCRequest n session c rpk s = emit [ORespond session c p] s /\
       decodeResult p = Err e' /\ Is e' ErrInvalidMessage = true
   end) /\
  exists e, handleRPCDirect n session rpk s = emit [OReport e] s.
Proof.
  intros Hc. assert (registeredRemoteNode session s = Err not_registered) as Hr.
  { unfold registeredRemoteNode, remoteNodeIsCurrent in *. destruct (remotes s !! session); [|done].
    by rewrite Hc. }
  unfold handleRPCRequest, handleRPCDirect. destruct (decodeEnvelope rpk) as [[op payload]|e]; rewrite ?Hr.
  - split; [|by eexists]. intros Hop. rewrite (proj2 (Z.eqb_neq _ _) Hop).
    destruct (error_sent session c not_registered s) as (p & e' & Hp & He & Hi);
      [vm_compute; congruence|]. exists p, e'. split_and!; [done..|]. by rewrite Hi.
  - split; [|by eexists]. intros Hl.
    destruct (error_sent session c (rpcInvalidMessage e) s Hl) as (p & e' & Hp & He & Hi).
    exists p, e'. split_and!; [done..|]. by rewrite Hi.
Qed.

(** What [handleRegisterNode] asks of a request and its session. *)
Definition admits session (rq : RegisterNodeRequest) s : Prop :=
  in_signed int_bits (rn_node_id rq) /\ (0 < rn_node_id rq)%Z /\ rn_node_id rq <> self n /\
  configured_addr n (rn_node_id rq) (rn_node_addr rq) /\
  remoteNodes s !! rn_node_id rq = None /\
  exists r, remotes s !! session = Some r /\ active r = true /\ remote_id r = 0%Z.

(** The state after an admission: the session is the node's session, and its
    heartbeat timeout is restarted. *)
Definition admitted session (rq : RegisterNodeRequest) (a : bool) s : node R :=
  post (TArm session)
    (set_remoteNodes (<[rn_node_id rq := session]> (remoteNodes s))
       (set_remotes (<[session := mkRemote (rn_node_id rq) (rn_node_addr rq) true a]> (remotes s)) s)).

Lemma handleRegisterNode_admits session c payload rq s :
  decodeOperationPayload TRegisterNodeRequest payload = Ok rq -> admits session rq s ->
  exists a, handleRegisterNode n session c payload s =
    emit (respondRPC session c (Message TRegisterNodeResponse tt)).1 (admitted session rq a s).
Proof.
  intros Hd (Hs & Hp & Hself & (cf & Hcf & Ha) & Hfree & r & Hr & Hact & Hid).
  exists (armed r). unfold handleRegisterNode. rewrite Hd.
  assert (rpcNodeID (rn_node_id rq) = Ok (rn_node_id rq)) as ->.
  { unfold rpcNodeID. rewrite (proj2 (rpcInt_Ok _ _ _)) by done. simpl.
    by rewrite (proj2 (Z.leb_gt _ _) Hp). }
  rewrite Hcf, (proj2 (Z.eqb_neq _ _) Hself), (bool_decide_eq_true_2 _ Ha), Hr, Hact, Hid.
  simpl negb. cbv iota. rewrite Hfree. rewrite bool_decide_eq_false_2 by (by intros [? ?]). done.
Qed.

Local Ltac refuse tac := eexists; split; [reflexivity|tac].

(** Every refusal is an error answer and nothing else; the refusal of an id
    that is taken is [ErrNodeExists]. *)
Lemma handleRegisterNode_refuses session c payload rq s :
  decodeOperationPayload TRegisterNodeRequest payload = Ok rq -> ~ admits session rq s ->
  exists e, handleRegisterNode n session c payload s = emit (respondRPCError session c e) s /\
    (Is e ErrNodeExists = true \/ Is e ErrNodeNotFound = true \/ Is e ErrInvalidMessage = true).
Proof.
  intros Hd Hno. unfold handleRegisterNode. rewrite Hd.
  destruct (rpcNodeID (rn_node_id rq)) as [m|e] eqn:Em; [|refuse ltac:(by right; right)].
  destruct (Config.Node _ m) as [cf|] eqn:Ec; [|refuse ltac:(by right; left)].
  destruct (m =? self n)%Z eqn:Eself; [refuse ltac:(by right; right)|].
  destruct (negb (bool_decide _)) eqn:Ea; [refuse ltac:(by right; right)|].
  destruct (remotes s !! session) as [r|] eqn:Er; [|refuse ltac:(by right; right)].
  destruct (negb (active r)) eqn:Eact; [refuse ltac:(by right; left)|].
  destruct (negb (remote_id r =? 0)%Z) eqn:Eid; [refuse ltac:(by left)|].
  destruct (bool_decide (is_Some (remoteNodes s !! m))) eqn:Efree; [refuse ltac:(by left)|].
  destruct Hno. unfold rpcNodeID in Em. inv_res. subst. bool_prop.
  apply rpcInt_Ok in Ha as [-> Hsg]. unfold admits. split_and!; try done.
  - by exists cf.
  - by apply eq_None_not_Some.
  - by exists r.
Qed.

(** C31 (functional). RegisterNode admits a session exactly if the id is that
    of another configured node, the address is the configured one, the session
    is tracked, still active and not registered yet, and the id has no current
    session; then the session becomes the node's session, its heartbeat is
    restarted and the caller gets a RegisterNodeResponse.  In every other case
    nothing but an error answer happens, and the error is one of the sentinels
    the caller can tell apart. *)
Theorem register_node_admits_exactly `{!ProtoLaws} session c payload rq s :
  decodeOperationPayload TRegisterNodeRequest payload = Ok rq ->
  let s' := handleRegisterNode n session c payload s in
  (admits session rq s -> exists a p body, s' = emit [ORespond session c p] (admitted session rq a s) /\
     decodeResult p = Ok body /\ decodeResultPayload TRegisterNodeResponse body = Ok tt) /\
  (~ admits session rq s -> exists e, s' = emit (respondRPCError session c e) s /\
     (Is e ErrNodeExists = true \/ Is e ErrNodeNotFound = true \/ Is e ErrInvalidMessage = true)).
Proof.
  intros Hd. cbv zeta. split; [|by apply handleRegisterNode_refuses].
  intros Hadm. destruct (handleRegisterNode_admits session c payload rq s Hd Hadm) as [a ->].
  destruct (encodeResult_total TRegisterNodeResponse tt eq_refl) as [p Hp].
  destruct (encodeResult_message TRegisterNodeResponse tt p Hp) as (body & Hb & Hm).
  exists a, p, body. unfold respondRPC. by rewrite Hp.
Qed.

End Requests.

(** ** Witnesses and a race *)

Section Witnesses.
#[local] Existing Instance ascii_tables.
Import Demo.

(** The request for room 1 of the opening is answered once. *)
Lemma requests_are_answered_once_witness :
  answers 7 2 opened = 1 /\
  answers 7 2 opened + handed 7 2 opened + unsent 7 2 opened = sum_list_with (requested 7 2) opening.
Proof.
  split; [vm_compute; reflexivity|].
  apply (proj1 (proj2 (requests_are_answered_once env 7 2 NewMemoryRegistry opening opened opened_run))).
  vm_compute. auto.
Defined.

Definition heartbeat : list byte := packet_of opHeartbeat THeartbeatRequest tt.

Lemma unregistered_sessions_are_inert_witness :
  (exists p e', handleRPCRequest env 9 5 heartbeat opened = emit [ORespond 9 5 p] opened /\
    decodeResult p = Err e' /\ Is e' ErrNodeNotFound = true) /\
  exists p e', handleRPCRequest env 9 5 [] opened = emit [ORespond 9 5 p] opened /\
    decodeResult p = Err e' /\ Is e' ErrInvalidMessage = true.
Proof.
  split.
  - refine (proj1 (unregistered_sessions_are_inert env 9 5 heartbeat opened _) _);
      [vm_compute; reflexivity|vm_compute; congruence].
  - refine (proj1 (unregistered_sessions_are_inert env 9 5 [] opened _) _);
      [vm_compute; reflexivity|vm_compute; congruence].
Defined.

Definition join_payload : list byte :=
  match decodeEnvelope (packet_of opRegisterNode TRegisterNodeRequest (mkRegisterNode 2 "10.0.0.2:9000")) with
  | Ok p => p.2
  | Err _ => []
  end.

(** A session that was just accepted. *)
Definition accepted : node MemoryRegistry := run [EAccept 7] start.

Lemma register_node_admits_exactly_witness :
  exists a p body,
    handleRegisterNode env 7 1 join_payload accepted =
      emit [ORespond 7 1 p] (admitted 7 (mkRegisterNode 2 "10.0.0.2:9000") a accepted) /\
    decodeResult p = Ok body /\ decodeResultPayload TRegisterNodeResponse body = Ok tt.
Proof.
  refine (proj1 (register_node_admits_exactly env 7 1 join_payload (mkRegisterNode 2 "10.0.0.2:9000")
    accepted _) _).
  - vm_compute. reflexivity.
  - unfold admits. split_and!.
    + split; vm_compute; congruence.
    + vm_compute. reflexivity.
    + vm_compute. congruence.
    + exists (mkNodeConfig 2 "10.0.0.2:9000" 0 None []). split; vm_compute; reflexivity.
    + vm_compute. reflexivity.
    + exists (mkRemote 0 "" true false). split_and!; vm_compute; reflexivity.
Defined.

(** Node 2 is connected on session 7 and reconnects on session 8 while the
    goroutine that removes session 7 is between giving up [remoteNodesMu] and
    posting the cleanup of node 2. *)
Definition overtaken : list event :=
  joined 7 ++ [EClose 7; EGoroutine 0; EGoroutine 0]
  ++ joined 8 ++ [announce 8 2 (room 1); EGoroutine 1; EControl; EControl].

(** Then the goroutine goes on, and the loop runs the cleanup. *)
Definition stale_cleanup : list event := [EGoroutine 0; EGoroutine 0; EControl].

Definition is_ok_answer (session : nat) (c : Z) (o : output) : bool :=
  match o with
  | ORespond se c' p =>
      Nat.eqb se session && (c' =? c)%Z && match decodeResult p with Ok _ => true | Err _ => false end
  | _ => false
  end.

(** A cleanup can hit the wrong connection.  [removeRemoteNode]
    posts the cleanup of the node after it released [remoteNodesMu], and the
    cleanup removes every entry of the node id.  So a node that reconnects in
    between and registers a service is told that it succeeded, its new session
    stays the node's live session, and the cleanup of the old session then
    removes the registration of the new one: in the quiet state that follows,
    the connected node has no route, and nobody asked to unregister it. *)
Theorem stale_cleanup_hits_new_session :
  exists s1 s2,
    node_run env overtaken start = Some s1 /\ node_run env stale_cleanup s1 = Some s2 /\
    existsb (is_ok_answer 8 2) (outputs s1) = true /\
    Lookup (room 1) (registry s1) = Some (mkServiceLocation "room" 1 2 "10.0.0.2:9000") /\
    quiescent s2 /\ live_session s2 2 /\ remoteNodes s2 !! 2%Z = Some 8 /\
    Lookup (room 1) (registry s2) = None.
Proof.
  eexists. eexists. split; [vm_compute; reflexivity|]. split; [vm_compute; reflexivity|].
  split_and!; try (vm_compute; reflexivity); [split_and!; reflexivity|].
  exists 8, (mkRemote 2 "10.0.0.2:9000" true true). split_and!; vm_compute; reflexivity.
Qed.

End Witnesses.
