(* ===== verification/Effects.v ===== *)
(** * What a step does to the directory

    The registry and the subscription index are what the main node promises
    to keep; [effect] classifies every step of [ControlPlane] by what it does
    to them and what it sends.  A step registers one service, removes the
    services of one node, adds one subscription, or leaves both alone; the
    events and invalidations it sends are determined by the state it reaches.
    The theorems about discovery, route pushes and the directory all start
    from [node_step_effect]. *)

From stdpp Require Import base tactics list gmap sets strings.
From Stdlib Require Import ZArith Lia Strings.Byte.
From S2P Require Import Prelude GoString Errors Registry Subscription Config Service Wire Dispatch.
From S2P Require Import ControlPlane ControlInvariant.
Local Open Scope string_scope.
Local Open Scope list_scope.

Section Effects.
Context `{UnicodeTables} `{Platform} `{ProtoLib} `{PacketLib}.
Context {R : Type} `{ServiceRegistry R} `{!ServiceRegistryLaws R}.
Context (n : node_env).
Implicit Types s : node R.

Inductive effect s s' : Prop :=
| ef_quiet o :
    registry s' = registry s -> subscriptions s' = subscriptions s ->
    outputs s' = outputs s ++ o -> Forall (plain n) o -> effect s s'
| ef_register l o :
    IsMainNode n = true -> Register l (registry s) = Ok (registry s') -> subscriptions s' = subscriptions s ->
    outputs s' = outputs s ++ (broadcastRouteInvalidation n [Key l] s' ++ notify n eventOnline (Key l) s') ++ o ->
    Forall (plain n) o -> effect s s'
| ef_unregister owner ks o :
    (forall x, x ∈ ks -> exists l, Lookup x (registry s) = Some l /\ NodeID l = owner) ->
    reg_ok (registry s') ->
    (forall x, Lookup x (registry s') = if decide (x ∈ ks) then None else Lookup x (registry s)) ->
    subscriptions s' = foldl (fun i k => removeSubscriber k i) (subscriptions s) ks ->
    outputs s' = outputs s ++ (broadcastRouteInvalidation n ks s'
      ++ concat (map (fun x => notify n eventOffline x s') ks)) ++ o ->
    Forall (plain n) o -> effect s s'
| ef_subscribe k name l o :
    Lookup k (registry s) = Some l -> registry s' = registry s ->
    subscriptions s' = (subscribe k name (subscriptions s)).1 ->
    outputs s' = outputs s ++
      sendServiceDiscovery n k name eventSnapshot (serviceSnapshot name (registry s')) s' ++ o ->
    Forall (plain n) o -> effect s s'.

Lemma effect_same s s' :
  registry s' = registry s -> subscriptions s' = subscriptions s -> outputs s' = outputs s -> effect s s'.
Proof. intros Er Es Eo. apply (ef_quiet s s' []); by rewrite ?app_nil_r. Qed.

Lemma effect_emit s s' o : effect s s' -> Forall (plain n) o -> effect s (emit o s').
Proof.
  intros [o' ? ? E ?|l o' ? ? ? E ?|m ks o' ? ? ? ? E ?|k name l o' ? ? ? E ?] Ho;
    [eapply (ef_quiet _ _ (o' ++ o))|eapply (ef_register _ _ l (o' ++ o))
    |eapply (ef_unregister _ _ m ks (o' ++ o))|eapply (ef_subscribe _ _ k name l (o' ++ o))];
    simpl; rewrite ?E, <-?app_assoc; try done; by apply Forall_app.
Qed.

Lemma effect_plain s o : Forall (plain n) o -> effect s (emit o s).
Proof. by apply (ef_quiet _ _ o). Qed.

Lemma effect_registered s l r :
  IsMainNode n = true -> Register l (registry s) = Ok r ->
  effect s (serviceRegistered n (Key l) (set_registry r s)).
Proof. intros Hm Hr. apply (ef_register _ _ l []); simpl; by rewrite ?app_nil_r. Qed.

Lemma effect_unregistered s r m ks :
  (forall x, x ∈ ks -> exists l, Lookup x (registry s) = Some l /\ NodeID l = m) -> reg_ok r ->
  (forall x, Lookup x r = if decide (x ∈ ks) then None else Lookup x (registry s)) ->
  effect s (servicesUnregistered n ks (set_registry r s)).
Proof. intros Hown Hok Hr. apply (ef_unregister _ _ m ks []); simpl; by rewrite ?app_nil_r. Qed.

Lemma effect_unregistered_one s r k m :
  reg_ok (registry s) -> Unregister k m (registry s) = Ok r ->
  effect s (serviceUnregistered n k (set_registry r s)).
Proof.
  intros Hok Hr. destruct (Unregister_Ok _ _ _ _ Hok Hr) as (Hok' & Hl & Hlk).
  apply (effect_unregistered s r m [k]); [by intros x ->%list_elem_of_singleton|done|].
  intros x. rewrite Hlk. repeat case_decide; rewrite ?list_elem_of_singleton in *; congruence.
Qed.

Lemma effect_subscribed s s' k nd name :
  addServiceSubscription k nd name s = Ok s' ->
  effect s (emit (sendServiceDiscovery n k name eventSnapshot (serviceSnapshot name (registry s')) s') s').
Proof.
  intros [-> (l & Hl & _)]%addServiceSubscription_Ok.
  apply (ef_subscribe _ _ k name l []); simpl; by rewrite ?app_nil_r.
Qed.

Lemma effect_cleanup s m :
  reg_ok (registry s) -> effect s (run_body n (TCleanup m) s).
Proof.
  intros Hok. destruct (UnregisterNode_lookup m _ Hok) as [Hok' Hlk].
  apply (effect_unregistered s _ m); [|done|].
  - intros x. by rewrite elem_of_serviceKeysForNode.
  - intros x. rewrite Hlk. destruct (Lookup x (registry s)) as [l|] eqn:E; [|by case_decide].
    repeat case_decide; rewrite elem_of_serviceKeysForNode in * by done; naive_solver.
Qed.

Lemma effect_body t s : task_ok n s t -> reg_ok (registry s) -> effect s (run_body n t s).
Proof.
  intros Ht Hok. destruct t as [se|se|se c src l|se c src tg|se c src sub nm|m|k|k|sub nm];
    try (by apply effect_cleanup); simpl.
  - destruct (remotes s !! se) as [r|]; [destruct (active r)|]; by apply effect_same.
  - by apply effect_same.
  - destruct (Register l (registry s)) eqn:Er; [|apply effect_plain, plain_error].
    apply effect_emit; [apply effect_registered; [apply Ht|done]|apply plain_respond].
  - destruct (Unregister tg src (registry s)) eqn:Er; [|apply effect_plain, plain_error].
    apply effect_emit; [by eapply effect_unregistered_one|apply plain_respond].
  - destruct (addServiceSubscription sub src nm s) eqn:Ea; [|apply effect_plain, plain_error].
    apply effect_emit; [by eapply effect_subscribed|apply plain_respond].
  - destruct (Register (own_location n k) (registry s)) eqn:Er; [|apply effect_plain; by repeat constructor].
    apply effect_emit; [|by repeat constructor].
    replace k with (Key (own_location n k)) by (by destruct k). by apply effect_registered.
  - destruct (Unregister k (self n) (registry s)) eqn:Er; [|apply effect_plain; by repeat constructor].
    apply effect_emit; [by eapply effect_unregistered_one|by repeat constructor].
  - destruct (addServiceSubscription sub (self n) nm s) eqn:Ea; [|apply effect_plain; by repeat constructor].
    apply effect_emit; [by eapply effect_subscribed|by repeat constructor].
Qed.

Lemma effect_micro m s s' o : run_micro n m s = (s', o) ->
  (forall t, m = MBody t -> task_ok n s t) -> reg_ok (registry s) -> effect s s'.
Proof.
  intros Hr Hm Hok. destruct m as [t|se b|se b|m se b|se b|t]; simpl in Hr.
  - simplify_eq. by apply effect_same.
  - destruct (remotes s !! se) as [r|]; [destruct (active r)|]; simplify_eq; by apply effect_same.
  - destruct (remotes s !! se) as [r|]; [destruct (_ && _)|]; simplify_eq; by apply effect_same.
  - simplify_eq. by apply effect_same.
  - destruct b; simplify_eq; [apply effect_plain; by repeat constructor|by apply effect_same].
  - simplify_eq. apply effect_body; auto.
Qed.

(** Moving what is left to do does not show. *)
Lemma effect_view s s1 s2 s3 :
  effect s1 s2 -> registry s1 = registry s -> subscriptions s1 = subscriptions s -> outputs s1 = outputs s ->
  registry s3 = registry s2 -> subscriptions s3 = subscriptions s2 -> remoteNodes s3 = remoteNodes s2 ->
  outputs s3 = outputs s2 -> effect s s3.
Proof.
  destruct s, s1, s2, s3; simpl. intros He -> -> -> -> -> -> ->.
  destruct He as [o ? ? E ?|l o ? ? ? E ?|m ks o ? ? ? ? E ?|k name l o ? ? ? E ?]; simpl in *;
    [eapply (ef_quiet _ _ o)|eapply (ef_register _ _ l o)
    |eapply (ef_unregister _ _ m ks o)|eapply (ef_subscribe _ _ k name l o)]; done.
Qed.

Lemma effect_begin t s : task_ok n s t -> reg_ok (registry s) -> effect s (begin_task n t s).
Proof.
  intros Ht Hok. destruct t; try (by apply effect_body); simpl; try (by apply effect_same);
    (destruct (remoteNodeIsCurrent _ _); [by apply effect_same|apply effect_plain, plain_error]).
Qed.

Lemma effect_register_node session c payload s :
  effect s (handleRegisterNode n session c payload s).
Proof.
  unfold handleRegisterNode.
  repeat match goal with
  | |- context [match ?d with _ => _ end] => destruct d; try (apply effect_plain, plain_error)
  end.
  all: apply effect_emit; [by apply effect_same|apply plain_respond].
Qed.

Lemma effect_request session c rpk s : effect s (handleRPCRequest n session c rpk s).
Proof.
  unfold handleRPCRequest.
  destruct (decodeEnvelope rpk) as [[op payload]|e]; [|apply effect_plain, plain_error].
  destruct (op =? opRegisterNode)%Z; [apply effect_register_node|].
  destruct (registeredRemoteNode session s) as [r|e] eqn:Er; [|apply effect_plain, plain_error].
  apply registeredRemoteNode_Ok in Er as [Hr Hc].
  destruct (handle_op_shape n s session c r op payload Hc Hr) as (o & Ho & [->|[->|(t & -> & _)]]);
    [by apply effect_plain| |by apply effect_same].
  apply effect_emit; [by apply effect_same|done].
Qed.

Lemma node_step_effect e s s' : node_step n e s = Some s' -> inv n s -> effect s s'.
Proof.
  intros He [Hi Hnb]. pose proof (i_reg _ _ _ Hi) as Hok.
  destruct e as [se|se|se c rpk|se rpk|se|t|i|]; simpl in He.
  - destruct (remotes s !! se); simplify_eq. by apply effect_same.
  - simplify_eq. by apply effect_same.
  - simplify_eq. apply effect_request.
  - simplify_eq. destruct (handleRPCDirect_shape n se rpk s) as (o & Ho & ->). by apply effect_plain.
  - destruct (remotes s !! se) as [r|]; [|done]. destruct (armed r); simplify_eq. by apply effect_same.
  - destruct (_ && _); simplify_eq. by apply effect_same.
  - destruct (goroutines s !! i) as [m|] eqn:Em; [|done].
    destruct (run_micro n m s) as [s1 o] eqn:Er. simplify_eq.
    apply (effect_view s s s1); try done. apply (effect_micro m s s1 o Er); [|done].
    intros t ->. destruct (Hnb t). by eapply list_elem_of_lookup_2.
  - destruct (running s) as [m|] eqn:Em.
    + destruct (run_micro n m s) as [s1 o] eqn:Er. simplify_eq.
      apply (effect_view s s s1); try done. apply (effect_micro m s s1 o Er); [|done].
      intros t ->. apply (i_body _ _ _ Hi). unfold micros. rewrite Em. by left.
    + destruct (controlQueue s) as [|t q] eqn:Eq; simplify_eq.
      apply (effect_view s (set_queue q s) (begin_task n t (set_queue q s))); try done.
      apply effect_begin; [|done]. apply (i_queue _ _ _ Hi). rewrite Eq. by left.
Qed.

(** A step never moves a service from one place to another. *)
Lemma effect_location s s' k l l' :
  effect s s' -> reg_ok (registry s) ->
  Lookup k (registry s) = Some l -> Lookup k (registry s') = Some l' -> l' = l.
Proof.
  intros [o Er _ _ _|l0 o _ Hr _ _ _|m ks o _ _ Hr _ _ _|k0 name l0 o _ Er _ _ _] Hok Hl Hl'.
  - congruence.
  - destruct (Register_Ok _ _ _ Hok Hr) as (_ & _ & Hfree & Hlk). rewrite Hlk in Hl'.
    case_decide; [subst|]; congruence.
  - rewrite Hr in Hl'. case_decide; congruence.
  - congruence.
Qed.

End Effects.
