(* ===== verification/Discovery.v ===== *)
(** * Service discovery

    What the discovery events and route invalidations that the main node sends
    tell about its registry.  A local subscriber that folds the events it
    receives (a snapshot sets its view, an online event adds a service, an
    offline event removes one) always knows exactly the registered services of
    the name it subscribed to; every change of a route is broadcast to every
    connected node. *)

From stdpp Require Import base tactics list gmap sets strings.
From Stdlib Require Import ZArith Lia Strings.Byte.
From S2P Require Import Prelude GoString Errors Registry Subscription Config Service Wire Dispatch.
From S2P Require Import ControlPlane ControlInvariant WireInstances ControlDemo ControlTheorems.
From S2P Require Import Effects.
Local Open Scope string_scope.
Local Open Scope list_scope.

Section Discovery.
Context `{UnicodeTables} `{Platform} `{ProtoLib} `{PacketLib}.
Context {R : Type} `{ServiceRegistry R} `{!ServiceRegistryLaws R}.
Context (n : node_env).
Implicit Types s : node R.

(** ** What a subscriber makes of its events *)

Definition apply_event (ev : Z) (ks : list ServiceKey) (v : gset ServiceKey) : gset ServiceKey :=
  if (ev =? eventSnapshot)%Z then list_to_set ks
  else if (ev =? eventOnline)%Z then v ∪ list_to_set ks
  else v ∖ list_to_set ks.

(** It is what a handler does that keeps a set. *)
#[local] Instance set_handler : ServiceSubscriptionHandler (gset ServiceKey) := {
  HandleServiceSnapshot _ services _ := list_to_set services;
  HandleServiceOnline service v := v ∪ {[service]};
  HandleServiceOffline service v := v ∖ {[service]}
}.

Lemma run_discovery_set name ev ks v :
  sendable ev ks -> run_discovery name ev ks v = Some (apply_event ev ks v).
Proof.
  intros [->|[[-> | ->] Hlen]]; [done|..]; destruct ks as [|k [|]]; try done; unfold run_discovery, apply_event;
    simpl; f_equal; set_solver.
Qed.

Lemma apply_event_idemp ev ks v : apply_event ev ks (apply_event ev ks v) = apply_event ev ks v.
Proof. unfold apply_event. destruct (ev =? eventSnapshot)%Z; [done|]. destruct (ev =? eventOnline)%Z; set_solver. Qed.

(** [receive] is the event of one subscription that an output carries to its
    subscriber, if any. *)
Definition view_step (receive : output -> option (Z * list ServiceKey)) (v : gset ServiceKey) (o : output)
    : gset ServiceKey :=
  match receive o with Some (ev, ks) => apply_event ev ks v | None => v end.

Definition view (receive : output -> option (Z * list ServiceKey)) (o : list output) : gset ServiceKey :=
  foldl (view_step receive) ∅ o.

Lemma view_silent receive v o : Forall (fun x => receive x = None) o -> foldl (view_step receive) v o = v.
Proof.
  revert v. induction o as [|x o IH]; intros v; [done|]. rewrite Forall_cons. intros [Hx Ho]. simpl.
  rewrite IH by done. unfold view_step. by rewrite Hx.
Qed.

(** What [inv] says of the registry and the index. *)
Definition indexed s : Prop :=
  reg_ok (registry s) /\ index_wf (subscriptions s) /\
  forall k name, subscribed (subscriptions s) k name -> is_Some (Lookup k (registry s)).

Lemma inv_indexed s : inv n s -> indexed s.
Proof. intros [Hs _]. split_and!; apply Hs. Qed.

Lemma elem_of_serviceSnapshot name (r : R) x :
  reg_ok r -> x ∈ serviceSnapshot name r <-> Name x = name /\ is_Some (Lookup x r).
Proof.
  intros Hr. unfold serviceSnapshot. rewrite elem_of_sortServiceKeys, list_elem_of_fmap.
  setoid_rewrite list_elem_of_filter. setoid_rewrite List_lookup; [|done..]. split.
  - intros (l & -> & <- & Hl). eauto.
  - intros (<- & l & Hl). destruct (Lookup_Key _ _ _ Hr Hl) as [<- _]. by exists l.
Qed.

(** How the events of the subscription of [k] to [name] travel: in the states
    where it [listens], the subscriber receives exactly the events that are
    sent to it, if they are about keys that can be [carried]. *)
Record feed_laws (k : ServiceKey) (name : string) (receive : output -> option (Z * list ServiceKey))
    (listens : node R -> Prop) (carried : ServiceKey -> Prop) : Prop := {
  fd_plain : forall o, plain n o -> receive o = None;
  fd_broadcast : forall ks s, Forall (fun o => receive o = None) (broadcastRouteInvalidation n ks s);
  fd_send : forall v k' name' ev ks s, listens s -> sendable ev ks ->
    Forall (fun x => carried x /\ Name x = name') ks ->
    foldl (view_step receive) v (sendServiceDiscovery n k' name' ev ks s) =
    if bool_decide (k' = k /\ name' = name) then apply_event ev ks v else v
}.

Section Feed.
Context (k : ServiceKey) (name : string) (receive : output -> option (Z * list ServiceKey)).
Context (listens : node R -> Prop) (carried : ServiceKey -> Prop).
Context (laws : feed_laws k name receive listens carried).

Lemma view_notify_list v l ev x s :
  listens s -> sendable ev [x] -> carried x ->
  foldl (view_step receive) v (concat (map (fun k' => sendServiceDiscovery n k' (Name x) ev [x] s) l)) =
  if bool_decide (k ∈ l /\ Name x = name) then apply_event ev [x] v else v.
Proof.
  intros Hl Hev Hx. revert v. induction l as [|y l IH]; intros v; cbn [map concat foldl].
  - rewrite bool_decide_eq_false_2; [done|]. by intros [?%elem_of_nil _].
  - rewrite foldl_app, IH, (fd_send _ _ _ _ _ laws) by (done || by repeat constructor).
    destruct (decide (Name x = name)) as [Hn|]; [|by rewrite !bool_decide_eq_false_2 by naive_solver].
    destruct (decide (y = k)) as [->|Hy].
    + rewrite (bool_decide_eq_true_2 (k = k /\ _)) by done.
      rewrite (bool_decide_eq_true_2 (k ∈ k :: l /\ _)) by (split; [by left|done]).
      case_bool_decide; [apply apply_event_idemp|done].
    + rewrite (bool_decide_eq_false_2 (y = k /\ _)) by naive_solver.
      apply (f_equal (fun b : bool => if b then _ else _)). apply bool_decide_ext.
      rewrite elem_of_cons. naive_solver.
Qed.

(** A notification reaches the view exactly if it is about the name. *)
Lemma view_notify v ev x s :
  listens s -> sendable ev [x] -> carried x -> subscribed (subscriptions s) k name ->
  foldl (view_step receive) v (notify n ev x s) =
  if bool_decide (Name x = name) then apply_event ev [x] v else v.
Proof.
  intros Hl Hev Hx Hs. unfold notify. rewrite view_notify_list by done.
  apply (f_equal (fun b : bool => if b then _ else _)). apply bool_decide_ext.
  rewrite elem_of_subscribers. split; [by intros [_ ?]|]. intros E. by rewrite E.
Qed.

Lemma view_offline v ks s :
  listens s -> subscribed (subscriptions s) k name -> (forall x, x ∈ ks -> carried x) ->
  forall x, x ∈ foldl (view_step receive) v (concat (map (fun y => notify n eventOffline y s) ks)) <->
    x ∈ v /\ ~ (x ∈ ks /\ Name x = name).
Proof.
  intros Hl Hs. revert v. induction ks as [|y ks IH]; intros v Hc x; simpl.
  - split; [intros ?; split; [done|]|by intros [? _]]. by intros [?%elem_of_nil _].
  - rewrite foldl_app, IH, view_notify; [|done|right; auto|apply Hc; by left|done|intros; apply Hc; by right].
    rewrite elem_of_cons. case_bool_decide as Hy; [unfold apply_event; simpl; set_solver|].
    split; [|naive_solver]. intros [Hx Hn]. split; [done|]. intros [[->|?] ?]; naive_solver.
Qed.

(** ** The view is exact *)

Definition exact s : Prop :=
  forall x, x ∈ view receive (outputs s) <-> Name x = name /\ is_Some (Lookup x (registry s)).

Lemma view_plain v o : Forall (plain n) o -> foldl (view_step receive) v o = v.
Proof. intros Ho. apply view_silent. eapply Forall_impl; [exact Ho|]. apply laws. Qed.

Lemma view_broadcast v ks s : foldl (view_step receive) v (broadcastRouteInvalidation n ks s) = v.
Proof. apply view_silent, laws. Qed.

(** A step keeps the view of a listener that stays subscribed exact, and makes
    the view of a new one exact. *)
Lemma view_effect s s' :
  effect n s s' -> indexed s ->
  (forall x, is_Some (Lookup x (registry s)) \/ is_Some (Lookup x (registry s')) -> carried x) ->
  listens s' -> subscribed (subscriptions s') k name ->
  (subscribed (subscriptions s) k name -> exact s) -> exact s'.
Proof.
  intros He (Hok & Hwf & _) Hc Hl Hk Hs x. unfold view.
  destruct He as [o Er Es Eo Ho|l o _ Hr Es Eo Ho|m ks o Hks _ Hlk Es Eo Ho|k0 name0 l o Hl0 Er Es Eo Ho];
    rewrite Eo, !foldl_app, (view_plain _ o) by done.
  - rewrite Er. apply Hs. by rewrite <- Es.
  - destruct (Register_Ok _ _ _ Hok Hr) as (_ & _ & Hfree & Hlk).
    rewrite view_broadcast, view_notify; [|done|right; auto| |done];
      [|apply Hc; right; rewrite Hlk, decide_True by done; by eexists].
    rewrite Hlk. specialize (Hs ltac:(by rewrite <- Es) x). unfold view in Hs.
    case_bool_decide as Hn; unfold apply_event; simpl.
    + rewrite !elem_of_union, Hs, elem_of_singleton, elem_of_empty.
      case_decide as Hx; [subst|]; naive_solver.
    + rewrite Hs. case_decide as Hx; [subst|done]. split; [|by intros [? _]]. by intros [? _].
  - assert (subscribed (subscriptions s) k name) as Hk0.
    { rewrite Es in Hk. by apply subscribed_remove_all in Hk as [_ ?]. }
    rewrite view_broadcast, view_offline; [|done..|].
    + specialize (Hs Hk0 x). unfold view in Hs. rewrite Hs, Hlk. case_decide; naive_solver.
    + intros y Hy. destruct (Hks y Hy) as (ly & Hy' & _). apply Hc. left. by eexists.
  - rewrite (fd_send _ _ _ _ _ laws); [|done|by left|].
    + rewrite Er. case_bool_decide as Hb.
      * destruct Hb as [-> ->]. unfold apply_event. simpl. by rewrite elem_of_list_to_set, elem_of_serviceSnapshot.
      * apply Hs. rewrite Es in Hk. apply subscribed_subscribe in Hk as [[= -> ->]|]; [|done]. by destruct Hb.
    + rewrite Er, Forall_forall. intros y [Hn Hy]%elem_of_serviceSnapshot; [|done]. split; [|done]. apply Hc. by left.
Qed.

End Feed.

(** ** Subscribers on the main node *)

(** The events posted to the loop of a local service. *)
Definition receive_local (k : ServiceKey) (name : string) (o : output) : option (Z * list ServiceKey) :=
  match o with
  | OPost (JDiscovery k' name' ev ks) => if bool_decide (k' = k /\ name' = name) then Some (ev, ks) else None
  | _ => None
  end.

(** [k] is a local service that can take the events. *)
Definition listens (k : ServiceKey) s : Prop :=
  (exists l, Lookup k (registry s) = Some l /\ NodeID l = self n) /\
  exists rt, localServices n !! k = Some rt /\ rt_discovery rt = true.

(** Broadcasts only send. *)
Lemma broadcast_sends ks s o :
  o ∈ broadcastRouteInvalidation n ks s ->
  (exists e, o = OReport e) \/
  exists x session pkt, o = OSend session pkt /\ encodeEnvelope opRouteInvalidate
    (Message TRouteInvalidate (mkRouteInvalidate (Some (serviceKeyToProto x)))) = Ok pkt.
Proof.
  unfold broadcastRouteInvalidation. destruct (_ || _); [by intros ?%elem_of_nil|].
  assert (forall x se, o ∈ (invalidate_sessions x se).1 ->
    (exists e, o = OReport e) \/ exists x session pkt, o = OSend session pkt /\ encodeEnvelope opRouteInvalidate
      (Message TRouteInvalidate (mkRouteInvalidate (Some (serviceKeyToProto x)))) = Ok pkt) as Hx.
  { intros x se. induction se as [|y se IH]; cbn [invalidate_sessions]; [by intros ?%elem_of_nil|].
    set (m := Message TRouteInvalidate (mkRouteInvalidate (Some (serviceKeyToProto x)))). destruct (encodeEnvelope opRouteInvalidate m) as [pkt|e] eqn:E; [|intros ->%list_elem_of_singleton; eauto].
    destruct (invalidate_sessions x se). simpl in *. intros [->|Ho]%elem_of_cons; [right; eauto 6|by apply IH]. }
  induction ks as [|x ks IH]; simpl; [by intros ?%elem_of_nil|].
  specialize (Hx x (sessions_of s)). destruct (invalidate_sessions x (sessions_of s)) as [o' []]; [|done].
  intros [Ho|Ho]%elem_of_app; auto.
Qed.

Lemma local_feed k name : feed_laws k name (receive_local k name) (listens k) (fun _ => True).
Proof.
  split.
  - intros []; try done. by destruct j.
  - intros ks s. apply Forall_forall. by intros o [[e ->]|(x & se & pkt & -> & _)]%broadcast_sends.
  - intros v k' name' ev ks s ((l & Hl & Hself) & rt & Hrt & Hd) Hev _. unfold sendServiceDiscovery.
    case_bool_decide as Hk.
    + destruct Hk as [-> ->]. rewrite Hl, (proj2 (Z.eqb_eq _ _) Hself).
      rewrite (dispatchLocalServiceDiscovery_total _ _ _ _ _ rt) by done.
      cbn [foldl]. unfold view_step, receive_local. by rewrite bool_decide_eq_true_2.
    + apply view_silent. destruct (Lookup k' (registry s)) as [l'|]; [|done]. destruct (NodeID l' =? self n)%Z.
      * destruct (dispatchLocalServiceDiscovery _ _ _ _ _) as [j|] eqn:E; [|by repeat constructor].
        apply dispatchLocalServiceDiscovery_Ok in E as ->. repeat constructor. simpl. by rewrite bool_decide_eq_false_2.
      * destruct (remoteNodes s !! NodeID l'); [|done]. case_match; by repeat constructor.
Qed.

Definition view_inv s : Prop :=
  forall k name, subscribed (subscriptions s) k name -> listens k s -> exact name (receive_local k name) s.

Lemma node_step_view e s s' :
  node_step n e s = Some s' -> inv n s -> view_inv s -> view_inv s'.
Proof.
  intros He Hi Hs k name Hk Hl. pose proof (node_step_effect n e s s' He Hi) as Hef. apply inv_indexed in Hi.
  apply (view_effect k name _ _ _ (local_feed k name) s); try done. intros Hk0. apply Hs; [done|].
  destruct Hl as [(l & Hl & Hn) Hrt]. split; [|done]. destruct Hi as (Hok & _ & Hreg).
  destruct (Hreg _ _ Hk0) as [l0 Hl0]. exists l0. split; [done|].
  by rewrite <- (effect_location n s s' k l0 l Hef Hok Hl0 Hl).
Qed.

Lemma reachable_view s : reachable n s -> view_inv s.
Proof.
  intros (r0 & Hr & Hs).
  assert (inv n s /\ view_inv s) as [_ ?]; [|done].
  apply (steps_invariant (step_rel n) (fun s => inv n s /\ view_inv s)) with (s := node_init r0);
    [|done|split; [by apply inv_node_init|]].
  - intros s1 s2 [e He] [Hi Hv]. split; [by apply (node_step_inv n e s1)|by apply (node_step_view e s1)].
  - intros k name Hk. unfold subscribed, named in Hk. simpl in Hk. by rewrite lookup_empty in Hk.
Qed.

(** C7 (functional). A subscriber's picture is always right: in every
    reachable state, a service of the main node that implements the discovery
    handler and is subscribed to a name has been sent, in this order, events
    that fold to exactly the services of that name in the registry, through
    all registrations, removals and lost nodes, and also if it was itself
    removed and registered again. *)
Theorem discovery_view_is_exact s k name :
  reachable n s -> k ∈ subscribers name (subscriptions s) -> listens k s ->
  forall x, x ∈ view (receive_local k name) (outputs s) <-> Name x = name /\ is_Some (Lookup x (registry s)).
Proof.
  intros Hs%reachable_view Hk Hl. rewrite elem_of_subscribers in Hk. by apply Hs.
Qed.

(** ** Route invalidations *)

Section Routes.
Context `{!ProtoLaws} `{!PacketLaws}.
Hypothesis main : IsMainNode n = true.

(** What the receiver of the packet decodes. *)
Definition invalidates (k : ServiceKey) (pkt : list byte) : Prop :=
  exists body, decodeEnvelope pkt = Ok (opRouteInvalidate, body) /\
    decodeOperationPayload TRouteInvalidate body =
      Ok (mkRouteInvalidate (Some (serviceKeyToProto k))).

Definition told s (o : list output) (k : ServiceKey) : Prop :=
  forall m session, remoteNodes s !! m = Some session ->
    exists pkt, OSend session pkt ∈ o /\ invalidates k pkt.

Lemma told_more s o o1 o2 k : told s o k -> told s (o1 ++ o ++ o2) k.
Proof.
  intros Ht m se Hm. destruct (Ht m se Hm) as (pkt & ? & ?). exists pkt. split; [|done].
  rewrite !elem_of_app. auto.
Qed.

Lemma invalidate_sessions_complete k sessions :
  ValidString (Name k) = true ->
  (invalidate_sessions k sessions).2 = true /\
  forall session, session ∈ sessions ->
    exists pkt, OSend session pkt ∈ (invalidate_sessions k sessions).1 /\ invalidates k pkt.
Proof.
  intros Hv. set (m := mkRouteInvalidate (Some (serviceKeyToProto k))).
  destruct (encodeEnvelope_total opRouteInvalidate TRouteInvalidate m) as [pkt Hp];
    [simpl; by rewrite Hv|].
  assert (invalidates k pkt) as Hi.
  { destruct (decode_encodeEnvelope opRouteInvalidate TRouteInvalidate m pkt) as (body & ? & ?);
      [split; vm_compute; congruence|done|]. by exists body. }
  induction sessions as [|x sessions [IHb IHs]].
  - split; [done|]. by intros ? ?%elem_of_nil.
  - cbn [invalidate_sessions]. fold m. rewrite Hp. destruct (invalidate_sessions k sessions) as [o b]. simpl in *.
    split; [done|]. intros se [->|Hse]%elem_of_cons; [exists pkt; split; [by left|done]|].
    destruct (IHs se Hse) as (p & ? & ?). exists p. split; [by right|done].
Qed.

Lemma broadcast_complete ks s k :
  k ∈ ks -> (forall x, x ∈ ks -> ValidString (Name x) = true) ->
  told s (broadcastRouteInvalidation n ks s) k.
Proof.
  intros Hk Hv m se Hm. unfold broadcastRouteInvalidation. rewrite main. simpl negb.
  rewrite bool_decide_eq_false_2 by (intros ->; by apply elem_of_nil in Hk). simpl orb. cbv iota.
  assert (se ∈ sessions_of s) as Hse.
  { unfold sessions_of. apply list_elem_of_fmap. exists (m, se). split; [done|]. by apply elem_of_map_to_list. }
  induction ks as [|x ks IH]; [by apply elem_of_nil in Hk|]. simpl.
  destruct (invalidate_sessions_complete x (sessions_of s)) as [Hb Hs]; [apply Hv; by left|].
  destruct (invalidate_sessions x (sessions_of s)) as [o b]. simpl in Hb, Hs. subst b.
  apply elem_of_cons in Hk as [->|Hk].
  - destruct (Hs se Hse) as (p & ? & ?). exists p. split; [apply elem_of_app; by left|done].
  - destruct IH as (p & ? & ?); [done|intros; apply Hv; by right|].
    exists p. split; [apply elem_of_app; by right|done].
Qed.

(** [s'] is [s] after outputs that tell every connected node of each changed
    route, if the names involved are UTF-8. *)
Definition announces s s' : Prop :=
  exists o, outputs s' = outputs s ++ o /\
  forall k, Lookup k (registry s') <> Lookup k (registry s) ->
    (forall x, is_Some (Lookup x (registry s)) \/ is_Some (Lookup x (registry s')) ->
       ValidString (Name x) = true) ->
    told s' o k.

(** Every step announces the routes it changes. *)
Lemma node_step_announces e s s' :
  node_step n e s = Some s' -> inv n s -> announces s s'.
Proof.
  intros He [Hi Hnb]. pose proof (i_reg _ _ _ Hi) as Hok.
  destruct (node_step_effect n e s s' He (conj Hi Hnb)) as
    [o Er _ Eo _|l o _ Hr _ Eo _|m ks o Hks _ Hlk _ Eo _|k0 name0 l o _ Er _ Eo _];
    (eexists; split; [exact Eo|]); intros k Hk Hv; try congruence.
  - destruct (Register_Ok _ _ _ Hok Hr) as (_ & _ & Hfree & Hlk). rewrite Hlk in Hk. case_decide; [subst|done].
    rewrite <- app_assoc. apply (told_more s' _ []), broadcast_complete; [by left|].
    intros x ->%list_elem_of_singleton. apply Hv. right. rewrite Hlk, decide_True by done. by eexists.
  - rewrite Hlk in Hk. case_decide as Hin; [|done].
    rewrite <- app_assoc. apply (told_more s' _ []), broadcast_complete; [done|].
    intros x Hx. destruct (Hks x Hx) as (lx & Hlx & _). apply Hv. left. by eexists.
Qed.

(** C9 (functional). The main node never changes a route silently: whatever
    step changes what the registry says about a key, be it a registration, an
    unregistration or the cleanup of a lost node, the same step sends every
    node connected at that moment a RouteInvalidate packet that decodes to
    exactly that key, provided the service names are UTF-8. *)
Theorem route_changes_are_broadcast e s s' k :
  reachable n s -> node_step n e s = Some s' ->
  Lookup k (registry s') <> Lookup k (registry s) ->
  (forall x, is_Some (Lookup x (registry s)) \/ is_Some (Lookup x (registry s')) ->
     ValidString (Name x) = true) ->
  exists o, outputs s' = outputs s ++ o /\ told s' o k.
Proof.
  intros Hi%reachable_inv He Hk Hv.
  destruct (node_step_announces e s s' He Hi) as (o & Ho & Ht). exists o. auto.
Qed.

End Routes.
End Discovery.

(** ** Witnesses *)

Section Witnesses.
#[local] Existing Instance ascii_tables.
Import Demo.

(** The gate knows room 1. *)
Lemma discovery_view_is_exact_witness :
  room 1 ∈ view (receive_local gate "room") (outputs opened) <->
  Name (room 1) = "room" /\ is_Some (Lookup (room 1) (registry opened)).
Proof.
  refine (discovery_view_is_exact env opened gate "room" opened_reachable _ _ (room 1)).
  - apply elem_of_subscribers. vm_compute. reflexivity.
  - split; [exists (mkServiceLocation "gate" 1 1 "10.0.0.1:9000")|exists (mkRuntime true true true ∅)];
      split; vm_compute; reflexivity.
Defined.

(** Node 2 announces a second room: the loop is about to register it. *)
Definition announcing : list event := [announce 7 3 (room 2); EGoroutine 0; EControl].
Definition before : node MemoryRegistry := Eval vm_compute in run announcing opened.
Definition after : node MemoryRegistry := Eval vm_compute in run [EControl] before.

Lemma names_valid (r : MemoryRegistry) :
  forallb (fun kl => ValidString (Name kl.1)) (map_to_list (services r)) = true ->
  forall x, is_Some (Lookup x r) -> ValidString (Name x) = true.
Proof.
  intros Hall x [l Hl]. apply Is_true_true, forallb_True in Hall. rewrite Forall_forall in Hall.
  specialize (Hall (x, l)). apply Is_true_true, Hall. by apply elem_of_map_to_list.
Qed.

Lemma route_changes_are_broadcast_witness :
  exists o, outputs after = outputs before ++ o /\ told after o (room 2).
Proof.
  refine (route_changes_are_broadcast env eq_refl EControl before after (room 2) _ _ _ _).
  - eapply (reachable_run env announcing); [apply opened_reachable|vm_compute; reflexivity].
  - vm_compute. reflexivity.
  - vm_compute. congruence.
  - intros x [Hx|Hx]; revert x Hx; apply names_valid; vm_compute; reflexivity.
Defined.

End Witnesses.
