(* ===== verification/Directory.v ===== *)
(** * The directory the main node promises

    An abstract specification of the main node: a set of services, a set of
    subscriptions, and three atomic events that change them and say whom to
    notify of what.  [directory_refinement] shows that the control plane, with
    its queue, sessions and goroutines, implements it: whatever happens, its
    registry and index, and the whole sequence of discovery events its own
    services are handed, are those of a history of atomic events. *)

From stdpp Require Import base tactics list gmap sets strings.
From Stdlib Require Import ZArith Lia Strings.Byte.
From S2P Require Import Prelude GoString Errors Registry Subscription Config Service Wire Dispatch.
From S2P Require Import ControlPlane ControlInvariant WireInstances ControlDemo ControlTheorems.
From S2P Require Import Effects Discovery.
Local Open Scope string_scope.
Local Open Scope list_scope.

(** ** The specification *)

Record directory := mkDirectory {
  d_services : gmap ServiceKey ServiceLocation;
  d_watchers : gset (ServiceKey * string)
}.

Definition no_directory : directory := mkDirectory ∅ ∅.

(** Subscriber, subscribed name, event type and services. *)
Definition note : Type := ServiceKey * string * Z * list ServiceKey.

Inductive dir_event :=
| Publish (l : ServiceLocation)
| Withdraw (owner : Z) (ks : list ServiceKey)
| Watch (k : ServiceKey) (name : string).

Section Spec.
Context (n : node_env).
Implicit Types d : directory.

(** Who may publish: the main node itself and configured nodes, under their
    configured address. *)
Definition permitted (l : ServiceLocation) : bool :=
  if (NodeID l =? self n)%Z then bool_decide (NodeAddr l = listenAddr n)
  else match Config.Node (Some (config n)) (NodeID l) with
       | Some c => bool_decide (NodeAddr l = ListenAddr c)
       | None => false
       end.

Definition owned (owner : Z) d (k : ServiceKey) : bool :=
  match d_services d !! k with Some l => (NodeID l =? owner)%Z | None => false end.

Definition snapshot (name : string) d : list ServiceKey :=
  sortServiceKeys (filter (fun k => Name k = name) (elements (dom (d_services d)))).

Definition announce (ev : Z) (x : ServiceKey) d : list note :=
  map (fun w => (w, Name x, ev, [x])) (spec_subscribers (Name x) (d_watchers d)).

Definition dir_step (ev : dir_event) d : option (directory * list note) :=
  match ev with
  | Publish l =>
      if valid_location l && permitted l && negb (bool_decide (is_Some (d_services d !! Key l))) then
        let d' := mkDirectory (<[Key l := l]> (d_services d)) (d_watchers d) in
        Some (d', announce eventOnline (Key l) d')
      else None
  | Withdraw owner ks =>
      if forallb (owned owner d) ks then
        let d' := mkDirectory (filter (fun p => p.1 ∉ ks) (d_services d))
                    (filter (fun p => p.1 ∉ ks) (d_watchers d)) in
        Some (d', concat (map (fun k => announce eventOffline k d') ks))
      else None
  | Watch k name =>
      if bool_decide (is_Some (d_services d !! k)) then
        let d' := mkDirectory (d_services d) ({[(k, name)]} ∪ d_watchers d) in
        Some (d', [(k, name, eventSnapshot, snapshot name d)])
      else None
  end.

(** Notes for services of the main node that implement the handler. *)
Definition reaches d (x : note) : bool :=
  let '(k, _, _, _) := x in
  owned (self n) d k &&
  match localServices n !! k with Some rt => rt_discovery rt | None => false end.

Definition handed d (l : list note) : list note := filter (fun x => reaches d x = true) l.

(** A history and the notes it hands to the main node's services. *)
Fixpoint dir_run (evs : list dir_event) d : option (directory * list note) :=
  match evs with
  | [] => Some (d, [])
  | ev :: evs =>
      match dir_step ev d with
      | Some (d1, l1) =>
          match dir_run evs d1 with Some (d2, l2) => Some (d2, handed d1 l1 ++ l2) | None => None end
      | None => None
      end
  end.

Lemma dir_run_snoc evs ev d d1 d2 l1 l2 :
  dir_run evs d = Some (d1, l1) -> dir_step ev d1 = Some (d2, l2) ->
  dir_run (evs ++ [ev]) d = Some (d2, l1 ++ handed d2 l2).
Proof.
  revert d l1. induction evs as [|ev' evs IH]; intros d l1 Hr Hs; simpl in *.
  - simplify_eq. rewrite Hs. by rewrite app_nil_r.
  - destruct (dir_step ev' d) as [[da la]|]; [|done].
    destruct (dir_run evs da) as [[db lb]|] eqn:E; [|done]. simplify_eq.
    rewrite (IH da lb E Hs). by rewrite app_assoc.
Qed.

End Spec.

(** ** The refinement *)

Section Refinement.
Context `{UnicodeTables} `{Platform} `{ProtoLib} `{PacketLib}.
Context {R : Type} `{ServiceRegistry R} `{!ServiceRegistryLaws R}.
Context (n : node_env).
Implicit Types s : node R.
Implicit Types d : directory.

(** The jobs with discovery events, in order. *)
Definition posted (o : list output) : list note :=
  omap (fun x => match x with OPost (JDiscovery k name ev ks) => Some (k, name, ev, ks) | _ => None end) o.

Definition lists s d : Prop := forall k, d_services d !! k = Lookup k (registry s).

Definition represents s d : Prop := lists s d /\ simulates (subscriptions s) (d_watchers d).

Lemma posted_app a b : posted (a ++ b) = posted a ++ posted b.
Proof. apply omap_app. Qed.

Lemma posted_plain o : Forall (plain n) o -> posted o = [].
Proof. induction 1 as [|[| | | |[]| |] o Hx Ho IH]; simpl in *; try done. Qed.

Lemma posted_broadcast ks s : posted (broadcastRouteInvalidation n ks s) = [].
Proof.
  pose proof (broadcast_sends n ks s) as Hb. induction (broadcastRouteInvalidation n ks s) as [|x o IH]; [done|].
  simpl. destruct (Hb x) as [[e ->]|(? & ? & ? & -> & _)]; [by left|..]; apply IH; intros y Hy; apply Hb; by right.
Qed.

Lemma posted_send k name ev ks s d :
  lists s d -> sendable ev ks ->
  posted (sendServiceDiscovery n k name ev ks s) = handed n d [(k, name, ev, ks)].
Proof.
  intros Hd Hev. unfold handed, sendServiceDiscovery. rewrite filter_cons, filter_nil. unfold reaches, owned.
  rewrite Hd. destruct (Lookup k (registry s)) as [l|]; [|done]. destruct (NodeID l =? self n)%Z; simpl.
  - destruct (localServices n !! k) as [rt|] eqn:Ert; [destruct (rt_discovery rt) eqn:Ed|].
    + by rewrite (dispatchLocalServiceDiscovery_total _ _ _ _ _ rt).
    + unfold dispatchLocalServiceDiscovery. by rewrite Ert, Ed.
    + unfold dispatchLocalServiceDiscovery. by rewrite Ert.
  - destruct (remoteNodes s !! NodeID l); [|done]. by case_match.
Qed.

Lemma posted_notify ev x s d :
  represents s d -> sendable ev [x] -> posted (notify n ev x s) = handed n d (announce ev x d).
Proof.
  intros [Hd Hw] Hev. unfold notify, announce. rewrite (simulates_subscribers _ _ _ Hw).
  induction (spec_subscribers (Name x) (d_watchers d)) as [|w l IH]; [done|]. cbn [map concat].
  rewrite posted_app, IH, (posted_send _ _ _ _ _ d) by done. unfold handed. by rewrite <- filter_app.
Qed.

Lemma posted_notify_all ev ks s d :
  represents s d -> (forall x, sendable ev [x]) ->
  posted (concat (map (fun x => notify n ev x s) ks)) = handed n d (concat (map (fun x => announce ev x d) ks)).
Proof.
  intros Hd Hev. induction ks as [|x ks IH]; [done|]. cbn [map concat].
  rewrite posted_app, IH, (posted_notify _ _ _ d) by done. unfold handed. by rewrite filter_app.
Qed.

Lemma snapshot_serviceSnapshot name s d :
  reg_ok (registry s) -> lists s d -> serviceSnapshot name (registry s) = snapshot name d.
Proof.
  intros Hok Hd. unfold serviceSnapshot, snapshot. apply sortServiceKeys_unique, NoDup_Permutation.
  - apply NoDup_fmap_2_strong; [|apply NoDup_filter, List_NoDup, Hok].
    intros l1 l2 [_ Ha]%list_elem_of_filter [_ Hb]%list_elem_of_filter E.
    apply List_lookup in Ha, Hb; [|done..]. congruence.
  - apply NoDup_filter, NoDup_elements.
  - intros k. rewrite list_elem_of_filter, elem_of_elements, elem_of_dom, Hd, <- elem_of_sortServiceKeys.
    by apply (elem_of_serviceSnapshot name (registry s) k).
Qed.

(** A location [inv] allows is a permitted one. *)
Lemma inv_permitted s k l : inv n s -> Lookup k (registry s) = Some l -> permitted n l = true.
Proof.
  intros [Hi _] Hl. unfold permitted.
  destruct (i_loc _ _ _ Hi k l Hl) as [[-> Ha]|(_ & Hne & (c & Hc & Ha) & _)].
  - rewrite Z.eqb_refl. by apply bool_decide_eq_true_2.
  - rewrite (proj2 (Z.eqb_neq _ _) Hne), Hc. by apply bool_decide_eq_true_2.
Qed.

(** Every step is one atomic event of the directory, or none. *)
Lemma represents_effect s s' d :
  effect n s s' -> inv n s -> inv n s' -> represents s d ->
  (represents s' d /\ posted (outputs s') = posted (outputs s)) \/
  exists ev d' l, dir_step n ev d = Some (d', l) /\ represents s' d' /\
    posted (outputs s') = posted (outputs s) ++ handed n d' l.
Proof.
  intros He [Hi _] Hi' [Hd Hw]. pose proof (i_reg _ _ _ Hi) as Hok.
  destruct He as [o Er Es Eo Ho|l o _ Hr Es Eo Ho|m ks o Hks _ Hlk Es Eo Ho|k name l o Hl Er Es Eo Ho];
    rewrite Eo, ?posted_app, (posted_plain o Ho), ?posted_broadcast, ?app_nil_r.
  - left. split; [|done]. split; [intros k; by rewrite Er|by rewrite Es].
  - right. destruct (Register_Ok _ _ _ Hok Hr) as (_ & Hv & Hfree & Hlk).
    set (d' := mkDirectory (<[Key l := l]> (d_services d)) (d_watchers d)).
    assert (represents s' d') as Hd'.
    { split; [|by rewrite Es]. intros k. simpl. rewrite Hlk, lookup_insert, Hd.
      repeat case_decide; congruence. }
    exists (Publish l), d', (announce eventOnline (Key l) d'). split_and!; [|done|].
    + simpl. rewrite Hv, (inv_permitted s' (Key l) l Hi'), Hd, Hfree; [done|]. by rewrite Hlk, decide_True.
    + simpl. f_equal. apply posted_notify; [done|]. right. auto.
  - right. set (d' := mkDirectory (filter (fun p => p.1 ∉ ks) (d_services d)) (filter (fun p => p.1 ∉ ks) (d_watchers d))).
    assert (represents s' d') as Hd'.
    { split; [|split; [rewrite Es; apply index_wf_remove_all, Hw|]].
      - intros k. simpl. rewrite Hlk, map_lookup_filter, Hd. destruct (Lookup k (registry s)); simpl;
          [|by case_decide]. repeat case_decide; repeat case_guard; naive_solver.
      - intros k name. rewrite Es, subscribed_remove_all, (proj2 Hw) by apply Hw. simpl. rewrite elem_of_filter. done. }
    exists (Withdraw m ks), d', (concat (map (fun k => announce eventOffline k d') ks)). split_and!; [|done|].
    + simpl. assert (forallb (owned m d) ks = true) as ->; [|done]. apply forallb_forall. intros x Hx.
      destruct (Hks x) as (l & Hl & Hm); [by apply list_elem_of_In|]. unfold owned. rewrite Hd, Hl. by apply Z.eqb_eq.
    + simpl. f_equal. apply posted_notify_all; [done|]. right. auto.
  - right. set (d' := mkDirectory (d_services d) ({[(k, name)]} ∪ d_watchers d)).
    assert (represents s' d') as Hd'.
    { split; [intros x; simpl; by rewrite Er|]. rewrite Es. apply (simulates_op _ _ (OpSubscribe k name) Hw). }
    exists (Watch k name), d', [(k, name, eventSnapshot, snapshot name d)]. split_and!; [|done|].
    + simpl. rewrite bool_decide_eq_true_2; [done|]. rewrite Hd. by eexists.
    + f_equal. rewrite (posted_send _ _ _ _ _ d'); [|apply Hd'|by left].
      by rewrite Er, (snapshot_serviceSnapshot name s d).
Qed.

(** C2 (refinement). The main node implements the directory: in every
    reachable state its registry and its index are those after some history of
    atomic publications by permitted nodes, withdrawals of services by their
    owner and subscriptions of registered services; and the discovery events
    handed to its own services so far are, one by one and in order, those the
    directory prescribes for that history. *)
Theorem directory_refinement s :
  reachable n s ->
  exists evs d, dir_run n evs no_directory = Some (d, posted (outputs s)) /\ represents s d.
Proof.
  intros (r0 & Hr & Hs).
  apply (steps_invariant (step_rel n) (fun s => inv n s /\ exists evs d,
    dir_run n evs no_directory = Some (d, posted (outputs s)) /\ represents s d)) in Hs; [by apply Hs| |]; clear Hs.
  - intros s1 s2 [e He] (Hi & evs & d & Hrun & Hd). pose proof (node_step_inv n e s1 s2 He Hi) as Hi2.
    split; [done|]. pose proof (node_step_effect n e s1 s2 He Hi) as Hef.
    destruct (represents_effect s1 s2 d Hef Hi Hi2 Hd) as [[Hd2 ->]|(ev & d2 & l & Hst & Hd2 & ->)].
    + by exists evs, d.
    + exists (evs ++ [ev]), d2. split; [|done]. by eapply dir_run_snoc.
  - split; [by apply inv_node_init|]. exists [], no_directory. split; [done|]. destruct Hr as [_ Hr].
    split; [intros k; simpl; by rewrite Hr|]. split; [apply index_wf_new|].
    intros k name. unfold subscribed, named. simpl. rewrite lookup_empty. split; [by intros ?%elem_of_empty|set_solver].
Qed.

End Refinement.

(** ** Witness *)

Section Witness.
#[local] Existing Instance ascii_tables.
Import Demo.

Lemma directory_refinement_witness :
  exists evs d, dir_run env evs no_directory = Some (d, posted (outputs opened)) /\ represents opened d.
Proof. exact (directory_refinement env opened opened_reachable). Defined.

End Witness.
