(* ===== verification/Typing.v ===== *)
(** * Types of what the main node lets out

    Go's types say little about a packet or a posted closure; the decoders and
    checks on the way do.  [output_ok] is the type of an output of
    [ControlPlane]: packets that their receiver decodes, and jobs for services
    that exist, about messages that passed [validate]. *)

From stdpp Require Import base tactics list gmap sets strings.
From Stdlib Require Import ZArith Lia Strings.Byte.
From S2P Require Import Prelude GoString Errors Registry Subscription Config Service Wire.
From S2P Require Import WireInstances WireTheorems Dispatch ControlPlane ControlInvariant.
From S2P Require Import ControlDemo ControlTheorems Effects Discovery.
Local Open Scope string_scope.
Local Open Scope list_scope.

Section Typing.
Context `{UnicodeTables} `{Platform} `{ProtoLib} `{!ProtoLaws} `{PacketLib} `{!PacketLaws}.
Context {R : Type} `{ServiceRegistry R} `{!ServiceRegistryLaws R}.
Context (n : node_env).
Implicit Types s : node R.












End Typing.

(** ** Witness *)

Section Witness.
#[local] Existing Instance ascii_tables.
Import Demo.


End Witness.
