(* ===== verification/EndToEnd.v ===== *)
(** * Two Nodes talking

    The client of one Node composed with the server of another: lookups and
    calls as the caller sees them, and pushes as the receiver handles them. *)

From stdpp Require Import base tactics list gmap sets strings.
From Stdlib Require Import ZArith Lia Strings.Byte.
From S2P Require Import Prelude GoString Errors Registry Subscription Config Service Wire.
From S2P Require Import WireInstances WireTheorems Dispatch ControlPlane ControlInvariant Client.
From S2P Require Import ControlDemo ControlTheorems ControlRequests Discovery.
Local Open Scope string_scope.
Local Open Scope list_scope.

Section EndToEnd.
Context `{UnicodeTables} `{Platform} `{ProtoLib} `{!ProtoLaws} `{PacketLib} `{!PacketLaws}.
Context {R : Type} `{ServiceRegistry R} `{!ServiceRegistryLaws R}.
(** The server and the receiver of its pushes. *)
Context (n peer : node_env).
Implicit Types s : node R.

(** The server's answer to a packet it handles in state [s].  Whether the
    packet and the answer arrive, and in time, is up to the network
    ([over_network], and the failing events of the transition systems). *)
Definition served_at (session : nat) (c : Z) s (pkt : list byte) : res (list byte) :=
  match drop (length (outputs s)) (outputs (handleRPCRequest n session c pkt s)) with
  | [ORespond _ _ p] => Ok p
  | _ => Err (EText "timeout")
  end.

(** What the caller of [RequestSync] gets: the answer, or the error xtnet
    reports for an exchange that does not complete, because the packet or the
    answer is too long for it, the connection breaks, or the deadline passes
    before the answer is there. *)
Definition over_network (failure : list byte -> option error) (answer : list byte -> res (list byte))
    (pkt : list byte) : res (list byte) :=
  match failure pkt with Some e => Err e | None => answer pkt end.

Lemma served_answer session c s pkt p :
  handleRPCRequest n session c pkt s = emit [ORespond session c p] s ->
  served_at session c s pkt = Ok p.
Proof. intros Hh. unfold served_at. rewrite Hh. simpl. by rewrite drop_app_length. Qed.

Lemma handle_registered session c s r pkt op payload :
  registeredRemoteNode session s = Ok r -> decodeEnvelope pkt = Ok (op, payload) ->
  op <> opRegisterNode ->
  handleRPCRequest n session c pkt s = handle_op n session c r op payload s.
Proof.
  intros Hr Hd Hop. unfold handleRPCRequest. by rewrite Hd, (proj2 (Z.eqb_neq _ _) Hop), Hr.
Qed.

(** A key that can cross the wire. *)
Definition sendable_key (k : ServiceKey) : Prop :=
  valid_key k = true /\ in_signed int_bits (ID k) /\ ValidString (Name k) = true.

Definition sendable_location (l : ServiceLocation) : Prop :=
  valid_location l = true /\ in_signed int_bits (ServiceID l) /\ in_signed int_bits (NodeID l) /\
  ValidString (ServiceName l) = true /\ ValidString (NodeAddr l) = true.

(** What the types and decoders of Go guarantee of the registered services:
    ids are ints and names are UTF-8. *)
Definition well_typed s : Prop :=
  forall k, is_Some (Lookup k (registry s)) -> in_signed int_bits (ID k) /\ ValidString (Name k) = true.

Lemma well_typed_sendable s k :
  reg_ok (registry s) -> well_typed s -> is_Some (Lookup k (registry s)) -> sendable_key k.
Proof.
  intros Hok Ht [l Hl]. destruct (Ht k) as [Hi Hu]; [by eexists|]. split_and!; [|done|done].
  destruct (Lookup_Key k _ l Hok Hl) as [<- Hv].
  unfold valid_location in Hv. apply valid_key_spec. bool_prop. simpl. lia || auto.
Qed.

Lemma lookup_request_packet key :
  sendable_key key -> exists pkt body,
  encodeEnvelope opLookup (Message TLookupRequest (mkLookup (Some (serviceKeyToProto key)))) = Ok pkt /\
  decodeEnvelope pkt = Ok (opLookup, body) /\
  decodeOperationPayload TLookupRequest body = Ok (mkLookup (Some (serviceKeyToProto key))).
Proof.
  intros (_ & _ & Hu). set (m := mkLookup (Some (serviceKeyToProto key))).
  destruct (encodeEnvelope_total opLookup TLookupRequest m) as [pkt Hp]; [simpl; by rewrite Hu|].
  destruct (decode_encodeEnvelope opLookup TLookupRequest m pkt) as (body & ? & ?);
    [split; vm_compute; congruence|done|]. by exists pkt, body.
Qed.

(** The server's side of a lookup. *)
Lemma handle_lookup session c s r body key :
  IsMainNode n = true -> valid_key key = true -> in_signed int_bits (ID key) ->
  decodeOperationPayload TLookupRequest body = Ok (mkLookup (Some (serviceKeyToProto key))) ->
  handle_op n session c r opLookup body s =
  match Lookup key (registry s) with
  | None => emit (respondRPCError session c (service_not_found (ServiceKey_String key))) s
  | Some location =>
      emit (respondRPC session c
              (Message TLookupResponse (mkLookupResponse (Some (serviceLocationToProto location))))).1 s
  end.
Proof.
  intros Hm Hv Hi Hd. unfold handle_op.
  change (opLookup =? opHeartbeat)%Z with false. change (opLookup =? opRegister)%Z with false.
  change (opLookup =? opUnregister)%Z with false. change (opLookup =? opSubscribe)%Z with false.
  change (opLookup =? opLookup)%Z with true. cbv iota. rewrite Hd.
  change (lk_target (mkLookup (Some (serviceKeyToProto key)))) with (Some (serviceKeyToProto key)).
  rewrite (proj2 (requiredRPCServiceKey_Ok _ _ key)) by done. rewrite Hm. done.
Qed.

(** What a caller makes of an error answer is an error. *)
Lemma served_error t session c s pkt e :
  handleRPCRequest n session c pkt s = emit (respondRPCError session c e) s ->
  exists e', decode_response t (served_at session c s pkt) = Err e'.
Proof.
  intros Hh. destruct (decide (len (Error e) <= maxRPCStringSize)%Z) as [Hl|Hl].
  - destruct (encodeError_roundtrip e Hl) as (p & e' & hd & Hp & Hd & _).
    rewrite (served_answer session c s pkt p) by (rewrite Hh; unfold respondRPCError; by rewrite Hp).
    exists e'. unfold decode_response. simpl. by rewrite Hd.
  - assert (exists e', encodeError (Some e) = Err e') as [e' He].
    { destruct (error_code_cause e) as (_ & Hc & _). unfold encodeError, encodeResult.
      rewrite (proj2 (Z.ltb_ge _ _) Hc), (proj2 (Z.ltb_lt _ _)); [eauto|lia]. }
    unfold served_at. rewrite Hh. unfold respondRPCError. rewrite He. simpl.
    rewrite drop_app_length. unfold decode_response. simpl. eauto.
Qed.

(** Whatever comes back from a main node as a route is the registered one. *)
Lemma lookup_answer_registered session c s key l :
  IsMainNode n = true ->
  lookupServiceFromMain (Ok (true, served_at session c s)) key = Ok l ->
  Lookup key (registry s) = Some l.
Proof.
  intros Hm. unfold lookupServiceFromMain, requestSync, client_send. cbn [res_bind fst snd negb].
  set (req := mkLookup (Some (serviceKeyToProto key))).
  destruct (encodeEnvelope opLookup (Message TLookupRequest req)) as [pkt|] eqn:Hp; [|done].
  cbn [res_bind].
  assert (forall e, handleRPCRequest n session c pkt s = emit (respondRPCError session c e) s ->
    (try response <- decode_response TLookupResponse (served_at session c s pkt) in
     match lr_location response with
     | None => Err (service_not_found (ServiceKey_String key))
     | Some location => res_map_err rpcInvalidMessage
         (requiredRPCServiceLocation (Some location) "lookup response location")
     end) = Ok l -> Lookup key (registry s) = Some l) as Hfail.
  { intros e He Hl. destruct (served_error TLookupResponse session c s pkt e He) as [e' Hd]. by rewrite Hd in Hl. }
  destruct (decode_encodeEnvelope opLookup TLookupRequest req pkt) as (body & Hd & Hb);
    [split; vm_compute; congruence|done|].
  destruct (registeredRemoteNode session s) as [r|e] eqn:Hr;
    [|apply (Hfail e); unfold handleRPCRequest; by rewrite Hd, Hr].
  assert (handleRPCRequest n session c pkt s = handle_op n session c r opLookup body s) as Hh
    by (by apply handle_registered).
  destruct (decide (valid_key key = true /\ in_signed int_bits (ID key))) as [[Hv Hi]|Hno].
  - rewrite (handle_lookup session c s r body key) in Hh by done.
    destruct (Lookup key (registry s)) as [l'|]; [|by apply (Hfail _ Hh)].
    intros Ha. f_equal. revert Ha. unfold respondRPC in Hh.
    destruct (encodeResult "" "" _) as [p|] eqn:He in Hh.
    + rewrite (served_answer session c s pkt p Hh).
      destruct (encodeResult_message _ _ _ He) as (b & Hb1 & Hb2).
      unfold decode_response. cbn [res_bind]. rewrite Hb1. cbn [res_bind]. rewrite Hb2.
      cbn [res_bind lr_location]. intros (Heq & _)%res_map_err_Ok%requiredRPCServiceLocation_Ok.
      destruct l, l'. by injection Heq as -> -> -> ->.
    + unfold served_at. rewrite Hh. simpl. by rewrite drop_app_length.
  - destruct (requiredRPCServiceKey (lk_target req) "lookup target") as [k|e] eqn:Hk.
    + destruct Hno. apply requiredRPCServiceKey_Ok in Hk as (Heq & ? & ?).
      destruct k, key. by injection Heq as -> ->.
    + apply (Hfail (rpcInvalidMessage e)). rewrite Hh. unfold handle_op.
      change (opLookup =? opHeartbeat)%Z with false. change (opLookup =? opRegister)%Z with false.
      change (opLookup =? opUnregister)%Z with false. change (opLookup =? opSubscribe)%Z with false.
      change (opLookup =? opLookup)%Z with true. cbv iota. rewrite Hb. by rewrite Hk.
Qed.

(** A lookup over the wire is a lookup in the registry: a
    client whose session is registered at the main node gets exactly the
    registered location of the key, and [ErrServiceNotFound] if there is none. *)
Theorem remote_lookup_is_registry_lookup session c s r key :
  IsMainNode n = true -> registeredRemoteNode session s = Ok r -> sendable_key key ->
  (len (Error (service_not_found (ServiceKey_String key))) <= maxRPCStringSize)%Z ->
  (forall l, Lookup key (registry s) = Some l -> sendable_location l) ->
  match Lookup key (registry s) with
  | Some l => lookupServiceFromMain (Ok (true, served_at session c s)) key = Ok l
  | None => exists e, lookupServiceFromMain (Ok (true, served_at session c s)) key = Err e /\
      Is e ErrServiceNotFound = true
  end.
Proof.
  intros Hm Hr Hk Hlen Hl. pose proof Hk as (Hv & Hi & _).
  destruct (lookup_request_packet key Hk) as (pkt & body & Hp & Hd & Hb).
  assert (handleRPCRequest n session c pkt s = handle_op n session c r opLookup body s) as Hh
    by (by apply handle_registered).
  rewrite (handle_lookup session c s r body key) in Hh by done.
  unfold lookupServiceFromMain, requestSync, client_send.
  cbn [res_bind fst snd negb]. rewrite Hp. cbn [res_bind].
  destruct (Lookup key (registry s)) as [l|].
  - destruct (Hl l eq_refl) as (Hvl & Hs & Hn & Hu1 & Hu2).
    set (m := mkLookupResponse (Some (serviceLocationToProto l))) in *.
    destruct (encodeResult_total TLookupResponse m) as [p He]; [simpl; by rewrite Hu1, Hu2|].
    destruct (encodeResult_message TLookupResponse m p He) as (b & Hb1 & Hb2).
    rewrite (served_answer session c s pkt p) by (rewrite Hh; unfold respondRPC; by rewrite He).
    unfold decode_response. cbn [res_bind]. rewrite Hb1. cbn [res_bind]. rewrite Hb2.
    cbn [res_bind]. change (lr_location m) with (Some (serviceLocationToProto l)). cbv iota.
    by rewrite (proj2 (requiredRPCServiceLocation_Ok _ _ l)).
  - destruct (encodeError_roundtrip _ Hlen) as (p & e' & head & Hp' & Hd' & His & _).
    rewrite (served_answer session c s pkt p) by (rewrite Hh; unfold respondRPCError; by rewrite Hp').
    unfold decode_response. cbn [res_bind]. rewrite Hd'. exists e'. split; [done|]. by rewrite His.
Qed.

(** ** Calls *)

(** The same for a packet whose job a service runs: [handler] is what the
    service's handler returns. *)
Definition called_at (session : nat) (c : Z)
    (handler : ServiceKey -> ServiceKey -> serviceMessageID -> list byte -> list byte * option error)
    s (pkt : list byte) : res (list byte) :=
  match drop (length (outputs s)) (outputs (handleRPCRequest n session c pkt s)) with
  | [ORespond _ _ p] => Ok p
  | [OPost (JSync source target id payload (RemoteResponder se c'))] =>
      let '(answer, err) := handler source target id payload in
      match (deliver_responder se c' answer err).1 with
      | [ORespond _ _ p] => Ok p
      | _ => Err (EText "timeout")
      end
  | _ => Err (EText "timeout")
  end.

(** A message the sender accepts. *)
Definition sendable_message (source target : ServiceKey) (id : serviceMessageID) : Prop :=
  source_ok source /\ sendable_key target /\ in_signed int_bits (ID source) /\
  ValidString (Name source) = true /\ built_id id /\ validate_id id = None.

Lemma deliver_packet source target id payload mode :
  sendable_message source target id ->
  mode ∈ [deliverRequestModeDirect; deliverRequestModeSync; deliverRequestModeAsync] ->
  exists pkt body req,
    encodeEnvelope opDeliver (deliver_message source target id payload mode) = Ok pkt /\
    decodeEnvelope pkt = Ok (opDeliver, body) /\
    decodeOperationPayload TDeliverRequest body = Ok req /\
    decodeDeliverRequest req = Ok (source, target, id, mode) /\ dl_payload req = payload.
Proof.
  intros (Hs & (Ht & It & Ut) & Is' & Us & Hid & Hv) Hm.
  destruct (decode_initialized id source target payload mode) as (req & Hreq & Hp & Hd); try done.
  pose proof (initialized_strings id source target payload mode req Hreq Us Ut Hid Hv) as Hu.
  destruct (encodeEnvelope_total opDeliver TDeliverRequest req Hu) as [pkt He].
  destruct (decode_encodeEnvelope opDeliver TDeliverRequest req pkt) as (body & Hde & Hdo); [done|done|].
  exists pkt, body, req. unfold deliver_message. rewrite Hreq. by split_and!.
Qed.

(** The server's side of a synchronous deliver request. *)
Lemma handle_deliver_sync session c s r body req source target id :
  decodeOperationPayload TDeliverRequest body = Ok req ->
  decodeDeliverRequest req = Ok (source, target, id, deliverRequestModeSync) ->
  handle_op n session c r opDeliver body s =
  match dispatchLocalRequestSync (localServices n) source target id (dl_payload req)
          (RemoteResponder session c) with
  | Ok j => emit [OPost j] s
  | Err e => emit (respondRPCError session c e) s
  end.
Proof.
  intros Hd Hq. unfold handle_op.
  change (opDeliver =? opHeartbeat)%Z with false. change (opDeliver =? opRegister)%Z with false.
  change (opDeliver =? opUnregister)%Z with false. change (opDeliver =? opSubscribe)%Z with false.
  change (opDeliver =? opLookup)%Z with false. change (opDeliver =? opDeliver)%Z with true.
  cbv iota. rewrite Hd, Hq. done.
Qed.

Lemma decode_error_answer p e' :
  decodeResult p = Err e' -> decode_response TDeliverResponse (Ok p) = Err e'.
Proof. intros Hd. unfold decode_response. cbn [res_bind]. by rewrite Hd. Qed.

(** The errors that cross the wire tell the caller to drop the route exactly
    if the service was not found. *)
Lemma route_error_remote e e' :
  (forall x, Is e' x = bool_decide (find (Is e) wire_sentinels = Some x)) ->
  route_error e' = bool_decide (find (Is e) wire_sentinels = Some ErrServiceNotFound).
Proof.
  intros He. unfold route_error. rewrite !He.
  rewrite (bool_decide_eq_false_2 (_ = Some ErrRPCDisconnected)), orb_false_r; [done|].
  intros (Hin & _)%find_some. by repeat (destruct Hin as [Hin|Hin]; [done|]).
Qed.

(** A synchronous call of a service on another Node behaves
    like a call of its handler.  The handler is run for exactly the message
    that was sent; what it returns is what the caller gets.  An error comes
    back with its identity, and the cached route is dropped exactly if it is
    [ErrServiceNotFound].  If the Node does not have the service, the caller
    gets [ErrServiceNotFound] and the route is dropped. *)
Theorem remote_call_returns_reply session c s r l handler source target id payload :
  registeredRemoteNode session s = Ok r -> sendable_message source target id ->
  let result := remote_call_sync (Ok l) (fun _ => Ok (true, called_at session c handler s))
                  source target id payload in
  (is_Some (localServices n !! target) -> forall answer,
     handler source target id payload = (answer, None) -> result = (Ok answer, false)) /\
  (is_Some (localServices n !! target) -> forall answer e,
     handler source target id payload = (answer, Some e) -> (len (Error e) <= maxRPCStringSize)%Z ->
     exists e', result = (Err e', bool_decide (find (Is e) wire_sentinels = Some ErrServiceNotFound)) /\
       forall x, Is e' x = bool_decide (find (Is e) wire_sentinels = Some x)) /\
  (localServices n !! target = None ->
     (len (Error (service_not_found (ServiceKey_String target))) <= maxRPCStringSize)%Z ->
     exists e', result = (Err e', true) /\ Is e' ErrServiceNotFound = true).
Proof.
  intros Hr Hm. cbv zeta.
  destruct (deliver_packet source target id payload deliverRequestModeSync Hm) as
    (pkt & body & req & Hp & Hd & Hb & Hq & Hpl); [rewrite !elem_of_cons; auto|].
  assert (handleRPCRequest n session c pkt s = handle_op n session c r opDeliver body s) as Hh
    by (by apply handle_registered).
  rewrite (handle_deliver_sync session c s r body req source target id) in Hh by done.
  assert (kind id = serviceMessageIDNumeric \/ kind id = serviceMessageIDString) as Hk.
  { destruct Hm as (_ & _ & _ & _ & [[v ->]|[v ->]] & _); auto. }
  unfold remote_call_sync, requestSync, client_send. cbn [negb]. rewrite Hp. cbn [res_bind].
  assert (is_Some (localServices n !! target) ->
    outputs (handleRPCRequest n session c pkt s) = outputs s ++
      [OPost (JSync source target id payload (RemoteResponder session c))]) as Hpost.
  { intros Hloc. rewrite Hh, Hpl.
    assert (dispatchLocalRequestSync (localServices n) source target id payload
      (RemoteResponder session c) = Ok (JSync source target id payload (RemoteResponder session c))) as ->
      by (by apply dispatchable_Ok). done. }
  split_and!.
  - intros Hloc answer Ha. unfold called_at. rewrite Hpost, drop_app_length, Ha by done. cbn [deliver_responder].
    set (m := mkDeliverResponse answer).
    destruct (encodeResult_total TDeliverResponse m eq_refl) as [p He].
    destruct (encodeResult_message TDeliverResponse m p He) as (b & Hb1 & Hb2).
    unfold respondRPC. rewrite He. cbn [fst]. unfold decode_response. cbn [res_bind]. rewrite Hb1.
    cbn [res_bind]. rewrite Hb2. done.
  - intros Hloc answer e Ha Hlen. unfold called_at. rewrite Hpost, drop_app_length, Ha by done.
    cbn [deliver_responder]. destruct (encodeError_roundtrip e Hlen) as (p & e' & hd & Hp' & Hd' & His & _).
    unfold respondRPCError. rewrite Hp'. cbn [fst]. rewrite (decode_error_answer p e') by done.
    exists e'. split; [|done]. by rewrite (route_error_remote e e').
  - intros Hno Hlen. unfold called_at.
    assert (dispatchLocalRequestSync (localServices n) source target id (dl_payload req)
      (RemoteResponder session c) = Err (service_not_found (ServiceKey_String target))) as Hdis
      by (unfold dispatchLocalRequestSync, dispatchable; by rewrite Hno).
    rewrite Hdis in Hh. destruct (encodeError_roundtrip _ Hlen) as (p & e' & hd & Hp' & Hd' & His & _).
    unfold respondRPCError in Hh. rewrite Hp' in Hh. rewrite Hh. simpl outputs.
    rewrite drop_app_length. cbv iota. rewrite (decode_error_answer p e') by done.
    exists e'. rewrite (route_error_remote _ e' His), His. done.
Qed.

(** ** Pushes *)

Section Pushes.
Hypothesis from_main : mainNodeID peer = self n.
Hypothesis not_main_itself : self peer <> mainNodeID peer.

Lemma accepts_main : not_from_main peer (self n) = false.
Proof.
  unfold not_from_main, IsMainNode. rewrite from_main, Z.eqb_refl, (proj2 (Z.eqb_neq _ _)); [done|].
  by rewrite <- from_main.
Qed.

Lemma invalidation_accepted k pkt :
  invalidates k pkt -> valid_key k = true -> in_signed int_bits (ID k) ->
  client_handleRPCDirect peer (self n) pkt = PInvalidate k.
Proof.
  intros (body & Hd & Hb) Hv Hi. unfold client_handleRPCDirect, push_route. rewrite Hd. cbv iota.
  change (opRouteInvalidate =? opRouteInvalidate)%Z with true. cbv iota.
  rewrite accepts_main, Hb. cbn [ri_target].
  by rewrite (proj2 (requiredRPCServiceKey_Ok _ _ k)).
Qed.

(** The invalidations the main node broadcasts do their work:
    a Node that receives such a packet over its connection to the main node
    invalidates exactly that key.  Pushes over any other connection, and
    pushes received by the main node itself, are reported and ignored,
    whatever they contain. *)
Theorem route_pushes_invalidate (k : ServiceKey) (pkt : list byte) (sender : Z) :
  (invalidates k pkt -> valid_key k = true -> in_signed int_bits (ID k) ->
   client_handleRPCDirect peer (self n) pkt = PInvalidate k) /\
  (not_from_main peer sender = true -> exists e, client_handleRPCDirect peer sender pkt = PReport e).
Proof.
  split.
  - apply invalidation_accepted.
  - intros Hno. unfold client_handleRPCDirect, push_route, push_discovery. rewrite Hno.
    destruct (decodeEnvelope pkt) as [[op body]|]; [|by eexists].
    destruct (op =? opRouteInvalidate)%Z; [by eexists|]. destruct (op =? opServiceDiscovery)%Z; by eexists.
Qed.

Lemma discovery_message_sendable k name ev ks :
  sendable_key k -> ValidString name = true -> Forall (fun x => sendable_key x /\ Name x = name) ks ->
  forallb ValidString (strings_of TServiceDiscovery
    (mkDiscovery (Some (serviceKeyToProto k)) name ev (map serviceKeyToProto ks))) = true.
Proof.
  intros (_ & _ & Hu) Hn Hks. simpl. rewrite Hu, Hn. simpl.
  induction Hks as [|x ks [(_ & _ & Hx) _] Hks IH]; simpl; [done|]. by rewrite Hx.
Qed.

Lemma same_name_none name ks :
  Forall (fun x => sendable_key x /\ Name x = name) ks ->
  find (fun k => negb (bool_decide (Name k = name))) ks = None.
Proof.
  induction 1 as [|x ks [_ Hx] _ IH]; simpl; [done|]. by rewrite (bool_decide_eq_true_2 _ Hx).
Qed.

Lemma discovery_push_accepted k name ev ks s session l :
  Lookup k (registry s) = Some l -> NodeID l <> self n -> remoteNodes s !! NodeID l = Some session ->
  sendable_key k -> normalized_name name -> Forall (fun x => sendable_key x /\ Name x = name) ks ->
  sendable ev ks -> (exists rt, localServices peer !! k = Some rt /\ rt_discovery rt = true) ->
  exists pkt, sendServiceDiscovery n k name ev ks s = [OSend session pkt] /\
    client_handleRPCDirect peer (self n) pkt = PPost (JDiscovery k name ev ks).
Proof.
  intros Hl Hne Hse Hk Hn Hks Hev (rt & Hrt & Hdisc). pose proof Hn as (Htrim & Hn1 & Hn2 & Hvn).
  unfold sendServiceDiscovery. rewrite Hl, (proj2 (Z.eqb_neq _ _) Hne), Hse.
  set (m := mkDiscovery (Some (serviceKeyToProto k)) name ev (map serviceKeyToProto ks)).
  destruct (encodeEnvelope_total opServiceDiscovery TServiceDiscovery m) as [pkt Hp];
    [by apply discovery_message_sendable|].
  destruct (decode_encodeEnvelope opServiceDiscovery TServiceDiscovery m pkt) as (body & Hd & Hb);
    [split; vm_compute; congruence|done|].
  exists pkt. rewrite Hp. split; [done|]. unfold client_handleRPCDirect, push_discovery. rewrite Hd. cbv iota.
  change (opServiceDiscovery =? opRouteInvalidate)%Z with false.
  change (opServiceDiscovery =? opServiceDiscovery)%Z with true. cbv iota.
  rewrite accepts_main, Hb. cbn [m sd_subscriber sd_service_name sd_services sd_event_type].
  destruct Hk as (Hv & Hi & Hu). rewrite (proj2 (requiredRPCServiceKey_Ok _ _ k)) by done.
  rewrite (proj2 (normalize_Ok name name)) by (split; [by symmetry|done]).
  rewrite (bool_decide_eq_true_2 (name = name)) by done. cbn [negb].
  rewrite requiredRPCServiceKeys_Ok, same_name_none by
    (done || (eapply Forall_impl; [exact Hks|]; by intros x [(? & ? & _) _])).
  by rewrite (dispatchLocalServiceDiscovery_total _ _ _ _ _ rt).
Qed.

(** Whatever the Node makes of a discovery packet, it is about the subscription
    and the event of the packet. *)
Lemma discovery_push_shape k name ev ks pkt j :
  encodeEnvelope opServiceDiscovery (Message TServiceDiscovery
    (mkDiscovery (Some (serviceKeyToProto k)) name ev (map serviceKeyToProto ks))) = Ok pkt ->
  client_handleRPCDirect peer (self n) pkt = PPost j -> exists ks', j = JDiscovery k name ev ks'.
Proof.
  set (m := mkDiscovery _ _ _ _). intros Hp.
  destruct (decode_encodeEnvelope opServiceDiscovery TServiceDiscovery m pkt) as (body & Hd & Hb);
    [split; vm_compute; congruence|exact Hp|].
  unfold client_handleRPCDirect, push_discovery. rewrite Hd. cbv iota.
  change (opServiceDiscovery =? opRouteInvalidate)%Z with false.
  change (opServiceDiscovery =? opServiceDiscovery)%Z with true. cbv iota.
  rewrite accepts_main, Hb. cbn [m sd_subscriber sd_service_name sd_services sd_event_type].
  destruct (requiredRPCServiceKey _ _) as [k'|] eqn:Hk; [|done].
  apply requiredRPCServiceKey_Ok in Hk as (Heq & _).
  assert (k' = k) as -> by (destruct k, k'; by injection Heq as -> ->).
  destruct (normalizeSubscribedServiceName name) as [name'|]; [|done].
  destruct (bool_decide (name' = name)) eqn:Hname; [|done]. bool_prop. subst. simpl.
  destruct (requiredRPCServiceKeys _ _) as [ks'|]; [|done]. destruct (find _ ks'); [done|].
  destruct (dispatchLocalServiceDiscovery _ _ _ _ _) as [j'|] eqn:Hj; [|done].
  intros [= <-]. apply dispatchLocalServiceDiscovery_Ok in Hj as ->. eauto.
Qed.

(** An invalidation is never taken for an event. *)
Lemma invalidation_push_shape x pkt j :
  encodeEnvelope opRouteInvalidate (Message TRouteInvalidate
    (mkRouteInvalidate (Some (serviceKeyToProto x)))) = Ok pkt ->
  client_handleRPCDirect peer (self n) pkt <> PPost j.
Proof.
  set (m := mkRouteInvalidate _). intros Hp.
  destruct (decode_encodeEnvelope opRouteInvalidate TRouteInvalidate m pkt) as (body & Hd & _);
    [split; vm_compute; congruence|exact Hp|].
  unfold client_handleRPCDirect, push_route. rewrite Hd. cbv iota.
  change (opRouteInvalidate =? opRouteInvalidate)%Z with true. cbv iota.
  rewrite accepts_main. by repeat case_match.
Qed.

(** A discovery event for a subscriber on a connected Node
    becomes one packet to that Node's session, and the Node turns the packet
    into the very event for the very subscriber: the job it posts is the one
    the main node would post for a subscriber of its own. *)
Theorem discovery_pushes_arrive k name ev ks s session l :
  Lookup k (registry s) = Some l -> NodeID l <> self n -> remoteNodes s !! NodeID l = Some session ->
  sendable_key k -> normalized_name name -> Forall (fun x => sendable_key x /\ Name x = name) ks ->
  sendable ev ks -> (exists rt, localServices peer !! k = Some rt /\ rt_discovery rt = true) ->
  exists pkt, sendServiceDiscovery n k name ev ks s = [OSend session pkt] /\
    client_handleRPCDirect peer (self n) pkt = PPost (JDiscovery k name ev ks).
Proof. apply discovery_push_accepted. Qed.

End Pushes.
End EndToEnd.

(** ** Witnesses *)

Section Witnesses.
#[local] Existing Instance ascii_tables.
Import Demo.

Lemma session_registered :
  registeredRemoteNode 7 opened = Ok (mkRemote 2 "10.0.0.2:9000" true true).
Proof. vm_compute. reflexivity. Qed.

Local Ltac in_range := split; vm_compute; congruence.

Lemma room_sendable i : (0 < i < 2 ^ 62)%Z -> sendable_key (room i).
Proof.
  intros Hi. split_and!; [apply valid_key_spec; simpl; split; [done|lia]| |vm_compute; reflexivity].
  unfold in_signed. simpl. lia.
Qed.

Lemma remote_lookup_is_registry_lookup_witness :
  lookupServiceFromMain (Ok (true, served_at env 7 5 opened)) (room 1)
  = Ok (mkServiceLocation "room" 1 2 "10.0.0.2:9000").
Proof.
  assert (Lookup (room 1) (registry opened) = Some (mkServiceLocation "room" 1 2 "10.0.0.2:9000")) as Hl
    by (vm_compute; reflexivity).
  pose proof (remote_lookup_is_registry_lookup env 7 5 opened _ (room 1) eq_refl session_registered) as Hw.
  rewrite Hl in Hw. apply Hw.
  - apply room_sendable. lia.
  - vm_compute. congruence.
  - intros l [= <-]. split_and!; try (vm_compute; reflexivity); in_range.
Defined.

Definition echo (source target : ServiceKey) (id : serviceMessageID) (payload : list byte)
    : list byte * option error := (payload, None).

Lemma remote_call_returns_reply_witness :
  remote_call_sync (Ok (mkServiceLocation "gate" 1 1 "10.0.0.1:9000"))
    (fun _ => Ok (true, called_at env 7 5 echo opened)) (room 1) gate (numericServiceMessageID 9) [x01]
  = (Ok [x01], false).
Proof.
  refine (proj1 (remote_call_returns_reply env 7 5 opened _ (mkServiceLocation "gate" 1 1 "10.0.0.1:9000")
    echo (room 1) gate (numericServiceMessageID 9) [x01] session_registered _) _ [x01] eq_refl).
  - split_and!; try (vm_compute; reflexivity); try in_range.
    + right. vm_compute. reflexivity.
    + split_and!; [vm_compute; reflexivity|in_range|vm_compute; reflexivity].
    + left. by exists 9%Z.
  - vm_compute. eauto.
Defined.

(** Node 2 as a receiver. *)
Definition env2 : node_env := {|
  self := 2; mainNodeID := 1; config := config env; listenAddr := "10.0.0.2:9000";
  localServices := {[ room 1 := mkRuntime true true true ∅ ]}
|}.

Lemma route_pushes_invalidate_witness :
  exists e, client_handleRPCDirect env2 3 heartbeat = PReport e.
Proof.
  exact (proj2 (route_pushes_invalidate env env2 eq_refl ltac:(vm_compute; congruence) (room 1) heartbeat 3)
    ltac:(vm_compute; reflexivity)).
Defined.

Lemma discovery_pushes_arrive_witness :
  exists pkt, sendServiceDiscovery env (room 1) "room" eventOnline [room 2] opened = [OSend 7 pkt] /\
    client_handleRPCDirect env2 (self env) pkt = PPost (JDiscovery (room 1) "room" eventOnline [room 2]).
Proof.
  refine (discovery_pushes_arrive env env2 eq_refl _ (room 1) "room" eventOnline [room 2] opened 7
    (mkServiceLocation "room" 1 2 "10.0.0.2:9000") _ _ _ _ _ _ _ _).
  - vm_compute. congruence.
  - vm_compute. reflexivity.
  - vm_compute. congruence.
  - vm_compute. reflexivity.
  - apply room_sendable. lia.
  - split_and!; vm_compute; congruence.
  - repeat constructor. apply room_sendable. lia.
  - right. split; [by left|reflexivity].
  - exists (mkRuntime true true true ∅). split; vm_compute; reflexivity.
Defined.

(** A check of [well_typed] for witnesses. *)
Definition typed_key (k : ServiceKey) : bool :=
  (- 2 ^ (int_bits - 1) <=? ID k)%Z && (ID k <? 2 ^ (int_bits - 1))%Z && ValidString (Name k).

Definition typed_registry (r : MemoryRegistry) : bool :=
  forallb (fun kl => typed_key kl.1) (map_to_list (services r)).

Lemma typed_registry_ok (s : node MemoryRegistry) : typed_registry (registry s) = true -> well_typed s.
Proof.
  intros Hall k [l Hl]. apply Is_true_true, forallb_True in Hall. rewrite Forall_forall in Hall.
  specialize (Hall (k, l)). rewrite elem_of_map_to_list in Hall. specialize (Hall Hl).
  apply Is_true_true in Hall. unfold typed_key in Hall. simpl in Hall. bool_prop. done.
Qed.

End Witnesses.
