(* ===== verification/RemoteView.v ===== *)
(** * Subscribers on other Nodes

    The discovery events for a subscriber on another Node travel as packets of
    that Node's session and are posted by its client
    ([Client.client_handleRPCDirect]).  The view theorem of [Discovery] holds
    for them as well: the packets of the session fold to exactly the
    registered services, as long as no cleanup of the Node is under way. *)

From stdpp Require Import base tactics list gmap sets strings.
From Stdlib Require Import ZArith Lia Strings.Byte.
From S2P Require Import Prelude GoString Errors Registry Subscription Config Service Wire.
From S2P Require Import WireInstances WireTheorems Dispatch ControlPlane ControlInvariant Client.
From S2P Require Import ControlDemo ControlTheorems Effects Discovery EndToEnd.
Local Open Scope string_scope.
Local Open Scope list_scope.

Section RemoteView.
Context `{UnicodeTables} `{Platform} `{ProtoLib} `{!ProtoLaws} `{PacketLib} `{!PacketLaws}.
Context {R : Type} `{ServiceRegistry R} `{!ServiceRegistryLaws R}.
(** The main node and the Node of the subscribers. *)
Context (n peer : node_env).
Hypothesis from_main : mainNodeID peer = self n.
Hypothesis not_main_itself : self peer <> mainNodeID peer.
Implicit Types s : node R.

(** The event of the subscription that the Node gets out of an output of the
    main node, if the output is a packet of its session. *)
Definition receive_remote (session : nat) (k : ServiceKey) (name : string) (o : output)
    : option (Z * list ServiceKey) :=
  match o with
  | OSend session' pkt =>
      if Nat.eqb session' session then
        match client_handleRPCDirect peer (self n) pkt with
        | PPost (JDiscovery k' name' ev ks) =>
            if bool_decide (k' = k /\ name' = name) then Some (ev, ks) else None
        | _ => None
        end
      else None
  | _ => None
  end.

(** [k] is a service of the Node, which the session stands for. *)
Definition listens_remote (session : nat) (k : ServiceKey) s : Prop :=
  (exists l, Lookup k (registry s) = Some l /\ NodeID l = self peer) /\
  remoteNodes s !! self peer = Some session /\ ~ cleaning (micros s) s (self peer).

Lemma receive_other session k name o :
  (forall se pkt, o = OSend se pkt -> forall j, client_handleRPCDirect peer (self n) pkt = PPost j ->
     exists k' name' ev ks, j = JDiscovery k' name' ev ks /\ (k' <> k \/ name' <> name)) ->
  receive_remote session k name o = None.
Proof.
  intros Ho. destruct o as [se pkt| | | | | |]; try done. simpl. destruct (Nat.eqb se session); [|done].
  destruct (client_handleRPCDirect peer (self n) pkt) as [| |j] eqn:E; try done.
  destruct (Ho se pkt eq_refl j E) as (k' & name' & ev & ks & -> & Hne).
  rewrite bool_decide_eq_false_2; [done|]. naive_solver.
Qed.

Lemma remote_feed session k name :
  sendable_key k -> normalized_name name ->
  (exists rt, localServices peer !! k = Some rt /\ rt_discovery rt = true) ->
  feed_laws n k name (receive_remote session k name) (listens_remote session k) sendable_key.
Proof.
  intros Hk Hn Hrt. split.
  - by intros [].
  - intros ks s. apply Forall_forall. intros o Ho. apply receive_other. intros se pkt -> j Hj.
    apply broadcast_sends in Ho as [[e ?]|(x & se' & pkt' & [= <- <-] & Hp)]; [done|].
    by destruct (invalidation_push_shape n peer from_main not_main_itself x pkt j Hp).
  - intros v k' name' ev ks s ((l & Hl & Hat) & Hse & _) Hev Hks. case_bool_decide as Hb.
    + destruct Hb as [-> ->].
      destruct (discovery_push_accepted n peer from_main not_main_itself k name ev ks s session l)
        as (pkt & -> & Hp); try done; [congruence|by rewrite Hat|].
      cbn [foldl]. unfold view_step, receive_remote. rewrite Nat.eqb_refl, Hp. by rewrite bool_decide_eq_true_2.
    + apply view_silent, Forall_forall. intros o Ho. apply receive_other. intros se pkt -> j Hj.
      revert Ho. unfold sendServiceDiscovery. set (m := Message TServiceDiscovery _).
      destruct (Lookup k' (registry s)) as [l'|]; [|by intros ?%elem_of_nil].
      destruct (NodeID l' =? self n)%Z;
        [destruct (dispatchLocalServiceDiscovery _ _ _ _ _); by intros ?%list_elem_of_singleton|].
      destruct (remoteNodes s !! NodeID l'); [|by intros ?%elem_of_nil].
      destruct (encodeEnvelope opServiceDiscovery m) as [pkt'|] eqn:Hp; [|by intros ?%list_elem_of_singleton].
      intros [= -> ->]%list_elem_of_singleton.
      destruct (discovery_push_shape n peer from_main not_main_itself k' name' ev ks pkt' j Hp Hj) as [ks' ->].
      exists k', name', ev, ks'. split; [done|].
      destruct (decide (k' = k)) as [->|]; [right|by left]. naive_solver.
Qed.

(** ** Every step *)

Definition typed_step s s' : Prop := well_typed s' /\ step_rel n s s'.

Definition typed_reachable s : Prop := exists r0, fresh r0 /\ steps typed_step (node_init r0) s.

Definition remote_view_inv s : Prop :=
  forall session k name,
    normalized_name name -> (exists rt, localServices peer !! k = Some rt /\ rt_discovery rt = true) ->
    subscribed (subscriptions s) k name -> listens_remote session k s ->
    exact name (receive_remote session k name) s.

(** A listener was listening before the step, unless it was not registered. *)
Lemma listens_remote_back session k e s s' :
  node_step n e s = Some s' -> inv n s -> is_Some (Lookup k (registry s)) ->
  listens_remote session k s' -> listens_remote session k s.
Proof.
  intros He Hi0 [l0 Hl0] ((l & Hl & Hat) & Hse & Hcl). pose proof Hi0 as [Hi _]. pose proof (i_reg _ _ _ Hi) as Hok.
  pose proof (effect_location n s s' k l0 l (node_step_effect n e s s' He Hi0) Hok Hl0 Hl) as ->.
  assert (~ cleaning (micros s) s (self peer)) as Hcl0.
  { intros Hc. destruct (node_step_cleaning n e s s' (self peer) He Hok Hc) as [?|Hv]; [done|].
    by apply (Hv k l0). }
  split; [by exists l0|]. split; [|done].
  destruct (i_loc _ _ _ Hi k l0 Hl0) as [[Hself _]|(_ & _ & _ & [Hc|Hc])]; [congruence| |by rewrite Hat in Hc].
  destruct Hc as [se Hc]. rewrite Hat in Hc. rewrite Hc. f_equal.
  by apply (proj2 (node_step_sessions n e s s' He) (self peer)).
Qed.

Lemma node_step_remote_view e s s' :
  node_step n e s = Some s' -> inv n s -> well_typed s -> well_typed s' ->
  remote_view_inv s -> remote_view_inv s'.
Proof.
  intros He Hi Ht Ht' Hs session k name Hn Hrt Hk Hl.
  pose proof (inv_indexed n s Hi) as Hx. pose proof (node_step_inv n e s s' He Hi) as [Hi' _].
  pose proof (i_reg _ _ _ Hi') as Hok'.
  assert (sendable_key k) as Hsend.
  { destruct Hl as [(l & Hl & _) _]. by apply (well_typed_sendable s'); [| |by eexists]. }
  apply (view_effect n k name _ _ _ (remote_feed session k name Hsend Hn Hrt) s); try done.
  - by apply (node_step_effect n e).
  - intros x [Hxs|Hxs]; [by apply (well_typed_sendable s); [apply Hx|..]|by apply (well_typed_sendable s')].
  - intros Hk0. apply Hs; try done. apply (listens_remote_back session k e s s'); try done. by apply (proj2 (proj2 Hx) _ name).
Qed.

Lemma typed_reachable_inv s : typed_reachable s -> inv n s /\ well_typed s /\ remote_view_inv s.
Proof.
  intros (r0 & Hr & Hs).
  apply (steps_invariant _ (fun s => inv n s /\ well_typed s /\ remote_view_inv s)) in Hs; [done| |]; clear Hs.
  - intros s1 s2 [Ht [e He]] (Hi & Ht1 & Hv). split_and!; [by apply (node_step_inv n e s1)|done|].
    by apply (node_step_remote_view e s1).
  - split_and!; [by apply inv_node_init| |].
    + intros k [l Hl]. destruct Hr as [_ Hr]. simpl in Hl. by rewrite Hr in Hl.
    + intros session k name _ _ Hk. unfold subscribed, named in Hk. simpl in Hk. by rewrite lookup_empty in Hk.
Qed.

(** C4 (functional). Discovery works across Nodes.  Take a run of the main node
    in which registered names are valid UTF-8 and ids fit an int, a subscriber
    on another Node that implements the discovery handler, and a normalized
    name it is subscribed to.  While the Node's session is the one the main
    node counts and no removal of the Node's services is pending
    ([listens_remote]), the packets the main node sent over that session,
    decoded and posted by the Node's own client, are events that fold to
    exactly the services of the name in the main node's registry, even if the
    Node was lost and came back on another session before.  Nothing is said
    while the session is lost or an old cleanup is pending: events sent
    meanwhile do not arrive. *)
Theorem remote_discovery_view_is_exact session k name s :
  typed_reachable s -> normalized_name name ->
  (exists rt, localServices peer !! k = Some rt /\ rt_discovery rt = true) ->
  k ∈ subscribers name (subscriptions s) -> listens_remote session k s ->
  forall x, x ∈ view (receive_remote session k name) (outputs s) <->
    Name x = name /\ is_Some (Lookup x (registry s)).
Proof.
  intros (_ & _ & Hv)%typed_reachable_inv Hn Hrt Hk. rewrite elem_of_subscribers in Hk. by apply Hv.
Qed.

End RemoteView.

(** ** Witness *)

Section Witness.
#[local] Existing Instance ascii_tables.
Import Demo.

(** A run whose states are all well typed. *)
Fixpoint typed_run (es : list event) (s : node MemoryRegistry) : option (node MemoryRegistry) :=
  match es with
  | [] => Some s
  | e :: es =>
      match node_step env e s with
      | Some s' => if typed_registry (registry s') then typed_run es s' else None
      | None => None
      end
  end.

Lemma typed_run_steps es s s' : typed_run es s = Some s' -> steps (typed_step env) s s'.
Proof.
  revert s. induction es as [|e es IH]; intros s Hr; simpl in Hr; [simplify_eq; constructor|].
  destruct (node_step env e s) as [s1|] eqn:E; [|done].
  destruct (typed_registry _) eqn:Et; [|done]. eapply steps_trans; [|by apply IH].
  split; [by apply typed_registry_ok|]. by exists e.
Qed.

(** Room 1 on node 2 subscribes to rooms; then node 2 announces room 2. *)
Definition subscribing : list event :=
  opening ++ served (ERequest 7 3 (packet_of opSubscribe TSubscribeRequest
    (mkSubscribe (Some (serviceKeyToProto (room 1))) "room"))) ++ served (announce 7 4 (room 2)).

Definition watching : node MemoryRegistry := Eval vm_compute in default start (typed_run subscribing start).

Lemma remote_discovery_view_is_exact_witness :
  room 2 ∈ view (receive_remote env env2 7 (room 1) "room") (outputs watching) <->
  Name (room 2) = "room" /\ is_Some (Lookup (room 2) (registry watching)).
Proof.
  refine (remote_discovery_view_is_exact env env2 eq_refl _ 7 (room 1) "room" watching _ _ _ _ _ (room 2)).
  - vm_compute. congruence.
  - exists NewMemoryRegistry. split; [by split|]. apply (typed_run_steps subscribing). vm_compute. reflexivity.
  - split_and!; vm_compute; congruence.
  - exists (mkRuntime true true true ∅). split; vm_compute; reflexivity.
  - apply elem_of_subscribers. vm_compute. reflexivity.
  - split_and!.
    + exists (mkServiceLocation "room" 1 2 "10.0.0.2:9000"). split; vm_compute; reflexivity.
    + vm_compute. reflexivity.
    + apply quiescent_clean. vm_compute. auto.
Defined.

End Witness.
