(* ===== verification/MainLink.v ===== *)
(** * The connection to the main node (main_recovery.go, rpc_client.go, node.go)

    How a Node other than the main node keeps its connection to the main node:
    [getRPCClient] for the main node while the Node starts, the end of a
    connection ([markDisconnected]), and the recovery loop with its back-off.
    The entry of the main node in [rpcClients] is [published]; the objects
    behind it are [clients].  A step is one critical section, one atomic
    operation or one network operation; whether a network operation succeeds
    is part of the event. *)

From stdpp Require Import base tactics list gmap sets strings.
From Stdlib Require Import ZArith Lia.
From S2P Require Import Prelude Errors.
Local Open Scope list_scope.

(** ** Back-off *)

(** Nanoseconds. *)
Definition mainRecoveryInitialDelay : Z := 100 * 10 ^ 6.
Definition mainRecoveryMaxDelay : Z := 3 * 10 ^ 9.

Definition next_delay (delay : Z) : Z :=
  if (delay =? 0)%Z then mainRecoveryInitialDelay
  else
    let delay := (delay * 2)%Z in
    if (mainRecoveryMaxDelay <? delay)%Z then mainRecoveryMaxDelay else delay.

(** The delay before attempt [k], counted from 0. *)
Fixpoint delay_before (k : nat) : Z :=
  match k with O => 0 | S k => next_delay (delay_before k) end.

(** ** State *)

Inductive lifecycle := Initial | Starting | Running | Stopping | Stopped.

#[export] Instance lifecycle_eq_dec : EqDecision lifecycle.
Proof. solve_decision. Defined.

(** A goroutine inside [markDisconnected]. *)
Inductive closer :=
| DSwap (client : nat)
| DRemove (client : nat)
| DTrigger                          (** before [startMainRecovery] *)
| DSend.                            (** past its check, before the send *)

(** The goroutine that holds [clientCreateMu]: in [getRPCClient] or in
    [recoverMainNode]. *)
Inductive creator :=
| GDial
| GRegister (client : nat)
| GPublish (client : nat)
| RCheck
| RDial
| RRegister (client : nat)
| RRestore (client : nat)
| RPublish (client : nat).

(** The recovery loop: waiting for the trigger, before attempt [k] (in the
    delay), before the lock of attempt [k], inside it, or gone. *)
Inductive recovery :=
| RecIdle
| RecDelay (k : nat)
| RecReady (k : nat)
| RecLocked (k : nat)
| RecExited.

#[export] Instance recovery_eq_dec : EqDecision recovery.
Proof. solve_decision. Defined.

Record link := mkLink {
  state : lifecycle;
  clients : gmap nat bool;          (** the [connected] flags of the objects *)
  published : option nat;           (** [rpcClients[mainNodeID]] *)
  waiters : nat;                    (** in [getRPCClient], past the check of the state *)
  lock : option creator;
  closers : list closer;
  trigger : bool;                   (** [mainRecoveryTrigger], capacity 1 *)
  recovering : recovery;
  stopped : bool;                   (** [mainRecoveryStop] is closed *)
  invalidations : nat               (** [routeCache.invalidateAll] calls *)
}.

Definition link_init : link := mkLink Initial ∅ None 0 None [] false RecIdle false 0.

Implicit Types l : link.

Definition set_state x l := mkLink x (clients l) (published l) (waiters l) (lock l) (closers l)
  (trigger l) (recovering l) (stopped l) (invalidations l).
Definition set_clients x l := mkLink (state l) x (published l) (waiters l) (lock l) (closers l)
  (trigger l) (recovering l) (stopped l) (invalidations l).
Definition set_published x l := mkLink (state l) (clients l) x (waiters l) (lock l) (closers l)
  (trigger l) (recovering l) (stopped l) (invalidations l).
Definition set_waiters x l := mkLink (state l) (clients l) (published l) x (lock l) (closers l)
  (trigger l) (recovering l) (stopped l) (invalidations l).
Definition set_lock x l := mkLink (state l) (clients l) (published l) (waiters l) x (closers l)
  (trigger l) (recovering l) (stopped l) (invalidations l).
Definition set_closers x l := mkLink (state l) (clients l) (published l) (waiters l) (lock l) x
  (trigger l) (recovering l) (stopped l) (invalidations l).
Definition set_trigger x l := mkLink (state l) (clients l) (published l) (waiters l) (lock l)
  (closers l) x (recovering l) (stopped l) (invalidations l).
Definition set_recovering x l := mkLink (state l) (clients l) (published l) (waiters l) (lock l)
  (closers l) (trigger l) x (stopped l) (invalidations l).
Definition set_stopped l := mkLink (state l) (clients l) (published l) (waiters l) (lock l)
  (closers l) (trigger l) (recovering l) true (invalidations l).
Definition invalidate_all l := mkLink (state l) (clients l) (published l) (waiters l) (lock l)
  (closers l) (trigger l) (recovering l) (stopped l) (S (invalidations l)).

(** [Connected()] *)
Definition is_connected (c : nat) l : bool := default false (clients l !! c).

(** [current != nil && current.Connected()]; the address of the main node is
    that of the configuration throughout. *)
Definition main_connected l : bool :=
  match published l with Some c => is_connected c l | None => false end.

(** [closeTransport] *)
Definition close_transport (c : nat) l : link := set_clients (<[c := false]> (clients l)) l.

(** [newRPCClient] to the main node, when the dial succeeds. *)
Definition new_client (c : nat) l : link := set_clients (<[c := true]> (clients l)) (invalidate_all l).

(** The stale client is removed and closed before a new one is created. *)
Definition drop_stale l : link :=
  match published l with
  | Some c => close_transport c (set_published None l)
  | None => l
  end.

(** [recoverMainNodeClient] up to [connectRPCClient]; [None] when there is a
    working connection. *)
Definition recover_check l : option link := if main_connected l then None else Some (drop_stale l).

Definition mainRecoveryStopped l : bool := stopped l.

(** [n.state.Load() == nodeStateRunning && !n.mainRecoveryStopped()] *)
Definition may_recover l : bool := bool_decide (state l = Running) && negb (mainRecoveryStopped l).

(** ** The end of a connection: [markDisconnected] *)

Definition closer_step (d : closer) l : link * option closer :=
  match d with
  | DSwap c => if is_connected c l then (close_transport c l, Some (DRemove c)) else (l, None)
  | DRemove c =>
      (if bool_decide (published l = Some c) then set_published None l else l, Some DTrigger)
  | DTrigger =>
      let l := invalidate_all l in
      (l, if may_recover l then Some DSend else None)
  | DSend => (set_trigger true l, None)
  end.

(** ** Creating a connection, under [clientCreateMu]

    [ok] is the outcome of the network operation of the step.  [fresh] is the
    address of a new object. *)

Definition release l : link := set_lock None l.

(** A failed attempt of the recovery: the new connection is closed and the
    delay is set. *)
Definition attempt_failed (c : option nat) l : link :=
  let l := match c with Some c => close_transport c l | None => l end in
  release (match recovering l with
           | RecLocked k => set_recovering (RecDelay (S k)) l
           | _ => l
           end).

Definition attempt_done l : link := release (set_recovering RecIdle l).

Definition creator_step (g : creator) (ok : bool) (fresh : nat) l : link :=
  match g with
  | GDial => if ok then set_lock (Some (GRegister fresh)) (new_client fresh l) else release l
  | GRegister c => if ok then set_lock (Some (GPublish c)) l else release (close_transport c l)
  | GPublish c =>
      if is_connected c l then release (set_published (Some c) l) else release (close_transport c l)
  | RCheck => match recover_check l with None => attempt_done l | Some l => set_lock (Some RDial) l end
  | RDial => if ok then set_lock (Some (RRegister fresh)) (new_client fresh l) else attempt_failed None l
  | RRegister c => if ok then set_lock (Some (RRestore c)) l else attempt_failed (Some c) l
  | RRestore c =>
      if may_recover l && ok then set_lock (Some (RPublish c)) l else attempt_failed (Some c) l
  | RPublish c =>
      if is_connected c l then attempt_done (set_published (Some c) l) else attempt_failed (Some c) l
  end.

(** ** Events *)

Inductive link_event :=
| LStart                             (** [Start] begins *)
| LRun                               (** [Start] ends: [state.Store(nodeStateRunning)] *)
| LStopping                          (** [Stop] begins *)
| LStopRecovery                      (** [mainRecoveryStop] is closed *)
| LGet                               (** [getRPCClient] passes its check of the state *)
| LGetLock                           (** it gets [clientCreateMu] *)
| LCreator (ok : bool) (fresh : nat) (** the holder of the lock goes on *)
| LBreak (client : nat)              (** the connection breaks, or a heartbeat fails *)
| LCloser (i : nat)
| LTrigger                           (** the recovery loop takes the trigger *)
| LDelay                             (** the delay is over *)
| LAttempt                           (** the attempt gets [clientCreateMu] *)
| LExit.                             (** the recovery loop sees the stop *)

Definition link_step (e : link_event) l : option link :=
  match e with
  | LStart => if bool_decide (state l = Initial) then Some (set_state Starting l) else None
  | LRun => if bool_decide (state l = Starting) then Some (set_state Running l) else None
  | LStopping => if bool_decide (state l = Running) then Some (set_state Stopping l) else None
  | LStopRecovery => if bool_decide (state l = Stopping) then Some (set_stopped l) else None
  | LGet =>
      if bool_decide (state l = Running) || bool_decide (state l = Initial) || main_connected l
      then None else Some (set_waiters (S (waiters l)) l)
  | LGetLock =>
      match waiters l, lock l with
      | S w, None =>
          let l := set_waiters w l in
          Some (if main_connected l then l else set_lock (Some GDial) (drop_stale l))
      | _, _ => None
      end
  | LCreator ok fresh =>
      match lock l, clients l !! fresh with
      | Some g, None => Some (creator_step g ok fresh l)
      | _, _ => None
      end
  | LBreak c =>
      match clients l !! c with
      | Some _ => Some (set_closers (closers l ++ [DSwap c]) l)
      | None => None
      end
  | LCloser i =>
      match closers l !! i with
      | None => None
      | Some d => let '(l', d') := closer_step d l in
                  Some (set_closers (replace_at i d' (closers l')) l')
      end
  | LTrigger =>
      match recovering l with
      | RecIdle => if trigger l then Some (set_recovering (RecDelay 0) (set_trigger false l)) else None
      | _ => None
      end
  | LDelay =>
      match recovering l with
      | RecDelay k => Some (set_recovering (if may_recover l then RecReady k else RecIdle) l)
      | _ => None
      end
  | LAttempt =>
      match recovering l, lock l with
      | RecReady k, None => Some (set_lock (Some RCheck) (set_recovering (RecLocked k) l))
      | _, _ => None
      end
  | LExit =>
      match recovering l with
      | RecIdle => if stopped l then Some (set_recovering RecExited l) else None
      | _ => None
      end
  end.

Definition link_step_rel l l' : Prop := exists e, link_step e l = Some l'.

Fixpoint link_run (es : list link_event) l : option link :=
  match es with
  | [] => Some l
  | e :: es => match link_step e l with Some l' => link_run es l' | None => None end
  end.

(** ** Back-off in closed form *)

(** The recovery tries at once, then waits 100 ms, and doubles
    the delay with every failed attempt up to 3 s: before attempt [k + 1] it
    waits exactly [min(100 ms * 2^k, 3 s)], so attempts never come faster than
    100 ms after a failure and never stop coming. *)
Theorem recovery_backoff (k : nat) :
  delay_before 0 = 0%Z /\
  delay_before (S k) = Z.min (mainRecoveryInitialDelay * 2 ^ Z.of_nat k) mainRecoveryMaxDelay.
Proof.
  split; [done|]. induction k as [|k IH]; [done|].
  change (delay_before (S (S k))) with (next_delay (delay_before (S k))). rewrite IH.
  rewrite Nat2Z.inj_succ, Z.pow_succ_r by lia.
  assert (1 <= 2 ^ Z.of_nat k)%Z by (apply (Z.pow_le_mono_r 2 0); lia).
  unfold next_delay, mainRecoveryInitialDelay, mainRecoveryMaxDelay in *.
  set (p := (2 ^ Z.of_nat k)%Z) in *. clearbody p. cbv zeta.
  destruct (Z.eqb_spec (Z.min (100 * 10 ^ 6 * p) (3 * 10 ^ 9)) 0); [lia|].
  destruct (Z.ltb_spec (3 * 10 ^ 9) (Z.min (100 * 10 ^ 6 * p) (3 * 10 ^ 9) * 2)); lia.
Qed.

(** ** Invariant *)

#[local] Arguments replace_at : simpl never.

Definition closing (d : closer) : Prop := match d with DSwap _ => False | _ => True end.

Definition in_recovery (g : creator) : bool :=
  match g with GDial | GRegister _ | GPublish _ => false | _ => true end.

(** Somebody is bound to look after the connection. *)
Definition attended l : Prop :=
  main_connected l = true \/ trigger l = true \/
  match recovering l with RecIdle | RecExited => False | _ => True end \/
  exists d, d ∈ closers l /\ closing d.

Record link_inv l : Prop := {
  l_stale : forall c, published l = Some c -> is_connected c l = false -> DRemove c ∈ closers l;
  l_lock : forall g, lock l = Some g -> g <> RCheck -> published l = None;
  l_rec : forall g, lock l = Some g -> in_recovery g = true -> exists k, recovering l = RecLocked k;
  l_attended : state l = Running -> stopped l = false -> attended l
}.

Lemma is_connected_close c c' l :
  is_connected c (close_transport c' l) = if decide (c = c') then false else is_connected c l.
Proof. unfold is_connected, close_transport. simpl. rewrite lookup_insert. by repeat case_decide. Qed.

Lemma main_connected_unpublished l : published l = None -> main_connected l = false.
Proof. unfold main_connected. by intros ->. Qed.

(** Closing or creating a client while nothing is published. *)
Lemma inv_unpublished l l' :
  published l = None -> published l' = None -> closers l' = closers l -> trigger l' = trigger l ->
  state l' = state l -> stopped l' = stopped l ->
  (recovering l' = recovering l \/
   match recovering l' with RecIdle | RecExited => False | _ => True end) ->
  (forall g, lock l' = Some g -> in_recovery g = true -> exists k, recovering l' = RecLocked k) ->
  link_inv l -> link_inv l'.
Proof.
  intros Hp Hp' Ec Et Es Est Er Hrec [Hst Hl Hr Ha]. split; try done.
  - intros c. by rewrite Hp'.
  - unfold attended in *. rewrite Es, Est, Et, Ec. intros Hs Hx.
    rewrite (main_connected_unpublished l' Hp'). rewrite (main_connected_unpublished l Hp) in Ha.
    destruct (Ha Hs Hx) as [?|[?|[?|?]]]; auto. destruct Er as [->|?]; auto.
Qed.

(** A connected client is published and the lock released. *)
Lemma inv_publish c r l :
  is_connected c l = true -> link_inv l ->
  link_inv (release (set_recovering r (set_published (Some c) l))).
Proof.
  intros Hc [Hst Hl Hr Ha]. split; simpl; try done.
  - intros x [= <-] Hx. unfold is_connected in *. simpl in Hx. congruence.
  - intros _ _. left. unfold main_connected, is_connected in *. simpl. done.
Qed.

Lemma inv_drop_stale g l :
  (in_recovery g = true -> exists k, recovering l = RecLocked k) -> main_connected l = false ->
  link_inv l -> link_inv (set_lock (Some g) (drop_stale l)).
Proof.
  intros Hg Hm [Hst Hl Hr Ha].
  assert (published (drop_stale l) = None) as Hp
    by (unfold drop_stale; destruct (published l) eqn:E; [done|by rewrite E]).
  assert (state (drop_stale l) = state l /\ stopped (drop_stale l) = stopped l /\
    trigger (drop_stale l) = trigger l /\ recovering (drop_stale l) = recovering l /\
    closers (drop_stale l) = closers l) as (Es & Est & Et & Er & Ec)
    by (unfold drop_stale; by destruct (published l)).
  split; simpl.
  - intros c. by rewrite Hp.
  - done.
  - intros g' [= <-]. by rewrite Er.
  - rewrite Es, Est. intros Hs Hx. unfold attended. simpl. rewrite Et, Er, Ec.
    destruct (Ha Hs Hx) as [Hc|?]; [congruence|]. by right.
Qed.

(** A failed attempt goes back to the delay. *)
Lemma attempt_failed_inv c k l :
  published l = None -> recovering l = RecLocked k -> link_inv l -> link_inv (attempt_failed c l).
Proof.
  intros Hp Hk. assert (attempt_failed c l = release (set_recovering (RecDelay (S k))
    (match c with Some c => close_transport c l | None => l end))) as ->.
  { unfold attempt_failed. destruct c; simpl; by rewrite Hk. }
  destruct c; apply (inv_unpublished l); try done; by right.
Qed.

Lemma creator_inv g ok fresh l :
  lock l = Some g -> link_inv l -> link_inv (creator_step g ok fresh l).
Proof.
  intros Hg Hi. pose proof Hi as [Hst Hl Hr Ha]. specialize (Hl g Hg). specialize (Hr g Hg).
  assert (g <> RCheck -> forall l', published l' = published l -> closers l' = closers l ->
    trigger l' = trigger l -> state l' = state l -> stopped l' = stopped l ->
    recovering l' = recovering l ->
    (forall g', lock l' = Some g' -> in_recovery g' = in_recovery g) -> link_inv l') as Hquiet.
  { intros Hne l' E1 E2 E3 E4 E5 E6 E7. specialize (Hl Hne).
    apply (inv_unpublished l); auto; [congruence|]. intros g' Hg' Hin. rewrite E6. apply Hr.
    by rewrite <- (E7 g' Hg'). }
  destruct g as [|c|c| | |c|c|c]; simpl.
  - destruct ok; apply Hquiet; try done. by intros ? [= <-].
  - destruct ok; apply Hquiet; try done. by intros ? [= <-].
  - destruct (is_connected c l) eqn:E; [|by apply Hquiet].
    replace (release _) with (release (set_recovering (recovering l) (set_published (Some c) l)))
      by (by destruct l). by apply inv_publish.
  - unfold recover_check. destruct (main_connected l) eqn:E; [|by apply inv_drop_stale; [intros _; apply Hr|..]].
    split; simpl; try done. by left.
  - destruct Hr as [k Hk]; [done|]. destruct ok; [|by apply (attempt_failed_inv _ k); [apply Hl|..]].
    apply Hquiet; try done. by intros ? [= <-].
  - destruct Hr as [k Hk]; [done|]. destruct ok; [|by apply (attempt_failed_inv _ k); [apply Hl|..]].
    apply Hquiet; try done. by intros ? [= <-].
  - destruct Hr as [k Hk]; [done|]. destruct (_ && _); [|by apply (attempt_failed_inv _ k); [apply Hl|..]].
    apply Hquiet; try done. by intros ? [= <-].
  - destruct Hr as [k Hk]; [done|]. destruct (is_connected c l) eqn:E.
    + by apply inv_publish.
    + by apply (attempt_failed_inv _ k); [apply Hl|..].
Qed.

(** The closer [d] at index [i] goes on as [d']. *)
Lemma elem_of_replaced i d d' (ds : list closer) x :
  ds !! i = Some d -> x ∈ replace_at i d' ds <-> Some x = d' \/ x ∈ delete i ds.
Proof.
  intros Hi. rewrite (replace_at_Permutation _ _ _ _ Hi), elem_of_app.
  destruct d' as [y|]; simpl; rewrite ?list_elem_of_singleton, ?elem_of_nil; naive_solver.
Qed.

Lemma closer_swap_inv i c l :
  closers l !! i = Some (DSwap c) -> is_connected c l = true -> link_inv l ->
  link_inv (set_closers (replace_at i (Some (DRemove c)) (closers l)) (close_transport c l)).
Proof.
  intros Hi Hc [Hst Hl Hr Ha].
  assert (DRemove c ∈ replace_at i (Some (DRemove c)) (closers l)) as Hin
    by (rewrite (elem_of_replaced _ _ _ _ _ Hi); by left).
  split; simpl; try done.
  - intros x Hx Hd. destruct (decide (x = c)) as [->|Hne]; [done|].
    rewrite (elem_of_replaced _ _ _ _ _ Hi). right.
    assert (DRemove x ∈ closers l) as Hx'.
    { apply Hst; [done|]. revert Hd. unfold is_connected; simpl. by rewrite lookup_insert_ne. }
    by apply (elem_of_delete_split _ _ _ _ Hi) in Hx' as [?|?].
  - intros _ _. right; right; right. by exists (DRemove c).
Qed.

(** A closer that goes on without having been the one that matters. *)
Lemma closer_other_inv i d d' l l' :
  closers l !! i = Some d -> (forall c, d = DRemove c -> published l' <> Some c) ->
  clients l' = clients l -> (published l' = published l \/ published l' = None) ->
  lock l' = lock l -> recovering l' = recovering l -> closers l' = closers l ->
  (state l' = Running -> stopped l' = false -> attended l ->
     attended (set_closers (replace_at i d' (closers l)) l')) ->
  state l' = state l -> stopped l' = stopped l ->
  link_inv l -> link_inv (set_closers (replace_at i d' (closers l')) l').
Proof.
  intros Hi Hd Ecl Hp Elk Er Ec Hatt Es Est [Hst Hl Hr Ha]. rewrite Ec. split; simpl.
  - intros c Hc Hx. rewrite (elem_of_replaced _ _ _ _ _ Hi). right.
    assert (published l = Some c) as Hpc by (destruct Hp; congruence).
    assert (DRemove c ∈ closers l) as Hin.
    { apply Hst; [done|]. unfold is_connected in *. simpl in Hx. by rewrite Ecl in Hx. }
    apply (elem_of_delete_split _ _ _ _ Hi) in Hin as [Heq|?]; [|done].
    by destruct (Hd c (eq_sym Heq)).
  - intros g Hg Hne. rewrite Elk in Hg. destruct Hp as [->| ->]; [by eapply Hl|done].
  - rewrite Elk, Er. apply Hr.
  - intros Hs Hx. apply Hatt; [done|done|]. apply Ha; congruence.
Qed.

Lemma closer_inv i d d' l l' :
  closers l !! i = Some d -> closer_step d l = (l', d') -> link_inv l ->
  link_inv (set_closers (replace_at i d' (closers l')) l').
Proof.
  intros Hi Hs Hinv. destruct d as [c|c| |]; simpl in Hs.
  - destruct (is_connected c l) eqn:Ec; injection Hs as <- <-;
      [exact (closer_swap_inv i c l Hi Ec Hinv)|].
    refine (closer_other_inv i (DSwap c) None l (l) Hi _ eq_refl _ eq_refl eq_refl eq_refl _ eq_refl eq_refl Hinv);
      [done|by left|].
    intros _ _ [?|[?|[?|(d & Hd & Hc)]]]; unfold attended; simpl; auto.
    right; right; right. exists d. split; [|done].
    apply (elem_of_delete_split _ _ _ _ Hi) in Hd as [->|?]; [done|].
    by rewrite (elem_of_replaced _ _ None _ _ Hi); right.
  - assert (forall l1, attended (set_closers (replace_at i (Some DTrigger) (closers l)) l1)) as Hcl.
    { intros l1. right; right; right. exists DTrigger. split; [|done]. simpl.
      rewrite (elem_of_replaced _ _ _ _ _ Hi). by left. }
    case_bool_decide as Hp; injection Hs as <- <-.
    + refine (closer_other_inv i (DRemove c) (Some DTrigger) l (set_published None l) Hi _ eq_refl _ eq_refl eq_refl eq_refl _ eq_refl eq_refl Hinv);
        [done|by right|].
      intros _ _ _. apply Hcl.
    + refine (closer_other_inv i (DRemove c) (Some DTrigger) l (l) Hi _ eq_refl _ eq_refl eq_refl eq_refl _ eq_refl eq_refl Hinv);
        [by intros x [= <-]|by left|].
      intros _ _ _. apply Hcl.
  - destruct (may_recover (invalidate_all l)) eqn:Em; injection Hs as <- <-.
    + refine (closer_other_inv i DTrigger (Some DSend) l (invalidate_all l) Hi _ eq_refl _ eq_refl eq_refl eq_refl _ eq_refl eq_refl Hinv);
        [done|by left|].
      intros _ _ _. right; right; right. exists DSend. split; [|done]. simpl.
      rewrite (elem_of_replaced _ _ _ _ _ Hi). by left.
    + refine (closer_other_inv i DTrigger None l (invalidate_all l) Hi _ eq_refl _ eq_refl eq_refl eq_refl _ eq_refl eq_refl Hinv);
        [done|by left|].
      intros Hst Hx _. unfold may_recover, mainRecoveryStopped in Em. simpl in *. rewrite Hst, Hx in Em. done.
  - injection Hs as <- <-.
    refine (closer_other_inv i DSend None l (set_trigger true l) Hi _ eq_refl _ eq_refl eq_refl eq_refl _ eq_refl eq_refl Hinv);
      [done|by left|].
    intros _ _ _. by right; left.
Qed.

(** ** Steps *)

(** The Node becomes operational with a working connection. *)
Definition clean (e : link_event) l : Prop := e = LRun -> main_connected l = true.

(** A change of fields the invariant does not tie to the others. *)
Lemma link_inv_view l l' :
  published l' = published l -> clients l' = clients l -> closers l' = closers l -> lock l' = lock l ->
  recovering l' = recovering l ->
  (state l' = Running -> stopped l' = false -> attended l') -> link_inv l -> link_inv l'.
Proof.
  intros E1 E2 E3 E4 E5 Ha [Hst Hl Hr _]. split; unfold is_connected in *;
    rewrite ?E1, ?E2, ?E3, ?E4, ?E5; done.
Qed.

Lemma link_step_inv e l l' : link_step e l = Some l' -> clean e l -> link_inv l -> link_inv l'.
Proof.
  intros He Hcl Hi. pose proof Hi as [Hst Hl Hr Ha]. destruct e as [| | | | | |ok fr|c|i| | | |]; simpl in He.
  - case_bool_decide; simplify_eq. by apply (link_inv_view l).
  - case_bool_decide; simplify_eq. apply (link_inv_view l); try done. intros _ _. left. by apply Hcl.
  - case_bool_decide; simplify_eq. by apply (link_inv_view l).
  - case_bool_decide as Hx; simplify_eq. apply (link_inv_view l); try done.
  - destruct (_ || _); simplify_eq. apply (link_inv_view l); try done.
  - destruct (waiters l) as [|w]; [done|]. destruct (lock l) eqn:El; [done|]. simplify_eq.
    assert (link_inv (set_waiters w l)) as Hw by (by apply (link_inv_view l)).
    destruct (main_connected (set_waiters w l)) eqn:Em; [done|]. by apply inv_drop_stale.
  - destruct (lock l) as [g|] eqn:El; [|done]. destruct (clients l !! fr) eqn:Ef; simplify_eq.
    by apply creator_inv.
  - destruct (clients l !! c); simplify_eq. split; simpl; try done.
    + intros x Hx Hd. apply elem_of_app. left. by apply Hst.
    + intros Hs Hx. destruct (Ha Hs Hx) as [?|[?|[?|(d & Hd & Hc)]]]; unfold attended; simpl; auto.
      right; right; right. exists d. split; [|done]. apply elem_of_app. by left.
  - destruct (closers l !! i) as [d|] eqn:Ei; [|done].
    destruct (closer_step d l) as [l1 d1] eqn:Ed. simplify_eq. by eapply closer_inv.
  - destruct (recovering l) eqn:Er; try done. destruct (trigger l); simplify_eq.
    split; simpl; try done.
    + intros g Hg Hin. destruct (Hr g Hg Hin) as [k Hk]. congruence.
    + intros _ _. by right; right; left.
  - destruct (recovering l) as [|k| | |] eqn:Er; try done. simplify_eq. split; simpl; try done.
    + intros g Hg Hin. destruct (Hr g Hg Hin) as [k' Hk]. congruence.
    + intros Hs Hx. right; right; left. simpl. unfold may_recover, mainRecoveryStopped. by rewrite Hs, Hx.
  - destruct (recovering l) as [| |k| |] eqn:Er; try done. destruct (lock l) eqn:El; simplify_eq.
    split; simpl; try done.
    + by intros g [= <-].
    + intros g [= <-] _. by exists k.
    + intros _ _. by right; right; left.
  - destruct (recovering l) eqn:Er; try done. destruct (stopped l) eqn:Est; simplify_eq.
    split; simpl; try done; [|by rewrite Est].
    intros g Hg Hin. destruct (Hr g Hg Hin) as [k Hk]. congruence.
Qed.

Definition clean_step l l' : Prop := exists e, link_step e l = Some l' /\ clean e l.

Lemma link_init_inv : link_inv link_init.
Proof. by split. Qed.

(** C20 (safety). A running Node never forgets its main node: if it had a
    working connection when it became operational, then in every later state
    in which it runs, it either has a connected client in its table, or the
    recovery is under way or triggered, or the goroutine that noticed the loss
    is about to trigger it, whatever connections break when. *)
Theorem lost_main_is_attended l :
  steps clean_step link_init l -> state l = Running -> stopped l = false -> attended l.
Proof.
  intros Hs. apply l_attended.
  apply (steps_invariant clean_step link_inv) with (s := link_init); [|done|apply link_init_inv].
  intros l1 l2 (e & He & Hc). by apply (link_step_inv e l1).
Qed.

(** ** A connection lost while the Node starts *)

(** The connection breaks, and [markDisconnected] runs to its end, after the
    last registration of [Start] and before it stores the new state. *)
Definition lost_early : list link_event :=
  [LStart; LGet; LGetLock; LCreator true 0; LCreator true 1; LCreator true 1;
   LBreak 0; LCloser 0; LCloser 0; LCloser 0; LRun].

Definition isolated l : Prop :=
  state l = Stopping \/ state l = Stopped \/
  (state l = Running /\ stopped l = false /\ published l = None /\ waiters l = 0 /\ lock l = None /\
   trigger l = false /\ recovering l = RecIdle /\ (forall c, is_connected c l = false) /\
   forall d, d ∈ closers l -> exists c, d = DSwap c).

(** Who changes the state of the Node. *)
Lemma creator_step_state g ok fresh l : state (creator_step g ok fresh l) = state l.
Proof.
  assert (forall c, state (attempt_failed c l) = state l) as Hf.
  { intros c. unfold attempt_failed. destruct c; simpl; by destruct (recovering l). }
  assert (state (drop_stale l) = state l) as Hd by (unfold drop_stale; by destruct (published l)).
  destruct g; cbn [creator_step]; unfold recover_check;
    repeat match goal with |- context [if ?b then _ else _] => destruct b end;
    try done; try apply Hf.
Qed.

Lemma closer_step_state d l : state (closer_step d l).1 = state l.
Proof.
  destruct d; simpl; [destruct (is_connected _ _)|case_bool_decide|..]; done.
Qed.

Lemma link_step_state e l l' :
  link_step e l = Some l' -> state l' = state l \/
  (state l = Initial /\ state l' = Starting) \/ (state l = Starting /\ state l' = Running) \/
  (state l = Running /\ state l' = Stopping).
Proof.
  intros He. destruct e as [| | | | | |ok fr|c|i| | | |]; simpl in He.
  - case_bool_decide; simplify_eq; auto.
  - case_bool_decide; simplify_eq; auto.
  - case_bool_decide; simplify_eq; auto 6.
  - case_bool_decide; simplify_eq; auto.
  - destruct (_ || _); simplify_eq; auto.
  - destruct (waiters l); [done|]. destruct (lock l); [done|]. simplify_eq. left.
    destruct (main_connected _); [done|]. simpl. unfold drop_stale. by destruct (published _).
  - destruct (lock l); [|done]. destruct (clients l !! fr); simplify_eq. left. apply creator_step_state.
  - destruct (clients l !! c); simplify_eq; auto.
  - destruct (closers l !! i) as [d|]; [|done]. pose proof (closer_step_state d l) as Hd.
    destruct (closer_step d l). simplify_eq. auto.
  - destruct (recovering l); try done. destruct (trigger l); simplify_eq; auto.
  - destruct (recovering l); simplify_eq; auto.
  - destruct (recovering l); try done. destruct (lock l); simplify_eq; auto.
  - destruct (recovering l); try done. destruct (stopped l); simplify_eq; auto.
Qed.

Lemma isolated_step l l' : link_step_rel l l' -> isolated l -> isolated l'.
Proof.
  intros [e He]. pose proof (link_step_state _ _ _ He) as Hst. unfold isolated at 1.
  intros [Hs|[Hs|(Hs & Hx & Hp & Hw & Hl & Ht & Hr & Hc & Hd)]].
  - left. destruct Hst as [|[[? _]|[[? _]|[? _]]]]; congruence.
  - right; left. destruct Hst as [|[[? _]|[[? _]|[? _]]]]; congruence.
  - unfold isolated. destruct e as [| | | | | |ok fr|c|i| | | |]; simpl in He;
      rewrite ?Hs, ?Hw, ?Hl, ?Hr, ?Ht, ?Hx in He; simpl in He; simplify_eq.
    + left. done.
    + destruct (clients l !! c); simplify_eq. right; right. split_and!; try done.
      intros d. simpl. rewrite elem_of_app, list_elem_of_singleton. intros [?| ->]; eauto.
    + destruct (closers l !! i) as [d|] eqn:Ei; [|done].
      destruct (Hd d) as [c ->]; [by eapply list_elem_of_lookup_2|].
      simpl in He. rewrite Hc in He. simplify_eq. right; right. split_and!; try done.
      intros d. simpl. rewrite (elem_of_replaced _ _ None _ _ Ei). intros [?|Hin]; [done|].
      apply Hd, (elem_of_delete_split _ _ _ _ Ei). by right.
Qed.

(** A connection lost just before the Node becomes operational is
    never restored.  [markDisconnected] asks for recovery only if the state is
    already Running; if it runs to its end while [Start] is finishing, the
    request is dropped, and afterwards [getRPCClient] refuses to connect to
    the main node in state Running.  The Node then runs without a connection
    to the main node, with no recovery pending, and that stays so in every
    state it can reach until it is stopped. *)
Theorem connection_lost_while_starting_stays_lost :
  exists l, link_run lost_early link_init = Some l /\ state l = Running /\
  forall l', steps link_step_rel l l' -> state l' = Running ->
    main_connected l' = false /\ trigger l' = false /\ recovering l' = RecIdle /\
    link_step LGet l' = None.
Proof.
  exists (mkLink Running {[0 := false]} None 0 None [] false RecIdle false 2).
  split; [vm_compute; reflexivity|]. split; [done|]. intros l' Hs Hrun.
  assert (isolated l') as [?|[?|(_ & _ & Hp & _ & _ & Ht & Hr & _ & _)]].
  { eapply (steps_invariant link_step_rel isolated); [apply isolated_step|exact Hs|].
    right; right. split_and!; try done.
    - intros c. unfold is_connected. simpl. destruct (decide (c = 0)) as [->|Hne]; [done|].
      by rewrite lookup_singleton_ne.
    - by intros d ?%elem_of_nil. }
  - congruence.
  - congruence.
  - split_and!; [by apply main_connected_unpublished|done|done|]. simpl. by rewrite Hrun.
Qed.

(** ** Witness *)

(** A clean start; then the connection breaks. *)
Definition lost_later : list link_event :=
  [LStart; LGet; LGetLock; LCreator true 0; LCreator true 1; LCreator true 1; LRun;
   LBreak 0; LCloser 0; LCloser 0; LCloser 0; LCloser 0].

Fixpoint clean_run (es : list link_event) l : bool :=
  match es with
  | [] => true
  | e :: es =>
      match e with LRun => main_connected l | _ => true end &&
      match link_step e l with Some l' => clean_run es l' | None => false end
  end.

Lemma clean_run_steps es l l' :
  link_run es l = Some l' -> clean_run es l = true -> steps clean_step l l'.
Proof.
  revert l. induction es as [|e es IH]; intros l; simpl; [intros [= <-] _; apply steps_refl|].
  destruct (link_step e l) as [l1|] eqn:E; [|done]. intros Hr [Hc Hrest]%andb_true_iff.
  eapply steps_trans; [|by apply IH]. exists e. split; [done|]. by intros ->.
Qed.

Lemma lost_main_is_attended_witness :
  exists l, link_run lost_later link_init = Some l /\ main_connected l = false /\ attended l.
Proof.
  eexists. split; [vm_compute; reflexivity|]. split; [vm_compute; reflexivity|].
  apply lost_main_is_attended; [|reflexivity|reflexivity].
  apply (clean_run_steps lost_later); vm_compute; reflexivity.
Defined.
