(* ===== verification/Lifecycle.v ===== *)
(** * Start, stop and rollback of a Node (node.go)

    [Start], [Stop] and [rollbackStart] as functions on the Node's state, the
    flags of its services and a log of what they do to the outside.  What the
    calls to the outside return (the services' hooks, the RPC server, the main
    node) is an [outside] record: each of these calls happens at most once in
    the life of a Node, so its result is a function of the service. *)

From stdpp Require Import base tactics list gmap sets strings.
From Stdlib Require Import ZArith Lia.
From S2P Require Import Prelude Errors Registry MainLink.
Local Open Scope string_scope.
Local Open Scope list_scope.

(** ** State *)

Inductive life_action :=
| RunLoop (k : ServiceKey)        (** [startFrameLoop] of a service *)
| HookStart (k : ServiceKey)      (** [service.Start] *)
| HookStop (k : ServiceKey)       (** [service.Stop] *)
| CloseLoop (k : ServiceKey)      (** [Loop().Close(false)] and [wg.Wait()] *)
| RequestRegister (k : ServiceKey)
| MarkRegistered (k : ServiceKey) (** [runtime.registered.Store(true)] *)
| RequestSubscriptions (k : ServiceKey)
| RequestUnregister (k : ServiceKey)
| OpenControl | CloseControl
| OpenRecovery | CloseRecovery
| OpenCallWheel | StopCalls | CloseCallWheel
| OpenServer | CloseServer
| CloseSessions                   (** clients and remote nodes *)
| ConnectMain
| CloseLogger.

#[export] Instance life_action_eq_dec : EqDecision life_action.
Proof. solve_decision. Defined.

Record node_life := mkLife {
  life : lifecycle;
  started : gset ServiceKey;      (** [runtime.started] *)
  registered : gset ServiceKey;   (** [runtime.registered] *)
  controlStarted : bool;
  callWheel : bool;               (** [serviceCallTimeWheel != nil] *)
  callTimersStopped : bool;       (** [serviceCallStop] is closed *)
  recoveryStopped : bool;         (** [mainRecoveryStop] is closed *)
  server : bool;                  (** [rpcServer != nil] *)
  loggerReleased : bool;
  log : list life_action
}.

Definition life_init : node_life :=
  mkLife Initial ∅ ∅ false false false false false false [].

(** How a hook of a service ends: [text] is what [%v] and the stack print. *)
Inductive hook_end := HookReturns (e : option error) | HookPanics (text : string).

(** [callOnLoop]: the caller waits for the hook and gets its error, or one for
    its panic. *)
Definition callOnLoop (h : hook_end) : option error :=
  match h with HookReturns e => e | HookPanics text => Some (EText ("panic: " +:+ text)) end.

(** What the calls to the outside return. *)
Record outside := mkOutside {
  o_server : bool;                            (** [rpcServer.Start()] *)
  o_main : option error;                      (** [mainClient()] *)
  start_hook : ServiceKey -> hook_end;        (** the Start hook, on the Loop of the service *)
  stop_hook : ServiceKey -> hook_end;
  o_register : ServiceKey -> option error;
  o_subscribe : ServiceKey -> option error;   (** [subscribeRuntime] *)
  o_unregister : ServiceKey -> option error
}.

Definition o_start (o : outside) (k : ServiceKey) : option error := callOnLoop (start_hook o k).
Definition o_stop (o : outside) (k : ServiceKey) : option error := callOnLoop (stop_hook o k).

Definition act (a : life_action) s : node_life :=
  mkLife (life s) (started s) (registered s) (controlStarted s) (callWheel s) (callTimersStopped s)
    (recoveryStopped s) (server s) (loggerReleased s) (log s ++ [a]).
Definition set_life x s : node_life :=
  mkLife x (started s) (registered s) (controlStarted s) (callWheel s) (callTimersStopped s)
    (recoveryStopped s) (server s) (loggerReleased s) (log s).
Definition set_started x s : node_life :=
  mkLife (life s) x (registered s) (controlStarted s) (callWheel s) (callTimersStopped s)
    (recoveryStopped s) (server s) (loggerReleased s) (log s).
Definition set_registered x s : node_life :=
  mkLife (life s) (started s) x (controlStarted s) (callWheel s) (callTimersStopped s)
    (recoveryStopped s) (server s) (loggerReleased s) (log s).
Definition set_control x s : node_life :=
  mkLife (life s) (started s) (registered s) x (callWheel s) (callTimersStopped s)
    (recoveryStopped s) (server s) (loggerReleased s) (log s).
Definition set_callWheel s : node_life :=
  mkLife (life s) (started s) (registered s) (controlStarted s) true (callTimersStopped s)
    (recoveryStopped s) (server s) (loggerReleased s) (log s).
Definition set_callTimersStopped s : node_life :=
  mkLife (life s) (started s) (registered s) (controlStarted s) (callWheel s) true
    (recoveryStopped s) (server s) (loggerReleased s) (log s).
Definition set_recoveryStopped s : node_life :=
  mkLife (life s) (started s) (registered s) (controlStarted s) (callWheel s) (callTimersStopped s)
    true (server s) (loggerReleased s) (log s).
Definition set_server x s : node_life :=
  mkLife (life s) (started s) (registered s) (controlStarted s) (callWheel s) (callTimersStopped s)
    (recoveryStopped s) x (loggerReleased s) (log s).
Definition set_loggerReleased s : node_life :=
  mkLife (life s) (started s) (registered s) (controlStarted s) (callWheel s) (callTimersStopped s)
    (recoveryStopped s) (server s) true (log s).

Section Lifecycle.
Context (id mainNodeID : Z) (listenAddr : string) (ownedLogger : bool).
Context (serviceOrder : list ServiceKey).
Implicit Types s : node_life.
Implicit Types o : outside.

Definition life_is_main : bool := bool_decide (id = mainNodeID).

(** ** The parts that are switched on and off *)

Definition startServiceCallTimeWheel s : node_life := set_callWheel (act OpenCallWheel s).

Definition stopServiceCallTimeWheel s : node_life :=
  let s := if callTimersStopped s then s else set_callTimersStopped (act StopCalls s) in
  if callWheel s then act CloseCallWheel s else s.

Definition startControlLoop s : node_life := set_control true (act OpenControl s).

Definition stopControlLoop s : node_life :=
  if controlStarted s then set_control false (act CloseControl s) else s.

Definition startMainRecoveryLoop s : node_life :=
  if life_is_main then s else act OpenRecovery s.

Definition stopMainRecovery s : node_life :=
  if recoveryStopped s then s else set_recoveryStopped (act CloseRecovery s).

Definition startRPCServer o s : node_life * option error :=
  let s := set_server true (act OpenServer s) in
  if o_server o then (s, None)
  else (s, Some (EText ("start node " +:+ fmt_d id +:+ " rpc server at " +:+ listenAddr))).

Definition closeNetwork s : node_life :=
  let s := act CloseSessions s in
  if server s then set_server false (act CloseServer s) else s.

Definition releaseLogger s : node_life :=
  if loggerReleased s then s
  else set_loggerReleased (if ownedLogger then act CloseLogger s else s).

(** ** Services *)

(** The Loop has begun to run when it returns. *)
Definition startFrameLoop (k : ServiceKey) s : node_life := act (RunLoop k) s.

Definition startService o (k : ServiceKey) s : node_life * option error :=
  let s := act (HookStart k) (startFrameLoop k s) in
  match o_start o k with
  | Some err =>
      let s := act (CloseLoop k) (act (HookStop k) s) in
      match o_stop o k with
      | Some rollbackErr =>
          (s, Join [err; prefixf "rollback failed service start: " rollbackErr])
      | None => (s, Some err)
      end
  | None => (set_started ({[k]} ∪ started s) s, None)
  end.

Definition stopService o (k : ServiceKey) s : node_life * option error :=
  if bool_decide (k ∈ started s)
  then (set_started (started s ∖ {[k]}) (act (CloseLoop k) (act (HookStop k) s)), o_stop o k)
  else (s, None).

(** The loops of [Stop] and [rollbackStart] over [serviceOrder], last service
    first, with the errors that [Stop] collects. *)
Definition unregister_one o (k : ServiceKey) s : node_life * list error :=
  if bool_decide (k ∈ registered s)
  then (set_registered (registered s ∖ {[k]}) (act (RequestUnregister k) s),
        match o_unregister o k with
        | Some err => if Is err ErrServiceNotFound then [] else [err]
        | None => []
        end)
  else (s, []).

Fixpoint unregister_all o (ks : list ServiceKey) s : node_life * list error :=
  match ks with
  | [] => (s, [])
  | k :: ks =>
      let '(s, errs) := unregister_one o k s in
      let '(s, errs') := unregister_all o ks s in
      (s, errs ++ errs')
  end.

Fixpoint stop_all o (ks : list ServiceKey) s : node_life * list error :=
  match ks with
  | [] => (s, [])
  | k :: ks =>
      let '(s, err) := stopService o k s in
      let '(s, errs') := stop_all o ks s in
      (s, option_list err ++ errs')
  end.

(** The part that [Stop] and [rollbackStart] share. *)
Definition shutdown o s : node_life * list error :=
  let s := stopMainRecovery (stopServiceCallTimeWheel s) in
  let '(s, errs) := unregister_all o (rev serviceOrder) s in
  let s := stopControlLoop (closeNetwork s) in
  let '(s, errs') := stop_all o (rev serviceOrder) s in
  (releaseLogger (set_life Stopped s), errs ++ errs').

(** ** Start and Stop *)

Definition rollbackStart o s : node_life := fst (shutdown o s).

Fixpoint start_services o (ks : list ServiceKey) s : node_life * option error :=
  match ks with
  | [] => (set_life Running s, None)
  | k :: ks =>
      match startService o k s with
      | (s, Some err) =>
          (rollbackStart o s, Some (prefixf ("start service " +:+ ServiceKey_String k +:+ ": ") err))
      | (s, None) =>
          let s := act (RequestRegister k) s in
          match o_register o k with
          | Some err =>
              (rollbackStart o s, Some (prefixf ("register service " +:+ ServiceKey_String k +:+ ": ") err))
          | None =>
              let s := act (RequestSubscriptions k)
                         (set_registered ({[k]} ∪ registered s) (act (MarkRegistered k) s)) in
              match o_subscribe o k with
              | Some err =>
                  (rollbackStart o s, Some (prefixf ("subscribe service " +:+ ServiceKey_String k +:+ ": ") err))
              | None => start_services o ks s
              end
          end
      end
  end.

Definition Start o s : node_life * option error :=
  if bool_decide (life s = Initial) then
    let s := set_life Starting (startServiceCallTimeWheel s) in
    let s := startMainRecoveryLoop (startControlLoop s) in
    match startRPCServer o s with
    | (s, Some err) => (rollbackStart o s, Some err)
    | (s, None) =>
        if life_is_main then start_services o serviceOrder s
        else
          let s := act ConnectMain s in
          match o_main o with
          | Some err =>
              (rollbackStart o s, Some (prefixf ("register node " +:+ fmt_d id +:+ ": ") err))
          | None => start_services o serviceOrder s
          end
    end
  else (s, Some (ESentinel ErrNodeRunning)).

Definition Stop o s : node_life * option error :=
  match life s with
  | Initial => (releaseLogger (stopServiceCallTimeWheel (set_life Stopped s)), None)
  | Running =>
      let '(s, errs) := shutdown o (set_life Stopping s) in (s, Join errs)
  | Stopped => (releaseLogger s, None)
  | Starting | Stopping => (s, Some (ESentinel ErrNodeStopped))
  end.

(** Whether the Node takes calls. *)
Definition operational s : bool := bool_decide (life s = Starting) || bool_decide (life s = Running).

(** The guard of [newServiceCallTimer]. *)
Definition newServiceCallTimer s : option error :=
  if negb (operational s) || negb (callWheel s) then Some (ESentinel ErrNodeStopped) else None.

(** ** What the log shows of the services *)

Definition as_run (a : life_action) : option ServiceKey := match a with RunLoop k => Some k | _ => None end.
Definition as_start (a : life_action) : option ServiceKey := match a with HookStart k => Some k | _ => None end.
Definition as_stop (a : life_action) : option ServiceKey := match a with HookStop k => Some k | _ => None end.
Definition as_close (a : life_action) : option ServiceKey := match a with CloseLoop k => Some k | _ => None end.
Definition as_mark (a : life_action) : option ServiceKey := match a with MarkRegistered k => Some k | _ => None end.
Definition as_unregister (a : life_action) : option ServiceKey :=
  match a with RequestUnregister k => Some k | _ => None end.

Definition seen (f : life_action -> option ServiceKey) s : list ServiceKey := omap f (log s).

Definition acts (l : list life_action) s : node_life :=
  mkLife (life s) (started s) (registered s) (controlStarted s) (callWheel s) (callTimersStopped s)
    (recoveryStopped s) (server s) (loggerReleased s) (log s ++ l).

Lemma acts_nil s : acts [] s = s.
Proof. destruct s. unfold acts. simpl. by rewrite app_nil_r. Qed.

Definition live_in (b : gset ServiceKey) (ks : list ServiceKey) : list ServiceKey :=
  filter (.∈ b) ks.

Lemma live_in_app b l1 l2 : live_in b (l1 ++ l2) = live_in b l1 ++ live_in b l2.
Proof. apply filter_app. Qed.

Lemma live_in_all b l : (forall k, k ∈ l -> k ∈ b) -> live_in b l = l.
Proof.
  unfold live_in. induction l as [|k l IH]; intros Hl; [done|].
  rewrite filter_cons_True by (apply Hl; set_solver). f_equal. apply IH. set_solver.
Qed.

Lemma live_in_none b l : (forall k, k ∈ l -> k ∉ b) -> live_in b l = [].
Proof.
  unfold live_in. induction l as [|k l IH]; intros Hl; [done|].
  rewrite filter_cons_False by (apply Hl; set_solver). apply IH. set_solver.
Qed.

Lemma live_in_remove b k ks : k ∉ ks -> live_in (b ∖ {[k]}) ks = live_in b ks.
Proof.
  intros Hk. unfold live_in. induction ks as [|k' ks IH]; [done|].
  apply not_elem_of_cons in Hk as [Hne Hk]. rewrite !filter_cons, IH by done.
  repeat case_decide; set_solver.
Qed.

Lemma stop_all_spec o ks s :
  NoDup ks ->
  stop_all o ks s =
    (set_started (started s ∖ list_to_set ks)
       (acts (live_in (started s) ks ≫= (fun k => [HookStop k; CloseLoop k])) s),
     omap (o_stop o) (live_in (started s) ks)).
Proof.
  revert s; induction ks as [|k ks IH]; intros s Hnd.
  - simpl. rewrite acts_nil. f_equal. destruct s; unfold set_started; simpl. f_equal. set_solver.
  - apply NoDup_cons in Hnd as [Hk Hnd]. simpl. unfold stopService.
    unfold live_in at 1 2. rewrite !filter_cons. case_bool_decide as Hin.
    + rewrite IH by done. rewrite !decide_True by done. simpl.
      rewrite live_in_remove by done. f_equal.
      * unfold set_started, acts; simpl. f_equal; [set_solver|]. by rewrite <- !app_assoc.
      * destruct (o_stop o k); done.
    + rewrite IH by done. rewrite !decide_False by done. simpl. f_equal.
      unfold set_started, acts; simpl. f_equal. set_solver.
Qed.

Definition unregister_error o (k : ServiceKey) : option error :=
  match o_unregister o k with
  | Some err => if Is err ErrServiceNotFound then None else Some err
  | None => None
  end.

Lemma unregister_all_spec o ks s :
  NoDup ks ->
  unregister_all o ks s =
    (set_registered (registered s ∖ list_to_set ks)
       (acts (live_in (registered s) ks ≫= (fun k => [RequestUnregister k])) s),
     omap (unregister_error o) (live_in (registered s) ks)).
Proof.
  revert s; induction ks as [|k ks IH]; intros s Hnd.
  - simpl. rewrite acts_nil. f_equal. destruct s; unfold set_registered; simpl. f_equal. set_solver.
  - apply NoDup_cons in Hnd as [Hk Hnd]. simpl. unfold unregister_one.
    unfold live_in at 1 2. rewrite !filter_cons. case_bool_decide as Hin.
    + rewrite IH by done. rewrite !decide_True by done. simpl.
      rewrite live_in_remove by done. f_equal.
      * unfold set_registered, acts; simpl. f_equal; [set_solver|]. by rewrite <- !app_assoc.
      * unfold unregister_error at 2. destruct (o_unregister o k) as [err|]; [|done].
        by destruct (Is err ErrServiceNotFound).
    + rewrite IH by done. rewrite !decide_False by done. simpl. f_equal.
      unfold set_registered, acts; simpl. f_equal. set_solver.
Qed.

Lemma omap_bind_actions {B} (f : life_action -> option B) (g : ServiceKey -> list life_action)
    (h : ServiceKey -> list B) (ks : list ServiceKey) :
  (forall k, omap f (g k) = h k) -> omap f (ks ≫= g) = ks ≫= h.
Proof.
  intros Hgh. induction ks as [|k ks IH]; [done|]. rewrite !bind_cons, omap_app, Hgh. by rewrite IH.
Qed.

Lemma bind_singleton (ks : list ServiceKey) : (ks ≫= fun k => [k]) = ks.
Proof. induction ks as [|k ks IH]; [done|]. by rewrite bind_cons, IH. Qed.

Lemma bind_none {A B} (ks : list A) : (ks ≫= fun _ => @nil B) = [].
Proof. induction ks as [|k ks IH]; [done|]. by rewrite bind_cons, IH. Qed.

(** A view of the log that shows only what concerns single services. *)
Definition service_view (f : life_action -> option ServiceKey) : Prop :=
  Forall (fun a => f a = None)
    [OpenControl; CloseControl; OpenRecovery; CloseRecovery; OpenCallWheel; StopCalls;
     CloseCallWheel; OpenServer; CloseServer; CloseSessions; ConnectMain; CloseLogger].

Lemma service_views :
  Forall service_view [as_run; as_start; as_stop; as_close; as_mark; as_unregister].
Proof. repeat constructor. Qed.

Lemma seen_act f a s : seen f (act a s) = seen f s ++ option_list (f a).
Proof. unfold seen; simpl. rewrite omap_app. simpl. by destruct (f a). Qed.

Lemma seen_acts f l s : seen f (acts l s) = seen f s ++ omap f l.
Proof. apply omap_app. Qed.

(** What [idle] leaves is a Node that holds nothing any more. *)
Definition idle s : Prop :=
  life s = Stopped /\ started s = ∅ /\ registered s = ∅ /\ controlStarted s = false /\
  server s = false /\ callTimersStopped s = true /\ loggerReleased s = true.

(** The service flags lie in [serviceOrder]. *)
Definition flags_in_order s : Prop :=
  started s ⊆ list_to_set serviceOrder /\ registered s ⊆ list_to_set serviceOrder.

Lemma shutdown_life o s : life (fst (shutdown o s)) = Stopped.
Proof.
  unfold shutdown. destruct (unregister_all _ _ _), (stop_all _ _ _). simpl.
  unfold releaseLogger. by repeat case_match.
Qed.

Section Shutdown.
Hypothesis order_NoDup : NoDup serviceOrder.

Lemma rev_order_NoDup : NoDup (rev serviceOrder).
Proof. by rewrite <- Permutation_rev. Qed.

Lemma shutdown_errors o s :
  snd (shutdown o s) =
    omap (unregister_error o) (live_in (registered s) (rev serviceOrder)) ++
    omap (o_stop o) (live_in (started s) (rev serviceOrder)).
Proof.
  unfold shutdown. rewrite unregister_all_spec by apply rev_order_NoDup.
  rewrite stop_all_spec by apply rev_order_NoDup. simpl.
  unfold stopMainRecovery, stopServiceCallTimeWheel, stopControlLoop, closeNetwork.
  by repeat (case_match; simpl in * ).
Qed.

Lemma shutdown_seen f o s :
  service_view f ->
  seen f (fst (shutdown o s)) =
    seen f s ++
    omap f (live_in (registered s) (rev serviceOrder) ≫= fun k => [RequestUnregister k]) ++
    omap f (live_in (started s) (rev serviceOrder) ≫= fun k => [HookStop k; CloseLoop k]).
Proof.
  unfold service_view. intros Hf. decompose_Forall_hyps.
  unfold shutdown. rewrite unregister_all_spec by apply rev_order_NoDup.
  rewrite stop_all_spec by apply rev_order_NoDup.
  unfold stopMainRecovery, stopServiceCallTimeWheel, stopControlLoop, closeNetwork, releaseLogger, seen.
  repeat (case_match; simpl in * ); rewrite !omap_app; simpl;
    repeat match goal with H : f _ = None |- _ => rewrite H; clear H end;
    by rewrite ?app_nil_r, <- ?app_assoc.
Qed.

(** What [shutdown] adds to each view. *)
Lemma shutdown_views o s :
  let s' := fst (shutdown o s) in
  let down := live_in (started s) (rev serviceOrder) in
  seen as_run s' = seen as_run s /\ seen as_start s' = seen as_start s /\
  seen as_stop s' = seen as_stop s ++ down /\ seen as_close s' = seen as_close s ++ down /\
  seen as_mark s' = seen as_mark s /\
  seen as_unregister s' = seen as_unregister s ++ live_in (registered s) (rev serviceOrder).
Proof.
  assert (Hv := service_views). rewrite !Forall_cons in Hv.
  destruct Hv as (? & ? & ? & ? & ? & ? & _). simpl.
  rewrite !shutdown_seen by done.
  split_and!;
    repeat first [ rewrite (omap_bind_actions _ _ (fun _ => [])) by done
                 | rewrite (omap_bind_actions _ _ (fun k => [k])) by done ];
    by rewrite ?bind_singleton, ?bind_none, ?app_nil_r.
Qed.

Lemma shutdown_idle o s : flags_in_order s -> idle (fst (shutdown o s)).
Proof.
  intros [Hs Hr]. unfold shutdown. rewrite unregister_all_spec by apply rev_order_NoDup.
  rewrite stop_all_spec by apply rev_order_NoDup.
  unfold stopMainRecovery, stopServiceCallTimeWheel, stopControlLoop, closeNetwork, releaseLogger, idle.
  assert (list_to_set (rev serviceOrder) = (list_to_set serviceOrder : gset ServiceKey)) as ->
    by (apply leibniz_equiv; by rewrite <- Permutation_rev).
  apply subseteq_empty_difference_L in Hs, Hr.
  repeat (case_match; simpl in * ); done.
Qed.

(** The services that are still to be stopped, last one first. *)
Lemma live_in_prefix pre rest :
  serviceOrder = pre ++ rest -> live_in (list_to_set pre) (rev serviceOrder) = rev pre.
Proof.
  intros Heq. assert (Hnd := order_NoDup). rewrite Heq in Hnd |- *.
  apply NoDup_app in Hnd as (_ & Hdis & _). rewrite rev_app_distr, live_in_app.
  rewrite (live_in_none _ (rev rest)), (live_in_all _ (rev pre)); [done|..];
    intros k; rewrite <- Permutation_rev, elem_of_list_to_set; naive_solver.
Qed.

(** ** The life of a Node *)

Record life_balanced s : Prop := {
  bal_runs : seen as_run s = seen as_start s;
  bal_closes : seen as_close s = seen as_stop s;
  bal_starts : exists rest, serviceOrder = seen as_start s ++ rest;
  bal_state : match life s with
              | Initial => s = life_init
              | Running => seen as_start s = serviceOrder /\ seen as_stop s = [] /\
                           seen as_mark s = serviceOrder /\ seen as_unregister s = [] /\
                           started s = list_to_set serviceOrder /\
                           registered s = list_to_set serviceOrder
              | Stopped => seen as_stop s = rev (seen as_start s) /\
                           seen as_unregister s = rev (seen as_mark s) /\ idle s
              | Starting | Stopping => False
              end }.

(** A Node on its way up or down: the services [d] run and wait for their
    stop, the services [r] are registered. *)
Record in_flight (d r : list ServiceKey) s : Prop := {
  fl_runs : seen as_run s = seen as_start s;
  fl_closes : seen as_close s = seen as_stop s;
  fl_starts : exists rest, serviceOrder = seen as_start s ++ rest;
  fl_d : exists rest, serviceOrder = d ++ rest;
  fl_r : exists rest, serviceOrder = r ++ rest;
  fl_started : started s = list_to_set d;
  fl_registered : registered s = list_to_set r;
  fl_stops : seen as_stop s ++ rev d = rev (seen as_start s);
  fl_marks : seen as_mark s = r;
  fl_unregisters : seen as_unregister s = [] }.

Lemma in_flight_shutdown o d r s : in_flight d r s -> life_balanced (fst (shutdown o s)).
Proof.
  intros [Hruns Hcloses [rest Hst] [rd Hd] [rr Hr] Hstarted Hreg Hstops Hmarks Hunreg].
  assert (Hidle : idle (fst (shutdown o s))).
  { apply shutdown_idle. split; rewrite ?Hstarted, ?Hreg, ?Hd; [set_solver|].
    rewrite <- Hd, Hr. set_solver. }
  destruct (shutdown_views o s) as (E1 & E2 & E3 & E4 & E5 & E6).
  rewrite Hstarted, (live_in_prefix d rd Hd) in E3, E4.
  rewrite Hreg, (live_in_prefix r rr Hr) in E6.
  split; [congruence|congruence|exists rest; congruence|].
  destruct Hidle as (Hl & Hidle). rewrite Hl. split_and!; [congruence| |by split].
  rewrite E6, E5, Hunreg, Hmarks. done.
Qed.

(** The steps of the boot loop for the service [k] after those in [d]. *)
Ltac in_flight_step :=
  match goal with
  | Hord : serviceOrder = ?d ++ ?k :: ?ks, Hfl : in_flight _ _ _ |- _ =>
      destruct Hfl as [Hruns Hcloses _ _ _ Hst Hrg Hstops Hmarks Hunreg];
      unfold seen in *; constructor; unfold seen; simpl;
      rewrite ?omap_app; simpl; rewrite ?app_nil_r;
      first [ congruence
            | (exists ks; by rewrite <- app_assoc) | (exists (k :: ks); done)
            | (rewrite ?Hst, ?Hrg, list_to_set_app_L; set_solver)
            | idtac ]
  end.

Section Boot.
Context (o : outside) (d ks : list ServiceKey) (k : ServiceKey) (s : node_life).
Hypothesis Hord : serviceOrder = d ++ k :: ks.
Hypothesis Hnone : seen as_stop s = [].

Lemma up_starts d' r : in_flight d' r s -> seen as_start s = d'.
Proof.
  intros Hfl. pose proof (fl_stops _ _ _ Hfl) as Hs. rewrite Hnone in Hs. simpl in Hs.
  by rewrite <- (rev_involutive d'), Hs, rev_involutive.
Qed.

Lemma boot_refused :
  in_flight d d s ->
  in_flight d d (act (CloseLoop k) (act (HookStop k) (act (HookStart k) (act (RunLoop k) s)))).
Proof.
  intros Hfl. pose proof (up_starts _ _ Hfl) as Hup.
  in_flight_step; rewrite ?Hup, ?Hnone, ?rev_app_distr;
    first [ done | exists ks; by rewrite <- app_assoc ].
Qed.

Lemma boot_started :
  in_flight d d s ->
  in_flight (d ++ [k]) d
    (act (RequestRegister k) (set_started ({[k]} ∪ started s) (act (HookStart k) (act (RunLoop k) s)))).
Proof.
  intros Hfl. pose proof (up_starts _ _ Hfl) as Hup.
  in_flight_step; rewrite ?Hup, ?Hnone, ?rev_app_distr;
    first [ done | exists ks; by rewrite <- app_assoc ].
Qed.

Lemma boot_registered :
  in_flight (d ++ [k]) d s ->
  in_flight (d ++ [k]) (d ++ [k])
    (act (RequestSubscriptions k) (set_registered ({[k]} ∪ registered s) (act (MarkRegistered k) s))).
Proof.
  intros Hfl. pose proof (up_starts _ _ Hfl) as Hup.
  in_flight_step; rewrite ?Hup, ?Hnone, ?rev_app_distr;
    first [ done | exists ks; by rewrite <- app_assoc ].
Qed.
End Boot.

(** The boot loop over the services [ks] that follow those in [d]. *)
Lemma start_services_balanced o ks d s :
  serviceOrder = d ++ ks -> in_flight d d s -> seen as_stop s = [] ->
  life_balanced (fst (start_services o ks s)) /\
  life (fst (start_services o ks s)) =
    match snd (start_services o ks s) with None => Running | Some _ => Stopped end.
Proof.
  revert d s. induction ks as [|k ks IH]; intros d s Hord Hfl Hnone; simpl.
  - rewrite app_nil_r in Hord. subst d. split; [|done].
    pose proof (up_starts _ Hnone _ _ Hfl) as Hup. destruct Hfl.
    by constructor.
  - pose proof (boot_refused d ks k s Hord Hnone Hfl) as Hrefused.
    pose proof (boot_started d ks k s Hord Hnone Hfl) as Hstarted.
    assert (Hreg := Hstarted). apply (boot_registered d ks k) in Hreg;
      [|done|unfold seen in *; simpl; by rewrite !omap_app, Hnone].
    unfold startService, rollbackStart.
    destruct (o_start o k) as [err|].
    { destruct (o_stop o k); simpl; (split; [by eapply in_flight_shutdown | by rewrite shutdown_life]). }
    simpl. destruct (o_register o k) as [err|]; simpl.
    { split; [by eapply in_flight_shutdown | by rewrite shutdown_life]. }
    destruct (o_subscribe o k) as [err|]; simpl.
    { split; [by eapply in_flight_shutdown | by rewrite shutdown_life]. }
    apply (IH (d ++ [k])); [by rewrite <- app_assoc|done|].
    unfold seen in *; simpl. rewrite !omap_app, Hnone. done.
Qed.

(** ** Histories

    The calls of [Start] and [Stop] on a Node, one after the other.  A [Stop]
    that meets a Node that is still starting returns without touching it, so a
    [Start] is one step. *)

Inductive life_call := CStart | CStop.

Definition life_step o (c : life_call) s : node_life :=
  match c with CStart => fst (Start o s) | CStop => fst (Stop o s) end.

Lemma stop_while_busy o s :
  life s = Starting \/ life s = Stopping -> Stop o s = (s, Some (ESentinel ErrNodeStopped)).
Proof. unfold Stop. by intros [-> | ->]. Qed.

Lemma balanced_init : life_balanced life_init.
Proof. constructor; try done. by exists serviceOrder. Qed.

(** A Node between [Start]'s checks and its first service. *)
Lemma in_flight_boot s :
  seen as_run s = [] -> seen as_start s = [] -> seen as_stop s = [] -> seen as_close s = [] ->
  seen as_mark s = [] -> seen as_unregister s = [] -> started s = ∅ -> registered s = ∅ ->
  in_flight [] [] s.
Proof.
  intros H1 H2 H3 H4 H5 H6 H7 H8. constructor; rewrite ?H1, ?H2, ?H3, ?H4, ?H5, ?H6, ?H7, ?H8;
    first [ done | by exists serviceOrder ].
Qed.

Lemma Start_balanced o s :
  life_balanced s -> life s = Initial ->
  life_balanced (fst (Start o s)) /\
  life (fst (Start o s)) = match snd (Start o s) with None => Running | Some _ => Stopped end.
Proof.
  intros [_ _ _ Hst] Hl. rewrite Hl in Hst. subst s.
  unfold Start. rewrite bool_decide_eq_true_2 by done.
  unfold startMainRecoveryLoop, startRPCServer, rollbackStart.
  destruct life_is_main; destruct (o_server o); [|..|destruct (o_main o)|]; simpl;
    first [ split; [|by rewrite shutdown_life]; apply (in_flight_shutdown _ [] [])
          | apply (start_services_balanced _ _ []); [done| |] ];
    try apply in_flight_boot; done.
Qed.

Lemma releaseLogger_idle s : idle s -> releaseLogger s = s.
Proof. intros (_ & _ & _ & _ & _ & _ & Hrel). unfold releaseLogger. by rewrite Hrel. Qed.

Lemma running_in_flight s x :
  life_balanced s -> life s = Running -> in_flight serviceOrder serviceOrder (set_life x s).
Proof.
  intros [Hruns Hcl _ Hst] Hl. rewrite Hl in Hst. destruct Hst as (Hs & Hn & Hm & Hu & Hst & Hr).
  constructor; try done; unfold seen in *; simpl;
    first [ exists []; by rewrite ?Hs, app_nil_r | by rewrite ?Hs, ?Hn ].
Qed.

Lemma Stop_balanced o s : life_balanced s -> life_balanced (fst (Stop o s)).
Proof.
  intros Hb. unfold Stop. destruct (life s) eqn:Hl; try done.
  - destruct Hb as [_ _ _ Hst]. rewrite Hl in Hst. subst s.
    unfold releaseLogger. destruct ownedLogger; constructor; try done; by exists serviceOrder.
  - destruct (shutdown o (set_life Stopping s)) as [s' errs] eqn:E. simpl.
    change s' with (fst (s', errs)). rewrite <- E.
    eapply in_flight_shutdown. by apply running_in_flight.
  - by rewrite releaseLogger_idle by (pose proof (bal_state _ Hb) as Hst; rewrite Hl in Hst; apply Hst).
Qed.

Definition life_run (h : list (outside * life_call)) : node_life :=
  foldl (fun s '(o, c) => life_step o c s) life_init h.

Lemma life_run_balanced h : life_balanced (life_run h).
Proof.
  unfold life_run. generalize balanced_init. generalize life_init.
  induction h as [|[o c] h IH]; intros s Hs; [done|]. simpl. apply IH.
  destruct c; simpl; [|by apply Stop_balanced].
  destruct (decide (life s = Initial)) as [Hl|Hl]; [by apply Start_balanced|].
  unfold Start. by rewrite bool_decide_eq_false_2.
Qed.

(** When the boot loop comes through. *)
Definition boots o (k : ServiceKey) : Prop :=
  o_start o k = None /\ o_register o k = None /\ o_subscribe o k = None.

Lemma start_services_result o ks s :
  snd (start_services o ks s) = None <-> Forall (boots o) ks.
Proof.
  revert s. induction ks as [|k ks IH]; intros s; simpl; [split; [constructor|done]|].
  rewrite Forall_cons. unfold startService, boots at 1.
  destruct (o_start o k); [destruct (o_stop o k); simpl; naive_solver|]. simpl.
  destruct (o_register o k); simpl; [naive_solver|].
  destruct (o_subscribe o k); simpl; [naive_solver|]. rewrite IH. naive_solver.
Qed.

(** C19 (safety). Whatever the services' hooks, the RPC server and the main
    node answer, and however [Start] and [Stop] are called: the Loops that ran
    are those of the services whose Start hook was called, an initial part of
    the service order; a Loop is closed when its service's Stop hook has been
    called, and once the Node is stopped every service whose Start hook was
    called, the one that failed included, has had its Stop hook called exactly
    once, in reverse order, every registration has been withdrawn in reverse
    order, and the control Loop, the RPC server, pending calls and the logger
    are released. *)
Theorem services_stop_in_reverse (h : list (outside * life_call)) :
  let s := life_run h in
  seen as_run s = seen as_start s /\
  seen as_close s = seen as_stop s /\
  (exists rest, serviceOrder = seen as_start s ++ rest) /\
  match life s with
  | Initial => log s = []
  | Running => seen as_start s = serviceOrder /\ seen as_stop s = [] /\
               seen as_mark s = serviceOrder /\ seen as_unregister s = []
  | Stopped => seen as_stop s = rev (seen as_start s) /\
               seen as_unregister s = rev (seen as_mark s) /\ idle s
  | Starting | Stopping => False
  end.
Proof.
  intros s. destruct (life_run_balanced h : life_balanced s) as [Hr Hc Hp Hst].
  split_and!; [done..|].
  destruct (life s); try done; [by rewrite Hst|by destruct Hst as (? & ? & ? & ? & _)].
Qed.

(** When [Start] of a fresh Node succeeds. *)
Lemma Start_succeeds o :
  snd (Start o life_init) = None <->
  o_server o = true /\ (life_is_main = true \/ o_main o = None) /\ Forall (boots o) serviceOrder.
Proof.
  unfold Start. rewrite bool_decide_eq_true_2 by done. unfold startRPCServer, startMainRecoveryLoop.
  destruct (o_server o), life_is_main; [..|simpl; naive_solver|simpl; naive_solver];
    rewrite <- ?start_services_result; [naive_solver|].
  destruct (o_main o); simpl; naive_solver.
Qed.

(** C27 (functional). [Start] of a fresh Node succeeds, and leaves it running
    with every service started and registered, exactly when the RPC server
    starts, the main node can be reached (on a node that is not the main node)
    and every service's Start hook, registration and subscriptions succeed;
    otherwise the Node ends stopped and holds nothing.  A second [Start] is
    refused and changes nothing. *)
Theorem start_all_or_nothing o o' :
  let '(s, err) := Start o life_init in
  (err = None <->
     o_server o = true /\ (life_is_main = true \/ o_main o = None) /\ Forall (boots o) serviceOrder) /\
  match err with
  | None => life s = Running /\ started s = list_to_set serviceOrder /\
            registered s = list_to_set serviceOrder
  | Some _ => idle s
  end /\
  Start o' s = (s, Some (ESentinel ErrNodeRunning)).
Proof.
  pose proof (Start_balanced o life_init balanced_init eq_refl) as [Hb Hl].
  pose proof (Start_succeeds o) as Hiff.
  destruct (Start o life_init) as [s err]. simpl in *.
  pose proof (bal_state _ Hb) as Hst. rewrite Hl in Hst.
  split; [done|]. unfold Start. rewrite bool_decide_eq_false_2 by (rewrite Hl; by destruct err).
  destruct err; split; try done; naive_solver.
Qed.

(** [Stop] of a running Node returns the join of every error
    of the withdrawals (those that find no registration any more apart) and of
    the Stop hooks, both taken in reverse service order, and nil when there is
    none: no error of a service keeps the others from being stopped.  A second
    [Stop] returns nil and changes nothing. *)
Theorem stop_reports_every_error o o' o'' :
  snd (Start o life_init) = None ->
  let '(s, err) := Stop o' (fst (Start o life_init)) in
  err = Join (omap (unregister_error o') (rev serviceOrder) ++ omap (o_stop o') (rev serviceOrder)) /\
  idle s /\ Stop o'' s = (s, None).
Proof.
  intros Hok. destruct (Start_balanced o life_init balanced_init eq_refl) as [Hb Hl].
  rewrite Hok in Hl. pose proof (Stop_balanced o' _ Hb) as Hb'.
  pose proof (bal_state _ Hb) as Hst. rewrite Hl in Hst.
  unfold Stop in Hb' |- * at 1. rewrite Hl in Hb' |- *.
  pose proof (shutdown_errors o' (set_life Stopping (fst (Start o life_init)))) as He.
  pose proof (shutdown_life o' (set_life Stopping (fst (Start o life_init)))) as Hl'.
  destruct (shutdown o' _) as [s errs]. simpl in *. subst errs.
  destruct Hst as (_ & _ & _ & _ & -> & ->). rewrite !(live_in_prefix _ []) by (by rewrite app_nil_r).
  pose proof (bal_state _ Hb') as Hst'. rewrite Hl' in Hst'.
  split_and!; [done|naive_solver|]. unfold Stop. rewrite Hl'. f_equal. apply releaseLogger_idle. naive_solver.
Qed.

End Shutdown.

End Lifecycle.

(** ** The theorems at work *)

Definition demo_gate : ServiceKey := mkServiceKey "gate" 1.
Definition demo_game : ServiceKey := mkServiceKey "game" 1.

(** A main node whose second service refuses to start. *)
Definition game_refuses : outside :=
  mkOutside true None
    (fun k => if decide (k = demo_game) then HookPanics "no port" else HookReturns None)
    (fun _ => HookReturns None) (fun _ => None) (fun _ => None) (fun _ => None).

(** A world in which every call succeeds, except that stopping reports errors. *)
Definition stops_badly : outside :=
  mkOutside true None (fun _ => HookReturns None) (fun k => HookReturns (Some (EText (Name k))))
    (fun _ => None) (fun _ => None)
    (fun k => if decide (k = demo_gate) then Some (ESentinel ErrServiceNotFound) else None).

Lemma demo_order_NoDup : NoDup [demo_gate; demo_game].
Proof. repeat constructor; set_solver. Qed.

Lemma services_stop_in_reverse_witness :
  let s := life_run 1 1 "127.0.0.1:7001" false [demo_gate; demo_game] [(game_refuses, CStart); (stops_badly, CStop)] in
  seen as_start s = [demo_gate; demo_game] /\ seen as_stop s = rev (seen as_start s).
Proof.
  intros s.
  destruct (services_stop_in_reverse 1 1 "127.0.0.1:7001" false [demo_gate; demo_game] demo_order_NoDup
              [(game_refuses, CStart); (stops_badly, CStop)]) as (_ & _ & _ & Hs).
  split; [reflexivity|apply Hs].
Defined.

Lemma start_all_or_nothing_witness :
  let '(s, err) := Start 1 1 "127.0.0.1:7001" false [demo_gate; demo_game] game_refuses life_init in
  err <> None /\ idle s.
Proof.
  pose proof (start_all_or_nothing 1 1 "127.0.0.1:7001" false [demo_gate; demo_game] demo_order_NoDup
                game_refuses game_refuses) as H.
  destruct (Start _ _ _ _ _ _ _) as [s [err|]]; [split; [done|apply H]|].
  destruct H as [[Hi _] _]. destruct (Hi eq_refl) as (_ & _ & Hf).
  rewrite !Forall_cons in Hf. destruct Hf as (_ & (Hs & _) & _). discriminate.
Defined.

Lemma stop_reports_every_error_witness :
  snd (Start 1 1 "127.0.0.1:7001" false [demo_gate; demo_game] stops_badly life_init) = None /\
  snd (Stop false [demo_gate; demo_game] stops_badly
         (fst (Start 1 1 "127.0.0.1:7001" false [demo_gate; demo_game] stops_badly life_init))) =
    Some (EJoin [EText "game"; EText "gate"]).
Proof.
  split; [reflexivity|].
  pose proof (stop_reports_every_error 1 1 "127.0.0.1:7001" false [demo_gate; demo_game] demo_order_NoDup
                stops_badly stops_badly stops_badly eq_refl) as H.
  destruct (Stop _ _ _ _) as [s err]. destruct H as [-> _]. reflexivity.
Defined.
