(* ===== verification/Construct.v ===== *)
(** * Construction of a Node (node.go, logger.go)

    The options of a Node, [NewNode] with the checks on them, the process-wide
    logger it installs and takes back when construction fails, and the loop
    that asks the factories for the configured services.

    Loggers and Loops are pointers, compared by identity: a number each.
    A factory is application code: a function of the service's configuration
    and of the process (the logger and the Loops it allocates) it runs in. *)

From stdpp Require Import base tactics list gmap sets strings.
From Stdlib Require Import ZArith Lia.
From S2P Require Import Prelude GoString Errors Registry RouteCache Config Service MainLink Lifecycle.
Local Open Scope string_scope.
Local Open Scope Z_scope.

(** ** Process *)

Record process := mkProcess {
  xtnet_logger : option nat;   (** [xtnet.GetLogger()] *)
  next_logger : nat;           (** the next logger [xtlog.NewLogger] allocates *)
  next_loop : nat;             (** the next Loop [frame.NewLoop] allocates *)
  closed_loggers : list nat
}.

Definition SetLogger (l : option nat) (p : process) : process :=
  mkProcess l (next_logger p) (next_loop p) (closed_loggers p).

Definition CloseLog (l : nat) (p : process) : process :=
  mkProcess (xtnet_logger p) (next_logger p) (next_loop p) (closed_loggers p ++ [l]).

(** What NewNode looks at in a service. *)
Record service := mkService { sv_Name : string; sv_ID : Z; sv_Loop : option nat }.

Definition Factory : Type := ServiceConfig -> process -> process * res (option service).

(** ** Options *)

Definition defaultRouteCacheTTL : Z := 3600 * 10 ^ 9.
Definition defaultServiceCallTimeout : Z := 3 * 10 ^ 9.
Definition defaultHeartbeatInterval : Z := 3 * 10 ^ 9.
Definition defaultHeartbeatTimeout : Z := 2 * 10 ^ 9.

Section Construct.
Context `{UnicodeTables} `{XtLog} {R : Type}.

Record nodeOptions := mkOptions {
  opt_factories : option (FactoryRegistry Factory);
  opt_registry : option R;
  opt_logger : option nat;
  opt_connectTimeout : Z;
  opt_routeCacheTTL : Z;
  opt_routeCacheEnabled : bool;
  opt_serviceCallTimeout : Z;
  opt_serviceCallTimeoutSet : bool;
  opt_heartbeatInterval : Z;
  opt_heartbeatTimeout : Z
}.

Inductive NodeOption :=
| WithFactoryRegistry (registry : option (FactoryRegistry Factory))
| WithServiceRegistry (registry : option R)
| WithLogger (logger : option nat)
| WithConnectTimeout (timeout : Z)
| WithHeartbeat (interval timeout : Z)
| WithServiceCallTimeout (timeout : Z)
| WithRouteCacheTTL (ttl : Z)
| WithRouteCacheDisabled
| WithErrorHandler.

Definition apply_option (o : nodeOptions) (opt : NodeOption) : nodeOptions :=
  let '(mkOptions f r l ct ttl en st set hi ht) := o in
  match opt with
  | WithFactoryRegistry f => mkOptions f r l ct ttl en st set hi ht
  | WithServiceRegistry r => mkOptions f r l ct ttl en st set hi ht
  | WithLogger l => mkOptions f r l ct ttl en st set hi ht
  | WithConnectTimeout ct => mkOptions f r l ct ttl en st set hi ht
  | WithHeartbeat hi ht => mkOptions f r l ct ttl en st set hi ht
  | WithServiceCallTimeout st => mkOptions f r l ct ttl en st true hi ht
  | WithRouteCacheTTL ttl => mkOptions f r l ct ttl en st set hi ht
  | WithRouteCacheDisabled => mkOptions f r l ct ttl false st set hi ht
  | WithErrorHandler => o
  end.

(** A nil option is skipped. *)
Definition apply_options (o : nodeOptions) (opts : list (option NodeOption)) : nodeOptions :=
  foldl (fun o opt => match opt with Some opt => apply_option o opt | None => o end) o opts.

Definition default_options (defaultFactories : FactoryRegistry Factory) (memory : R) : nodeOptions :=
  mkOptions (Some defaultFactories) (Some memory) None (5 * 10 ^ 9) defaultRouteCacheTTL true
    defaultServiceCallTimeout false defaultHeartbeatInterval defaultHeartbeatTimeout.

(** The checks in front of everything that has an effect. *)
Definition check_options (o : nodeOptions) : option error :=
  if bool_decide (opt_factories o = None) then Some (EText "factory registry is nil")
  else if bool_decide (opt_registry o = None) then Some (EText "service registry is nil")
  else if opt_connectTimeout o <=? 0 then Some (EText "connect timeout must be positive")
  else if opt_heartbeatInterval o <=? 0 then Some (EText "heartbeat interval must be positive")
  else if opt_heartbeatTimeout o <=? 0 then Some (EText "heartbeat timeout must be positive")
  else if opt_heartbeatInterval o <=? opt_heartbeatTimeout o
  then Some (EText "heartbeat timeout must be shorter than heartbeat interval")
  else if opt_routeCacheTTL o <? 0 then Some (EText "route cache TTL must not be negative")
  else if opt_serviceCallTimeoutSet o && (opt_serviceCallTimeout o <=? 0)
  then Some (EText "service call timeout must be positive")
  else None.

(** The timeout of the configuration counts unless an option has set one. *)
Definition effective_call_timeout (o : nodeOptions) (nodeConfig : NodeConfig) : Z :=
  if negb (opt_serviceCallTimeoutSet o) && (0 <? ServiceCallTimeout nodeConfig)
  then ServiceCallTimeout nodeConfig else opt_serviceCallTimeout o.

(** ** The Node *)

Record new_node := mkNewNode {
  nd_id : Z;
  nd_mainNodeID : Z;
  nd_config : Config;
  nd_nodeConfig : NodeConfig;
  nd_connectTimeout : Z;
  nd_serviceCallTimeout : Z;
  nd_heartbeatInterval : Z;
  nd_heartbeatTimeout : Z;
  nd_remoteHeartbeatTimeout : Z;
  nd_logger : nat;
  nd_ownedLogger : option nat;
  nd_factories : option (FactoryRegistry Factory);
  nd_serviceOrder : list ServiceKey;
  nd_localServices : gmap ServiceKey service;
  nd_registry : option R;
  nd_controlLoop : nat;
  nd_routeCache : serviceRouteCache;
  nd_life : node_life
}.

(** [time.Duration] is an int64. *)
Definition remote_heartbeat_timeout (interval timeout : Z) : Z :=
  wrap_signed 64 (wrap_signed 64 (interval + timeout) + Z.quot interval 3).

(** ** Services *)

Record built := mkBuilt {
  b_order : list ServiceKey;
  b_services : gmap ServiceKey service;
  b_loops : gmap nat ServiceKey
}.

(** One round of the loop over [nodeConfig.Services]. *)
Definition build_service (fs : FactoryRegistry Factory) (cfg : ServiceConfig) (b : built) (p : process)
  : process * res built :=
  match GetFactory (sc_Name cfg) fs with
  | None => (p, Err (wrapf (ESentinel ErrFactoryNotFound) (": " +:+ sc_Name cfg)))
  | Some factory =>
      let '(p, r) := factory cfg p in
      match r with
      | Err err =>
          (p, Err (prefixf ("create service " +:+ sc_Name cfg +:+ ":" +:+ fmt_d (sc_ID cfg) +:+ ": ") err))
      | Ok None =>
          (p, Err (EText ("factory " +:+ Quote (sc_Name cfg) +:+ " returned a nil service or loop")))
      | Ok (Some svc) =>
          match sv_Loop svc with
          | None =>
              (p, Err (EText ("factory " +:+ Quote (sc_Name cfg) +:+ " returned a nil service or loop")))
          | Some loop =>
              let key := mkServiceKey (sc_Name cfg) (sc_ID cfg) in
              if negb (bool_decide (sv_Name svc = Name key)) || negb (sv_ID svc =? ID key)
              then (p, Err (EText ("factory " +:+ Quote (sc_Name cfg) +:+ " returned service "
                                   +:+ sv_Name svc +:+ ":" +:+ fmt_d (sv_ID svc) +:+ ", want "
                                   +:+ ServiceKey_String key)))
              else match b_loops b !! loop with
                   | Some owner =>
                       (p, Err (EText ("services " +:+ ServiceKey_String owner +:+ " and "
                                       +:+ ServiceKey_String key +:+ " share one loop")))
                   | None =>
                       (p, Ok (mkBuilt (b_order b ++ [key]) (<[key := svc]> (b_services b))
                                 (<[loop := key]> (b_loops b))))
                   end
          end
      end
  end.

Fixpoint build_services (fs : FactoryRegistry Factory) (cfgs : list ServiceConfig) (b : built)
    (p : process) : process * res built :=
  match cfgs with
  | [] => (p, Ok b)
  | cfg :: cfgs =>
      match build_service fs cfg b p with
      | (p, Err e) => (p, Err e)
      | (p, Ok b) => build_services fs cfgs b p
      end
  end.

(** ** Loggers *)

(** [newXTNetLogger] *)
Definition newXTNetLogger (config : LoggerConfig) (p : process) : process * res nat :=
  match parseLogLevel (Level config) with
  | Err e => (p, Err e)
  | Ok _ =>
      (mkProcess (xtnet_logger p) (S (next_logger p)) (next_loop p) (closed_loggers p),
       Ok (next_logger p))
  end.

(** The logger of the Node, and whether the Node owns it. *)
Definition choose_logger (o : nodeOptions) (nodeConfig : NodeConfig) (nodeID : Z) (p : process)
  : process * res (nat * option nat) :=
  match opt_logger o with
  | Some l => (p, Ok (l, None))
  | None =>
      match Logger nodeConfig with
      | None => (p, Err (EText ("node " +:+ fmt_d nodeID
                                +:+ " logger config is required when WithLogger is not provided")))
      | Some config =>
          match newXTNetLogger config p with
          | (p, Err e) => (p, Err (prefixf ("create node " +:+ fmt_d nodeID +:+ " logger: ") e))
          | (p, Ok l) => (p, Ok (l, Some l))
          end
      end
  end.

(** The deferred function of a construction that has not succeeded. *)
Definition undo_logger (nativeLogger : nat) (ownedLogger previousLogger : option nat) (p : process)
  : process :=
  let p := if bool_decide (xtnet_logger p = Some nativeLogger) then SetLogger previousLogger p else p in
  match ownedLogger with Some l => CloseLog l p | None => p end.

(** ** NewNode *)

(** The part after the logger is installed; [check_options] has found the
    factories. *)
Definition construct (o : nodeOptions) (config : Config) (nodeConfig : NodeConfig) (nodeID : Z)
    (nativeLogger : nat) (ownedLogger : option nat) (p : process) : process * res new_node :=
  let controlLoop := next_loop p in
  let p := mkProcess (xtnet_logger p) (next_logger p) (S (next_loop p)) (closed_loggers p) in
  match opt_factories o with
  | None => (p, Err (EText "factory registry is nil"))
  | Some fs =>
      match build_services fs (Services nodeConfig) (mkBuilt [] ∅ ∅) p with
      | (p, Err e) => (p, Err e)
      | (p, Ok b) =>
          (p, Ok (mkNewNode nodeID (MainNode config) config nodeConfig (opt_connectTimeout o)
                    (effective_call_timeout o nodeConfig) (opt_heartbeatInterval o) (opt_heartbeatTimeout o)
                    (remote_heartbeat_timeout (opt_heartbeatInterval o) (opt_heartbeatTimeout o))
                    nativeLogger ownedLogger (opt_factories o) (b_order b) (b_services b)
                    (opt_registry o) controlLoop
                    (newServiceRouteCache (opt_routeCacheTTL o) (opt_routeCacheEnabled o)) life_init))
      end
  end.

(** The configuration is normalized in place, also when construction fails;
    [Validate] refuses a nil configuration. *)
Definition NewNode (defaultFactories : FactoryRegistry Factory) (memory : R) (config : option Config)
    (nodeID : Z) (opts : list (option NodeOption)) (p : process) : process * option Config * res new_node :=
  match Validate config with
  | (config, Some err) => (p, config, Err err)
  | (None, None) => (p, None, Err (EText "config is nil"))
  | (Some config, None) =>
      match Config.Node (Some config) nodeID with
      | None => (p, Some config, Err (wrapf (ESentinel ErrNodeNotFound) (": id=" +:+ fmt_d nodeID)))
      | Some nodeConfig =>
          let o := apply_options (default_options defaultFactories memory) opts in
          match check_options o with
          | Some err => (p, Some config, Err err)
          | None =>
              match choose_logger o nodeConfig nodeID p with
              | (p, Err err) => (p, Some config, Err err)
              | (p, Ok (nativeLogger, ownedLogger)) =>
                  let previousLogger := xtnet_logger p in
                  let p := SetLogger (Some nativeLogger) p in
                  match construct o config nodeConfig nodeID nativeLogger ownedLogger p with
                  | (p, Err err) =>
                      (undo_logger nativeLogger ownedLogger previousLogger p, Some config, Err err)
                  | (p, Ok n) => (p, Some config, Ok n)
                  end
              end
          end
      end
  end.

(** ** What construction yields *)

Record built_ok (cfgs : list ServiceConfig) (b : built) : Prop := {
  bo_order : b_order b = map sc_key cfgs;
  bo_dom : dom (b_services b) = list_to_set (b_order b);
  bo_service : forall k s, b_services b !! k = Some s ->
    sv_Name s = Name k /\ sv_ID s = ID k /\
    exists loop, sv_Loop s = Some loop /\ b_loops b !! loop = Some k }.

Lemma build_service_ok fs cfgs cfg b b' p p' :
  built_ok cfgs b -> build_service fs cfg b p = (p', Ok b') -> built_ok (cfgs ++ [cfg]) b'.
Proof.
  intros [Ho Hd Hs]. unfold build_service.
  destruct (GetFactory _ _) as [f|]; [|done]. destruct (f cfg p) as [p1 [[svc|]|]]; try done.
  destruct (sv_Loop svc) as [loop|] eqn:El; [|done]. simpl.
  destruct (_ || _) eqn:Ek; [done|]. destruct (b_loops b !! loop) eqn:Eo; [done|].
  intros [= _ <-]. bool_prop. constructor; simpl.
  - by rewrite Ho, map_app.
  - rewrite dom_insert_L, Hd, list_to_set_app_L. set_solver.
  - intros k s [[<- <-]|[Hne Hk]]%lookup_insert_Some.
    + split_and!; [done..|]. exists loop. by rewrite lookup_insert_eq.
    + destruct (Hs k s Hk) as (? & ? & loop' & ? & Hl). split_and!; [done..|]. exists loop'.
      split; [done|]. rewrite lookup_insert_ne; [done|]. congruence.
Qed.

Definition quiet (fs : FactoryRegistry Factory) : Prop :=
  forall name f cfg p, GetFactory name fs = Some f ->
    xtnet_logger (fst (f cfg p)) = xtnet_logger p /\ next_logger (fst (f cfg p)) = next_logger p /\
    closed_loggers (fst (f cfg p)) = closed_loggers p.

Definition same_loggers (p p' : process) : Prop :=
  xtnet_logger p' = xtnet_logger p /\ next_logger p' = next_logger p /\
  closed_loggers p' = closed_loggers p.

Lemma build_services_quiet fs cfgs b p :
  quiet fs -> same_loggers p (fst (build_services fs cfgs b p)).
Proof.
  intros Hq. revert b p. induction cfgs as [|cfg cfgs IH]; intros b p; simpl; [done|].
  assert (Hstep : same_loggers p (fst (build_service fs cfg b p))).
  { unfold build_service. destruct (GetFactory _ _) as [f|] eqn:Ef; [|done].
    pose proof (Hq _ _ cfg p Ef) as Hf. destruct (f cfg p) as [p1 r]. by repeat case_match. }
  destruct (build_service fs cfg b p) as [p1 [b1|e]]; [|done].
  destruct (IH b1 p1) as (? & ? & ?), Hstep as (? & ? & ?). simpl in *. repeat split; congruence.
Qed.

Lemma build_services_ok fs cfgs cfgs' b b' p p' :
  built_ok cfgs b -> build_services fs cfgs' b p = (p', Ok b') -> built_ok (cfgs ++ cfgs') b'.
Proof.
  revert cfgs b p. induction cfgs' as [|cfg cfgs' IH]; intros cfgs b p Hb; simpl.
  - rewrite app_nil_r. by intros [= _ <-].
  - destruct (build_service fs cfg b p) as [p1 [b1|e]] eqn:E; [|done].
    intros Hrest. rewrite cons_middle, app_assoc. eapply IH; [|done].
    by eapply build_service_ok.
Qed.

Lemma apply_options_unset o opts :
  opt_serviceCallTimeoutSet (apply_options o opts) = false ->
  opt_serviceCallTimeout (apply_options o opts) = opt_serviceCallTimeout o.
Proof.
  revert o. induction opts as [|[opt|] opts IH] using rev_ind; intros o; [done|..];
    unfold apply_options; rewrite foldl_app; simpl; fold (apply_options o opts); [|by apply IH].
  destruct opt; try done; specialize (IH o); destruct (apply_options o opts); simpl in *; auto. done.
Qed.

Lemma check_options_ok o :
  check_options o = None ->
  0 < opt_connectTimeout o /\ 0 < opt_heartbeatTimeout o < opt_heartbeatInterval o /\
  0 <= opt_routeCacheTTL o /\
  (opt_serviceCallTimeoutSet o = true -> 0 < opt_serviceCallTimeout o).
Proof.
  unfold check_options. intros Hc. repeat case_match; try done. bool_prop.
  destruct (opt_serviceCallTimeoutSet o); simpl in *; bool_prop; lia.
Qed.

Lemma call_timeout_positive fs m opts nc :
  let o := apply_options (default_options fs m) opts in
  check_options o = None -> 0 < effective_call_timeout o nc.
Proof.
  intros o Ho. apply check_options_ok in Ho as (_ & _ & _ & Hset). unfold effective_call_timeout.
  pose proof (apply_options_unset (default_options fs m) opts) as Hunset. fold o in Hunset.
  destruct (opt_serviceCallTimeoutSet o); simpl; [by apply Hset|].
  destruct (0 <? ServiceCallTimeout nc) eqn:E; bool_prop; [done|]. by rewrite Hunset.
Qed.

Lemma remote_timeout_covers interval timeout :
  0 < timeout < interval -> interval <= 2 ^ 61 ->
  interval + timeout <= remote_heartbeat_timeout interval timeout.
Proof.
  intros Ht Hi. unfold remote_heartbeat_timeout.
  assert (0 <= Z.quot interval 3 <= interval).
  { rewrite Z.quot_div_nonneg by lia. split; [apply Z.div_pos; lia|apply Z.div_le_upper_bound; lia]. }
  rewrite (wrap_signed_id 64 (interval + timeout)) by (unfold in_signed; lia).
  rewrite wrap_signed_id by (unfold in_signed; lia). lia.
Qed.

Lemma validated_order_NoDup c c' id nc :
  Validate c = (Some c', None) -> Config.Node (Some c') id = Some nc ->
  NoDup (map sc_key (Services nc)).
Proof.
  destruct c as [c|]; [|done]. intros [-> (_ & Hn & _)]%Validate_spec. unfold Config.Node.
  intros [Hin _]%find_some. simpl in Hin. apply in_map_iff in Hin as (n & <- & Hin).
  rewrite Forall_forall in Hn. apply list_elem_of_In in Hin.
  destruct (Hn n Hin) as (_ & _ & _ & _ & _ & Hnd). simpl. by rewrite map_map.
Qed.

(** A Node fit to be started. *)
Record well_formed (id : Z) (c : Config) (n : new_node) : Prop := {
  wf_id : nd_id n = id /\ nd_mainNodeID n = MainNode c;
  wf_config : Config.Node (Some c) id = Some (nd_nodeConfig n);
  wf_order : nd_serviceOrder n = map sc_key (Services (nd_nodeConfig n));
  wf_NoDup : NoDup (nd_serviceOrder n);
  wf_services : dom (nd_localServices n) = list_to_set (nd_serviceOrder n);
  wf_keys : forall k s, nd_localServices n !! k = Some s ->
    sv_Name s = Name k /\ sv_ID s = ID k /\ is_Some (sv_Loop s);
  wf_loops : forall k1 k2 s1 s2,
    nd_localServices n !! k1 = Some s1 -> nd_localServices n !! k2 = Some s2 ->
    sv_Loop s1 = sv_Loop s2 -> k1 = k2;
  wf_timeouts : 0 < nd_connectTimeout n /\ 0 < nd_serviceCallTimeout n /\
    0 < nd_heartbeatTimeout n < nd_heartbeatInterval n /\ 0 <= ttl (nd_routeCache n);
  wf_remote : nd_heartbeatInterval n <= 2 ^ 61 ->
    nd_heartbeatInterval n + nd_heartbeatTimeout n <= nd_remoteHeartbeatTimeout n;
  wf_life : nd_life n = life_init }.

Lemma construct_ok fs m opts c c' nc id native owned p p' n :
  let o := apply_options (default_options fs m) opts in
  Validate c = (Some c', None) -> Config.Node (Some c') id = Some nc -> check_options o = None ->
  construct o c' nc id native owned p = (p', Ok n) -> well_formed id c' n.
Proof.
  intros o Hv Hn Ho. unfold construct. destruct (opt_factories o) as [fs'|]; [|done].
  destruct (build_services _ _ _ _) as [p1 [b|]] eqn:Eb; [|done]. intros [= _ <-].
  apply (build_services_ok _ []) in Eb as [Bo Bd Bs]; [|by constructor].
  simpl in Bo. pose proof (check_options_ok o Ho) as (? & Hhb & ? & _).
  constructor; simpl; try done.
  - rewrite Bo. by eapply validated_order_NoDup.
  - intros k s Hk. destruct (Bs k s Hk) as (? & ? & loop & ? & _). by rewrite H4.
  - intros k1 k2 s1 s2 H1' H2' Heq.
    destruct (Bs _ _ H1') as (_ & _ & l1 & E1 & L1), (Bs _ _ H2') as (_ & _ & l2 & E2 & L2). congruence.
  - pose proof (call_timeout_positive fs m opts nc Ho). done.
  - by apply remote_timeout_covers.
Qed.

(** Every logger allocated since [p] is closed. *)
Definition loggers_undone (p p' : process) : Prop :=
  xtnet_logger p' = xtnet_logger p /\
  closed_loggers p' = (closed_loggers p ++ seq (next_logger p) (next_logger p' - next_logger p))%list.

Lemma choose_logger_spec o nc id p :
  let '(p1, r) := choose_logger o nc id p in
  xtnet_logger p1 = xtnet_logger p /\ closed_loggers p1 = closed_loggers p /\
  match r with
  | Ok (l, Some l') => l = next_logger p /\ l' = next_logger p /\ next_logger p1 = S (next_logger p)
  | Ok (_, None) | Err _ => next_logger p1 = next_logger p
  end.
Proof. unfold choose_logger, newXTNetLogger. repeat (case_match; simplify_eq); done. Qed.

Lemma construct_same_loggers o c nc id native owned p :
  (forall fs, opt_factories o = Some fs -> quiet fs) ->
  same_loggers p (fst (construct o c nc id native owned p)).
Proof.
  intros Hq. unfold construct. destruct (opt_factories o) as [fs|]; [|done].
  pose proof (build_services_quiet fs (Services nc) (mkBuilt [] ∅ ∅)
    (mkProcess (xtnet_logger p) (next_logger p) (S (next_loop p)) (closed_loggers p))
    (Hq _ eq_refl)) as Hs.
  by destruct (build_services _ _ _ _) as [p1 [b|]].
Qed.

(** The Node is built by [construct], with its logger installed. *)
Lemma NewNode_Ok fs m c id opts p p' c' n :
  NewNode fs m c id opts p = (p', c', Ok n) ->
  exists c0 nc p1 native owned, let o := apply_options (default_options fs m) opts in
    c' = Some c0 /\ Validate c = (Some c0, None) /\ Config.Node (Some c0) id = Some nc /\ check_options o = None /\
    choose_logger o nc id p = (p1, Ok (native, owned)) /\
    construct o c0 nc id native owned (SetLogger (Some native) p1) = (p', Ok n).
Proof.
  unfold NewNode. destruct (Validate c) as [[c0|] [err|]] eqn:Ev; try done.
  destruct (Config.Node (Some c0) id) as [nc|] eqn:En; [|done].
  set (o := apply_options _ _) in *. destruct (check_options o) as [err|] eqn:Eo; [done|].
  destruct (choose_logger o nc id p) as [p1 [[native owned]|err]] eqn:El; [|done].
  destruct (construct _ _ _ _ _ _ _) as [p2 [n'|err]] eqn:Ec; [|done]. intros [= <- <- <-].
  by exists c0, nc, p1, native, owned.
Qed.

Lemma NewNode_well_formed fs m c id opts p p' c' n :
  NewNode fs m c id opts p = (p', c', Ok n) -> exists c0, c' = Some c0 /\ Validate c = (Some c0, None) /\ well_formed id c0 n.
Proof.
  intros (c0 & nc & p1 & native & owned & -> & Hv & Hn & Ho & _ & Hc)%NewNode_Ok.
  exists c0. split_and!; [done..|]. by eapply construct_ok.
Qed.

(** A construction that fails leaves the loggers as they were. *)
Lemma NewNode_Err fs m c id opts p p' c' e :
  (forall f, opt_factories (apply_options (default_options fs m) opts) = Some f -> quiet f) ->
  NewNode fs m c id opts p = (p', c', Err e) -> loggers_undone p p'.
Proof.
  intros Hq. unfold NewNode.
  assert (Hsame : loggers_undone p p).
  { unfold loggers_undone. by rewrite Nat.sub_diag, app_nil_r. }
  destruct (Validate c) as [[c0|] [err|]] eqn:Ev; try (by intros [= <- _ _]).
  destruct (Config.Node (Some c0) id) as [nc|] eqn:En; [|by intros [= <- _ _]].
  set (o := apply_options _ _) in *. destruct (check_options o) as [err|] eqn:Eo; [by intros [= <- _ _]|].
  pose proof (choose_logger_spec o nc id p) as Hl.
  destruct (choose_logger o nc id p) as [p1 [[native owned]|err]].
  - destruct Hl as (Hl1 & Hl2 & Hl3).
    pose proof (construct_same_loggers o c0 nc id native owned (SetLogger (Some native) p1) Hq) as Hc.
    destruct (construct _ _ _ _ _ _ _) as [p2 [n|err]] eqn:Ec; [done|]. intros [= <- _ _].
    destruct Hc as (C1 & C2 & C3); simpl in *.
    unfold undo_logger, loggers_undone. rewrite bool_decide_eq_true_2 by done.
    destruct owned as [l|]; simpl; rewrite ?C2, ?C3.
    + destruct Hl3 as (-> & -> & ->). rewrite Nat.sub_succ_l, Nat.sub_diag by lia. by rewrite Hl2.
    + rewrite Hl3, Nat.sub_diag, app_nil_r. done.
  - intros [= <- _ _]. destruct Hl as (? & ? & Hx). unfold loggers_undone.
    rewrite Hx, Nat.sub_diag, app_nil_r. done.
Qed.

(** Closing the logger a new Node owns closes all that were opened for it. *)
Definition loggers_closed (p p' : process) : Prop :=
  closed_loggers p' = (closed_loggers p ++ seq (next_logger p) (next_logger p' - next_logger p))%list.

Definition close_owned (n : new_node) (p : process) : process :=
  match nd_ownedLogger n with Some l => CloseLog l p | None => p end.

Lemma NewNode_loggers fs m c id opts p p' c' n :
  (forall f, opt_factories (apply_options (default_options fs m) opts) = Some f -> quiet f) ->
  NewNode fs m c id opts p = (p', c', Ok n) -> loggers_closed p (close_owned n p').
Proof.
  intros Hq (c0 & nc & p1 & native & owned & _ & _ & _ & _ & Hl & Hc)%NewNode_Ok.
  pose proof (choose_logger_spec (apply_options (default_options fs m) opts) nc id p) as Hp1. rewrite Hl in Hp1.
  pose proof (construct_same_loggers _ c0 nc id native owned (SetLogger (Some native) p1) Hq) as Hsame.
  rewrite Hc in Hsame. destruct Hp1 as (_ & Hp1 & Hp2), Hsame as (_ & S2 & S3); simpl in *.
  assert (nd_ownedLogger n = owned) as Ho by (unfold construct in Hc; by repeat (case_match; simplify_eq)).
  unfold loggers_closed, close_owned. rewrite Ho. destruct owned as [l|]; simpl; rewrite S2, S3, Hp1.
  - destruct Hp2 as (_ & -> & ->). by rewrite Nat.sub_succ_l, Nat.sub_diag by lia.
  - by rewrite Hp2, Nat.sub_diag, app_nil_r.
Qed.

(** C26 (functional). [NewNode] either returns a Node fit to be started: its
    services are those of its configuration, in that order, without
    duplicates, each under its own name and id and with a Loop of its own,
    every timeout is positive, and the main node waits for a heartbeat at
    least as long as the node takes to notice that one failed; then the
    process logs through the Node's logger.  Or it fails, and, when the
    factories leave the loggers alone, the process logger is the one from
    before and every logger opened on the way is closed. *)
Theorem new_node_all_or_nothing fs m c id opts p :
  (forall f, opt_factories (apply_options (default_options fs m) opts) = Some f -> quiet f) ->
  match NewNode fs m c id opts p with
  | (p', Some c', Ok n) => Validate c = (Some c', None) /\ well_formed id c' n /\
                           xtnet_logger p' = Some (nd_logger n) /\ closed_loggers p' = closed_loggers p
  | (_, None, Ok _) => False
  | (p', _, Err _) => loggers_undone p p'
  end.
Proof.
  intros Hq. destruct (NewNode fs m c id opts p) as [[p' c'] [n|e]] eqn:E; [|destruct c'; by eapply NewNode_Err].
  pose proof (NewNode_well_formed _ _ _ _ _ _ _ _ _ E) as (c0 & -> & Hv & Hwf).
  apply NewNode_Ok in E as (c1 & nc & p1 & native & owned & [= <-] & _ & _ & _ & Hl & Hc).
  pose proof (choose_logger_spec (apply_options (default_options fs m) opts) nc id p) as Hp1. rewrite Hl in Hp1.
  pose proof (construct_same_loggers _ c0 nc id native owned (SetLogger (Some native) p1) Hq) as Hsame.
  rewrite Hc in Hsame. destruct Hp1 as (_ & Hp1 & _), Hsame as (S1 & _ & S3); simpl in *.
  split_and!; [done..| |congruence]. rewrite S1. unfold construct in Hc. by repeat (case_match; simplify_eq).
Qed.

End Construct.

(** ** The theorem at work *)

Section Samples.
#[local] Existing Instance ascii_tables.
#[local] Existing Instance sample_xtlog.

(** A factory that embeds a [BaseService]: a fresh Loop for each service. *)
Definition sample_factory : Factory := fun cfg p =>
  (mkProcess (xtnet_logger p) (next_logger p) (S (next_loop p)) (closed_loggers p),
   Ok (Some (mkService (sc_Name cfg) (sc_ID cfg) (Some (next_loop p))))).

Definition sample_factories : FactoryRegistry Factory := mkFactories {["room" := sample_factory]}.

Definition fresh_process : process := mkProcess None 0 0 [].

Lemma sample_factories_quiet : quiet sample_factories.
Proof.
  intros name f cfg p Hf. unfold GetFactory, sample_factories in Hf. simpl in Hf.
  apply lookup_singleton_Some in Hf as [_ <-]. done.
Qed.

(** Node 2 of the sample configuration is built, node 1 lacks a factory. *)
Lemma new_node_all_or_nothing_witness :
  (exists p' c' n, NewNode sample_factories NewMemoryRegistry (Some sample_config) 2 [] fresh_process
                   = (p', Some c', Ok n) /\ well_formed 2 c' n) /\
  (exists p' c' e, NewNode sample_factories NewMemoryRegistry (Some sample_config) 1 [] fresh_process
                   = (p', c', Err e) /\ loggers_undone fresh_process p' /\ closed_loggers p' = [0%nat]).
Proof.
  split.
  - pose proof (new_node_all_or_nothing sample_factories NewMemoryRegistry (Some sample_config) 2 []
                  fresh_process) as H.
    destruct (NewNode _ _ _ 2 _ _) as [[p' [c'|]] [n|e]] eqn:E; vm_compute in E; try discriminate.
    exists p', c', n. split; [done|]. apply H. intros f [= <-]. apply sample_factories_quiet.
  - pose proof (new_node_all_or_nothing sample_factories NewMemoryRegistry (Some sample_config) 1 []
                  fresh_process) as H.
    destruct (NewNode _ _ _ 1 _ _) as [[p' c'] [n|e]] eqn:E; vm_compute in E; [discriminate|].
    exists p', c', e. split; [done|]. injection E as <- <- <-.
    split; [|done]. apply H. intros f [= <-]. apply sample_factories_quiet.
Defined.

End Samples.
