(* ===== verification/Heartbeat.v ===== *)
(** * Heartbeats of a client connection (rpc_client.go)

    [startHeartbeat], [scheduleHeartbeat], [sendHeartbeat] and
    [handleHeartbeatResult] of one RPCClient as a transition system.  They run
    on the control Loop of the Node; the connection can end at any moment on
    another goroutine, the timer posts its function to the Loop, and the
    answer of a probe is posted to the Loop by the goroutine that reads it.
    What the other side makes of the times is in [SessionTimer]. *)

From stdpp Require Import base tactics list numbers.
From Stdlib Require Import ZArith Lia.
From S2P Require Import Prelude.
Local Open Scope list_scope.

(** ** State *)

(** Functions posted to the control Loop. *)
Inductive hb_task :=
| HStart                 (** the function of [startHeartbeat] *)
| HSend                  (** the timer has fired: [sendHeartbeat] *)
| HResult (failed : bool).

(** What the Loop is about to do: start the timer after the test
    [Connected()], or issue the request after setting [heartbeatPending]. *)
Inductive hb_micro := HSchedule | HRequest.

Record hb := mkHb {
  connected : bool;
  heartbeatPending : bool;
  timer : bool;                (** the timer is running *)
  queue : list hb_task;        (** the client's functions in the control queue *)
  loop : option hb_micro;
  in_flight : nat;             (** heartbeat requests without an answer *)
  stoppers : nat               (** goroutines in [markDisconnected] before [heartbeatTimer.Stop] *)
}.

(** [getRPCClient] has published the client and calls [startHeartbeat]. *)
Definition hb_init : hb := mkHb true false false [HStart] None 0 0.

Implicit Types c : hb.

Definition with_connected x c := mkHb x (heartbeatPending c) (timer c) (queue c) (loop c) (in_flight c) (stoppers c).
Definition with_pending x c := mkHb (connected c) x (timer c) (queue c) (loop c) (in_flight c) (stoppers c).
Definition with_timer x c := mkHb (connected c) (heartbeatPending c) x (queue c) (loop c) (in_flight c) (stoppers c).
Definition with_queue x c := mkHb (connected c) (heartbeatPending c) (timer c) x (loop c) (in_flight c) (stoppers c).
Definition with_loop x c := mkHb (connected c) (heartbeatPending c) (timer c) (queue c) x (in_flight c) (stoppers c).
Definition with_flight x c := mkHb (connected c) (heartbeatPending c) (timer c) (queue c) (loop c) x (stoppers c).
Definition with_stoppers x c := mkHb (connected c) (heartbeatPending c) (timer c) (queue c) (loop c) (in_flight c) x.

Definition post_task (t : hb_task) c : hb := with_queue (queue c ++ [t]) c.

(** ** The functions of the Loop *)

(** [markDisconnected]: the first goroutine goes on to stop the timer. *)
Definition markDisconnected c : hb :=
  if connected c then with_stoppers (S (stoppers c)) (with_connected false c) else c.

Definition handleHeartbeatResult (failed : bool) c : hb :=
  if heartbeatPending c then
    let c := with_pending false c in
    if negb (connected c) then c
    else if failed then markDisconnected c
    else with_loop (Some HSchedule) c
  else c.

Definition run_task (t : hb_task) c : hb :=
  match t with
  | HStart => if connected c then with_loop (Some HSchedule) c else c
  | HSend =>
      if negb (connected c) || heartbeatPending c then c
      else with_loop (Some HRequest) (with_pending true c)
  | HResult failed => handleHeartbeatResult failed c
  end.

(** [sent]: [requestAsync] found a session and issued the request. *)
Definition run_micro_step (m : hb_micro) (sent : bool) c : hb :=
  let c := with_loop None c in
  match m with
  | HSchedule => with_timer true c
  | HRequest =>
      if connected c && sent then with_flight (S (in_flight c)) c
      else handleHeartbeatResult true c
  end.

(** ** Events *)

Inductive hb_event :=
| HTake                 (** the Loop takes the next function *)
| HGo (sent : bool)     (** the Loop goes on *)
| HFire                 (** the timer fires *)
| HAnswer (failed : bool) (** a request is answered, or fails, or expires *)
| HBreak                (** the connection breaks, or the Node closes it *)
| HStopTimer.           (** a goroutine in [markDisconnected] stops the timer *)

Definition hb_step (e : hb_event) c : option hb :=
  match e with
  | HTake =>
      match loop c, queue c with
      | None, t :: q => Some (run_task t (with_queue q c))
      | _, _ => None
      end
  | HGo sent =>
      match loop c with Some m => Some (run_micro_step m sent c) | None => None end
  | HFire => if timer c then Some (post_task HSend (with_timer false c)) else None
  | HAnswer failed =>
      match in_flight c with
      | O => None
      | S n => let c := with_flight n c in
               Some (if connected c then post_task (HResult failed) c else c)
      end
  | HBreak => Some (markDisconnected c)
  | HStopTimer =>
      match stoppers c with
      | O => None
      | S n => Some (with_timer false (with_stoppers n c))
      end
  end.

Definition hb_step_rel c c' : Prop := exists e, hb_step e c = Some c'.

(** ** One chain of probes

    A token is anything that leads to the next probe. *)

Definition b2n (b : bool) : nat := if b then 1 else 0.

Definition busy (l : option hb_micro) : bool := match l with Some _ => true | None => false end.

Definition tokens c : nat :=
  b2n (timer c) + length (queue c) + b2n (busy (loop c)) + in_flight c.

(** Tokens that belong to a probe that has been sent. *)
Definition is_result (t : hb_task) : bool := match t with HResult _ => true | _ => false end.
Definition probes c : nat :=
  length (List.filter is_result (queue c)) + in_flight c +
  b2n (match loop c with Some HRequest => true | _ => false end).

Record hb_inv c : Prop := {
  hb_one : tokens c <= 1;
  hb_alive : connected c = true -> tokens c = 1 /\ stoppers c = 0 /\ heartbeatPending c = Nat.eqb (probes c) 1;
}.

(** With at most one token the state has few shapes. *)
Lemma one_token tm (q : list hb_task) lp fl :
  b2n tm + length q + b2n (busy lp) + fl <= 1 ->
  (q = [] /\ lp = None /\ (tm = false \/ fl = 0) /\ fl <= 1) \/
  ((exists t, q = [t]) /\ lp = None /\ tm = false /\ fl = 0) \/
  (q = [] /\ (exists m, lp = Some m) /\ tm = false /\ fl = 0).
Proof.
  destruct q as [|t q], lp as [m|]; simpl; destruct tm; simpl; intros; try lia.
  - right; right. split_and!; [done|by eexists|done|lia].
  - left. split_and!; [done..|right; lia|lia].
  - left. split_and!; [done..|by left|lia].
  - right; left. destruct q; simpl in *; [|lia]. split_and!; [by eexists|done|done|lia].
Qed.

Lemma hb_step_inv e c c' : hb_inv c -> hb_step e c = Some c' -> hb_inv c'.
Proof.
  intros [Hone Halive] Hstep. destruct c as [cn pd tm q lp fl st].
  unfold tokens, probes in *; simpl in *.
  destruct (one_token _ _ _ _ Hone) as [(-> & -> & Hx & Hfl)|[([t ->] & -> & -> & ->)|(-> & [m ->] & -> & ->)]];
    clear Hone; simpl in *.
  - destruct fl as [|[|]], tm; simpl in *; try lia; try (by destruct Hx);
      destruct e, cn; simplify_eq/=; try (destruct st; simplify_eq/=);
      (constructor; unfold tokens, probes; simpl; [lia|intros; simplify_eq; naive_solver]).
  - destruct e, cn, t, pd; simplify_eq/=; try (destruct st; simplify_eq/=); try (destruct failed);
      (constructor; unfold tokens, probes; simpl; [lia|intros; simplify_eq; naive_solver]).
  - destruct e, cn, m, pd; simplify_eq/=; try (destruct st; simplify_eq/=); try (destruct sent);
      (constructor; unfold tokens, probes; simpl; [lia|intros; simplify_eq; naive_solver]).
Qed.

Definition hb_reachable c : Prop := steps hb_step_rel hb_init c.

Fixpoint hb_run (es : list hb_event) c : option hb :=
  match es with
  | [] => Some c
  | e :: es => match hb_step e c with Some c' => hb_run es c' | None => None end
  end.

Lemma hb_reachable_inv c : hb_reachable c -> hb_inv c.
Proof.
  intros Hr. apply (steps_invariant hb_step_rel hb_inv) in Hr; [done|..].
  - intros x y [e He] Hx. by eapply hb_step_inv.
  - constructor; unfold tokens; simpl; [lia|done].
Qed.

(** The way from a connected state to the answer of the next probe. *)
Definition next_probe c : list hb_event :=
  match queue c, loop c with
  | HStart :: _, _ | HResult _ :: _, _ => [HTake; HGo true; HFire; HTake; HGo true]
  | HSend :: _, _ => [HTake; HGo true]
  | [], Some HSchedule => [HGo true; HFire; HTake; HGo true]
  | [], Some HRequest => [HGo true]
  | [], None => if timer c then [HFire; HTake; HGo true] else []
  end.

(** The states of a connection that is up. *)
Definition up_states : list hb :=
  [ mkHb true false true [] None 0 0; mkHb true false false [HStart] None 0 0;
    mkHb true false false [HSend] None 0 0; mkHb true true false [HResult false] None 0 0;
    mkHb true true false [HResult true] None 0 0; mkHb true false false [] (Some HSchedule) 0 0;
    mkHb true true false [] (Some HRequest) 0 0; mkHb true true false [] None 1 0 ].

Lemma hb_up_states c : hb_inv c -> connected c = true -> In c up_states.
Proof.
  intros [Hone Halive] Hc. destruct (Halive Hc) as (Htok & Hst & Hp).
  destruct c as [cn pd tm q lp fl st]. unfold tokens, probes, up_states in *; simpl in *. subst cn st.
  destruct (one_token _ _ _ _ Hone) as [(-> & -> & Hx & Hfl)|[([t ->] & -> & -> & ->)|(-> & [m ->] & -> & ->)]];
    simpl in *.
  - destruct fl as [|[|]], tm; simpl in *; try lia; subst pd; tauto.
  - destruct t as [| |[]]; simpl in *; subst pd; tauto.
  - destruct m; simpl in *; subst pd; tauto.
Qed.

Ltac up_cases H :=
  simpl in H; repeat (destruct H as [<-|H]); [..|destruct H].

Lemma next_probe_runs c :
  hb_inv c -> connected c = true -> queue c <> [HResult true] ->
  hb_run (next_probe c) c = Some (mkHb true true false [] None 1 0).
Proof. intros Hi Hc Hq. pose proof (hb_up_states c Hi Hc) as H. by up_cases H. Qed.

(** ** After the end of the connection *)

Definition weight c : nat :=
  2 * b2n (timer c) + length (queue c) + in_flight c + stoppers c +
  match loop c with Some HSchedule => 3 | Some HRequest => 1 | None => 0 end.

Definition not_break (e : hb_event) : Prop := e <> HBreak.

Lemma hb_step_weight e c c' :
  connected c = false -> not_break e -> hb_step e c = Some c' ->
  connected c' = false /\ weight c' < weight c.
Proof.
  intros Hc He Hstep. destruct c as [cn pd tm q lp fl st]. simpl in *. subst cn.
  destruct e as [|sent| | | |]; simpl in *; [..|done|];
    [destruct lp as [|], q as [|[] q]; simplify_eq/=; unfold handleHeartbeatResult; simpl
    |destruct lp as [[]|]; simplify_eq/=; unfold handleHeartbeatResult; simpl
    |destruct tm; simplify_eq/=|destruct fl; simplify_eq/=|destruct st; simplify_eq/=];
    try destruct pd; try destruct tm; unfold weight; simpl; rewrite ?length_app; simpl; (split; [done|lia]).
Qed.

Lemma hb_run_weight es c c' :
  connected c = false -> Forall not_break es -> hb_run es c = Some c' ->
  connected c' = false /\ length es + weight c' <= weight c.
Proof.
  revert c. induction es as [|e es IH]; intros c Hc Hes; simpl.
  - intros [= <-]. split; [done|lia].
  - apply Forall_cons_1 in Hes as [He Hes]. destruct (hb_step e c) as [c1|] eqn:E; [|done].
    apply hb_step_weight in E as [Hc1 Hw]; [|done|done].
    intros Hrun. destruct (IH c1 Hc1 Hes Hrun) as [? ?]. split; [done|lia].
Qed.

(** One goroutine at most is on its way to stop the timer. *)
Lemma stoppers_one c : hb_reachable c -> stoppers c <= 1.
Proof.
  intros Hr.
  apply (steps_invariant hb_step_rel (fun c => hb_inv c /\ stoppers c <= 1)) in Hr as [_ ?]; [done|..].
  2: { split; [apply hb_reachable_inv; constructor|simpl; lia]. }
  - intros x y [e He] [Hi Hs]. split; [by eapply hb_step_inv|].
    destruct (connected x) eqn:Hc.
    + pose proof (hb_up_states x Hi Hc) as H.
      up_cases H; destruct e; try destruct sent; try destruct failed; simplify_eq/=; lia.
    + destruct x as [cn pd tm q lp fl st]. simpl in Hc, Hs. subst cn.
      destruct e; simpl in *;
        [destruct lp, q as [|[] q], pd|destruct lp as [[]|], pd|destruct tm|destruct fl| |destruct st];
        simplify_eq/=; lia.
Qed.

(** A state in which only another break could happen. *)
Definition hb_quiet c : Prop := forall e c', not_break e -> hb_step e c <> Some c'.

Lemma hb_quiet_iff c :
  hb_quiet c <-> timer c = false /\ queue c = [] /\ loop c = None /\ in_flight c = 0 /\ stoppers c = 0.
Proof.
  split.
  - intros Hq. destruct c as [cn pd tm q lp fl st]; simpl.
    assert (lp = None) as ->.
    { destruct lp as [m|]; [|done]. by destruct (Hq (HGo true) _ ltac:(done) eq_refl). }
    assert (q = []) as ->.
    { destruct q as [|t q]; [done|]. by destruct (Hq HTake _ ltac:(done) eq_refl). }
    assert (tm = false) as ->.
    { destruct tm; [|done]. by destruct (Hq HFire _ ltac:(done) eq_refl). }
    assert (fl = 0) as ->.
    { destruct fl; [done|]. by destruct (Hq (HAnswer true) _ ltac:(done) eq_refl). }
    destruct st; [done|]. by destruct (Hq HStopTimer _ ltac:(done) eq_refl).
  - intros (Ht & Hq & Hl & Hf & Hs) e c' He Hstep. destruct e; simpl in Hstep; try done;
      rewrite ?Ht, ?Hq, ?Hl, ?Hf, ?Hs in Hstep; done.
Qed.

Lemma weight_bound c : hb_inv c -> stoppers c <= 1 -> weight c <= 4.
Proof.
  intros [Hone _] Hs. destruct c as [cn pd tm q lp fl st]. unfold tokens, weight in *; simpl in *.
  destruct lp as [[]|]; simpl in *; destruct tm; simpl in *; lia.
Qed.

(** From a lost connection everything winds down. *)
Lemma hb_winds_down n c :
  connected c = false -> weight c <= n ->
  exists es c', Forall not_break es /\ hb_run es c = Some c' /\ hb_quiet c'.
Proof.
  revert c. induction n as [|n IH]; intros c Hc Hw.
  { exists [], c. split; [constructor|]. split; [done|]. apply hb_quiet_iff.
    destruct c as [cn pd tm q lp fl st]. unfold weight in Hw; simpl in *.
    destruct tm, q, lp as [[]|]; simpl in *; try lia. split_and!; try done; lia. }
  assert (Hex : hb_quiet c \/ exists e c', not_break e /\ hb_step e c = Some c').
  { destruct c as [cn pd tm q lp fl st]. destruct lp as [m|].
    { right. by exists (HGo true), (run_micro_step m true (mkHb cn pd tm q (Some m) fl st)). }
    destruct q as [|t q]; [|right; by eexists HTake, _].
    destruct tm; [right; by eexists HFire, _|].
    destruct fl; [|right; by eexists (HAnswer true), _].
    destruct st; [|right; by eexists HStopTimer, _]. left. by apply hb_quiet_iff. }
  destruct Hex as [Hq|(e & c1 & He & Hs)].
  { exists [], c. split; [constructor|]. done. }
  destruct (hb_step_weight _ _ _ Hc He Hs) as [Hc1 Hw1].
  destruct (IH c1 Hc1 ltac:(lia)) as (es & c' & Hes & Hrun & Hq).
  exists (e :: es), c'. split; [by constructor|]. simpl. by rewrite Hs.
Qed.

(** C23 (invariant). A connection carries one chain of heartbeats: at any time
    at most one probe is unanswered, and while the connection is up exactly one
    thing leads to the next probe (the start, the timer, a queued function, an
    unanswered probe or its answer), so probing neither stops nor doubles: the
    next probe goes out after at most five steps, and a probe that fails or
    expires ends the connection. *)
Theorem heartbeat_chain_is_single c :
  hb_reachable c ->
  in_flight c <= 1 /\ tokens c <= 1 /\
  (connected c = true ->
     tokens c = 1 /\
     (queue c <> [HResult true] ->
        exists es c', Forall not_break es /\ length es <= 5 /\ hb_run es c = Some c' /\
                      connected c' = true /\ in_flight c' = 1) /\
     (in_flight c = 1 ->
        exists c', hb_run [HAnswer true; HTake] c = Some c' /\ connected c' = false)).
Proof.
  intros Hr. pose proof (hb_reachable_inv c Hr) as Hi. pose proof (hb_one c Hi) as Hone.
  split; [unfold tokens in Hone; lia|]. split; [done|]. intros Hc.
  split; [by apply hb_alive|]. split.
  - intros Hq. exists (next_probe c). rewrite next_probe_runs by done. eexists. split_and!; try done.
    + pose proof (hb_up_states c Hi Hc) as H. up_cases H; simpl;
        repeat (apply Forall_cons_2; [done|]); constructor.
    + pose proof (hb_up_states c Hi Hc) as H. up_cases H; simpl; lia.
  - intros Hf. pose proof (hb_up_states c Hi Hc) as H. up_cases H; simplify_eq/=; by eexists.
Qed.

(** C24 (termination). Once a connection is down its heartbeats end: whatever
    the order in which the Loop, the timer and late answers run, at most four
    more steps are taken, the connection stays down, and the state in which
    nothing of it is left is reached. *)
Theorem heartbeats_end_with_connection c :
  hb_reachable c -> connected c = false ->
  (forall es c', Forall not_break es -> hb_run es c = Some c' ->
     length es <= 4 /\ connected c' = false) /\
  (exists es c', Forall not_break es /\ hb_run es c = Some c' /\
     timer c' = false /\ queue c' = [] /\ loop c' = None /\ in_flight c' = 0 /\ stoppers c' = 0).
Proof.
  intros Hr Hc. pose proof (weight_bound c (hb_reachable_inv c Hr) (stoppers_one c Hr)) as Hw.
  split.
  - intros es c' Hes Hrun. destruct (hb_run_weight es c c' Hc Hes Hrun). split; [lia|done].
  - destruct (hb_winds_down 4 c Hc Hw) as (es & c' & Hes & Hrun & Hq%hb_quiet_iff).
    by exists es, c'.
Qed.

(** ** The theorems at work *)

Definition probing : hb := mkHb true true false [] None 1 0.

Lemma probing_reachable : hb_reachable probing.
Proof.
  unfold hb_reachable.
  assert (Hrun : forall es c c', hb_run es c = Some c' -> steps hb_step_rel c c').
  { induction es as [|e es IH]; intros c c'; simpl; [intros [= <-]; constructor|].
    destruct (hb_step e c) as [c1|] eqn:E; [|done]. intros H. econstructor; [by exists e|by apply IH]. }
  by apply (Hrun [HTake; HGo true; HFire; HTake; HGo true]).
Qed.

Lemma heartbeat_chain_is_single_witness :
  tokens probing = 1%nat /\ exists c', hb_run [HAnswer true; HTake] probing = Some c' /\ connected c' = false.
Proof.
  destruct (heartbeat_chain_is_single probing probing_reachable) as (_ & _ & H).
  destruct (H eq_refl) as (H1 & _ & H3). split; [done|by apply H3].
Defined.

Definition broken : hb := mkHb false true false [] None 1 1.

Lemma broken_reachable : hb_reachable broken.
Proof.
  unfold hb_reachable. eapply steps_app; [exact probing_reachable|].
  econstructor; [by exists HBreak|constructor].
Qed.

Lemma heartbeats_end_with_connection_witness :
  exists es c', Forall not_break es /\ hb_run es broken = Some c' /\
    timer c' = false /\ queue c' = [] /\ loop c' = None /\ in_flight c' = 0%nat /\ stoppers c' = 0%nat.
Proof. apply (heartbeats_end_with_connection broken broken_reachable). reflexivity. Defined.
