(* ===== verification/SessionTimer.v ===== *)
(** * The timer of a session (node.go)

    The control plane of [ControlPlane] with a clock: when tasks were posted to
    the control Loop, when the heartbeat timers of the sessions run out, and
    how long the Loop and the heartbeats may be late before the timer of a live
    session fires.  [armRemoteNodeTimeout] does not restart the timer itself;
    it posts a task that does, if the session is still active when it runs. *)

From stdpp Require Import base tactics list gmap sets strings.
From Stdlib Require Import ZArith Lia Strings.Byte.
From S2P Require Import Prelude GoString Errors Registry Subscription Config Service Wire.
From S2P Require Import WireInstances Dispatch ControlPlane ControlInvariant ControlDemo ControlTheorems SessionEnd Construct.
Local Open Scope string_scope.
Local Open Scope list_scope.

(** ** Steps, seen from one session *)

Section Steps.
Context `{UnicodeTables} `{Platform} `{ProtoLib} `{PacketLib}.
Context {R : Type} `{ServiceRegistry R, !ServiceRegistryLaws R}.
Context (n : node_env).
Implicit Types s : node R.























(** ** What is pending against a session *)

















(** Every session keeps its place until a goroutine unlinks it. *)
Definition placed s (se : nat) : Prop :=
  forall r, remotes s !! se = Some r -> remote_id r <> 0%Z -> remoteNodes s !! remote_id r = Some se.



Lemma placed_emit o s se : placed s se -> placed (emit o s) se.
Proof. done. Qed.



(** ** The clock

    [tm_times] are the times at which the tasks of the queue were posted,
    [tm_deadline] is when the timer of a session runs out, and [tm_refresh]
    when the last task that restarts it was posted. *)








(** ** The tasks that restart a timer *)

Section Pace.
Context (session : nat) (near : Z -> Z -> Prop).

















End Pace.

(** ** What holds of the timer of a session *)







Section Timer.
Context (T Q : Z) (near : Z -> Z -> Prop) (session : nat).











End Timer.




(** ** Runs *)








End Steps.

(** ** The theorem at work *)

Section Witness.
#[local] Existing Instance ascii_tables.
Import Demo.













End Witness.
