(* ===== verification/Membership.v ===== *)
(** * A Node's own registrations and subscriptions
      (node.go, service_subscription.go, main_recovery.go)

    What a Node asks of the main node on behalf of its services:
    [registerService], [unregisterService], [subscribeService],
    [subscribeRuntime] and [restoreMainNodeState].  The main node runs the
    request as a function on its control Loop, any other node sends it over
    its RPCClient; both are parameters over a state [W] that the requests
    change. *)

From stdpp Require Import base tactics list gmap sets strings sorting.
From Stdlib Require Import ZArith Lia Strings.Byte.
From S2P Require Import Prelude GoString Errors Registry Subscription Config Service Wire.
From S2P Require Import Dispatch ControlPlane Client MainLink.
Local Open Scope string_scope.
Local Open Scope list_scope.

(** ** Wanted subscriptions *)

#[export] Instance string_le_trans : Transitive string_le.
Proof. apply strict_le_trans; eauto using string_less_trans, string_less_irrefl, string_less_trichotomy. Qed.

#[export] Instance string_le_antisymm : AntiSymm eq string_le.
Proof. apply strict_le_antisymm; eauto using string_less_trans, string_less_irrefl, string_less_trichotomy. Qed.

#[export] Instance string_le_total : Total string_le.
Proof. apply strict_le_total; eauto using string_less_trans, string_less_irrefl, string_less_trichotomy. Qed.

(** [runtimeSubscriptionNames]: the names in the order of [sort.Strings]. *)
Definition runtimeSubscriptionNames (rt : serviceRuntime) : list string :=
  sortStrings (elements (rt_subscriptions rt)).

Lemma elem_of_runtimeSubscriptionNames name rt :
  name ∈ runtimeSubscriptionNames rt <-> name ∈ rt_subscriptions rt.
Proof. unfold runtimeSubscriptionNames, sortStrings. rewrite merge_sort_Permutation. apply elem_of_elements. Qed.

Lemma runtimeSubscriptionNames_sorted rt : Sorted string_le (runtimeSubscriptionNames rt).
Proof. apply Sorted_merge_sort, _. Qed.

Definition add_subscription (name : string) (rt : serviceRuntime) : serviceRuntime :=
  mkRuntime (rt_discovery rt) (rt_started rt) (rt_registered rt) ({[name]} ∪ rt_subscriptions rt).

Section Membership.
Context `{UnicodeTables} `{Platform} `{ProtoLib} `{PacketLib}.
Context (n : node_env).

(** ** Requests *)

Section Requests.
Context {W : Type}.

(** A connection: whether it is up, and what becomes of a packet sent over it. *)
Definition connection : Type := bool * (list byte -> W -> W * res (list byte)).

(** [requestSync] with the effect of the exchange. *)
Definition request (client : connection) (op : Z) (message : protocol) (t : mtype) (w : W)
    : W * option error :=
  match client_send client.1 op message with
  | Err e => (w, Some e)
  | Ok wpk =>
      let '(w, answer) := client.2 wpk w in
      (w, match decode_response t answer with Ok _ => None | Err e => Some e end)
  end.

Context (callOnLoop : task -> W -> W * option error).
Context (mainClient : W -> W * res connection).
Context (nodeRunning : W -> bool).

Definition with_main (f : connection -> W -> W * option error) (w : W) : W * option error :=
  match mainClient w with
  | (w, Err e) => (w, Some e)
  | (w, Ok client) => f client w
  end.

Definition registerServiceWithClient (key : ServiceKey) (client : connection) : W -> W * option error :=
  request client opRegister
    (Message TRegisterRequest (mkRegister (Some (serviceLocationToProto (own_location n key)))))
    TRegisterResponse.

Definition registerService (key : ServiceKey) (w : W) : W * option error :=
  if IsMainNode n then callOnLoop (TLocalRegister key) w
  else with_main (registerServiceWithClient key) w.

Definition unregisterService (key : ServiceKey) (w : W) : W * option error :=
  if IsMainNode n then callOnLoop (TLocalUnregister key) w
  else with_main (fun client => request client opUnregister
         (Message TUnregisterRequest (mkUnregister (Some (serviceKeyToProto key)))) TUnregisterResponse) w.

Definition requestServiceSubscriptionWithClient (subscriber : ServiceKey) (name : string)
    (client : connection) : W -> W * option error :=
  request client opSubscribe
    (Message TSubscribeRequest (mkSubscribe (Some (serviceKeyToProto subscriber)) name))
    TSubscribeResponse.

Definition requestServiceSubscription (subscriber : ServiceKey) (name : string) (w : W)
    : W * option error :=
  if IsMainNode n then callOnLoop (TLocalSubscribe subscriber name) w
  else with_main (requestServiceSubscriptionWithClient subscriber name) w.

(** The loops of [subscribeRuntime] and [subscribeRuntimeWithClient]. *)
Fixpoint subscribe_names (ask : string -> W -> W * option error) (names : list string) (w : W)
    : W * option error :=
  match names with
  | [] => (w, None)
  | name :: names =>
      match ask name w with
      | (w, Some e) => (w, Some (prefixf (name +:+ ": ") e))
      | (w, None) => subscribe_names ask names w
      end
  end.

Definition subscribeRuntime (subscriber : ServiceKey) (rt : serviceRuntime) : W -> W * option error :=
  subscribe_names (requestServiceSubscription subscriber) (runtimeSubscriptionNames rt).

Definition subscribeRuntimeWithClient (client : connection) (subscriber : ServiceKey)
    (rt : serviceRuntime) : W -> W * option error :=
  subscribe_names (fun name => requestServiceSubscriptionWithClient subscriber name client)
    (runtimeSubscriptionNames rt).

(** ** [restoreMainNodeState] *)

(** One of its two loops over the services that are still registered;
    [services] are the keys of [serviceOrder] with their runtimes. *)
Fixpoint restore_each (what : string) (act : ServiceKey -> serviceRuntime -> W -> W * option error)
    (services : list (ServiceKey * serviceRuntime)) (w : W) : W * option error :=
  match services with
  | [] => (w, None)
  | (key, rt) :: services =>
      if negb (nodeRunning w) then (w, Some (ESentinel ErrNodeStopped))
      else if negb (rt_registered rt) then restore_each what act services w
      else match act key rt w with
           | (w, Some e) => (w, Some (prefixf (what +:+ " service " +:+ ServiceKey_String key +:+ ": ") e))
           | (w, None) => restore_each what act services w
           end
  end.

Definition restoreMainNodeState (services : list (ServiceKey * serviceRuntime)) (client : connection)
    (w : W) : W * option error :=
  match restore_each "register" (fun key _ => registerServiceWithClient key client) services w with
  | (w, Some e) => (w, Some e)
  | (w, None) => restore_each "subscribe" (subscribeRuntimeWithClient client) services w
  end.

End Requests.

(** ** [subscribeService]

    Its first part, up to the release of [subscriptionsMu]: the runtime with
    the name, and whether the request is to be sent now. *)
Definition subscribe_section (name : string) (rt : serviceRuntime) : serviceRuntime * bool :=
  (add_subscription name rt, rt_registered rt).

Definition subscribeService (operational : bool) (services : gmap ServiceKey serviceRuntime)
    (subscriber : ServiceKey) (serviceName : string)
    : res (gmap ServiceKey serviceRuntime * option string) :=
  if negb operational then Err (ESentinel ErrNodeStopped)
  else match normalizeSubscribedServiceName serviceName with
       | Err e => Err (wrapf (ESentinel ErrInvalidMessage) (": " +:+ Error e))
       | Ok name =>
           match services !! subscriber with
           | None => Err (service_not_found ("subscriber " +:+ ServiceKey_String subscriber))
           | Some rt =>
               let '(rt, ask) := subscribe_section name rt in
               Ok (<[subscriber := rt]> services, if ask then Some name else None)
           end
       end.

End Membership.

(** ** Subscribing while the Node starts

    [Start] marks a registered service and then submits the names wanted so
    far; meanwhile the service and others may call [subscribeService].  The
    parts under [subscriptionsMu] are steps, and so is the mark, which is
    stored outside of it. *)

Inductive starter :=
| SBefore                       (** the service is not registered yet *)
| SMarked                       (** [runtime.registered.Store(true)] is done *)
| SAsking (names : list string) (** [subscribeRuntime] has taken its snapshot *)
| SDone
| SAborted.                     (** a request failed and [Start] rolls back *)

Record sub_sys := mkSub {
  ss_rt : serviceRuntime;
  ss_start : starter;
  ss_asking : list string;      (** calls of [subscribeService] about to send their request *)
  ss_asked : gset string;       (** names a request succeeded for *)
  ss_refused : gset string      (** names whose caller got the error of the request *)
}.

Implicit Types y : sub_sys.

Inductive sub_event :=
| VSubscribe (name : string)
| VAsk (i : nat) (ok : bool)
| VMark
| VSnapshot
| VSubmit (ok : bool).

Definition mark_registered (rt : serviceRuntime) : serviceRuntime :=
  mkRuntime (rt_discovery rt) (rt_started rt) true (rt_subscriptions rt).

Definition sub_step (e : sub_event) y : option sub_sys :=
  match e with
  | VSubscribe name =>
      let '(rt, ask) := subscribe_section name (ss_rt y) in
      Some (mkSub rt (ss_start y) (if ask then ss_asking y ++ [name] else ss_asking y)
              (ss_asked y) (ss_refused y))
  | VAsk i ok =>
      match ss_asking y !! i with
      | None => None
      | Some name =>
          let rest := replace_at i None (ss_asking y) in
          Some (if ok then mkSub (ss_rt y) (ss_start y) rest ({[name]} ∪ ss_asked y) (ss_refused y)
                else mkSub (ss_rt y) (ss_start y) rest (ss_asked y) ({[name]} ∪ ss_refused y))
      end
  | VMark =>
      match ss_start y with
      | SBefore => Some (mkSub (mark_registered (ss_rt y)) SMarked (ss_asking y) (ss_asked y) (ss_refused y))
      | _ => None
      end
  | VSnapshot =>
      match ss_start y with
      | SMarked => Some (mkSub (ss_rt y) (SAsking (runtimeSubscriptionNames (ss_rt y))) (ss_asking y)
                           (ss_asked y) (ss_refused y))
      | _ => None
      end
  | VSubmit ok =>
      match ss_start y with
      | SAsking [] => Some (mkSub (ss_rt y) SDone (ss_asking y) (ss_asked y) (ss_refused y))
      | SAsking (name :: names) =>
          Some (if ok then mkSub (ss_rt y) (SAsking names) (ss_asking y) ({[name]} ∪ ss_asked y) (ss_refused y)
                else mkSub (ss_rt y) SAborted (ss_asking y) (ss_asked y) (ss_refused y))
      | _ => None
      end
  end.

Definition sub_step_rel y y' : Prop := exists e, sub_step e y = Some y'.

(** A service whose loop has been created. *)
Definition sub_init (discovery : bool) : sub_sys :=
  mkSub (mkRuntime discovery true false ∅) SBefore [] ∅ ∅.

(** Somebody has taken care of the name, or will. *)
Definition cared_for (name : string) y : Prop :=
  name ∈ ss_asked y \/ name ∈ ss_asking y \/ name ∈ ss_refused y \/
  match ss_start y with
  | SBefore | SMarked | SAborted => True
  | SAsking names => name ∈ names
  | SDone => False
  end.

Record sub_inv y : Prop := {
  si_registered : ss_start y = SBefore <-> rt_registered (ss_rt y) = false;
  si_cared : forall name, name ∈ rt_subscriptions (ss_rt y) -> cared_for name y }.

Lemma replace_at_elem {A} (i : nat) (x y : A) (l : list A) :
  l !! i = Some x -> y ∈ l -> y = x \/ y ∈ replace_at i None l.
Proof. intros Hi Hy. simpl. by eapply elem_of_delete_split. Qed.

Lemma sub_step_inv e y y' : sub_step e y = Some y' -> sub_inv y -> sub_inv y'.
Proof.
  intros Hstep [Hreg Hcare]. destruct y as [rt st asking asked refused]. simpl in *.
  unfold cared_for in Hcare; simpl in Hcare.
  destruct e as [name|i ok| | |ok]; simpl in Hstep.
  - injection Hstep as <-. constructor; [done|]. intros nm Hnm. unfold cared_for; simpl in *.
    apply elem_of_union in Hnm as [->%elem_of_singleton|Hnm].
    + destruct (rt_registered rt) eqn:E.
      * right; left. set_solver.
      * rewrite (proj2 Hreg eq_refl). auto.
    + destruct (Hcare nm Hnm) as [?|[?|[?|?]]]; [by left| |by do 2 right; left|by do 3 right].
      right; left. destruct (rt_registered rt); set_solver.
  - destruct (asking !! i) as [name|] eqn:Ei; [|done].
    assert (forall nm, nm ∈ asking -> nm = name \/ nm ∈ delete i asking) as Hsplit
      by (intros nm; by apply (replace_at_elem i name nm)).
    destruct ok; injection Hstep as <-; (constructor; [done|]); intros nm Hnm; unfold cared_for; simpl in *;
      destruct (Hcare nm Hnm) as [?|[Ha|[?|?]]]; try (destruct (Hsplit nm Ha) as [->|?]); set_solver.
  - destruct st; try done. injection Hstep as <-. constructor; [done|]. intros nm Hnm.
    unfold cared_for; simpl in *. auto.
  - destruct st; try done. injection Hstep as <-. constructor; simpl.
    + split; [done|]. intros E. apply Hreg in E. done.
    + intros nm Hnm. unfold cared_for; simpl. right; right; right. by apply elem_of_runtimeSubscriptionNames.
  - destruct st as [| |[|name names]| |]; try done.
    + injection Hstep as <-. constructor; simpl.
      * split; [done|]. intros E. apply Hreg in E. done.
      * intros nm Hnm. unfold cared_for; simpl. destruct (Hcare nm Hnm) as [?|[?|[?|Hn]]]; auto.
        by apply not_elem_of_nil in Hn.
    + destruct ok; injection Hstep as <-; constructor; simpl;
        try (split; [done|]; intros E; apply Hreg in E; done);
        intros nm Hnm; unfold cared_for; simpl; destruct (Hcare nm Hnm) as [?|[?|[?|Hn]]]; set_solver.
Qed.

(** C18 (safety). No subscription is lost between [subscribeService] and
    [Start], however their steps interleave: a name in the wanted set has been
    asked for, or is about to be by the call that added it or by [Start]; or
    that request failed, and then the caller got the error or [Start] rolls
    back.  So when [Start] is done and no call is under way, every wanted name
    was asked for or its caller was told of the error. *)
Theorem no_subscription_is_lost discovery y name :
  steps sub_step_rel (sub_init discovery) y -> name ∈ rt_subscriptions (ss_rt y) ->
  cared_for name y /\
  (ss_start y = SDone -> ss_asking y = [] -> name ∈ ss_asked y \/ name ∈ ss_refused y).
Proof.
  intros Hr Hname.
  apply (steps_invariant sub_step_rel sub_inv) in Hr; [|intros a b [e He]; by eapply sub_step_inv|].
  - pose proof (si_cared _ Hr name Hname) as Hc. split; [done|]. intros Hs Ha.
    unfold cared_for in Hc. rewrite Hs, Ha in Hc.
    destruct Hc as [?|[Hn|[?|[]]]]; auto. by apply not_elem_of_nil in Hn.
  - constructor; simpl; [done|]. intros nm Hnm. by apply not_elem_of_empty in Hnm.
Qed.

Fixpoint sub_run (es : list sub_event) y : option sub_sys :=
  match es with
  | [] => Some y
  | e :: es => match sub_step e y with Some y' => sub_run es y' | None => None end
  end.

Lemma sub_run_steps es y y' : sub_run es y = Some y' -> steps sub_step_rel y y'.
Proof.
  revert y. induction es as [|e es IH]; intros y; simpl; [intros [= <-]; constructor|].
  destruct (sub_step e y) as [y1|] eqn:E; [|done]. intros Hr. econstructor; [by exists e|by apply IH].
Qed.

(** One name before [Start] looks, one after. *)
Definition racing : list sub_event :=
  [VSubscribe "gate"; VMark; VSnapshot; VSubscribe "room"; VSubmit true; VAsk 0 true; VSubmit true].

Definition raced : sub_sys :=
  mkSub (mkRuntime true true true ({["room"]} ∪ ({["gate"]} ∪ ∅))) SDone []
    ({["room"]} ∪ ({["gate"]} ∪ ∅)) ∅.

Lemma no_subscription_is_lost_witness : "room" ∈ ss_asked raced \/ "room" ∈ ss_refused raced.
Proof.
  apply (no_subscription_is_lost true raced "room"); [|set_solver|reflexivity|reflexivity].
  apply (sub_run_steps racing). vm_compute. reflexivity.
Defined.
