(* ===== verification/Recovery.v ===== *)
(** * Restoring a node at the main node

    [restoreMainNodeState] of one Node composed with the server side of the
    main node: every request goes through the wire format, the session's
    handler, the control queue and the control Loop of the main node. *)

From stdpp Require Import base tactics list gmap sets strings.
From Stdlib Require Import ZArith Lia Strings.Byte.
From S2P Require Import Prelude GoString Errors Registry Subscription Config Service Wire.
From S2P Require Import WireInstances WireTheorems Dispatch ControlPlane ControlInvariant Client.
From S2P Require Import ControlDemo ControlTheorems ControlRequests Discovery EndToEnd Membership.
Local Open Scope string_scope.
Local Open Scope list_scope.

Section Recovery.
Context `{UnicodeTables} `{Platform} `{ProtoLib} `{!ProtoLaws} `{PacketLib} `{!PacketLaws}.
Context {R : Type} `{ServiceRegistry R} `{!ServiceRegistryLaws R}.
(** The main node, and the node that restores its state over a session. *)
Context (n peer : node_env) (session : nat) (c : Z).
Implicit Types s : node R.

(** ** The main node serves one request *)

Fixpoint answer_in (o : list output) : option (list byte) :=
  match o with
  | [] => None
  | ORespond se c' p :: o => if bool_decide (se = session /\ c' = c) then Some p else answer_in o
  | _ :: o => answer_in o
  end.

(** The handler of the session, then the goroutines and the control Loop until
    nothing is left; the answer is the response to the request. *)
Definition serve (pkt : list byte) s : node R * res (list byte) :=
  let s1 := handleRPCRequest n session c pkt s in
  let s2 := drain n (work s1) s1 in
  (s2, match answer_in (drop (length (outputs s)) (outputs s2)) with
       | Some p => Ok p
       | None => Err (EText "timeout")
       end).

Lemma answer_in_quiet o o' :
  sum_list_with (out_settled session c) o = 0 -> answer_in (o ++ o') = answer_in o'.
Proof.
  induction o as [|x o IH]; simpl; [done|]. intros [Hx Ho]%Nat.eq_add_0. specialize (IH Ho).
  destruct x as [|se c' p| | | | |]; simpl; try done. unfold out_settled in Hx. simpl in Hx. unfold addressed in Hx.
  case_bool_decide; [lia|done].
Qed.

Lemma run_body_running t r s :
  run_body n t (set_running r s) = set_running r (run_body n t s).
Proof.
  destruct t; simpl; try done.
  all: try (destruct (Register _ (registry s)); done).
  all: try (destruct (Unregister _ _ (registry s)); done).
  all: try (unfold addServiceSubscription; simpl; destruct (Lookup _ (registry s)) as [l|]; [|done];
            destruct (NodeID l =? _)%Z; done).
  destruct (remotes s !! _) as [x|]; [|done]. by destruct (active x).
Qed.

(** What the handler of the session posts for this node. *)
Definition own_request (t : task) : Prop :=
  match t with
  | TRegister se c' m _ | TUnregister se c' m _ | TSubscribe se c' m _ _ =>
      se = session /\ c' = c /\ m = self peer
  | _ => False
  end.

(** A request that is posted runs to its end. *)
Lemma drain_posted t s :
  quiescent s -> remoteNodeIsCurrent session s = true ->
  own_request t ->
  drain n (work (go (MPost t) s)) (go (MPost t) s) = run_body n t s.
Proof.
  intros (Hq & Hr & Hg) Hcur Ht. destruct s as [rg sb rm rn cq ru gr ou]. simpl in *. subst.
  assert (work (go (MPost t) (mkNode rg sb rm rn [] None [] ou)) = 3) as ->.
  { by destruct t. }
  set (s := mkNode rg sb rm rn [] None [] ou) in *.
  assert (Hbody : begin_task n t s = set_running (Some (MBody t)) s).
  { destruct t; try done; destruct Ht as (-> & _); simpl; by rewrite Hcur. }
  destruct (run_body_keeps n t s) as (Hk1 & Hk2 & Hk3 & Hk4).
  simpl drain. change (set_goroutines _ _) with (mkNode rg sb rm rn [t] None [] ou).
  change (set_queue [] _) with s. rewrite Hbody. simpl. rewrite run_body_running.
  destruct (run_body n t s); simpl in *. by subst.
Qed.

(** ** Where the restoring node stands at the main node *)

Record at_home s : Prop := {
  ah_quiet : quiescent s;
  ah_reg : reg_ok (registry s);
  ah_remote : exists r, registeredRemoteNode session s = Ok r /\
    remote_id r = self peer /\ remote_addr r = listenAddr peer }.

Lemma at_home_current s : at_home s -> remoteNodeIsCurrent session s = true.
Proof.
  intros [_ _ (r & Hr & _)]. unfold registeredRemoteNode in Hr. unfold remoteNodeIsCurrent.
  destruct (remotes s !! session); [|done]. by destruct (is_current session _ s).
Qed.

(** The main node runs the body of a request of this node and answers it. *)
Lemma serve_posted pkt t s :
  at_home s -> handleRPCRequest n session c pkt s = go (MPost t) s ->
  own_request t ->
  serve pkt s =
    (run_body n t s,
     match answer_in (drop (length (outputs s)) (outputs (run_body n t s))) with
     | Some p => Ok p
     | None => Err (EText "timeout")
     end).
Proof.
  intros Hs Hh Ht. unfold serve. rewrite Hh, drain_posted; [done|apply Hs|by apply at_home_current|done].
Qed.

Lemma answer_after o m p :
  sum_list_with (out_settled session c) o = 0 -> encodeResult "" "" m = Ok p ->
  answer_in (o ++ (respondRPC session c m).1) = Some p.
Proof.
  intros Ho He. rewrite answer_in_quiet by done. unfold respondRPC. rewrite He. simpl.
  by rewrite bool_decide_eq_true_2.
Qed.

(** ** Registration *)

Definition connected_main : connection (W := node R) := (true, serve).

Lemma register_packet l :
  sendable_location l -> exists pkt body,
  encodeEnvelope opRegister (Message TRegisterRequest (mkRegister (Some (serviceLocationToProto l)))) = Ok pkt /\
  decodeEnvelope pkt = Ok (opRegister, body) /\
  decodeOperationPayload TRegisterRequest body = Ok (mkRegister (Some (serviceLocationToProto l))).
Proof.
  intros (_ & _ & _ & Hu1 & Hu2). set (m := mkRegister (Some (serviceLocationToProto l))).
  destruct (encodeEnvelope_total opRegister TRegisterRequest m) as [pkt Hp]; [simpl; by rewrite Hu1, Hu2|].
  destruct (decode_encodeEnvelope opRegister TRegisterRequest m pkt) as (body & ? & ?);
    [split; vm_compute; congruence|done|]. by exists pkt, body.
Qed.

Hypothesis main : IsMainNode n = true.

Lemma handle_register r s k body :
  remote_id r = self peer -> remote_addr r = listenAddr peer ->
  sendable_location (own_location peer k) ->
  decodeOperationPayload TRegisterRequest body =
    Ok (mkRegister (Some (serviceLocationToProto (own_location peer k)))) ->
  handle_op n session c r opRegister body s =
  go (MPost (TRegister session c (self peer) (own_location peer k))) s.
Proof.
  intros Hid Had (Hv & Hi1 & Hi2 & _) Hd. unfold handle_op.
  change (opRegister =? opHeartbeat)%Z with false. change (opRegister =? opRegister)%Z with true.
  cbv iota. rewrite Hd. cbn [rg_location].
  rewrite (proj2 (requiredRPCServiceLocation_Ok _ _ (own_location peer k))) by done.
  rewrite main, Hid, Had. cbn [negb]. cbn [own_location NodeID NodeAddr].
  by rewrite Z.eqb_refl, bool_decide_eq_true_2.
Qed.

Lemma decode_empty_answer (t : mtype) (m : msg t) p :
  encodeResult "" "" (Message t m) = Ok p -> decode_response t (Ok p) = Ok m.
Proof.
  intros He. destruct (encodeResult_message t m p He) as (b & Hb1 & Hb2).
  unfold decode_response. cbn [res_bind]. rewrite Hb1. cbn [res_bind]. done.
Qed.

(** The end of both kinds of request: quiet outputs and the answer. *)
Lemma answered_by pkt t s s1 o (ty : mtype) (m : msg ty) p :
  at_home s -> handleRPCRequest n session c pkt s = go (MPost t) s ->
  own_request t ->
  run_body n t s = emit (o ++ (respondRPC session c (Message ty m)).1) s1 -> outputs s1 = outputs s ->
  sum_list_with (out_settled session c) o = 0 -> encodeResult "" "" (Message ty m) = Ok p ->
  serve pkt s = (run_body n t s, Ok p).
Proof.
  intros Hs Hh Ht Hb Ho Hq He. rewrite (serve_posted pkt t s Hs Hh Ht), Hb. simpl.
  by rewrite Ho, drop_app_length, (answer_after o (Message ty m) p).
Qed.

Lemma emit_emit o1 o2 s : emit o2 (emit o1 s) = emit (o1 ++ o2) s.
Proof. unfold emit. simpl. by rewrite <- app_assoc. Qed.

Lemma at_home_ext s s' :
  at_home s -> reg_ok (registry s') -> remotes s' = remotes s -> remoteNodes s' = remoteNodes s ->
  controlQueue s' = controlQueue s -> running s' = running s -> goroutines s' = goroutines s -> at_home s'.
Proof.
  intros [Hq _ Hr] Hreg E1 E2 E3 E4 E5. constructor; [|done|].
  - unfold quiescent in *. by rewrite E3, E4, E5.
  - unfold registeredRemoteNode, is_current in *. by rewrite E1, E2.
Qed.

(** A free key is registered. *)
Lemma register_served k s :
  at_home s -> sendable_location (own_location peer k) -> Lookup k (registry s) = None ->
  exists s', registerServiceWithClient peer k connected_main s = (s', None) /\ at_home s' /\
    (forall k', Lookup k' (registry s') = if decide (k' = k) then Some (own_location peer k)
                                         else Lookup k' (registry s)) /\
    subscriptions s' = subscriptions s.
Proof.
  intros Hs Hl Hfree. pose proof Hs as [Hq Hreg (r & Hr & Hid & Had)].
  destruct (register_packet _ Hl) as (pkt & body & Hp & Hd & Hb).
  assert (Hh : handleRPCRequest n session c pkt s =
               go (MPost (TRegister session c (self peer) (own_location peer k))) s).
  { erewrite handle_registered; [|done|done|vm_compute; congruence]. by apply handle_register. }
  assert (Hkey : Key (own_location peer k) = k) by (by destruct k).
  destruct (Register_accepts (own_location peer k) (registry s)) as [reg' Hok];
    [done|apply Hl|by rewrite Hkey|].
  destruct (Register_Ok _ _ _ Hreg Hok) as (Hreg' & _ & _ & Hlk).
  destruct (encodeResult_total TRegisterResponse tt eq_refl) as [p He].
  set (s1 := set_registry reg' s).
  set (o := broadcastRouteInvalidation n [Key (own_location peer k)] s1
            ++ notify n eventOnline (Key (own_location peer k)) s1).
  assert (Hbody : run_body n (TRegister session c (self peer) (own_location peer k)) s =
                  emit (o ++ (respondRPC session c (Message TRegisterResponse tt)).1) s1).
  { cbn [run_body]. rewrite Hok. unfold serviceRegistered. cbv zeta. by rewrite emit_emit. }
  unfold registerServiceWithClient, request, client_send, connected_main. cbn [fst snd negb]. rewrite Hp.
  rewrite (answered_by pkt _ s s1 o TRegisterResponse tt p Hs Hh ltac:(done) Hbody eq_refl)
    by (done || (unfold o; by rewrite sum_list_with_app, quiet_broadcast, quiet_notify)).
  rewrite (decode_empty_answer TRegisterResponse tt p He), Hbody. eexists. split; [done|]. split_and!.
  - by apply (at_home_ext s).
  - intros k'. simpl. rewrite Hlk, Hkey. done.
  - done.
Qed.

(** ** Subscription *)

Lemma subscribe_packet k name :
  sendable_key k -> ValidString name = true -> exists pkt body,
  encodeEnvelope opSubscribe
    (Message TSubscribeRequest (mkSubscribe (Some (serviceKeyToProto k)) name)) = Ok pkt /\
  decodeEnvelope pkt = Ok (opSubscribe, body) /\
  decodeOperationPayload TSubscribeRequest body = Ok (mkSubscribe (Some (serviceKeyToProto k)) name).
Proof.
  intros (_ & _ & Hu) Hn. set (m := mkSubscribe (Some (serviceKeyToProto k)) name).
  destruct (encodeEnvelope_total opSubscribe TSubscribeRequest m) as [pkt Hp]; [simpl; by rewrite Hu, Hn|].
  destruct (decode_encodeEnvelope opSubscribe TSubscribeRequest m pkt) as (body & ? & ?);
    [split; vm_compute; congruence|done|]. by exists pkt, body.
Qed.

Lemma handle_subscribe r s k name body :
  remote_id r = self peer -> sendable_key k -> normalized_name name ->
  decodeOperationPayload TSubscribeRequest body = Ok (mkSubscribe (Some (serviceKeyToProto k)) name) ->
  handle_op n session c r opSubscribe body s = go (MPost (TSubscribe session c (self peer) k name)) s.
Proof.
  intros Hid (Hv & Hi & _) Hn Hd. unfold handle_op.
  change (opSubscribe =? opHeartbeat)%Z with false. change (opSubscribe =? opRegister)%Z with false.
  change (opSubscribe =? opUnregister)%Z with false. change (opSubscribe =? opSubscribe)%Z with true.
  cbv iota. rewrite Hd. cbn [su_subscriber su_service_name].
  rewrite (proj2 (requiredRPCServiceKey_Ok _ _ k)) by done.
  rewrite (proj2 (normalize_Ok name name)) by (split; [symmetry; apply Hn|done]).
  by rewrite bool_decide_eq_true_2, main, Hid.
Qed.

Lemma subscribe_served k name s l :
  at_home s -> sendable_key k -> normalized_name name ->
  Lookup k (registry s) = Some l -> NodeID l = self peer ->
  exists s', requestServiceSubscriptionWithClient k name connected_main s = (s', None) /\ at_home s' /\
    registry s' = registry s /\ subscriptions s' = (subscribe k name (subscriptions s)).1.
Proof.
  intros Hs Hk Hn Hl Hnode. pose proof Hs as [Hq Hreg (r & Hr & Hid & Had)].
  destruct (subscribe_packet k name Hk) as (pkt & body & Hp & Hd & Hb); [apply Hn|].
  assert (Hh : handleRPCRequest n session c pkt s =
               go (MPost (TSubscribe session c (self peer) k name)) s).
  { erewrite handle_registered; [|done|done|vm_compute; congruence]. by apply handle_subscribe. }
  destruct (encodeResult_total TSubscribeResponse tt eq_refl) as [p He].
  set (s1 := set_subscriptions (subscribe k name (subscriptions s)).1 s).
  set (o := sendServiceDiscovery n k name eventSnapshot (serviceSnapshot name (registry s1)) s1).
  assert (Hbody : run_body n (TSubscribe session c (self peer) k name) s =
                  emit (o ++ (respondRPC session c (Message TSubscribeResponse tt)).1) s1).
  { cbn [run_body]. unfold addServiceSubscription. rewrite Hl, Hnode, Z.eqb_refl.
    cbv zeta. by rewrite emit_emit. }
  unfold requestServiceSubscriptionWithClient, request, client_send, connected_main.
  cbn [fst snd negb]. rewrite Hp.
  rewrite (answered_by pkt _ s s1 o TSubscribeResponse tt p Hs Hh ltac:(done) Hbody eq_refl)
    by (done || apply quiet_discovery).
  rewrite (decode_empty_answer TSubscribeResponse tt p He), Hbody. eexists. split; [done|]. split_and!; try done.
  by apply (at_home_ext s).
Qed.

(** ** Withdrawal *)

Lemma unregister_packet k :
  sendable_key k -> exists pkt body,
  encodeEnvelope opUnregister (Message TUnregisterRequest (mkUnregister (Some (serviceKeyToProto k)))) = Ok pkt /\
  decodeEnvelope pkt = Ok (opUnregister, body) /\
  decodeOperationPayload TUnregisterRequest body = Ok (mkUnregister (Some (serviceKeyToProto k))).
Proof.
  intros (_ & _ & Hu). set (m := mkUnregister (Some (serviceKeyToProto k))).
  destruct (encodeEnvelope_total opUnregister TUnregisterRequest m) as [pkt Hp]; [simpl; by rewrite Hu|].
  destruct (decode_encodeEnvelope opUnregister TUnregisterRequest m pkt) as (body & ? & ?);
    [split; vm_compute; congruence|done|]. by exists pkt, body.
Qed.

Lemma handle_unregister r s k body :
  remote_id r = self peer -> sendable_key k ->
  decodeOperationPayload TUnregisterRequest body = Ok (mkUnregister (Some (serviceKeyToProto k))) ->
  handle_op n session c r opUnregister body s = go (MPost (TUnregister session c (self peer) k)) s.
Proof.
  intros Hid (Hv & Hi & _) Hd. unfold handle_op.
  change (opUnregister =? opHeartbeat)%Z with false. change (opUnregister =? opRegister)%Z with false.
  change (opUnregister =? opUnregister)%Z with true. cbv iota. rewrite Hd. cbn [un_target].
  rewrite (proj2 (requiredRPCServiceKey_Ok _ _ k)) by done. by rewrite main, Hid.
Qed.

(** The request of [unregisterService]. *)
Definition withdraw (k : ServiceKey) : node R -> node R * option error :=
  request connected_main opUnregister
    (Message TUnregisterRequest (mkUnregister (Some (serviceKeyToProto k)))) TUnregisterResponse.

(** An own service is withdrawn, with its subscriptions. *)
Lemma unregister_served k s l :
  at_home s -> sendable_key k -> Lookup k (registry s) = Some l -> NodeID l = self peer ->
  exists s', withdraw k s = (s', None) /\ at_home s' /\
    (forall k', Lookup k' (registry s') = if decide (k' = k) then None else Lookup k' (registry s)) /\
    subscriptions s' = removeSubscriber k (subscriptions s).
Proof.
  intros Hs Hk Hl Hnode. pose proof Hs as [Hq Hreg (r & Hr & Hid & Had)].
  destruct (unregister_packet k Hk) as (pkt & body & Hp & Hd & Hb).
  assert (Hh : handleRPCRequest n session c pkt s =
               go (MPost (TUnregister session c (self peer) k)) s).
  { erewrite handle_registered; [|done|done|vm_compute; congruence]. by apply handle_unregister. }
  destruct (Unregister_accepts k (self peer) (registry s) l Hreg Hl Hnode) as [reg' Hok].
  destruct (Unregister_Ok _ _ _ _ Hreg Hok) as (Hreg' & _ & Hlk).
  destruct (encodeResult_total TUnregisterResponse tt eq_refl) as [p He].
  set (s1 := set_subscriptions (removeSubscriber k (subscriptions s)) (set_registry reg' s)).
  set (o := broadcastRouteInvalidation n [k] s1 ++ concat (map (fun x => notify n eventOffline x s1) [k])).
  assert (Hbody : run_body n (TUnregister session c (self peer) k) s =
                  emit (o ++ (respondRPC session c (Message TUnregisterResponse tt)).1) s1).
  { cbn [run_body]. rewrite Hok. unfold serviceUnregistered, servicesUnregistered. cbv zeta.
    by rewrite emit_emit. }
  assert (Hquiet : sum_list_with (out_settled session c) o = 0).
  { unfold o. rewrite sum_list_with_app, quiet_broadcast. apply quiet_concat. intros x. apply quiet_notify. }
  unfold withdraw, request, client_send, connected_main. cbn [fst snd negb]. rewrite Hp.
  rewrite (answered_by pkt _ s s1 o TUnregisterResponse tt p Hs Hh ltac:(done) Hbody eq_refl Hquiet He).
  rewrite (decode_empty_answer TUnregisterResponse tt p He), Hbody. eexists. split; [done|]. split_and!; try done.
  by apply (at_home_ext s).
Qed.

(** ** The two loops *)

Definition always_running : node R -> bool := fun _ => true.

(** The keys the main node is asked to register, and the wanted pairs. *)
Definition marked (services : list (ServiceKey * serviceRuntime)) : list ServiceKey :=
  map fst (filter (fun p => rt_registered p.2 = true) services).

Definition wants (services : list (ServiceKey * serviceRuntime)) (k : ServiceKey) (name : string) : Prop :=
  exists rt, (k, rt) ∈ services /\ rt_registered rt = true /\ name ∈ rt_subscriptions rt.

Lemma marked_cons k rt services :
  marked ((k, rt) :: services) = if rt_registered rt then k :: marked services else marked services.
Proof.
  unfold marked. rewrite filter_cons. simpl. by destruct (rt_registered rt).
Qed.

Lemma wants_cons k0 rt services k name :
  wants ((k0, rt) :: services) k name <->
  (k = k0 /\ rt_registered rt = true /\ name ∈ rt_subscriptions rt) \/ wants services k name.
Proof.
  unfold wants. split.
  - intros (rt' & [[= -> ->]|Hin]%elem_of_cons & ? & ?); [by left|right; by exists rt'].
  - intros [(-> & ? & ?)|(rt' & ? & ? & ?)]; eexists; (split; [apply elem_of_cons|]); eauto.
Qed.

Definition sendable_service (k : ServiceKey) : Prop :=
  sendable_key k /\ sendable_location (own_location peer k).

Lemma restore_registers services s :
  at_home s -> NoDup (marked services) ->
  Forall (fun k => sendable_service k /\ Lookup k (registry s) = None) (marked services) ->
  exists s',
    restore_each always_running "register" (fun key _ => registerServiceWithClient peer key connected_main)
      services s = (s', None) /\
    at_home s' /\ subscriptions s' = subscriptions s /\
    forall k, Lookup k (registry s') = if decide (k ∈ marked services) then Some (own_location peer k)
                                      else Lookup k (registry s).
Proof.
  revert s. induction services as [|[k rt] services IH]; intros s Hs Hnd Hall; simpl.
  { by exists s. }
  rewrite marked_cons in *. destruct (rt_registered rt); simpl; [|by apply IH].
  apply NoDup_cons in Hnd as [Hk Hnd]. apply Forall_cons in Hall as [[Hsend Hfree] Hall].
  destruct (register_served k s Hs (proj2 Hsend) Hfree) as (s1 & -> & Hs1 & Hl1 & Hsub1).
  destruct (IH s1 Hs1 Hnd) as (s' & -> & Hs' & Hsub' & Hl').
  { rewrite Forall_forall in Hall |- *. intros k' Hk'. destruct (Hall k' Hk') as [? Hf].
    split; [done|]. rewrite Hl1, decide_False; [done|]. by intros ->. }
  exists s'. split_and!; [done..|congruence|]. intros k'. rewrite Hl', Hl1.
  destruct (decide (k' = k)) as [->|Hne].
  - rewrite decide_False by done. rewrite decide_True; [done|]. by left.
  - destruct (decide (k' ∈ marked services)); [rewrite decide_True by (by right)|rewrite decide_False];
      [done|done|]. by rewrite elem_of_cons; intros [?|?].
Qed.

Lemma subscribe_names_served k names s l :
  at_home s -> sendable_key k -> Forall normalized_name names ->
  Lookup k (registry s) = Some l -> NodeID l = self peer ->
  exists s', subscribe_names (fun name => requestServiceSubscriptionWithClient k name connected_main) names s
             = (s', None) /\ at_home s' /\ registry s' = registry s /\
    forall k' name', subscribed (subscriptions s') k' name' <->
      (k' = k /\ name' ∈ names) \/ subscribed (subscriptions s) k' name'.
Proof.
  revert s. induction names as [|name names IH]; intros s Hs Hk Hn Hl Hnode; simpl.
  { exists s. split_and!; try done. intros k' name'. rewrite elem_of_nil. tauto. }
  apply Forall_cons in Hn as [Hn1 Hn].
  destruct (subscribe_served k name s l Hs Hk Hn1 Hl Hnode) as (s1 & -> & Hs1 & Hr1 & Hsub1).
  destruct (IH s1 Hs1 Hk Hn ltac:(by rewrite Hr1) Hnode) as (s' & -> & Hs' & Hr' & Hsub').
  exists s'. split_and!; [done..|congruence|]. intros k' name'.
  rewrite Hsub', Hsub1, subscribed_subscribe, elem_of_cons. naive_solver.
Qed.

Lemma restore_subscribes services s :
  at_home s -> Forall sendable_key (marked services) ->
  Forall (fun p => forall name, name ∈ rt_subscriptions p.2 -> normalized_name name) services ->
  (forall k, k ∈ marked services -> exists l, Lookup k (registry s) = Some l /\ NodeID l = self peer) ->
  exists s',
    restore_each always_running "subscribe" (subscribeRuntimeWithClient connected_main) services s
      = (s', None) /\ at_home s' /\ registry s' = registry s /\
    forall k name, subscribed (subscriptions s') k name <->
      wants services k name \/ subscribed (subscriptions s) k name.
Proof.
  revert s. induction services as [|[k rt] services IH]; intros s Hs Hk Hn Hl; simpl.
  { exists s. split_and!; try done. intros k name. split; [by right|].
    intros [(rt & Hin & _)|?]; [by apply not_elem_of_nil in Hin|done]. }
  rewrite marked_cons in Hk, Hl. apply Forall_cons in Hn as [Hn1 Hn].
  destruct (rt_registered rt) eqn:E; simpl.
  - apply Forall_cons in Hk as [Hk1 Hk]. destruct (Hl k ltac:(by left)) as (l & Hlk & Hnode).
    destruct (subscribe_names_served k (runtimeSubscriptionNames rt) s l Hs Hk1) as
      (s1 & H1' & Hs1 & Hr1 & Hsub1); [|done|done|].
    { apply Forall_forall. intros name Hname. apply Hn1. by apply elem_of_runtimeSubscriptionNames in Hname. }
    unfold subscribeRuntimeWithClient at 1. rewrite H1'.
    destruct (IH s1 Hs1 Hk Hn) as (s' & -> & Hs' & Hr' & Hsub').
    { intros k' Hk'. rewrite Hr1. apply Hl. by right. }
    exists s'. split_and!; [done..|congruence|]. intros k' name'.
    rewrite Hsub', Hsub1, wants_cons, elem_of_runtimeSubscriptionNames, E. naive_solver.
  - destruct (IH s Hs Hk Hn Hl) as (s' & -> & Hs' & Hr' & Hsub').
    exists s'. split_and!; [done..|]. intros k' name'. rewrite Hsub', wants_cons, E. naive_solver.
Qed.

(** C17 (functional). A node that lost the main node and came back is there
    again as before, under these conditions: nothing is pending at the main
    node when the restore begins and nobody else acts on it until it ends
    ([at_home], [serve]); the new session is registered there under the node's
    id and address; none of the keys of its registered services, which are
    distinct and fit the wire, is held; and the node keeps running.  Then
    [restoreMainNodeState] succeeds, after which the registry has each of these
    services at the node's address and is otherwise unchanged, and the
    subscription index has gained exactly the subscriptions they want.  A
    cleanup of the lost session that is still pending breaks the first
    condition, and can take the restored services away again
    ([stale_cleanup_hits_new_session]). *)
Theorem restore_rebuilds_the_node services s :
  at_home s -> NoDup (marked services) ->
  Forall (fun k => sendable_service k /\ Lookup k (registry s) = None) (marked services) ->
  Forall (fun p => forall name, name ∈ rt_subscriptions p.2 -> normalized_name name) services ->
  exists s', restoreMainNodeState peer always_running services connected_main s = (s', None) /\
    (forall k, Lookup k (registry s') = if decide (k ∈ marked services) then Some (own_location peer k)
                                       else Lookup k (registry s)) /\
    (forall k name, subscribed (subscriptions s') k name <->
       wants services k name \/ subscribed (subscriptions s) k name) /\
    at_home s'.
Proof.
  intros Hs Hnd Hall Hn.
  destruct (restore_registers services s Hs Hnd Hall) as (s1 & H1' & Hs1 & Hsub1 & Hl1).
  destruct (restore_subscribes services s1 Hs1) as (s' & H2' & Hs' & Hr' & Hsub').
  - eapply Forall_impl; [exact Hall|]. by intros k [[? _] _].
  - done.
  - intros k Hk. exists (own_location peer k). by rewrite Hl1, decide_True.
  - exists s'. unfold restoreMainNodeState. rewrite H1'. split_and!; [done| | |done].
    + intros k. by rewrite Hr', Hl1.
    + intros k name. by rewrite Hsub', Hsub1.
Qed.

End Recovery.

(** ** The theorem at work *)

Section Witnesses.
#[local] Existing Instance ascii_tables.
Import Demo.

(** Node 2 has joined on session 7; it wants room 2 registered and told of the gates. *)
Definition came_back : list (ServiceKey * serviceRuntime) :=
  [(room 2, mkRuntime true true true {["gate"]}); (room 3, mkRuntime true true false ∅)].

Lemma opened_at_home : at_home env2 7 opened.
Proof.
  constructor.
  - vm_compute. done.
  - by destruct (reachable_inv env opened opened_reachable) as [[] _].
  - eexists. split; [exact session_registered|]. done.
Qed.

Lemma restore_rebuilds_the_node_witness :
  exists s', restoreMainNodeState env2 always_running came_back (connected_main env 7 5) opened = (s', None) /\
    Lookup (room 2) (registry s') = Some (own_location env2 (room 2)) /\
    subscribed (subscriptions s') (room 2) "gate".
Proof.
  destruct (restore_rebuilds_the_node env env2 7 5 eq_refl came_back opened opened_at_home) as (s' & Hs & Hl & Hsub & _).
  - vm_compute. repeat constructor. by apply not_elem_of_nil.
  - change (marked came_back) with [room 2]. constructor; [|constructor]. split; [split|vm_compute; reflexivity].
    + apply room_sendable. lia.
    + split_and!; try (vm_compute; reflexivity); split; vm_compute; congruence.
  - apply Forall_cons_2; [|apply Forall_cons_2; [|constructor]]; simpl; intros name.
    + intros ->%elem_of_singleton. split_and!; vm_compute; congruence.
    + intros []%not_elem_of_empty.
  - exists s'. split; [done|]. split.
    + rewrite Hl. reflexivity.
    + apply Hsub. left. exists (mkRuntime true true true {["gate"]}). split; [by left|]. split; [done|].
      simpl. by apply elem_of_singleton.
Defined.

End Witnesses.
