(* ===== verification/Joining.v ===== *)
(** * Joining and leaving the cluster

    The life of a Node ([Lifecycle]) composed with the requests it makes for
    its services ([Membership]) and the main node that serves them.  The log of
    [Start] and [Stop] is run as the requests it names, in its order.  What
    the main node promises is a class; it is implemented by the control plane
    of the main node behind the wire format, a session and its handlers, and,
    for the services of the main node itself, by its own control Loop. *)

From stdpp Require Import base tactics list gmap sets strings.
From Stdlib Require Import ZArith Lia Strings.Byte.
From S2P Require Import Prelude GoString Errors Registry Subscription Config Service Wire.
From S2P Require Import WireInstances WireTheorems Dispatch ControlPlane ControlInvariant Client.
From S2P Require Import ControlDemo ControlTheorems ControlRequests Discovery EndToEnd.
From S2P Require Import MainLink Lifecycle Membership Recovery.
Local Open Scope string_scope.
Local Open Scope list_scope.

Section Interface.
Context `{UnicodeTables} `{Platform} `{ProtoLib} `{PacketLib}.

(** What the main node promises to a Node, through the three phases of its
    connection: what it knows of services and subscriptions, that requests for
    free keys succeed with exactly their effect and a request for a taken key
    fails without any, and that the end of the connection takes nothing that
    is not the Node's. *)
Class MainServes (n : node_env) {W : Type} (callOnLoop : task -> W -> W * option error)
    (mainClient : W -> W * res (connection (W := W))) (closeSessions : W -> W) := {
  away : W -> Prop;   (** the Node has no connection yet *)
  home : W -> Prop;
  gone : W -> Prop;   (** and does not have one any more *)
  located : ServiceKey -> W -> option ServiceLocation;
  watching : ServiceKey -> string -> W -> Prop;
  servable : ServiceKey -> Prop;
  serves_itself w : IsMainNode n = true -> away w -> home w;
  serves_connect w :
    IsMainNode n = false -> away w ->
    exists w' client, mainClient w = (w', Ok client) /\ home w' /\
      (forall k, located k w' = located k w) /\ (forall k name, watching k name w' <-> watching k name w);
  serves_register k w :
    home w -> servable k -> located k w = None ->
    exists w', registerService n callOnLoop mainClient k w = (w', None) /\ home w' /\
      (forall k', located k' w' = if decide (k' = k) then Some (own_location n k) else located k' w) /\
      (forall k' name, watching k' name w' <-> watching k' name w);
  serves_taken k w l :
    home w -> servable k -> located k w = Some l ->
    exists w' e, registerService n callOnLoop mainClient k w = (w', Some e) /\ home w' /\
      (forall k', located k' w' = located k' w) /\
      (forall k' name, watching k' name w' <-> watching k' name w);
  serves_subscribe k name w l :
    home w -> servable k -> normalized_name name -> located k w = Some l -> NodeID l = self n ->
    exists w', requestServiceSubscription n callOnLoop mainClient k name w = (w', None) /\ home w' /\
      (forall k', located k' w' = located k' w) /\
      (forall k' name', watching k' name' w' <-> (k' = k /\ name' = name) \/ watching k' name' w);
  serves_unregister k w l :
    home w -> servable k -> located k w = Some l -> NodeID l = self n ->
    exists w', unregisterService n callOnLoop mainClient k w = (w', None) /\ home w' /\
      (forall k', located k' w' = if decide (k' = k) then None else located k' w) /\
      (forall k' name, watching k' name w' <-> k' <> k /\ watching k' name w);
  serves_close w :
    away w \/ home w ->
    (IsMainNode n = false -> forall k l, located k w = Some l -> NodeID l <> self n) ->
    gone (closeSessions w) /\ (forall k, located k (closeSessions w) = located k w) /\
      (forall k name, watching k name (closeSessions w) <-> watching k name w)
}.

(** ** The requests in the life of a Node *)

Context (n : node_env) (ownedLogger : bool) (serviceOrder : list ServiceKey).
Context {W : Type} (callOnLoop : task -> W -> W * option error) (mainClient : W -> W * res (connection (W := W))).
Context (closeSessions : W -> W).
Context `{!MainServes n callOnLoop mainClient closeSessions}.
(** The runtimes as [subscribeRuntime] finds them. *)
Context (wanted : ServiceKey -> serviceRuntime).
(** The keys that are registered already. *)
Context (taken : ServiceKey -> bool).
Implicit Types s : node_life.
Implicit Types w : W.

Definition perform (a : life_action) w : W * option error :=
  match a with
  | ConnectMain => let '(w, client) := mainClient w in (w, match client with Ok _ => None | Err e => Some e end)
  | RequestRegister k => registerService n callOnLoop mainClient k w
  | RequestSubscriptions k => subscribeRuntime n callOnLoop mainClient k (wanted k) w
  | RequestUnregister k => unregisterService n callOnLoop mainClient k w
  | CloseSessions => (closeSessions w, None)
  | _ => (w, None)
  end.

(** The requests that fail. *)
Definition refused (a : life_action) : bool :=
  match a with RequestRegister k => taken k | _ => false end.

(** All requests of a log, one after the other, when exactly these fail. *)
Fixpoint answered (l : list life_action) w : option W :=
  match l with
  | [] => Some w
  | a :: l =>
      match perform a w, refused a with
      | (w, None), false | (w, Some _), true => answered l w
      | _, _ => None
      end
  end.

(** An outside whose answers for the main node say that. *)
Definition truthful (o : outside) : Prop :=
  o_main o = None /\ forall k, k ∈ serviceOrder ->
    (o_register o k = None <-> taken k = false) /\ o_subscribe o k = None /\ o_unregister o k = None.

Lemma answered_app l1 l2 w w1 : answered l1 w = Some w1 -> answered (l1 ++ l2) w = answered l2 w1.
Proof.
  revert w. induction l1 as [|a l1 IH]; intros w; simpl; [by intros [= ->]|].
  destruct (perform a w) as [w2 [e|]], (refused a); try done; apply IH.
Qed.

(** ** The main node knows what the flags of the Node say *)

Hypothesis order_NoDup : NoDup serviceOrder.
Hypothesis order_servable : Forall servable serviceOrder.
Hypothesis names_normalized : forall k name, name ∈ rt_subscriptions (wanted k) -> normalized_name name.
Context (w0 : W).
Hypothesis at_first : away w0.
Hypothesis taken_first : forall k, k ∈ serviceOrder ->
  if taken k then is_Some (located k w0) else located k w0 = None /\ forall name, ~ watching k name w0.
Hypothesis none_first : IsMainNode n = false -> forall k l, located k w0 = Some l -> NodeID l <> self n.

Record known (b : gset ServiceKey) w : Prop := {
  kn_located k : located k w = if decide (k ∈ b) then Some (own_location n k) else located k w0;
  kn_watching k name : watching k name w <->
    (k ∈ b /\ name ∈ rt_subscriptions (wanted k)) \/ watching k name w0
}.

Lemma known_ext b w w' :
  (forall k, located k w' = located k w) -> (forall k name, watching k name w' <-> watching k name w) ->
  known b w -> known b w'.
Proof. intros Hl Hs [Kl Ks]. split; [intros k; by rewrite Hl|intros k name; by rewrite Hs]. Qed.

(** The log so far, in a phase of the connection. *)
Definition joined (P : W -> Prop) s : Prop :=
  exists w, answered (log s) w0 = Some w /\ P w /\ known (registered s) w /\
    forall k, k ∈ registered s -> k ∈ serviceOrder /\ taken k = false.

Lemma joined_impl (P P' : W -> Prop) s : (forall w, P w -> P' w) -> joined P s -> joined P' s.
Proof. intros HP (w & Hg & Hw & Hk). exists w. auto. Qed.

Lemma subscribe_names_granted k names w l :
  home w -> servable k -> Forall normalized_name names -> located k w = Some l -> NodeID l = self n ->
  exists w', subscribe_names (requestServiceSubscription n callOnLoop mainClient k) names w = (w', None) /\
    home w' /\ (forall k', located k' w' = located k' w) /\
    (forall k' name, watching k' name w' <-> (k' = k /\ name ∈ names) \/ watching k' name w).
Proof.
  revert w. induction names as [|name names IH]; intros w Hw Hk Hn Hl Hnode; simpl.
  { exists w. split_and!; try done. intros k' name. rewrite elem_of_nil. tauto. }
  apply Forall_cons in Hn as [Hn1 Hn].
  destruct (serves_subscribe k name w l Hw Hk Hn1 Hl Hnode) as (w1 & -> & Hw1 & Hl1 & Hs1).
  destruct (IH w1 Hw1 Hk Hn ltac:(by rewrite Hl1) Hnode) as (w' & -> & Hw' & Hl' & Hs').
  exists w'. split_and!; [done..|intros; by rewrite Hl'|]. intros k' name'.
  rewrite Hs', Hs1, elem_of_cons. naive_solver.
Qed.

Lemma order_servable_at k : k ∈ serviceOrder -> servable k.
Proof. rewrite Forall_forall in order_servable. apply order_servable. Qed.

(** A service is registered and submits its subscriptions. *)
Lemma known_boot k b w :
  k ∈ serviceOrder -> taken k = false -> k ∉ b -> home w -> known b w ->
  exists w', answered [RequestRegister k; MarkRegistered k; RequestSubscriptions k] w = Some w' /\
    home w' /\ known ({[k]} ∪ b) w'.
Proof.
  intros Hin Htk Hk Hw [Hl Hs]. pose proof (taken_first k Hin) as Hf. rewrite Htk in Hf. destruct Hf as [Hfree Hnone].
  pose proof (order_servable_at k Hin) as Hserv.
  destruct (serves_register k w Hw Hserv) as (w1 & Hr & Hw1 & Hl1 & Hs1); [by rewrite Hl, decide_False|].
  destruct (subscribe_names_granted k (runtimeSubscriptionNames (wanted k)) w1 (own_location n k) Hw1 Hserv)
    as (w' & Hsub & Hw' & Hl' & Hs'); [|by rewrite Hl1, decide_True|done|].
  { apply Forall_forall. intros name Hname. apply (names_normalized k). by apply elem_of_runtimeSubscriptionNames. }
  exists w'. split_and!; [|done|].
  - simpl. rewrite Hr, Htk. unfold subscribeRuntime. by rewrite Hsub.
  - split.
    + intros k'. rewrite Hl', Hl1, Hl. repeat case_decide; set_solver.
    + intros k' name. rewrite Hs', Hs1, Hs, elem_of_runtimeSubscriptionNames. set_solver.
Qed.

(** A key that somebody else holds. *)
Lemma known_refused k b w :
  k ∈ serviceOrder -> taken k = true -> k ∉ b -> home w -> known b w ->
  exists w', answered [RequestRegister k] w = Some w' /\ home w' /\ known b w'.
Proof.
  intros Hin Htk Hk Hw Hkn. pose proof (taken_first k Hin) as Hf. rewrite Htk in Hf. destruct Hf as [l Hfl].
  destruct (serves_taken k w l Hw (order_servable_at k Hin)) as (w' & e & Hr & Hw' & Hl' & Hs').
  { by rewrite (kn_located _ _ Hkn), decide_False. }
  exists w'. split_and!; [simpl; by rewrite Hr, Htk|done|by apply (known_ext b w)].
Qed.

Lemma known_leave k b w :
  k ∈ serviceOrder -> taken k = false -> k ∈ b -> home w -> known b w ->
  exists w', answered [RequestUnregister k] w = Some w' /\ home w' /\ known (b ∖ {[k]}) w'.
Proof.
  intros Hin Htk Hk Hw [Hl Hs]. pose proof (taken_first k Hin) as Hf. rewrite Htk in Hf. destruct Hf as [Hfree Hnone].
  destruct (serves_unregister k w (own_location n k) Hw (order_servable_at k Hin)) as (w' & Hu & Hw' & Hl' & Hs');
    [by rewrite Hl, decide_True|done|].
  exists w'. split_and!; [simpl; by rewrite Hu|done|]. split.
  - intros k'. rewrite Hl', Hl. repeat case_decide; set_solver.
  - intros k' name. rewrite Hs', Hs. set_solver.
Qed.

(** ** The steps of [Start] and [Stop] that ask for nothing *)

Definition asks (a : life_action) : bool :=
  match a with
  | ConnectMain | RequestRegister _ | RequestSubscriptions _ | RequestUnregister _ | CloseSessions => true
  | _ => false
  end.

Definition quietly s s' : Prop :=
  registered s' = registered s /\ exists l, log s' = log s ++ l /\ Forall (fun a => asks a = false) l.

Lemma quietly_refl s : quietly s s.
Proof. split; [done|]. exists []. by rewrite app_nil_r. Qed.

Lemma quietly_trans s1 s2 s3 : quietly s1 s2 -> quietly s2 s3 -> quietly s1 s3.
Proof.
  intros [R1 (l1 & L1 & F1)] [R2 (l2 & L2 & F2)]. split; [congruence|]. exists (l1 ++ l2).
  rewrite L2, L1, app_assoc. split; [done|by apply Forall_app].
Qed.

(** One action, and a change of other flags. *)
Lemma quietly_act a s s' :
  log s' = log s ++ [a] -> asks a = false -> registered s' = registered s -> quietly s s'.
Proof. intros Hl Ha Hr. split; [done|]. exists [a]. by repeat constructor. Qed.

Lemma quietly_flags s s' : registered s' = registered s -> log s' = log s -> quietly s s'.
Proof. intros Hr Hl. split; [done|]. exists []. by rewrite app_nil_r. Qed.

Lemma joined_quietly P s s' : quietly s s' -> joined P s -> joined P s'.
Proof.
  intros [Hr (l & Hl & Hq)] (w & Hg & HP & Hk & Hin). exists w. rewrite Hr, Hl. split; [|done].
  rewrite (answered_app _ _ _ w Hg). clear Hg Hl. induction Hq as [|a l Ha Hq IH]; [done|].
  by destruct a.
Qed.

#[local] Ltac quiet_step := repeat case_match; first [ apply quietly_refl | by apply quietly_flags | by eapply quietly_act ].

Lemma quietly_startService o k s : quietly s (fst (startService o k s)).
Proof.
  unfold startService, startFrameLoop.
  apply (quietly_trans _ (act (RunLoop k) s)); [by eapply quietly_act|].
  apply (quietly_trans _ (act (HookStart k) (act (RunLoop k) s))); [by eapply quietly_act|].
  set (s1 := act (HookStart k) _). destruct (o_start o k); [|by apply quietly_flags].
  apply (quietly_trans _ (act (HookStop k) s1)); [by eapply quietly_act|].
  destruct (o_stop o k); by eapply quietly_act.
Qed.

Lemma quietly_stop_all o ks s : quietly s (fst (stop_all o ks s)).
Proof.
  revert s. induction ks as [|k ks IH]; intros s; simpl; [apply quietly_refl|].
  destruct (stopService o k s) as [s1 e] eqn:E. specialize (IH s1).
  destruct (stop_all o ks s1) as [s2 errs]. simpl in *. apply (quietly_trans _ s1); [|done].
  unfold stopService in E. case_bool_decide; simplify_eq; [|apply quietly_refl].
  apply (quietly_trans _ (act (HookStop k) s)); by eapply quietly_act.
Qed.

Lemma quietly_timers s : quietly s (stopServiceCallTimeWheel s).
Proof.
  unfold stopServiceCallTimeWheel.
  apply (quietly_trans _ (if callTimersStopped s then s else set_callTimersStopped (act StopCalls s))); quiet_step.
Qed.

Lemma quietly_before_shutdown s : quietly s (stopMainRecovery (stopServiceCallTimeWheel s)).
Proof.
  apply (quietly_trans _ (stopServiceCallTimeWheel s)); [apply quietly_timers|].
  unfold stopMainRecovery. quiet_step.
Qed.

Lemma quietly_network s : quietly (act CloseSessions s) (stopControlLoop (closeNetwork s)).
Proof.
  apply (quietly_trans _ (closeNetwork s)); [|unfold stopControlLoop; quiet_step].
  unfold closeNetwork. quiet_step.
Qed.

Lemma quietly_logger s : quietly s (releaseLogger ownedLogger s).
Proof. unfold releaseLogger. quiet_step. Qed.

(** ** Withdrawal, start and stop *)

Lemma joined_unregister_all o ks s : joined home s -> joined home (fst (unregister_all o ks s)).
Proof.
  revert s. induction ks as [|k ks IH]; intros s Hs; simpl; [done|].
  destruct (unregister_one o k s) as [s1 e] eqn:E.
  assert (joined home s1) as Hs1; [|specialize (IH s1 Hs1); by destruct (unregister_all o ks s1)].
  unfold unregister_one in E. case_bool_decide as Hk; simplify_eq; [|done].
  destruct Hs as (w & Hg & Hw & Hkn & Hin). destruct (Hin k Hk) as [Hin1 Htk].
  destruct (known_leave k _ w Hin1 Htk Hk Hw Hkn) as (w' & Hg' & Hw' & Hkn').
  exists w'. simpl. rewrite (answered_app _ _ _ w Hg). split_and!; [done..|]. set_solver.
Qed.

(** Nothing is registered and nothing is withdrawn. *)
Lemma unregister_all_none o ks s : registered s = ∅ -> fst (unregister_all o ks s) = s.
Proof.
  intros Hr. revert s Hr. induction ks as [|k ks IH]; intros s Hr; simpl; [done|].
  unfold unregister_one. rewrite bool_decide_eq_false_2 by set_solver. specialize (IH s Hr).
  by destruct (unregister_all o ks s).
Qed.

Lemma unregister_all_registered o s :
  (forall k, k ∈ registered s -> k ∈ serviceOrder) -> registered (fst (unregister_all o (rev serviceOrder) s)) = ∅.
Proof.
  intros Hin. rewrite unregister_all_spec by (by apply rev_order_NoDup). simpl.
  apply set_eq. intros k. rewrite elem_of_difference, elem_of_list_to_set, list_elem_of_In, <- in_rev, <- list_elem_of_In.
  set_solver.
Qed.

(** The Node has a connection, or nothing of it is registered. *)
Definition connected_or_bare s : Prop := joined home s \/ joined away s /\ registered s = ∅.

Lemma joined_withdraw o s :
  connected_or_bare s ->
  let s' := fst (unregister_all o (rev serviceOrder) s) in
  joined (fun w => away w \/ home w) s' /\ registered s' = ∅.
Proof.
  cbv zeta. intros [Hs|[Hs Hr]].
  - split; [by eapply joined_impl, joined_unregister_all; [by right|]|].
    apply unregister_all_registered. destruct Hs as (w & _ & _ & _ & Hin). intros k Hk. by apply Hin.
  - rewrite unregister_all_none by done. split; [|done]. eapply joined_impl; [|exact Hs]. by left.
Qed.

Lemma joined_close s :
  joined (fun w => away w \/ home w) s -> registered s = ∅ -> joined gone (act CloseSessions s).
Proof.
  intros (w & Hg & Hw & Hkn & Hin) Hr. destruct (serves_close w Hw) as (Hgo & Hl & Hs).
  { intros Hm k l. rewrite (kn_located _ _ Hkn), Hr, decide_False by set_solver. by apply none_first. }
  exists (closeSessions w). simpl. rewrite (answered_app _ _ _ w Hg). split_and!; [done..|by apply (known_ext _ w)|done].
Qed.

Lemma joined_shutdown o s : connected_or_bare s -> joined gone (fst (shutdown ownedLogger serviceOrder o s)).
Proof.
  intros Hs. unfold shutdown. pose proof (quietly_before_shutdown s) as Hq.
  assert (connected_or_bare (stopMainRecovery (stopServiceCallTimeWheel s))) as Hs1.
  { destruct Hs as [Hs|[Hs Hr]]; [left|right; split; [|by destruct Hq as [-> _]]]; by apply (joined_quietly _ s). }
  apply (joined_withdraw o) in Hs1 as [Hs1 Hr1].
  destruct (unregister_all o (rev serviceOrder) _) as [s1 errs]. simpl in Hs1, Hr1.
  pose proof (joined_quietly _ _ _ (quietly_network s1) (joined_close s1 Hs1 Hr1)) as Hs2.
  apply (joined_quietly _ _ _ (quietly_stop_all o (rev serviceOrder) _)) in Hs2.
  destruct (stop_all o (rev serviceOrder) _) as [s2 errs']. simpl in *.
  apply (joined_quietly _ _ _ (quietly_logger (set_life Stopped s2))).
  by apply (joined_quietly _ s2); [apply quietly_flags|].
Qed.

(** The end of [Start]: the Node runs, or it has been taken back. *)
Definition settled s : Prop := life s = Running /\ joined home s \/ life s = Stopped /\ joined gone s.

Lemma settled_shutdown o s : connected_or_bare s -> settled (fst (shutdown ownedLogger serviceOrder o s)).
Proof. intros Hs. right. split; [by apply shutdown_life|by apply joined_shutdown]. Qed.

Lemma settled_start_services o ks s :
  truthful o -> NoDup ks -> (forall k, k ∈ ks -> k ∈ serviceOrder /\ k ∉ registered s) -> joined home s ->
  settled (fst (start_services ownedLogger serviceOrder o ks s)).
Proof.
  intros [_ Ho]. revert s. induction ks as [|k ks IH]; intros s Hnd Hks Hs; simpl.
  { left. split; [done|]. by apply (joined_quietly _ s); [apply quietly_flags|]. }
  apply NoDup_cons in Hnd as [Hk Hnd]. pose proof (quietly_startService o k s) as Hq.
  destruct (startService o k s) as [s1 [e|]]; simpl in Hq |- *.
  { apply settled_shutdown. left. by apply (joined_quietly _ s). }
  destruct (Hks k) as [Hin Hfree]; [by left|]. destruct (Ho k Hin) as (Hreg & Hsub & _).
  destruct (joined_quietly _ _ _ Hq Hs) as (w & Hg & Hw & Hkn & Hall). destruct Hq as [Hrs _].
  destruct (o_register o k) as [err|].
  - destruct (known_refused k (registered s1) w Hin) as (w' & Hg' & Hw' & Hkn'); [|by rewrite Hrs|done|done|].
    { destruct (taken k); [done|]. discriminate (proj2 Hreg eq_refl). }
    apply settled_shutdown. left. exists w'. simpl. rewrite (answered_app _ _ _ w Hg). by split_and!.
  - rewrite Hsub. apply IH; [done|simpl; rewrite Hrs; set_solver|].
    pose proof (proj1 Hreg eq_refl) as Htk.
    destruct (known_boot k (registered s1) w Hin Htk) as (w' & Hg' & Hw' & Hkn'); [by rewrite Hrs|done|done|].
    exists w'. simpl. rewrite <- !app_assoc, (answered_app _ _ _ w Hg). split_and!; [done..|]. set_solver.
Qed.

Lemma joined_connect s :
  IsMainNode n = false -> joined away s -> joined home (act ConnectMain s).
Proof.
  intros Hm (w & Hg & Hw & Hkn & Hsub). destruct (serves_connect w Hm Hw) as (w' & client & Hc & Hw' & Hl & Hs).
  exists w'. simpl. rewrite (answered_app _ _ _ w Hg). simpl. rewrite Hc.
  split_and!; [done..|by apply (known_ext _ w)|done].
Qed.

Lemma joined_start o :
  truthful o -> joined away life_init ->
  settled (fst (Start (self n) (mainNodeID n) (listenAddr n) ownedLogger serviceOrder o life_init)).
Proof.
  intros Ho Hs. unfold Start. rewrite bool_decide_eq_true_2 by done.
  set (s1 := startMainRecoveryLoop _ _ _). assert (quietly life_init s1) as Hq.
  { unfold s1. apply (quietly_trans _ (startControlLoop (set_life Starting (startServiceCallTimeWheel life_init)))).
    - split; [done|]. exists [OpenCallWheel; OpenControl]. by repeat constructor.
    - unfold startMainRecoveryLoop. quiet_step. }
  apply (joined_quietly _ _ _ Hq) in Hs. destruct Hq as [Hreg _]. clearbody s1.
  set (s2 := set_server true (act OpenServer s1)).
  assert (joined away s2) as Hs2 by (apply (joined_quietly _ s1); [by eapply quietly_act|done]).
  unfold startRPCServer. fold s2. destruct (o_server o); [|apply settled_shutdown; right; by split].
  unfold life_is_main. case_bool_decide as Hm.
  - apply settled_start_services; [done..|simpl; rewrite Hreg; set_solver|].
    eapply joined_impl; [|exact Hs2]. intros w. apply serves_itself. unfold IsMainNode. by apply Z.eqb_eq.
  - destruct Ho as [Hmain Ho]. rewrite Hmain.
    apply settled_start_services; [done..|simpl; rewrite Hreg; set_solver|].
    apply joined_connect; [|done]. unfold IsMainNode. by apply Z.eqb_neq.
Qed.

Abbreviation life_of h := (life_run (self n) (mainNodeID n) (listenAddr n) ownedLogger serviceOrder h).

(** The phase of the connection is that of the life. *)
Definition phased s : Prop :=
  match life s with
  | Initial => s = life_init
  | Running => joined home s
  | _ => joined (fun w => away w \/ gone w) s
  end.

Lemma phased_settled s : settled s -> phased s.
Proof.
  intros [[Hl Hs]|[Hl Hs]]; unfold phased; rewrite Hl; [done|].
  eapply joined_impl; [|exact Hs]. by right.
Qed.

Lemma joined_init : joined away life_init.
Proof. exists w0. split_and!; [done..| |]; [|intros k; simpl; set_solver]. split; set_solver. Qed.

Lemma life_of_phased h : Forall (fun p => truthful p.1) h -> phased (life_of h).
Proof.
  induction h as [|[o c] h IH] using rev_ind; [done|]. intros [Hh [Ho _]%Forall_cons]%Forall_app.
  specialize (IH Hh). unfold life_run. rewrite foldl_app. simpl. fold (life_of h).
  pose proof (life_run_balanced (self n) (mainNodeID n) (listenAddr n) ownedLogger serviceOrder order_NoDup h) as Hb.
  apply bal_state in Hb. destruct c; simpl.
  - destruct (decide (life (life_of h) = Initial)) as [El|El].
    + rewrite El in Hb. rewrite Hb. by apply phased_settled, joined_start, joined_init.
    + unfold Start. by rewrite bool_decide_eq_false_2.
  - unfold Stop. unfold phased in IH. destruct (life (life_of h)) eqn:El; try done; simpl.
    + assert (quietly (life_of h) (releaseLogger ownedLogger (stopServiceCallTimeWheel (set_life Stopped (life_of h))))) as Hq.
      { eapply quietly_trans; [|apply quietly_logger]. eapply quietly_trans; [|apply quietly_timers]. by apply quietly_flags. }
      assert (life (releaseLogger ownedLogger (stopServiceCallTimeWheel (set_life Stopped (life_of h)))) = Stopped) as El'.
      { unfold releaseLogger, stopServiceCallTimeWheel. by repeat case_match. }
      unfold phased. rewrite El'. apply (joined_quietly _ _ _ Hq). rewrite IH.
      eapply joined_impl; [|exact joined_init]. by left.
    + pose proof (settled_shutdown o (set_life Stopping (life_of h))) as Hsd.
      destruct (shutdown _ _ _ _) as [s' errs]. simpl in *. apply phased_settled, Hsd.
      left. by apply (joined_quietly _ (life_of h)); [apply quietly_flags|].
    + unfold phased. assert (life (releaseLogger ownedLogger (life_of h)) = Stopped) as ->.
      { unfold releaseLogger. by repeat case_match. }
      by apply (joined_quietly _ (life_of h)); [apply quietly_logger|].
Qed.

(** The flags of a Node whose life is at rest. *)
Lemma life_of_registered h k :
  k ∈ registered (life_of h) <-> life (life_of h) = Running /\ k ∈ serviceOrder.
Proof.
  pose proof (life_run_balanced (self n) (mainNodeID n) (listenAddr n) ownedLogger serviceOrder order_NoDup h) as Hb.
  apply bal_state in Hb. destruct (life (life_of h)); try done.
  - rewrite Hb. simpl. set_solver.
  - destruct Hb as (_ & _ & _ & _ & _ & ->). rewrite elem_of_list_to_set. tauto.
  - destruct Hb as (_ & _ & _ & _ & -> & _). set_solver.
Qed.

(** What the main node has of a Node after any history of [Start] and [Stop]. *)
Lemma life_is_known h :
  Forall (fun p => truthful p.1) h ->
  exists w, answered (log (life_of h)) w0 = Some w /\
    (if decide (life (life_of h) = Running) then home w else away w \/ gone w) /\
    (forall k, located k w = if decide (life (life_of h) = Running /\ k ∈ serviceOrder)
                             then Some (own_location n k) else located k w0) /\
    (forall k name, watching k name w <->
       (life (life_of h) = Running /\ k ∈ serviceOrder /\ name ∈ rt_subscriptions (wanted k)) \/
       watching k name w0).
Proof.
  intros Hh. assert (joined (fun w => if decide (life (life_of h) = Running) then home w else away w \/ gone w) (life_of h))
    as (w & Hg & Hw & [Hl Hs] & _).
  { pose proof (life_of_phased h Hh) as Hp. unfold phased in Hp.
    destruct (life (life_of h)) eqn:El; rewrite ?decide_True by done; rewrite ?decide_False by done; try done.
    rewrite Hp. eapply joined_impl; [|exact joined_init]. by left. }
  exists w. split_and!; [done..| |].
  - intros k. rewrite Hl. pose proof (life_of_registered h k). repeat case_decide; tauto.
  - intros k name. rewrite Hs, life_of_registered. tauto.
Qed.

End Interface.

(** ** The main node serves another Node *)

Section Remote.
Context `{UnicodeTables} `{Platform} `{ProtoLib} `{!ProtoLaws} `{PacketLib} `{!PacketLaws}.
Context {R : Type} `{ServiceRegistry R} `{!ServiceRegistryLaws R}.
Context (n peer : node_env) (session : nat) (c : Z).
Hypothesis main : IsMainNode n = true.
Hypothesis not_main : IsMainNode peer = false.
Implicit Types s : node R.

(** Such a Node never runs the requests on its own control Loop. *)
Definition other_loop : task -> node R -> node R * option error :=
  fun _ s => (s, Some (EText "not the main node")).

(** The end of the connection: [OnSessionClose] of the session, and what it
    leaves to the control Loop. *)
Definition hang_up s : node R :=
  match remotes s !! session with
  | Some _ => let s := go (MSwap session false) s in drain n (work s) s
  | None => s
  end.

(** [getRPCClient] for the main node, over a network that connects: the client
    that is there, or [connectRPCClient], a new connection whose first request
    is RegisterNode and which is given up if that is refused. *)
Definition connect_main : node R -> node R * res (connection (W := node R)) :=
  fun s =>
  if remoteNodeIsCurrent session s then (s, Ok (connected_main n session c))
  else
    let s := on_accept session s in
    let s := drain n (work s) s in
    match request (connected_main n session c) opRegisterNode
            (Message TRegisterNodeRequest (mkRegisterNode (self peer) (listenAddr peer))) TRegisterNodeResponse s with
    | (s, None) => (s, Ok (connected_main n session c))
    | (s, Some e) =>
        (hang_up s, Err (prefixf ("register node " +:+ fmt_d (self peer) +:+ " with node "
                                  +:+ fmt_d (mainNodeID peer) +:+ ": ") e))
    end.

(** The Node is another one, configured with this address. *)
Definition admissible : Prop :=
  in_signed int_bits (self peer) /\ (0 < self peer)%Z /\ self peer <> self n /\
  configured_addr n (self peer) (listenAddr peer) /\ ValidString (listenAddr peer) = true.

(** ** A new session *)

Lemma drain_arm s r :
  quiescent s -> remotes s !! session = Some r -> active r = true ->
  drain n (work (post (TArm session) s)) (post (TArm session) s) =
  set_remotes (<[session := mkRemote (remote_id r) (remote_addr r) true true]> (remotes s)) s.
Proof.
  intros (Hq & Hr & Hg) Hse Ha. destruct s as [rg sb rm rn cq ru gr ou]. simpl in *. subst.
  assert (work (post (TArm session) (mkNode rg sb rm rn [] None [] ou)) = 1) as -> by done.
  simpl. unfold internal. simpl. by rewrite Hse, Ha.
Qed.

Lemma accept_drained s :
  quiescent s ->
  drain n (work (on_accept session s)) (on_accept session s) =
  set_remotes (<[session := mkRemote 0 "" true true]> (remotes s)) s.
Proof.
  intros Hq. unfold on_accept, armRemoteNodeTimeout.
  rewrite (drain_arm _ (mkRemote 0 "" true false)); [|done|apply lookup_insert_eq|done].
  unfold set_remotes. simpl. by rewrite insert_insert_eq.
Qed.

Definition unconnected s : Prop :=
  quiescent s /\ reg_ok (registry s) /\ index_wf (subscriptions s) /\
  remotes s !! session = None /\ remoteNodes s !! self peer = None.

Lemma join_packet :
  admissible -> exists pkt body,
  encodeEnvelope opRegisterNode
    (Message TRegisterNodeRequest (mkRegisterNode (self peer) (listenAddr peer))) = Ok pkt /\
  decodeEnvelope pkt = Ok (opRegisterNode, body) /\
  decodeOperationPayload TRegisterNodeRequest body = Ok (mkRegisterNode (self peer) (listenAddr peer)).
Proof.
  intros (_ & _ & _ & _ & Hu). set (m := mkRegisterNode (self peer) (listenAddr peer)).
  destruct (encodeEnvelope_total opRegisterNode TRegisterNodeRequest m) as [pkt Hp]; [simpl; by rewrite Hu|].
  destruct (decode_encodeEnvelope opRegisterNode TRegisterNodeRequest m pkt) as (body & ? & ?);
    [split; vm_compute; congruence|done|]. by exists pkt, body.
Qed.

(** The session after the Node registered on it. *)
Definition home_with (a : bool) s : node R :=
  set_remoteNodes (<[self peer := session]> (remoteNodes s))
    (set_remotes (<[session := mkRemote (self peer) (listenAddr peer) true a]> (remotes s)) s).

Definition home_session s : node R := home_with true s.

Lemma connect_main_new s :
  admissible -> unconnected s ->
  exists p, connect_main s = (emit [ORespond session c p] (home_session s), Ok (connected_main n session c)).
Proof.
  intros Had (Hq & Hreg & Hidx & Hnone & Hfree). destruct (join_packet Had) as (pkt & body & Hp & Hd & Hb).
  destruct Had as (Hsg & Hpos & Hself & Hcf & _). unfold connect_main.
  assert (remoteNodeIsCurrent session s = false) as -> by (unfold remoteNodeIsCurrent; by rewrite Hnone).
  rewrite accept_drained by done. set (s1 := set_remotes _ s). cbv zeta.
  set (rq := mkRegisterNode (self peer) (listenAddr peer)) in *.
  assert (remotes s1 !! session = Some (mkRemote 0 "" true true)) as Hs1 by apply lookup_insert_eq.
  assert (admits n session rq s1) as Hadm by (split_and!; [done..|by eexists]).
  destruct (handleRegisterNode_admits n session c body rq s1 Hb Hadm) as [a Ha].
  destruct (encodeResult_total TRegisterNodeResponse tt eq_refl) as [p He]. exists p.
  assert (handleRPCRequest n session c pkt s1 =
    post (TArm session) (emit [ORespond session c p] (home_with a s1))) as Hh.
  { unfold handleRPCRequest. rewrite Hd. simpl. rewrite Ha. unfold respondRPC. rewrite He. reflexivity. }
  unfold request, client_send. cbn [connected_main fst snd negb]. rewrite Hp. unfold serve. rewrite Hh.
  rewrite (drain_arm _ (mkRemote (self peer) (listenAddr peer) true a)); [|done|apply lookup_insert_eq|done].
  simpl. rewrite drop_app_length. simpl. rewrite bool_decide_eq_true_2 by done.
  rewrite (decode_empty_answer TRegisterNodeResponse tt p He). simpl.
  unfold emit, home_session, home_with, set_remotes, set_remoteNodes. simpl. by rewrite !insert_insert_eq.
Qed.

Lemma home_session_registered s :
  admissible -> registeredRemoteNode session (home_session s) = Ok (mkRemote (self peer) (listenAddr peer) true true).
Proof.
  intros (_ & Hpos & _). unfold registeredRemoteNode, home_session, home_with, is_current. simpl.
  rewrite lookup_insert_eq. simpl. rewrite lookup_insert_eq, bool_decide_eq_true_2 by done.
  by rewrite (proj2 (Z.eqb_neq _ _)) by lia.
Qed.

(** ** The end of the session *)

Lemma drain_step k s s' : node_step n (internal s) s = Some s' -> drain n (S k) s = drain n k s'.
Proof. intros Hs. simpl. by rewrite Hs. Qed.

Lemma hang_up_home s r :
  quiescent s -> remotes s !! session = Some r -> is_current session r s = true ->
  hang_up s = run_body n (TCleanup (remote_id r))
    (set_remoteNodes (delete (remote_id r) (remoteNodes s))
       (set_remotes (<[session := mkRemote (remote_id r) (remote_addr r) false false]> (remotes s)) s)).
Proof.
  intros (Hq & Hr & Hg) Hse Hc. unfold hang_up. rewrite Hse. cbv zeta. unfold is_current in Hc. bool_prop.
  destruct s as [rg sb rm rn cq ru gr ou]. simpl in * |-. subst. destruct r as [id addr ac ar]. simpl in * |-. subst.
  assert (work (go (MSwap session false) (mkNode rg sb rm rn [] None [] ou)) = 5) as -> by done.
  set (rm' := <[session := mkRemote id addr false false]> rm).
  rewrite (drain_step _ _ (mkNode rg sb rm' rn [] None [MUnlink session false] ou)) by (simpl; by rewrite Hse).
  rewrite (drain_step _ _ (mkNode rg sb rm' (delete id rn) [] None [MCleanup id session false] ou)).
  2:{ simpl. unfold rm'. rewrite lookup_insert_eq. simpl. rewrite bool_decide_eq_true_2 by done.
      rewrite (proj2 (Z.eqb_neq _ _)) by done. simpl. by rewrite main. }
  rewrite (drain_step _ _ (mkNode rg sb rm' (delete id rn) [TCleanup id] None [MClose session false] ou)) by done.
  rewrite (drain_step _ _ (mkNode rg sb rm' (delete id rn) [TCleanup id] None [] ou)) by done.
  done.
Qed.

(** Nothing of the Node is left, and the cleanup finds nothing. *)
Lemma hang_up_spec s :
  at_home peer session s -> (forall k l, Lookup k (registry s) = Some l -> NodeID l <> self peer) ->
  quiescent (hang_up s) /\ remoteNodes (hang_up s) !! self peer = None /\
  (forall k, Lookup k (registry (hang_up s)) = Lookup k (registry s)) /\
  subscriptions (hang_up s) = subscriptions s.
Proof.
  intros [Hq Hreg (r & Hr & Hid & _)] Hno. apply registeredRemoteNode_Ok in Hr as [Hr Hc].
  rewrite (hang_up_home s r Hq Hr Hc), Hid. cbn [run_body]. simpl.
  destruct (UnregisterNode_lookup (self peer) (registry s) Hreg) as [Hreg' Hl].
  assert (serviceKeysForNode (self peer) (registry s) = []) as ->.
  { destruct (serviceKeysForNode _ _) as [|k ks] eqn:E; [done|].
    assert (k ∈ serviceKeysForNode (self peer) (registry s)) as Hk by (rewrite E; by left).
    apply elem_of_serviceKeysForNode in Hk as (l & Hk & Hn); [by destruct (Hno k l)|done]. }
  simpl. split_and!; [done|apply lookup_delete_eq| |done].
  intros k. rewrite Hl. destruct (Lookup k (registry s)) as [l|] eqn:E; [|done].
  rewrite decide_False; [done|by apply (Hno k)].
Qed.

(** ** A key that is registered already *)

Lemma refusal_decodes e (t : mtype) :
  exists e', decode_response t
    match answer_in session c (respondRPCError session c e) with
    | Some p => Ok p | None => Err (EText "timeout")
    end = Err e'.
Proof.
  unfold respondRPCError. destruct (Z_lt_le_dec maxRPCStringSize (len (Error e))) as [Hl|Hl].
  - destruct (oversized_error_has_no_packet e Hl) as [e' ->]. simpl. by eexists.
  - destruct (encodeError_roundtrip e Hl) as (p & e' & head & -> & Hd & _). simpl.
    rewrite bool_decide_eq_true_2 by done. exists e'. unfold decode_response. simpl. by rewrite Hd.
Qed.

Lemma register_taken k s l :
  at_home peer session s -> sendable_location (own_location peer k) -> Lookup k (registry s) = Some l ->
  exists s' e, registerServiceWithClient peer k (connected_main n session c) s = (s', Some e) /\
    at_home peer session s' /\ registry s' = registry s /\ subscriptions s' = subscriptions s.
Proof.
  intros Hs Hl Htk. pose proof Hs as [Hq Hreg (r & Hr & Hid & Had)].
  destruct (register_packet _ Hl) as (pkt & body & Hp & Hd & Hb).
  assert (Hh : handleRPCRequest n session c pkt s =
               go (MPost (TRegister session c (self peer) (own_location peer k))) s).
  { erewrite handle_registered; [|done|done|vm_compute; congruence]. by apply handle_register. }
  assert (Hkey : Key (own_location peer k) = k) by (by destruct k).
  destruct (Register_exists (own_location peer k) (registry s) l) as (e & He & _);
    [done|apply Hl|by rewrite Hkey|].
  assert (Hbody : run_body n (TRegister session c (self peer) (own_location peer k)) s =
                  emit (respondRPCError session c e) s) by (cbn [run_body]; by rewrite He).
  unfold registerServiceWithClient, request, client_send, connected_main. cbn [fst snd negb]. rewrite Hp.
  rewrite (serve_posted n peer session c pkt _ s Hs Hh) by done. rewrite Hbody. simpl. rewrite drop_app_length.
  destruct (refusal_decodes e TRegisterResponse) as [e' ->]. exists (emit (respondRPCError session c e) s), e'.
  split_and!; try done. by apply (at_home_ext peer session s).
Qed.

(** ** The three phases *)

Hypothesis may_join : admissible.

Lemma connect_main_home s : at_home peer session s -> connect_main s = (s, Ok (connected_main n session c)).
Proof. intros Hs. unfold connect_main. by rewrite (at_home_current peer session s Hs). Qed.

#[export] Program Instance session_serves : MainServes peer other_loop connect_main hang_up := {
  away := unconnected;
  home s := at_home peer session s /\ index_wf (subscriptions s);
  gone s := quiescent s /\ remoteNodes s !! self peer = None;
  located k s := Lookup k (registry s);
  watching k name s := subscribed (subscriptions s) k name;
  servable := sendable_service peer
}.
Next Obligation. intros s Hm. congruence. Qed.
Next Obligation.
  intros s _ Hs. destruct (connect_main_new s may_join Hs) as [p Hc]. destruct Hs as (Hq & Hreg & Hi & _).
  exists (emit [ORespond session c p] (home_session s)). eexists. split; [exact Hc|].
  split_and!; try done. split; [done..|].
  exists (mkRemote (self peer) (listenAddr peer) true true). split; [|done]. by apply home_session_registered.
Qed.
Next Obligation.
  intros k s [Hs Hi] [_ Hk] Hfree. unfold registerService. rewrite not_main.
  destruct (register_served n peer session c main k s Hs Hk Hfree) as (s' & Hr & Hs' & Hl & Hsub).
  exists s'. unfold with_main. rewrite connect_main_home, Hsub by done. by split_and!.
Qed.
Next Obligation.
  intros k s l [Hs Hi] [_ Hk] Htk. unfold registerService. rewrite not_main.
  destruct (register_taken k s l Hs Hk Htk) as (s' & e & Hr & Hs' & Hreg & Hsub).
  exists s', e. unfold with_main. rewrite connect_main_home, Hsub, Hreg by done. by split_and!.
Qed.
Next Obligation.
  intros k name s l [Hs Hi] [Hk _] Hn Hl Hnode. unfold requestServiceSubscription. rewrite not_main.
  destruct (subscribe_served n peer session c main k name s l Hs Hk Hn Hl Hnode) as (s' & Hr & Hs' & Hreg & Hsub).
  exists s'. unfold with_main. rewrite connect_main_home, Hsub, Hreg by done. split_and!; [done|done| |done|].
  - by apply index_wf_subscribe.
  - intros k' name'. rewrite subscribed_subscribe. naive_solver.
Qed.
Next Obligation.
  intros k s l [Hs Hi] [Hk _] Hl Hnode. unfold unregisterService. rewrite not_main.
  destruct (unregister_served n peer session c main k s l Hs Hk Hl Hnode) as (s' & Hr & Hs' & Hreg & Hsub).
  exists s'. unfold with_main. rewrite connect_main_home, Hsub by done. split_and!; [exact Hr|done| |done|].
  - by apply index_wf_remove.
  - intros k' name. by apply subscribed_remove.
Qed.
Next Obligation.
  intros s [(Hq & _ & _ & Hnone & Hfree)|[Hs Hi]] Hno.
  - assert (hang_up s = s) as -> by (unfold hang_up; by rewrite Hnone). by split_and!.
  - destruct (hang_up_spec s Hs (Hno not_main)) as (Hq & Hfree & Hl & Hsub). rewrite Hsub. by split_and!.
Qed.

End Remote.

(** ** The main node serves its own services *)

Section Local.
Context `{UnicodeTables} `{Platform} `{ProtoLib} `{PacketLib}.
Context {R : Type} `{ServiceRegistry R} `{!ServiceRegistryLaws R}.
Context (n : node_env).
Hypothesis main : IsMainNode n = true.
Implicit Types s : node R.

Fixpoint returned_in (o : list output) : option (option error) :=
  match o with
  | [] => None
  | OReturn e :: _ => Some e
  | _ :: o => returned_in o
  end.

(** [callOnLoop] on the control Loop: the function is posted, the Loop runs
    until nothing is left, and the caller gets what the function returned. *)
Definition on_control_loop (t : task) s : node R * option error :=
  let s1 := post t s in
  let s2 := drain n (work s1) s1 in
  (s2, match returned_in (drop (length (outputs s)) (outputs s2)) with
       | Some e => e
       | None => Some (EText "no answer")
       end).

Definition no_client : node R -> node R * res (connection (W := node R)) :=
  fun s => (s, Err (ESentinel ErrRPCDisconnected)).

Lemma returned_in_app o o' :
  (forall e, OReturn e ∉ o) -> returned_in (o ++ o') = returned_in o'.
Proof.
  induction o as [|x o IH]; intros Ho; [done|]. simpl.
  destruct x as [| | | | | |r]; try (apply IH; intros r He; apply (Ho r); by right). destruct (Ho r). by left.
Qed.

Lemma on_control_loop_body t s s1 o ret :
  quiescent s -> is_local t = true -> run_body n t s = emit (o ++ [OReturn ret]) s1 ->
  outputs s1 = outputs s -> (forall e, OReturn e ∉ o) ->
  on_control_loop t s = (run_body n t s, ret).
Proof.
  intros (Hq & Hr & Hg) Ht Hb Ho Hn. unfold on_control_loop.
  assert (drain n (work (post t s)) (post t s) = run_body n t s) as ->.
  { assert (work (post t s) = 1) as ->.
    { unfold work, micros, post. simpl. rewrite Hq, Hr, Hg. by destruct t. }
    simpl. unfold internal. simpl. rewrite Hg. simpl. rewrite Hr, Hq. simpl.
    assert (set_queue [] (post t s) = s) as -> by (destruct s; simpl in *; by subst).
    destruct t; done. }
  rewrite Hb. simpl. by rewrite Ho, drop_app_length, returned_in_app.
Qed.

Lemma send_silent k name ev ks s e : OReturn e ∉ sendServiceDiscovery n k name ev ks s.
Proof.
  unfold sendServiceDiscovery. repeat case_match; rewrite ?list_elem_of_singleton; try done; apply not_elem_of_nil.
Qed.

Lemma notify_silent ev k s e : OReturn e ∉ notify n ev k s.
Proof.
  unfold notify. induction (subscribers _ _) as [|x l IH]; simpl; [apply not_elem_of_nil|].
  rewrite elem_of_app. intros [Hx|?]; [by apply send_silent in Hx|done].
Qed.

Lemma broadcast_silent ks s e : OReturn e ∉ broadcastRouteInvalidation n ks s.
Proof. intros [[? ?]|(? & ? & ? & ? & _)]%broadcast_sends; done. Qed.

Lemma unregistered_silent k s e :
  OReturn e ∉ broadcastRouteInvalidation n [k] s ++ concat (map (fun x => notify n eventOffline x s) [k]).
Proof.
  simpl. rewrite app_nil_r, elem_of_app. intros [Hx|Hx]; [by apply broadcast_silent in Hx|by apply notify_silent in Hx].
Qed.

Lemma registered_silent k s e :
  OReturn e ∉ broadcastRouteInvalidation n [k] s ++ notify n eventOnline k s.
Proof.
  rewrite elem_of_app. intros [Hx|Hx]; [by apply broadcast_silent in Hx|by apply notify_silent in Hx].
Qed.

(** The part of [closeNetwork] that closes the sessions of other Nodes. *)
Definition close_remoteNodes s : node R :=
  let inactive r := mkRemote (remote_id r) (remote_addr r) false false in
  emit (map OClose (sessions_of s))
    (set_remoteNodes ∅ (set_remotes (foldr (fun se => alter inactive se) (remotes s) (sessions_of s)) s)).

(** No other Node is connected. *)
Definition alone s : Prop :=
  quiescent s /\ reg_ok (registry s) /\ index_wf (subscriptions s) /\ remoteNodes s = ∅.

#[export] Program Instance loop_serves : MainServes n on_control_loop no_client close_remoteNodes := {
  away := alone;
  home := alone;
  gone := alone;
  located k s := Lookup k (registry s);
  watching k name s := subscribed (subscriptions s) k name;
  servable k := valid_location (own_location n k) = true
}.
Next Obligation. done. Qed.
Next Obligation. intros s Hm. congruence. Qed.
Next Obligation.
  intros k s (Hs & Hreg & Hi & Hrem) Hv Hfree. unfold registerService. rewrite main.
  assert (Key (own_location n k) = k) as Hkey by (by destruct k).
  destruct (Register_accepts (own_location n k) (registry s)) as [r Hok]; [done|done|by rewrite Hkey|].
  destruct (Register_Ok _ _ _ Hreg Hok) as (Hreg' & _ & _ & Hlk). rewrite Hkey in Hlk.
  set (s1 := set_registry r s).
  assert (run_body n (TLocalRegister k) s =
    emit ((broadcastRouteInvalidation n [k] s1 ++ notify n eventOnline k s1) ++ [OReturn None]) s1) as Hb.
  { cbn [run_body]. rewrite Hok. unfold serviceRegistered. by rewrite emit_emit. }
  exists (run_body n (TLocalRegister k) s). rewrite (on_control_loop_body (TLocalRegister k) _ s1 _ _ Hs eq_refl Hb eq_refl)
    by (intros e; apply registered_silent). rewrite Hb. by split_and!.
Qed.
Next Obligation.
  intros k s l (Hs & Hreg & Hi & Hrem) Hv Htk. unfold registerService. rewrite main.
  assert (Key (own_location n k) = k) as Hkey by (by destruct k).
  destruct (Register_exists (own_location n k) (registry s) l) as (e & He & _); [done|done|by rewrite Hkey|].
  assert (run_body n (TLocalRegister k) s = emit ([] ++ [OReturn (Some e)]) s) as Hb
    by (cbn [run_body]; by rewrite He).
  exists (run_body n (TLocalRegister k) s), e.
  rewrite (on_control_loop_body (TLocalRegister k) _ s _ _ Hs eq_refl Hb eq_refl)
    by (intros x; apply not_elem_of_nil). rewrite Hb. by split_and!.
Qed.
Next Obligation.
  intros k name s l (Hs & Hreg & Hi & Hrem) _ Hn Hl Hnode. unfold requestServiceSubscription. rewrite main.
  set (s1 := set_subscriptions (subscribe k name (subscriptions s)).1 s).
  assert (run_body n (TLocalSubscribe k name) s =
    emit (sendServiceDiscovery n k name eventSnapshot (serviceSnapshot name (registry s1)) s1 ++ [OReturn None]) s1) as Hb.
  { cbn [run_body]. unfold addServiceSubscription. rewrite Hl, Hnode, Z.eqb_refl. by rewrite emit_emit. }
  exists (run_body n (TLocalSubscribe k name) s). rewrite (on_control_loop_body (TLocalSubscribe k name) _ s1 _ _ Hs eq_refl Hb eq_refl)
    by (intros e; apply send_silent). rewrite Hb. split_and!; try done.
  - do 2 (split; [done|]). split; [by apply index_wf_subscribe|done].
  - intros k' name'. simpl. rewrite subscribed_subscribe. naive_solver.
Qed.
Next Obligation.
  intros k s l (Hs & Hreg & Hi & Hrem) _ Hl Hnode. unfold unregisterService. rewrite main.
  destruct (Unregister_accepts k (self n) (registry s) l Hreg Hl Hnode) as [r Hok].
  destruct (Unregister_Ok _ _ _ _ Hreg Hok) as (Hreg' & _ & Hlk).
  set (s1 := set_subscriptions (removeSubscriber k (subscriptions s)) (set_registry r s)).
  assert (run_body n (TLocalUnregister k) s =
    emit ((broadcastRouteInvalidation n [k] s1 ++ concat (map (fun x => notify n eventOffline x s1) [k]))
          ++ [OReturn None]) s1) as Hb.
  { cbn [run_body]. rewrite Hok. unfold serviceUnregistered, servicesUnregistered. cbv zeta. by rewrite emit_emit. }
  exists (run_body n (TLocalUnregister k) s). rewrite (on_control_loop_body (TLocalUnregister k) _ s1 _ _ Hs eq_refl Hb eq_refl)
    by (intros e; apply unregistered_silent). rewrite Hb. split_and!; try done.
  - do 2 (split; [done|]). split; [by apply index_wf_remove|done].
  - intros k' name. by apply subscribed_remove.
Qed.
Next Obligation.
  intros s Hs _. assert (alone s) as (Hq & Hreg & Hi & Hrem) by tauto. unfold close_remoteNodes, sessions_of.
  rewrite Hrem, map_to_list_empty. by split_and!.
Qed.

End Local.

(** ** What the cluster sees of a Node *)

Section Cluster.
Context `{UnicodeTables} `{Platform} `{ProtoLib} `{!ProtoLaws} `{PacketLib} `{!PacketLaws}.
Context {R : Type} `{ServiceRegistry R} `{!ServiceRegistryLaws R}.
Context (n : node_env) (main : IsMainNode n = true).
Implicit Types s : node R.

(** The keys somebody has registered. *)
Definition held s (k : ServiceKey) : bool := bool_decide (is_Some (Lookup k (registry s))).

(** Nothing is subscribed for the others. *)
Lemma held_or_unknown s k :
  reachable n s ->
  if held s k then is_Some (Lookup k (registry s))
  else Lookup k (registry s) = None /\ forall name, ~ subscribed (subscriptions s) k name.
Proof.
  intros [Hs _]%reachable_inv. unfold held. case_bool_decide as Hk; [done|].
  split; [by apply eq_None_not_Some|]. by intros name Hsub%(i_sub _ _ _ Hs).
Qed.

(** A node without a session has nothing at an idle main node. *)
Lemma absent_node_has_nothing s m k l :
  reachable n s -> quiescent s -> m <> self n -> remoteNodes s !! m = None ->
  Lookup k (registry s) = Some l -> NodeID l <> m.
Proof.
  intros [Hs _]%reachable_inv Hq Hself Hm Hl Hid.
  destruct (i_loc _ _ _ Hs _ _ Hl) as [[? _]|(_ & _ & _ & [[se Hc]|Hc])]; [congruence..|].
  by destruct (quiescent_clean _ _ Hq Hc).
Qed.

(** C5 (functional). A Node is in the cluster exactly while it runs.  Let the
    main node be idle in any state it can reach, and nobody but this Node act
    on it from then on; let the Node be another one that the configuration
    knows at this address, with no session at the main node; let its services
    be distinct and fit the wire, and their subscribed names be normalized.
    Take any history of [Start] and [Stop] calls, with any answers of the
    services' hooks and of the RPC server, in which the calls to the main node
    succeed except the registration of a key that is held already.  Then that
    is how the main node answers: the connection and its RegisterNode, every
    request of the history, sent over the wire, handled by the session, queued
    and run on the control Loop, and the end of the connection, one after the
    other.  And after all of them the registry has, on top of what it had, the
    services of the Node at its address if the Node runs and nothing of it
    otherwise, the index exactly the subscriptions these services want, and the
    Node a session if and only if it runs.  So a [Start] that fails half way, for
    a hook or for a held key, leaves no trace at the main node. *)
Theorem node_is_registered_while_it_runs peer session c s0 ownedLogger serviceOrder wanted h :
  IsMainNode peer = false -> admissible n peer -> reachable n s0 -> quiescent s0 ->
  remotes s0 !! session = None -> remoteNodes s0 !! self peer = None ->
  NoDup serviceOrder -> Forall (sendable_service peer) serviceOrder ->
  (forall k name, name ∈ rt_subscriptions (wanted k) -> normalized_name name) ->
  Forall (fun p => truthful serviceOrder (held s0) p.1) h ->
  let node := life_run (self peer) (mainNodeID peer) (listenAddr peer) ownedLogger serviceOrder h in
  exists s, answered peer other_loop (connect_main n peer session c) (hang_up n session) wanted (held s0)
              (log node) s0 = Some s /\
    (forall k, Lookup k (registry s) = if decide (life node = Running /\ k ∈ serviceOrder)
                                      then Some (own_location peer k) else Lookup k (registry s0)) /\
    (forall k name, subscribed (subscriptions s) k name <->
       (life node = Running /\ k ∈ serviceOrder /\ name ∈ rt_subscriptions (wanted k)) \/
       subscribed (subscriptions s0) k name) /\
    remoteNodes s !! self peer = if decide (life node = Running) then Some session else None.
Proof.
  intros Hpeer Hadm Hs Hq Hnone Hfree Hnd Hsend Hn Hh node.
  pose proof (reachable_inv n s0 Hs) as [Hi _].
  destruct (life_is_known peer ownedLogger serviceOrder other_loop (connect_main n peer session c) (hang_up n session)
    (MainServes0 := session_serves n peer session c main Hpeer Hadm) wanted (held s0) Hnd Hsend Hn s0) with (h := h)
    as (s & Hg & Hph & Hl & Hsub).
  - split_and!; [done|apply Hi..|done|done].
  - intros k _. by apply held_or_unknown.
  - intros _ k l. apply absent_node_has_nothing; [done..|apply Hadm|done].
  - done.
  - exists s. split_and!; [done..|]. fold node in Hph. destruct (decide (life node = Running)).
    + destruct Hph as [[_ _ (r & Hr & Hid & _)] _]. apply registeredRemoteNode_Ok in Hr as [_ Hc].
      unfold is_current in Hc. bool_prop. congruence.
    + by destruct Hph as [(_ & _ & _ & _ & ?)|[_ ?]].
Qed.

(** The main node does the same for its own services on its control Loop, as
    long as no other Node is connected. *)
Theorem main_node_registers_its_own s0 ownedLogger serviceOrder wanted h :
  reachable n s0 -> quiescent s0 -> remoteNodes s0 = ∅ -> NoDup serviceOrder ->
  Forall (fun k => valid_location (own_location n k) = true) serviceOrder ->
  (forall k name, name ∈ rt_subscriptions (wanted k) -> normalized_name name) ->
  Forall (fun p => truthful serviceOrder (held s0) p.1) h ->
  let node := life_run (self n) (mainNodeID n) (listenAddr n) ownedLogger serviceOrder h in
  exists s, answered n (on_control_loop n) no_client close_remoteNodes wanted (held s0) (log node) s0 = Some s /\
    (forall k, Lookup k (registry s) = if decide (life node = Running /\ k ∈ serviceOrder)
                                      then Some (own_location n k) else Lookup k (registry s0)) /\
    (forall k name, subscribed (subscriptions s) k name <->
       (life node = Running /\ k ∈ serviceOrder /\ name ∈ rt_subscriptions (wanted k)) \/
       subscribed (subscriptions s0) k name).
Proof.
  intros Hs Hq Hrem Hnd Hv Hn Hh node. pose proof (reachable_inv n s0 Hs) as [Hi _].
  destruct (life_is_known n ownedLogger serviceOrder (on_control_loop n) no_client close_remoteNodes
    (MainServes0 := loop_serves n main) wanted (held s0) Hnd Hv Hn s0) with (h := h) as (s & Hg & _ & Hl & Hsub).
  - split_and!; [done|apply Hi..|done].
  - intros k _. by apply held_or_unknown.
  - intros Hm. congruence.
  - done.
  - by exists s.
Qed.

End Cluster.

(** ** The theorems at work *)

Section Witnesses.
#[local] Existing Instance ascii_tables.
Import Demo.

(** The main node with its gate, and nobody else. *)
Definition gate_open : list event :=
  [ELocal (TLocalRegister gate); EControl; ELocal (TLocalSubscribe gate "room"); EControl].

Definition gated : node MemoryRegistry := Eval vm_compute in run gate_open start.

Lemma gated_reachable : reachable env gated.
Proof. apply (reachable_run env gate_open start); [apply start_reachable|]. vm_compute. reflexivity. Qed.

(** The gate cannot be registered; the Start hook of room 3 returns [refusal]. *)
Definition hooks (refusal : option error) : outside :=
  mkOutside true None (fun k => HookReturns (if decide (k = room 3) then refusal else None))
    (fun _ => HookReturns None)
    (fun k => if decide (k = gate) then Some (ESentinel ErrServiceExists) else None) (fun _ => None) (fun _ => None).

Definition wants_gates (k : ServiceKey) : serviceRuntime := mkRuntime true true false {["gate"]}.

Lemma hooks_truthful refusal : truthful [room 2; room 3; gate] (held gated) (hooks refusal).
Proof.
  split; [done|]. intros k Hk.
  repeat (apply elem_of_cons in Hk as [->|Hk]; [vm_compute; by repeat split; intros|]). by apply elem_of_nil in Hk.
Qed.

Lemma rooms_truthful refusal : truthful [room 2; room 3] (held gated) (hooks refusal).
Proof.
  destruct (hooks_truthful refusal) as [Hm Hk]. split; [done|]. intros k Hin. apply Hk. set_solver.
Qed.

Lemma gates_normalized k name : name ∈ rt_subscriptions (wants_gates k) -> normalized_name name.
Proof. simpl. intros ->%elem_of_singleton. split_and!; vm_compute; congruence. Qed.

Lemma order_NoDup : NoDup [room 2; room 3; gate].
Proof. repeat constructor; set_solver. Qed.

Lemma rooms_NoDup : NoDup [room 2; room 3].
Proof. repeat constructor; set_solver. Qed.

Lemma order_sendable : Forall (sendable_service env2) [room 2; room 3; gate].
Proof.
  repeat constructor; try (vm_compute; reflexivity); vm_compute; congruence.
Qed.

Lemma rooms_sendable : Forall (sendable_service env2) [room 2; room 3].
Proof.
  repeat constructor; try (vm_compute; reflexivity); vm_compute; congruence.
Qed.

Lemma env2_admissible : admissible env env2.
Proof.
  split_and!; [split; vm_compute; congruence|done|done|by eexists|vm_compute; reflexivity].
Qed.

Abbreviation answered_by_main := (answered env2 other_loop (connect_main env env2 8 5) (hang_up env 8) wants_gates (held gated)).

(** Node 2 starts its rooms, which are registered and told of the gates; with
    a gate besides, which the main node has, [Start] fails, and nothing of node
    2 is left at the main node. *)
Lemma node_is_registered_while_it_runs_witness :
  (exists s, answered_by_main (log (life_run 2 1 "10.0.0.2:9000" false [room 2; room 3] [(hooks None, CStart)])) gated = Some s /\
     Lookup (room 2) (registry s) = Some (own_location env2 (room 2)) /\
     subscribed (subscriptions s) (room 2) "gate" /\ remoteNodes s !! 2%Z = Some 8) /\
  (exists s, answered_by_main
       (log (life_run 2 1 "10.0.0.2:9000" false [room 2; room 3; gate] [(hooks None, CStart)])) gated = Some s /\
     Lookup (room 2) (registry s) = None /\ ~ subscribed (subscriptions s) (room 2) "gate" /\
     remoteNodes s !! 2%Z = None).
Proof.
  pose proof (node_is_registered_while_it_runs env eq_refl env2 8 5 gated false) as Hall.
  split.
  - destruct (Hall [room 2; room 3] wants_gates [(hooks None, CStart)] eq_refl env2_admissible gated_reachable
      ltac:(vm_compute; done) eq_refl eq_refl rooms_NoDup rooms_sendable gates_normalized)
      as (s & Hg & Hl & Hs & Hn); [by repeat constructor; apply rooms_truthful|].
    exists s. split; [exact Hg|]. split; [|split].
    + rewrite Hl, decide_True; [done|]. split; [vm_compute; reflexivity|by left].
    + apply Hs. left. split_and!; [vm_compute; reflexivity|by left|simpl; by apply elem_of_singleton].
    + change 2%Z with (self env2). rewrite Hn, decide_True; [done|vm_compute; reflexivity].
  - destruct (Hall [room 2; room 3; gate] wants_gates [(hooks None, CStart)] eq_refl env2_admissible gated_reachable
      ltac:(vm_compute; done) eq_refl eq_refl order_NoDup order_sendable gates_normalized)
      as (s & Hg & Hl & Hs & Hn); [by repeat constructor; apply hooks_truthful|].
    assert (forall P : Prop, ~ (life (life_run (self env2) (mainNodeID env2) (listenAddr env2) false
      [room 2; room 3; gate] [(hooks None, CStart)]) = Running /\ P)) as Hrun.
    { intros P [Hrun _]. vm_compute in Hrun. done. }
    exists s. split; [exact Hg|]. split; [|split].
    + rewrite Hl, decide_False; [vm_compute; reflexivity|apply Hrun].
    + rewrite Hs. intros [Hr|Hsub]; [by apply Hrun in Hr|]. vm_compute in Hsub. done.
    + change 2%Z with (self env2). rewrite Hn, decide_False; [done|]. intros Hr. by apply (Hrun True).
Defined.

Lemma main_node_registers_its_own_witness :
  exists s, answered env (on_control_loop env) no_client close_remoteNodes wants_gates (held gated)
    (log (life_run 1 1 "10.0.0.1:9000" false [room 2; room 3] [(hooks None, CStart); (hooks None, CStop)])) gated
    = Some s /\ Lookup (room 2) (registry s) = None /\ is_Some (Lookup gate (registry s)).
Proof.
  destruct (main_node_registers_its_own env eq_refl gated false [room 2; room 3] wants_gates
    [(hooks None, CStart); (hooks None, CStop)] gated_reachable ltac:(vm_compute; done) eq_refl rooms_NoDup
    ltac:(by repeat constructor) gates_normalized) as (s & Hg & Hl & _);
    [by repeat constructor; apply rooms_truthful|].
  exists s. split; [exact Hg|]. rewrite !Hl. rewrite !decide_False.
  - split; vm_compute; eauto.
  - intros [Hrun _]. vm_compute in Hrun. done.
  - intros [Hrun _]. vm_compute in Hrun. done.
Defined.

End Witnesses.
