(* ===== verification/ClientTable.v ===== *)
(** * The table of RPC clients (node.go, rpc_client.go)

    [getRPCClient], [connectRPCClient], [removeRPCClient], [markDisconnected],
    [closeTransport] and the client part of [closeNetwork], for connections to
    any node: a transition system over the sections of [clientsMu], with
    [clientCreateMu] held from the second check to the return. *)

From stdpp Require Import base tactics list gmap sets strings.
From Stdlib Require Import ZArith Lia.
From S2P Require Import Prelude Errors MainLink.
Local Open Scope string_scope.
Local Open Scope list_scope.

(** ** State *)

(** An RPCClient object. *)
Record peer := mkPeer { peer_node : Z; peer_addr : string; up : bool }.

(** A call of [getRPCClient] that holds [clientCreateMu]. *)
Inductive getter :=
| GetDial (node : Z) (addr : string)
| GetRegister (c : nat)
| GetPublish (c : nat).

(** A goroutine that ends a connection: [markDisconnected], then, in [Close],
    [closeTransport]. *)
Inductive ender :=
| EndSwap (c : nat)
| EndRemove (c : nat).

Record table := mkTable {
  tb_state : lifecycle;
  objects : gmap nat peer;
  rpcClients : gmap Z nat;
  waiting : list (Z * string);       (** calls that wait for [clientCreateMu] *)
  create : option getter;            (** the call that holds it *)
  enders : list ender;
  returned : list (Z * string * option nat)  (** results so far; [None] is an error *)
}.

Section Table.
Context (self mainNodeID : Z).
Implicit Types t : table.

Definition table_init : table := mkTable Initial ∅ ∅ [] None [] [].

Definition put_state x t := mkTable x (objects t) (rpcClients t) (waiting t) (create t) (enders t) (returned t).
Definition put_objects x t := mkTable (tb_state t) x (rpcClients t) (waiting t) (create t) (enders t) (returned t).
Definition put_clients x t := mkTable (tb_state t) (objects t) x (waiting t) (create t) (enders t) (returned t).
Definition put_waiting x t := mkTable (tb_state t) (objects t) (rpcClients t) x (create t) (enders t) (returned t).
Definition put_create x t := mkTable (tb_state t) (objects t) (rpcClients t) (waiting t) x (enders t) (returned t).
Definition put_enders x t := mkTable (tb_state t) (objects t) (rpcClients t) (waiting t) (create t) x (returned t).
Definition answer (r : Z * string * option nat) t :=
  mkTable (tb_state t) (objects t) (rpcClients t) (waiting t) (create t) (enders t) (returned t ++ [r]).

(** ** Operations *)

(** [connected.Store(false)], the part of [closeTransport] that others see. *)
Definition closeTransport (c : nat) t : table :=
  match objects t !! c with
  | Some o => put_objects (<[c := mkPeer (peer_node o) (peer_addr o) false]> (objects t)) t
  | None => t
  end.

(** [cachedRPCClient], and the second check in [getRPCClient]. *)
Definition cachedRPCClient (node : Z) (addr : string) t : option nat :=
  match rpcClients t !! node with
  | None => None
  | Some c =>
      match objects t !! c with
      | Some o => if up o && bool_decide (peer_addr o = addr) then Some c else None
      | None => None
      end
  end.

(** [removeRPCClient] *)
Definition removeRPCClient (node : Z) (c : nat) t : table :=
  if bool_decide (rpcClients t !! node = Some c) then put_clients (delete node (rpcClients t)) t else t.

(** [getRPCClient] up to the lock. *)
Definition get_begin (node : Z) (addr : string) t : table :=
  if (node =? self)%Z then answer (node, addr, None) t
  else match cachedRPCClient node addr t with
       | Some c => answer (node, addr, Some c) t
       | None =>
           if (node =? mainNodeID)%Z && negb (self =? mainNodeID)%Z && bool_decide (tb_state t = Running)
           then answer (node, addr, None) t
           else put_waiting (waiting t ++ [(node, addr)]) t
       end.

(** With the lock: the second check, and the stale client goes. *)
Definition get_locked (node : Z) (addr : string) t : table :=
  match cachedRPCClient node addr t with
  | Some c => answer (node, addr, Some c) t
  | None =>
      let t := match rpcClients t !! node with
               | Some c => closeTransport c (put_clients (delete node (rpcClients t)) t)
               | None => t
               end in
      put_create (Some (GetDial node addr)) t
  end.

(** The holder of the lock goes on; [ok] is the outcome of its network
    operation and [fresh] the address of a new object. *)
Definition get_go (g : getter) (ok : bool) (fresh : nat) t : table :=
  match g with
  | GetDial node addr =>
      if ok then put_create (Some (GetRegister fresh))
                   (put_objects (<[fresh := mkPeer node addr true]> (objects t)) t)
      else put_create None (answer (node, addr, None) t)
  | GetRegister c =>
      if ok then put_create (Some (GetPublish c)) t
      else match objects t !! c with
           | Some o => put_create None (answer (peer_node o, peer_addr o, None) (closeTransport c t))
           | None => put_create None t
           end
  | GetPublish c =>
      match objects t !! c with
      | Some o =>
          if up o
          then put_create None (answer (peer_node o, peer_addr o, Some c)
                 (put_clients (<[peer_node o := c]> (rpcClients t)) t))
          else put_create None (answer (peer_node o, peer_addr o, None) (closeTransport c t))
      | None => put_create None t
      end
  end.

(** A step of a goroutine that ends a connection, and what it has left to do. *)
Definition end_go (d : ender) t : table * option ender :=
  match d with
  | EndSwap c =>
      match objects t !! c with
      | Some o => if up o then (closeTransport c t, Some (EndRemove c)) else (t, None)
      | None => (t, None)
      end
  | EndRemove c =>
      match objects t !! c with
      | Some o => (removeRPCClient (peer_node o) c t, None)
      | None => (t, None)
      end
  end.

(** ** Events *)

Inductive table_event :=
| TState (x : lifecycle)
| TGet (node : Z) (addr : string)
| TLock (i : nat)
| TGo (ok : bool) (fresh : nat)
| TBreak (c : nat)
| TEnd (i : nat)
| TCloseNetwork.

(** The states follow each other; a [Start] that fails goes to [Stopped]. *)
Definition next_state (x y : lifecycle) : bool :=
  match x, y with
  | Initial, Starting | Starting, Running | Starting, Stopped | Running, Stopping
  | Stopping, Stopped | Initial, Stopped => true
  | _, _ => false
  end.

Definition table_step (e : table_event) t : option table :=
  match e with
  | TState x => if next_state (tb_state t) x then Some (put_state x t) else None
  | TGet node addr => Some (get_begin node addr t)
  | TLock i =>
      match waiting t !! i, create t with
      | Some (node, addr), None =>
          Some (get_locked node addr (put_waiting (replace_at i None (waiting t)) t))
      | _, _ => None
      end
  | TGo ok fresh =>
      match create t, objects t !! fresh with
      | Some g, None => Some (get_go g ok fresh t)
      | _, _ => None
      end
  | TBreak c =>
      match objects t !! c with
      | Some _ => Some (put_enders (enders t ++ [EndSwap c]) t)
      | None => None
      end
  | TEnd i =>
      match enders t !! i with
      | Some d => let '(t', d') := end_go d t in
                  Some (put_enders (replace_at i d' (enders t')) t')
      | None => None
      end
  | TCloseNetwork =>
      match create t with
      | None =>
          Some (put_enders (enders t ++ map EndSwap (map snd (map_to_list (rpcClients t))))
                  (put_clients ∅ t))
      | Some _ => None
      end
  end.

Definition table_step_rel t t' : Prop := exists e, table_step e t = Some t'.
Definition table_reachable t : Prop := steps table_step_rel table_init t.

Fixpoint table_run (es : list table_event) t : option table :=
  match es with
  | [] => Some t
  | e :: es => match table_step e t with Some t' => table_run es t' | None => None end
  end.

(** ** No connection is forgotten *)

Definition creating (g : option getter) (c : nat) : Prop :=
  g = Some (GetRegister c) \/ g = Some (GetPublish c).

(** Somebody holds the object: the table, the call that creates it, or a
    goroutine that is about to end it. *)
Definition held t (c : nat) (o : peer) : Prop :=
  rpcClients t !! peer_node o = Some c \/ creating (create t) c \/ EndSwap c ∈ enders t.

Definition slot t (g : getter) : option Z :=
  match g with
  | GetDial node _ => Some node
  | GetRegister c | GetPublish c => peer_node <$> objects t !! c
  end.

Definition ender_of (d : ender) : nat := match d with EndSwap c | EndRemove c => c end.

Record table_inv t : Prop := {
  ti_held : forall c o, objects t !! c = Some o -> up o = true -> held t c o;
  ti_table : forall node c, rpcClients t !! node = Some c ->
    exists o, objects t !! c = Some o /\ peer_node o = node;
  ti_slot : forall g, create t = Some g -> exists node, slot t g = Some node /\ rpcClients t !! node = None;
  ti_enders : forall d, d ∈ enders t -> exists o, objects t !! ender_of d = Some o /\
    (d = EndRemove (ender_of d) -> up o = false);
  ti_returned : forall node addr c, (node, addr, Some c) ∈ returned t ->
    exists o, objects t !! c = Some o /\ peer_node o = node /\ peer_addr o = addr }.

(** Objects keep their node and address; [Connected()] only goes down. *)
Definition aged (m m' : gmap nat peer) : Prop :=
  forall c o, m !! c = Some o -> exists b, m' !! c = Some (mkPeer (peer_node o) (peer_addr o) b) /\
    (b = true -> up o = true).

Lemma aged_refl m : aged m m.
Proof. intros c [nd ad u] Hc. by exists u. Qed.

Lemma aged_close c t : aged (objects t) (objects (closeTransport c t)).
Proof.
  unfold closeTransport. destruct (objects t !! c) as [o|] eqn:E; [|apply aged_refl].
  intros c' o' Hc'. simpl. destruct (decide (c = c')) as [<-|Hne].
  - rewrite E in Hc'. simplify_eq. exists false. by rewrite lookup_insert_eq.
  - exists (up o'). rewrite lookup_insert_ne, Hc' by done. by destruct o'.
Qed.

Lemma closeTransport_lookup c t c' o :
  objects (closeTransport c t) !! c' = Some o -> up o = true ->
  c' <> c /\ objects t !! c' = Some o.
Proof.
  unfold closeTransport. destruct (objects t !! c) as [x|] eqn:E; simpl.
  - intros [[<- <-]|[? ?]]%lookup_insert_Some; done.
  - intros Hc' _. split; [congruence|done].
Qed.

Lemma closeTransport_frame c t :
  tb_state (closeTransport c t) = tb_state t /\ rpcClients (closeTransport c t) = rpcClients t /\
  waiting (closeTransport c t) = waiting t /\ create (closeTransport c t) = create t /\
  enders (closeTransport c t) = enders t /\ returned (closeTransport c t) = returned t.
Proof. unfold closeTransport. by destruct (objects t !! c). Qed.

(** The parts of the invariant that survive when objects age and the table
    only loses entries. *)
Lemma table_inv_age t t' :
  table_inv t -> aged (objects t) (objects t') ->
  (forall c, objects t !! c = None -> objects t' !! c = None) ->
  (forall node c, rpcClients t' !! node = Some c -> rpcClients t !! node = Some c) ->
  create t' = create t -> (forall d, d ∈ enders t' -> d ∈ enders t) ->
  (forall x, x ∈ returned t' -> x ∈ returned t) ->
  (forall c o, objects t' !! c = Some o -> up o = true -> held t' c o) ->
  table_inv t'.
Proof.
  intros [Hh Ht Hs He Hr] Hage Hnew Htab Hcr Hend Hret Hheld. constructor; [done|..].
  - intros node c Hc. destruct (Ht node c (Htab _ _ Hc)) as (o & Ho & <-).
    destruct (Hage c o Ho) as (b & -> & _). by eexists.
  - intros g Hg. rewrite Hcr in Hg. destruct (Hs g Hg) as (node & Hsl & Hno). exists node. split.
    + destruct g as [nd ad|c|c]; simpl in *; [done|..];
        destruct (objects t !! c) as [o|] eqn:E; try done; destruct (Hage c o E) as (b & -> & _); done.
    + destruct (rpcClients t' !! node) as [c|] eqn:E; [|done]. apply Htab in E. congruence.
  - intros d Hd. destruct (He d (Hend d Hd)) as (o & Ho & Hup). destruct (Hage _ o Ho) as (b & -> & Hb).
    eexists. split; [done|]. intros Hd'. simpl. destruct b; [|done]. by rewrite Hb in Hup; [apply Hup|].
  - intros node addr c Hc. destruct (Hr node addr c (Hret _ Hc)) as (o & Ho & <- & <-).
    destruct (Hage c o Ho) as (b & -> & _). by eexists.
Qed.

Lemma cached_spec node addr t c :
  table_inv t -> cachedRPCClient node addr t = Some c ->
  exists o, objects t !! c = Some o /\ peer_node o = node /\ peer_addr o = addr /\ up o = true.
Proof.
  intros Hi. unfold cachedRPCClient. destruct (rpcClients t !! node) as [c'|] eqn:E; [|done].
  destruct (ti_table _ Hi _ _ E) as (o & Ho & <-). rewrite Ho.
  destruct (up o && _) eqn:Eu; [|done]. bool_prop. intros [= <-]. by exists o.
Qed.

Lemma answer_inv r t :
  table_inv t ->
  (forall c, r.2 = Some c -> exists o, objects t !! c = Some o /\ peer_node o = r.1.1 /\ peer_addr o = r.1.2) ->
  table_inv (answer r t).
Proof.
  intros [Hh Ht Hs He Hr] Hnew. constructor; try done. intros node addr c Hin. simpl in *.
  apply elem_of_app in Hin as [Hin|Hin]; [by apply Hr|].
  apply list_elem_of_singleton in Hin as <-. by apply (Hnew c).
Qed.

Lemma get_begin_inv node addr t : table_inv t -> table_inv (get_begin node addr t).
Proof.
  intros Hi. unfold get_begin. destruct (_ =? self)%Z; [by apply answer_inv|].
  destruct (cachedRPCClient node addr t) as [c|] eqn:Ec.
  - apply answer_inv; [done|]. intros c' [= <-]. destruct (cached_spec _ _ _ _ Hi Ec) as (o & ? & ? & ? & _).
    by exists o.
  - destruct (_ && _); [by apply answer_inv|]. destruct Hi. by constructor.
Qed.

Lemma get_locked_inv node addr t :
  table_inv t -> create t = None -> table_inv (get_locked node addr t).
Proof.
  intros Hi Hcr. unfold get_locked. destruct (cachedRPCClient node addr t) as [c|] eqn:Ec.
  { apply answer_inv; [done|]. intros c' [= <-]. destruct (cached_spec _ _ _ _ Hi Ec) as (o & ? & ? & ? & _).
    by exists o. }
  assert (Hgo : forall t', table_inv t' -> create t' = None -> rpcClients t' !! node = None ->
            table_inv (put_create (Some (GetDial node addr)) t')).
  { intros t' [Hh Ht Hs He Hr] Hcr' Hno. constructor; try done.
    - intros c o Ho Hu. destruct (Hh c o Ho Hu) as [?|[[?|?]|?]]; [by left|congruence..|by right; right].
    - intros g [= <-]. by exists node. }
  destruct (rpcClients t !! node) as [c|] eqn:En; [|by apply Hgo].
  set (t1 := put_clients (delete node (rpcClients t)) t).
  destruct (closeTransport_frame c t1) as (_ & F2 & _ & F4 & F5 & F6).
  apply Hgo; [|by rewrite F4|rewrite F2; simpl; apply lookup_delete_eq].
  apply (table_inv_age t); rewrite ?F2, ?F4, ?F5, ?F6; try done.
  - apply (aged_close c t1).
  - intros c' Hc'. unfold closeTransport. simpl. destruct (objects t !! c) eqn:E; simpl; [|done].
    rewrite lookup_insert_ne; [done|congruence].
  - intros node' c'. simpl. by intros [? ?]%lookup_delete_Some.
  - intros c' o Ho Hu. destruct (closeTransport_lookup c t1 c' o Ho Hu) as [Hne Ho']. simpl in Ho'.
    unfold held. rewrite F2, F4, F5. simpl. destruct (ti_held _ Hi c' o Ho' Hu) as [Htab|[?|?]]; [|by right; left|by right; right].
    left. rewrite lookup_delete_ne; [done|]. congruence.
Qed.

(** The call that creates an object drops it. *)
Lemma drop_created_inv c t g :
  table_inv t -> create t = Some g -> (g = GetRegister c \/ g = GetPublish c) ->
  table_inv (put_create None (closeTransport c t)).
Proof.
  intros Hi Hcr Hg. destruct (closeTransport_frame c t) as (_ & F2 & _ & F4 & F5 & F6).
  constructor; simpl; rewrite ?F2, ?F5, ?F6.
  - intros c' o Ho Hu. destruct (closeTransport_lookup c t c' o Ho Hu) as [Hne Ho'].
    unfold held; simpl. rewrite F2, F5.
    destruct (ti_held _ Hi c' o Ho' Hu) as [?|[[Hc|Hc]|?]]; [by left|..|by right; right];
      rewrite Hcr in Hc; destruct Hg; simplify_eq.
  - intros node c' Hc'. destruct (ti_table _ Hi _ _ Hc') as (o & Ho & <-).
    destruct (aged_close c t c' o Ho) as (b & -> & _). by eexists.
  - done.
  - intros d Hd. destruct (ti_enders _ Hi d Hd) as (o & Ho & Hup).
    destruct (aged_close c t _ o Ho) as (b & -> & Hb). eexists. split; [done|]. intros Hd'. simpl.
    destruct b; [|done]. by rewrite Hb in Hup; [apply Hup|].
  - intros node addr c' Hc'. destruct (ti_returned _ Hi _ _ _ Hc') as (o & Ho & <- & <-).
    destruct (aged_close c t c' o Ho) as (b & -> & _). by eexists.
Qed.

(** A new client object that its creator holds. *)
Lemma dialled_inv node addr fresh t :
  table_inv t -> create t = Some (GetDial node addr) -> objects t !! fresh = None ->
  table_inv (put_create (Some (GetRegister fresh)) (put_objects (<[fresh := mkPeer node addr true]> (objects t)) t)).
Proof.
  intros Hi Hcr Hfresh. pose proof (ti_slot _ Hi _ Hcr) as (nd & [= ->] & Hno).
  assert (Hold : forall c o, objects t !! c = Some o -> c <> fresh) by (intros c o Ho ->; congruence).
  constructor; simpl.
  - intros c o [[<- <-]|[Hne Ho]]%lookup_insert_Some Hu; [right; left; by left|].
    destruct (ti_held _ Hi c o Ho Hu) as [?|[[Hc|Hc]|?]]; [by left|congruence..|by right; right].
  - intros nd' c Hc. destruct (ti_table _ Hi _ _ Hc) as (o & Ho & <-). exists o.
    rewrite lookup_insert_ne; [done|]. by apply not_eq_sym, (Hold c o).
  - intros g [= <-]. exists nd. simpl. by rewrite lookup_insert_eq.
  - intros d Hd. destruct (ti_enders _ Hi d Hd) as (o & Ho & ?). exists o.
    rewrite lookup_insert_ne; [done|]. by apply not_eq_sym, (Hold _ o).
  - intros nd' ad c Hc. destruct (ti_returned _ Hi _ _ _ Hc) as (o & Ho & ?). exists o.
    rewrite lookup_insert_ne; [done|]. by apply not_eq_sym, (Hold _ o).
Qed.

(** The client that was created and is up becomes the one of its node. *)
Lemma published_inv c o t :
  table_inv t -> create t = Some (GetPublish c) -> objects t !! c = Some o ->
  table_inv (put_create None (put_clients (<[peer_node o := c]> (rpcClients t)) t)).
Proof.
  intros Hi Hcr Eo. pose proof (ti_slot _ Hi _ Hcr) as (nd & Hslot & Hno). simpl in Hslot.
  rewrite Eo in Hslot. injection Hslot as <-. constructor; simpl.
  - intros c' o' Ho' Hu. unfold held; simpl. destruct (ti_held _ Hi c' o' Ho' Hu) as [Htab|[[Hc|Hc]|?]].
    + left. rewrite lookup_insert_ne; [done|]. intros E. rewrite E in Hno. congruence.
    + congruence.
    + left. rewrite Hcr in Hc. simplify_eq. by rewrite lookup_insert_eq.
    + by right; right.
  - intros nd c' [[<- <-]|[_ Hc']]%lookup_insert_Some; [by exists o|by apply (ti_table _ Hi)].
  - done.
  - apply (ti_enders _ Hi).
  - apply (ti_returned _ Hi).
Qed.

Lemma get_go_inv g ok fresh t :
  table_inv t -> create t = Some g -> objects t !! fresh = None -> table_inv (get_go g ok fresh t).
Proof.
  intros Hi Hcr Hfresh. pose proof (ti_slot _ Hi g Hcr) as (node & Hslot & Hno).
  assert (Hrefuse : forall nd ad t', table_inv (put_create None t') ->
            table_inv (put_create None (answer (nd, ad, None) t'))).
  { intros nd ad t' Hi'. by apply (answer_inv (nd, ad, None) (put_create None t')). }
  destruct g as [nd addr|c|c]; simpl in *.
  - destruct ok.
    + by apply dialled_inv.
    + apply Hrefuse. destruct Hi as [Hh Ht Hs He Hr]. constructor; try done.
      intros c o Ho Hu. destruct (Hh c o Ho Hu) as [?|[[Hc|Hc]|?]]; [by left|congruence..|by right; right].
  - destruct (objects t !! c) as [o|] eqn:Eo; [|done]. destruct ok.
    + destruct Hi as [Hh Ht Hs He Hr]. constructor; try done.
      * intros c' o' Ho' Hu. destruct (Hh c' o' Ho' Hu) as [?|[[Hc|Hc]|?]]; [by left| |by congruence|by right; right].
        right; left. right. simpl. congruence.
      * intros g [= <-]. exists node. simpl. by rewrite Eo.
    + apply Hrefuse. by eapply (drop_created_inv c t (GetRegister c)); [..|left].
  - destruct (objects t !! c) as [o|] eqn:Eo; [|done]. injection Hslot as <-. destruct (up o) eqn:Eu.
    + apply (answer_inv (peer_node o, peer_addr o, Some c)
               (put_create None (put_clients (<[peer_node o := c]> (rpcClients t)) t))).
      * by apply published_inv.
      * intros c' [= <-]. by exists o.
    + apply Hrefuse. by eapply (drop_created_inv c t (GetPublish c)); [..|right].
Qed.

#[local] Arguments replace_at : simpl never.

(** The goroutine [d] that ends a connection goes on as [d']. *)
Lemma ender_sub i d d' t x :
  enders t !! i = Some d -> x ∈ replace_at i d' (enders t) -> x ∈ enders t \/ d' = Some x.
Proof.
  intros Hd. rewrite (replace_at_Permutation i d d' _ Hd), elem_of_app. intros [Hx|Hx].
  - right. destruct d'; simpl in Hx; [|by apply elem_of_nil in Hx]. by apply list_elem_of_singleton in Hx as ->.
  - left. rewrite (delete_Permutation _ _ _ Hd). by right.
Qed.

Lemma ender_keep i d d' t x :
  enders t !! i = Some d -> x ∈ enders t -> x = d \/ x ∈ replace_at i d' (enders t).
Proof.
  intros Hd Hx. rewrite (replace_at_Permutation i d d' _ Hd), elem_of_app.
  rewrite (delete_Permutation _ _ _ Hd), elem_of_cons in Hx. tauto.
Qed.

Lemma end_swap_inv i c t :
  table_inv t -> enders t !! i = Some (EndSwap c) ->
  table_inv (put_enders (replace_at i (Some (EndRemove c)) (enders t)) (closeTransport c t)).
Proof.
  intros Hi Hd. destruct (ti_enders _ Hi _ (list_elem_of_lookup_2 _ _ _ Hd)) as (o & Ho & _). simpl in Ho.
  destruct (closeTransport_frame c t) as (_ & F2 & _ & F4 & F5 & F6).
  constructor; simpl; rewrite ?F2, ?F4, ?F5, ?F6.
  - intros c' o' Ho' Hu. destruct (closeTransport_lookup c t c' o' Ho' Hu) as [Hne Ho''].
    unfold held; simpl. rewrite ?F2, ?F4, ?F5.
    destruct (ti_held _ Hi c' o' Ho'' Hu) as [?|[?|Hc]]; [by left|by right; left|].
    right; right. by destruct (ender_keep i _ (Some (EndRemove c)) t _ Hd Hc) as [?|?]; [congruence|].
  - intros nd c' Hc'. destruct (ti_table _ Hi _ _ Hc') as (o' & Ho' & <-).
    destruct (aged_close c t c' o' Ho') as (b & -> & _). by eexists.
  - intros g Hg. destruct (ti_slot _ Hi g Hg) as (nd & Hsl & Hno). exists nd. split; [|done].
    destruct g as [nd' ad|c'|c']; simpl in *; [done|..];
      (destruct (objects t !! c') as [o'|] eqn:E; [|done]);
      destruct (aged_close c t c' o' E) as (b & -> & _); done.
  - intros x Hx. destruct (ender_sub i _ _ t x Hd Hx) as [Hx'|[= <-]].
    + destruct (ti_enders _ Hi x Hx') as (o' & Ho' & Hup').
      destruct (aged_close c t _ o' Ho') as (b & -> & Hb). eexists. split; [done|]. intros Hd'. simpl.
      destruct b; [|done]. by rewrite Hb in Hup'; [apply Hup'|].
    + simpl. unfold closeTransport. rewrite Ho. simpl. rewrite lookup_insert_eq. by eexists.
  - intros nd ad c' Hc'. destruct (ti_returned _ Hi _ _ _ Hc') as (o' & Ho' & <- & <-).
    destruct (aged_close c t c' o' Ho') as (b & -> & _). by eexists.
Qed.

Lemma end_go_inv i d t :
  table_inv t -> enders t !! i = Some d ->
  table_inv (let '(t', d') := end_go d t in put_enders (replace_at i d' (enders t')) t').
Proof.
  intros Hi Hd. destruct (ti_enders _ Hi d (list_elem_of_lookup_2 _ _ _ Hd)) as (o & Ho & Hup).
  pose proof (fun x => ender_sub i d None t x Hd) as Hsub.
  pose proof (fun x => ender_keep i d None t x Hd) as Hkeep.
  destruct d as [c|c]; simpl in *; rewrite Ho.
  - destruct (up o) eqn:Eu.
    + destruct (closeTransport_frame c t) as (_ & _ & _ & _ & F5 & _). rewrite F5. by apply end_swap_inv.
    + apply (table_inv_age t); simpl; try done.
      * apply aged_refl.
      * intros x Hx. by destruct (Hsub x Hx).
      * intros c' o' Ho' Hu. unfold held; simpl.
        destruct (ti_held _ Hi c' o' Ho' Hu) as [?|[?|Hc]]; [by left|by right; left|].
        right; right. destruct (Hkeep _ Hc) as [[= ->]|?]; [congruence|done].
  - unfold removeRPCClient. case_bool_decide; apply (table_inv_age t); simpl; try done; try apply aged_refl;
      try (intros x Hx; by destruct (Hsub x Hx)).
    + by intros nd c' [? ?]%lookup_delete_Some.
    + intros c' o' Ho' Hu. unfold held; simpl.
      destruct (ti_held _ Hi c' o' Ho' Hu) as [Htab|[?|Hc]]; [|by right; left|].
      * left. rewrite lookup_delete_ne; [done|]. intros E. rewrite <- E in Htab.
        assert (c' = c) as -> by congruence. rewrite Ho in Ho'. simplify_eq. by rewrite (Hup eq_refl) in Hu.
      * right; right. by destruct (Hkeep _ Hc) as [?|?].
    + intros c' o' Ho' Hu. unfold held; simpl.
      destruct (ti_held _ Hi c' o' Ho' Hu) as [?|[?|Hc]]; [by left|by right; left|].
      right; right. by destruct (Hkeep _ Hc) as [?|?].
Qed.

Lemma table_step_inv e t t' : table_step e t = Some t' -> table_inv t -> table_inv t'.
Proof.
  intros Hstep Hi. destruct e as [x|node addr|i|ok fresh|c|i|]; simpl in Hstep.
  - destruct (next_state _ _); [|done]. injection Hstep as <-. destruct Hi. by constructor.
  - injection Hstep as <-. by apply get_begin_inv.
  - destruct (waiting t !! i) as [[node addr]|]; [|done]. destruct (create t) eqn:Ec; [done|].
    injection Hstep as <-. apply get_locked_inv; [|done]. destruct Hi. by constructor.
  - destruct (create t) as [g|] eqn:Ec; [|done]. destruct (objects t !! fresh) eqn:Ef; [done|].
    injection Hstep as <-. by apply get_go_inv.
  - destruct (objects t !! c) as [o|] eqn:Eo; [|done]. injection Hstep as <-.
    destruct Hi as [Hh Ht Hs He Hr]. constructor; try done.
    + intros c' o' Ho' Hu. destruct (Hh c' o' Ho' Hu) as [?|[?|?]]; [by left|by right; left|].
      right; right. simpl. apply elem_of_app. by left.
    + intros d Hd. simpl in Hd. apply elem_of_app in Hd as [Hd|Hd]; [by apply He|].
      apply list_elem_of_singleton in Hd as ->. by exists o.
  - destruct (enders t !! i) as [d|] eqn:Ed; [|done].
    pose proof (end_go_inv i d t Hi Ed) as Hn. destruct (end_go d t) as [t1 d']. by injection Hstep as <-.
  - destruct (create t) eqn:Ec; [done|]. injection Hstep as <-.
    assert (Hmap : forall c, EndSwap c ∈ map EndSwap (map snd (map_to_list (rpcClients t))) <->
              exists node, rpcClients t !! node = Some c).
    { intros c. rewrite map_map. rewrite list_elem_of_fmap. split.
      - intros ([node c'] & [= ->] & Hin). exists node. by apply elem_of_map_to_list in Hin.
      - intros [node Hin]. exists (node, c). split; [done|]. by apply elem_of_map_to_list. }
    destruct Hi as [Hh Ht Hs He Hr]. constructor; simpl; try done.
    + intros c o Ho Hu. unfold held; simpl. rewrite elem_of_app, Hmap.
      destruct (Hh c o Ho Hu) as [?|[?|?]]; eauto.
    + intros g Hg. congruence.
    + intros d Hd. apply elem_of_app in Hd as [Hd|Hd]; [by apply He|].
      apply list_elem_of_fmap in Hd as (c & -> & Hd).
      assert (Hc : EndSwap c ∈ map EndSwap (map snd (map_to_list (rpcClients t)))) by (by apply list_elem_of_fmap_2).
      apply Hmap in Hc as [node Hc]. destruct (Ht _ _ Hc) as (o & Ho & _). by exists o.
Qed.

Lemma table_reachable_inv t : table_reachable t -> table_inv t.
Proof.
  intros Hr. apply (steps_invariant table_step_rel table_inv) in Hr; [done|..].
  - intros x y [e He] Hx. by eapply table_step_inv.
  - constructor; simpl; try done; intros; by apply elem_of_nil in H || (exfalso; by eapply not_elem_of_nil).
Qed.

(** C25 (invariant). No connection is forgotten and none is doubled.  Whatever
    the interleaving of calls, broken connections and shutdown, a client that
    is connected is the one the table holds for its node, or the one the call
    that holds [clientCreateMu] is creating, or somebody is about to close it;
    so apart from clients about to be closed a node has at most one connection
    beside the one being created, and while one is created the table has no
    entry for its node.  A client that [getRPCClient] returned belongs to the
    node and the address that were asked for. *)
Theorem no_connection_is_forgotten t :
  table_reachable t ->
  (forall c o, objects t !! c = Some o -> up o = true -> held t c o) /\
  (forall c1 c2 o1 o2, objects t !! c1 = Some o1 -> objects t !! c2 = Some o2 ->
     up o1 = true -> up o2 = true -> peer_node o1 = peer_node o2 ->
     EndSwap c1 ∉ enders t -> EndSwap c2 ∉ enders t -> c1 = c2) /\
  (forall node addr c, (node, addr, Some c) ∈ returned t ->
     exists o, objects t !! c = Some o /\ peer_node o = node /\ peer_addr o = addr).
Proof.
  intros Hr. pose proof (table_reachable_inv t Hr) as Hi.
  split; [apply (ti_held _ Hi)|]. split; [|apply (ti_returned _ Hi)].
  intros c1 c2 o1 o2 H1 H2 U1 U2 Hn N1 N2.
  assert (Hcr : forall c o, creating (create t) c -> objects t !! c = Some o -> rpcClients t !! peer_node o = None).
  { intros c o [Hc|Hc] Ho; destruct (ti_slot _ Hi _ Hc) as (nd & Hs & Hno); simpl in Hs; rewrite Ho in Hs;
      by injection Hs as <-. }
  destruct (ti_held _ Hi c1 o1 H1 U1) as [T1|[C1|?]]; [| |done];
    destruct (ti_held _ Hi c2 o2 H2 U2) as [T2|[C2|?]]; try done.
  - congruence.
  - pose proof (Hcr c2 o2 C2 H2). congruence.
  - pose proof (Hcr c1 o1 C1 H1). congruence.
  - destruct C1 as [C1|C1], C2 as [C2|C2]; congruence.
Qed.

End Table.

(** ** A connection made while the Node stops *)

(** A call has passed its first check when [Stop] closes the network; it then
    dials, registers and publishes. *)
Definition late_call : list table_event :=
  [TState Starting; TState Running; TGet 3 "10.0.0.3:9000"; TState Stopping; TCloseNetwork;
   TState Stopped; TLock 0; TGo true 1; TGo true 2; TGo true 2].

(** [Stop] can leave a connection behind: in this run a call that
    waits for [clientCreateMu] while [closeNetwork] empties the table goes on
    afterwards, and the stopped Node ends with a published connection that
    nobody is going to close. *)
Theorem stopped_node_keeps_connection :
  exists t c o, table_run 2 1 late_call table_init = Some t /\ tb_state t = Stopped /\
    rpcClients t !! 3%Z = Some c /\ objects t !! c = Some o /\ up o = true /\
    enders t = [] /\ create t = None /\ waiting t = [].
Proof.
  eexists _, 1, _. split; [vm_compute; reflexivity|]. split_and!; reflexivity.
Qed.

Lemma table_run_steps self main es t t' :
  table_run self main es t = Some t' -> steps (table_step_rel self main) t t'.
Proof.
  revert t. induction es as [|e es IH]; intros t; simpl; [intros [= <-]; constructor|].
  destruct (table_step self main e t) as [t1|] eqn:E; [|done]. intros Hr.
  econstructor; [by exists e|by apply IH].
Qed.

Definition connect_twice : list table_event :=
  [TState Starting; TState Running; TGet 3 "10.0.0.3:9000"; TLock 0; TGo true 1; TGo true 2; TGo true 2;
   TGet 3 "10.0.0.3:9000"].

Definition connecting : table := Eval vm_compute in default table_init (table_run 2 1 connect_twice table_init).

Lemma connecting_run : table_run 2 1 connect_twice table_init = Some connecting.
Proof. vm_compute. reflexivity. Qed.

Lemma no_connection_is_forgotten_witness :
  exists o, objects connecting !! 1 = Some o /\ peer_node o = 3%Z /\ peer_addr o = "10.0.0.3:9000".
Proof.
  apply (no_connection_is_forgotten 2 1 connecting).
  - exact (table_run_steps 2 1 connect_twice table_init connecting connecting_run).
  - apply elem_of_cons. by left.
Defined.
