(* ===== verification/Messaging.v ===== *)
(** * Sending messages to services (node.go, rpc_wire.go)

    [send2Service], [callServiceSync] and [callServiceAsync] as a whole: the
    guards, the choice between a local and a remote target, the remote branch
    of an asynchronous call with its callback, and the object pools the
    messages are built in.  The local branches are in [LocalCall]. *)

From stdpp Require Import base tactics list gmap sets strings.
From Stdlib Require Import ZArith Lia Strings.Byte.
From S2P Require Import Prelude GoString Errors Registry Subscription Config Service Wire.
From S2P Require Import WireInstances WireTheorems Dispatch LocalCall ControlPlane ControlInvariant Client.
From S2P Require Import ControlDemo ControlTheorems ControlRequests Discovery EndToEnd.
Local Open Scope string_scope.
Local Open Scope list_scope.

(** ** Pools

    [sync.Pool]: [Get] hands out some pooled object or a new one, [Put] takes
    an object back. *)

Section Pool.
Context {A : Type} (new : A).

Definition pool_get (i : nat) (p : list A) : A * list A :=
  match p !! i with Some x => (x, delete i p) | None => (new, p) end.

Definition pool_put (x : A) (p : list A) : list A := x :: p.

Lemma pool_get_blank i p : Forall (eq new) p ->
  (pool_get i p).1 = new /\ Forall (eq new) (pool_get i p).2.
Proof.
  intros Hp. unfold pool_get. destruct (p !! i) as [x|] eqn:E; simpl; [|done].
  split; [|by apply Forall_delete]. symmetry. by eapply Forall_lookup_1 in Hp.
Qed.
End Pool.

(** [proto.Reset] of a message without nested objects kept. *)
Definition zeroDeliver : DeliverRequest := mkDeliver None None 0 "" [] 0.
Definition zeroResponse : DeliverResponse := mkDeliverResponse [].

Definition acquireDeliverReceiveRequest := pool_get zeroDeliver.
Definition releaseDeliverReceiveRequest (request : option DeliverRequest) (p : list DeliverRequest)
    : list DeliverRequest :=
  match request with None => p | Some _ => pool_put zeroDeliver p end.

Definition acquireDeliverResponse := pool_get zeroResponse.
Definition releaseDeliverResponse (response : option DeliverResponse) (p : list DeliverResponse)
    : list DeliverResponse :=
  match response with None => p | Some _ => pool_put zeroResponse p end.

Definition acquireDeliverSendRequest := pool_get blankDeliver.

Section Messaging.
Context `{UnicodeTables} `{Platform} `{ProtoLib} `{PacketLib} {R : Type} `{ServiceRegistry R}.

(** ** Routes *)

(** [mainClient]; [get] is [getRPCClient]. *)
Definition mainClient {C : Type} (config : Config) (mainNodeID : Z) (get : Z -> string -> res C) : res C :=
  match Config.Node (Some config) mainNodeID with
  | None => Err (wrapf (ESentinel ErrNodeNotFound) (": main node " +:+ fmt_d mainNodeID))
  | Some mainConfig => get (nc_ID mainConfig) (ListenAddr mainConfig)
  end.

(** [lookupService]; [cached] is [routeCache.lookup]. *)
Definition lookupService (n : node_env) (r : R) (cached : ServiceKey -> res ServiceLocation)
    (key : ServiceKey) : res ServiceLocation :=
  if IsMainNode n then
    match Lookup key r with
    | Some location => Ok location
    | None => Err (service_not_found (ServiceKey_String key))
    end
  else cached key.

(** ** One-way messages *)

Inductive sent := SentLocal (j : job) | SentRemote (wpk : list byte).

(** The second component says whether the target's route is invalidated. *)
Definition send2Service (operational : bool) (services : gmap ServiceKey serviceRuntime)
    (location : ServiceKey -> res ServiceLocation) (client : ServiceLocation -> res bool)
    (source target : ServiceKey) (id : serviceMessageID) (payload : list byte) : res sent * bool :=
  if negb operational then (Err (ESentinel ErrNodeStopped), false)
  else match validate_id id with
       | Some e => (Err e, false)
       | None =>
           if bool_decide (is_Some (services !! target)) then
             (match dispatchLocalDirect services source target id payload with
              | Ok j => Ok (SentLocal j)
              | Err e => Err e
              end, false)
           else
             let '(r, drop) := remote_send (location target) client source target id payload in
             (match r with Ok wpk => Ok (SentRemote wpk) | Err e => Err e end, drop)
       end.

(** The posted function of [dispatchLocalDirect]: what it reports. *)
Inductive handled := HandledOk | HandledErr (e : error) | HandledPanic (text : string).

Definition run_direct (target : ServiceKey) (id : serviceMessageID) (h : handled) : list error :=
  match h with
  | HandledOk => []
  | HandledErr e =>
      [prefixf ("handle message " +:+ messageID_String id +:+ " in service "
                +:+ ServiceKey_String target +:+ ": ") e]
  | HandledPanic text => [EText ("service " +:+ ServiceKey_String target +:+ " panic: " +:+ text)]
  end.

(** ** Asynchronous calls of a remote service *)

(** Up to the return: the request on its way, or the error. *)
Definition remote_call_async (location : res ServiceLocation) (client : ServiceLocation -> res bool)
    (source target : ServiceKey) (id : serviceMessageID) (payload : list byte) : res (list byte) * bool :=
  match location with
  | Err e => (Err e, false)
  | Ok l =>
      match client l with
      | Err e => (Err e, true)
      | Ok ready =>
          match requestAsync ready opDeliver
                  (deliver_message source target id payload deliverRequestModeAsync) TDeliverResponse with
          | Err e => (Err e, route_error e)
          | Ok (wpk, _) => (Ok wpk, false)
          end
      end
  end.

(** The function given to [requestAsync], run on the answer: what the callback
    is called with, and whether the route is invalidated. *)
Definition on_async_answer (answer : res (list byte)) : reply * bool :=
  match decode_response TDeliverResponse answer with
  | Err e => (([], Some e), route_error e)
  | Ok response => ((dr_payload response, None), false)
  end.

(** What [callServiceSync] returns for a reply. *)
Definition sync_result (r : reply * bool) : res (list byte) * bool :=
  match r with
  | ((p, None), drop) => (Ok p, drop)
  | ((_, Some e), drop) => (Err e, drop)
  end.

(** ** The public functions

    [CallServiceAsync] of a Node runs the callback on a goroutine of its own
    that recovers from its panic. *)

Definition CallServiceAsync_guard (callback_nil : bool) : option error :=
  if callback_nil then Some (EText "service call callback is nil") else None.

Inductive ran := Ran | Panicked (text : string).

Definition callback_goroutine (r : ran) : list error :=
  match r with Ran => [] | Panicked text => [EText ("service call callback panic: " +:+ text)] end.

End Messaging.

(** ** Location transparency *)

Section Transparency.
Context `{UnicodeTables} `{Platform} `{ProtoLib} `{!ProtoLaws} `{PacketLib} `{!PacketLaws}.
Context {R : Type} `{ServiceRegistry R} `{!ServiceRegistryLaws R}.
(** The Node that has the target. *)
Context (n : node_env).
Implicit Types s : node R.

Lemma message_kind source target id :
  sendable_message source target id ->
  kind id = serviceMessageIDNumeric \/ kind id = serviceMessageIDString.
Proof. intros (_ & _ & _ & _ & [[v ->]|[v ->]] & _); auto. Qed.

Lemma handle_deliver_async session c s r body req source target id :
  decodeOperationPayload TDeliverRequest body = Ok req ->
  decodeDeliverRequest req = Ok (source, target, id, deliverRequestModeAsync) ->
  handle_op n session c r opDeliver body s =
  match dispatchLocalRequestAsync (localServices n) source target id (dl_payload req)
          (RemoteResponder session c) with
  | Ok j => emit [OPost j] s
  | Err e => emit (respondRPCError session c e) s
  end.
Proof.
  intros Hd Hq. unfold handle_op.
  change (opDeliver =? opHeartbeat)%Z with false. change (opDeliver =? opRegister)%Z with false.
  change (opDeliver =? opUnregister)%Z with false. change (opDeliver =? opSubscribe)%Z with false.
  change (opDeliver =? opLookup)%Z with false. change (opDeliver =? opDeliver)%Z with true.
  cbv iota. rewrite Hd, Hq. done.
Qed.

Lemma handle_direct session s r pkt body req source target id :
  registeredRemoteNode session s = Ok r -> decodeEnvelope pkt = Ok (opDeliver, body) ->
  decodeOperationPayload TDeliverRequest body = Ok req ->
  decodeDeliverRequest req = Ok (source, target, id, deliverRequestModeDirect) ->
  handleRPCDirect n session pkt s =
  match dispatchLocalDirect (localServices n) source target id (dl_payload req) with
  | Ok j => emit [OPost j] s
  | Err e => emit [OReport e] s
  end.
Proof.
  intros Hr He Hd Hq. unfold handleRPCDirect. rewrite He, Hr.
  change (opDeliver =? opDeliver)%Z with true. cbv iota. rewrite Hd, Hq. done.
Qed.

Lemma deliver_client_send source target id payload mode :
  sendable_message source target id ->
  mode ∈ [deliverRequestModeDirect; deliverRequestModeSync; deliverRequestModeAsync] ->
  exists pkt body req,
    client_send true opDeliver (deliver_message source target id payload mode) = Ok pkt /\
    decodeEnvelope pkt = Ok (opDeliver, body) /\
    decodeOperationPayload TDeliverRequest body = Ok req /\
    decodeDeliverRequest req = Ok (source, target, id, mode) /\ dl_payload req = payload.
Proof. intros Hm Hmode. by apply deliver_packet. Qed.

(** C14 (equivalence). Sending to a service does not depend on where it lives:
    a one-way message or an asynchronous call to a service of another Node
    makes that Node post exactly the job a local sender would have posted,
    with the same source, target, message id and payload (an asynchronous
    call with the responder of the session it came over). *)
Theorem messages_are_location_transparent session c s r l services source target id payload :
  registeredRemoteNode session s = Ok r -> sendable_message source target id ->
  services !! target = None -> is_Some (localServices n !! target) ->
  (exists pkt j,
     send2Service true services (fun _ => Ok l) (fun _ => Ok true) source target id payload
       = (Ok (SentRemote pkt), false) /\
     send2Service true (localServices n) (fun _ => Ok l) (fun _ => Ok true) source target id payload
       = (Ok (SentLocal j), false) /\
     handleRPCDirect n session pkt s = emit [OPost j] s) /\
  (exists pkt j,
     remote_call_async (Ok l) (fun _ => Ok true) source target id payload = (Ok pkt, false) /\
     dispatchLocalRequestAsync (localServices n) source target id payload (RemoteResponder session c) = Ok j /\
     handleRPCRequest n session c pkt s = emit [OPost j] s).
Proof.
  intros Hr Hm Hno Hloc. pose proof (message_kind _ _ _ Hm) as Hk.
  assert (validate_id id = None) as Hv by apply Hm. split.
  - destruct (deliver_client_send source target id payload deliverRequestModeDirect Hm) as
      (pkt & body & req & Hp & He & Hd & Hq & Hpl); [rewrite !elem_of_cons; auto|].
    assert (Hj : dispatchLocalDirect (localServices n) source target id payload
                 = Ok (JDirect source target id payload)) by (by apply dispatchable_Ok).
    exists pkt, (JDirect source target id payload). split_and!.
    + unfold send2Service. cbn [negb]. rewrite Hv, bool_decide_eq_false_2 by (rewrite Hno; by intros []).
      unfold remote_send. by rewrite Hp.
    + unfold send2Service. cbn [negb]. by rewrite Hv, bool_decide_eq_true_2, Hj.
    + rewrite (handle_direct session s r pkt body req source target id) by done. by rewrite Hpl, Hj.
  - destruct (deliver_client_send source target id payload deliverRequestModeAsync Hm) as
      (pkt & body & req & Hp & He & Hd & Hq & Hpl); [rewrite !elem_of_cons; auto|].
    assert (Hj : dispatchLocalRequestAsync (localServices n) source target id payload (RemoteResponder session c)
                 = Ok (JAsync source target id payload (RemoteResponder session c))) by (by apply dispatchable_Ok).
    exists pkt, (JAsync source target id payload (RemoteResponder session c)). split_and!; [|done|].
    + unfold remote_call_async, requestAsync. by rewrite Hp.
    + rewrite (handle_registered n session c s r pkt opDeliver body) by done.
      rewrite (handle_deliver_async session c s r body req source target id) by done. by rewrite Hpl, Hj.
Qed.

(** C15 (equivalence). An asynchronous call of a remote service is a
    synchronous one whose result goes to the callback: it is refused with the
    same error and the same treatment of the cached route exactly where the
    synchronous call would fail before it sends, and on any answer packet the
    callback gets what the synchronous call would return for that answer.
    The answer of the service's handler thus reaches the callback, and an
    error keeps its identity. *)
Theorem async_call_agrees_with_sync location client source target id payload :
  sendable_message source target id ->
  let async := remote_call_async location (fun l => try x <- client l in Ok x.1) source target id payload in
  let sync := remote_call_sync location client source target id payload in
  match async with
  | (Err e, drop) => sync = (Err e, drop)
  | (Ok pkt, _) => exists l exchange pkt', location = Ok l /\ client l = Ok (true, exchange) /\
                   client_send true opDeliver
                     (deliver_message source target id payload deliverRequestModeAsync) = Ok pkt /\
                   client_send true opDeliver
                     (deliver_message source target id payload deliverRequestModeSync) = Ok pkt' /\
                   sync = sync_result (on_async_answer (exchange pkt'))
  end /\
  (forall session c answer, exists p, deliver_responder session c answer None = ([ORespond session c p], None) /\
     on_async_answer (Ok p) = ((answer, None), false)) /\
  (forall session c answer e, (len (Error e) <= maxRPCStringSize)%Z ->
     exists p e', deliver_responder session c answer (Some e) = ([ORespond session c p], None) /\
       on_async_answer (Ok p) = (([], Some e'), bool_decide (find (Is e) wire_sentinels = Some ErrServiceNotFound)) /\
       forall x, Is e' x = bool_decide (find (Is e) wire_sentinels = Some x)).
Proof.
  intros Hm. cbv zeta. split_and!.
  - unfold remote_call_async, requestAsync, remote_call_sync. destruct location as [l|e]; [|done].
    destruct (client l) as [[ready exchange]|e] eqn:Ec; [|done]. cbn [res_bind fst].
    destruct ready; [|done].
    destruct (deliver_client_send source target id payload deliverRequestModeAsync Hm) as
      (pkt & _ & _ & Hp & _); [rewrite !elem_of_cons; auto|]. rewrite Hp.
    destruct (deliver_client_send source target id payload deliverRequestModeSync Hm) as
      (pkt' & _ & _ & Hp' & _); [rewrite !elem_of_cons; auto|].
    exists l, exchange, pkt'. split_and!; [done..|]. unfold requestSync. rewrite Hp'. cbn [res_bind].
    unfold on_async_answer. by destruct (decode_response TDeliverResponse (exchange pkt')).
  - intros session c answer.
    destruct (encodeResult_total TDeliverResponse (mkDeliverResponse answer) eq_refl) as [p He].
    destruct (encodeResult_message TDeliverResponse (mkDeliverResponse answer) p He) as (b & Hb1 & Hb2).
    exists p. unfold deliver_responder, respondRPC. rewrite He. split; [done|].
    unfold on_async_answer, decode_response. cbn [res_bind]. rewrite Hb1. cbn [res_bind]. by rewrite Hb2.
  - intros session c answer e Hlen. destruct (encodeError_roundtrip e Hlen) as (p & e' & hd & Hp & Hd & His & _).
    exists p, e'. unfold deliver_responder, respondRPCError. rewrite Hp. split; [done|]. split; [|done].
    unfold on_async_answer. rewrite (decode_error_answer p e' Hd). by rewrite (route_error_remote e e' His).
Qed.

End Transparency.

(** ** Witnesses *)

Section Witnesses.
#[local] Existing Instance ascii_tables.
Import Demo.

Lemma gate_message : sendable_message (room 1) gate (numericServiceMessageID 9).
Proof.
  split_and!; try (vm_compute; reflexivity); try (split; vm_compute; congruence).
  - right. vm_compute. reflexivity.
  - split_and!; [vm_compute; reflexivity|split; vm_compute; congruence|vm_compute; reflexivity].
  - left. by exists 9%Z.
Qed.

Lemma messages_are_location_transparent_witness :
  exists pkt j,
     remote_call_async (Ok (mkServiceLocation "gate" 1 1 "10.0.0.1:9000")) (fun _ => Ok true) (room 1) gate
       (numericServiceMessageID 9) [x01] = (Ok pkt, false) /\
     dispatchLocalRequestAsync (localServices env) (room 1) gate (numericServiceMessageID 9) [x01]
       (RemoteResponder 7 5) = Ok j /\
     handleRPCRequest env 7 5 pkt opened = emit [OPost j] opened.
Proof.
  refine (proj2 (messages_are_location_transparent env 7 5 opened _ (mkServiceLocation "gate" 1 1 "10.0.0.1:9000")
    (localServices env2) (room 1) gate (numericServiceMessageID 9) [x01] session_registered gate_message _ _)).
  - vm_compute. reflexivity.
  - vm_compute. eauto.
Defined.

Lemma async_call_agrees_with_sync_witness :
  remote_call_sync (Err (ESentinel ErrServiceNotFound)) (fun _ => Ok (true, fun p => Ok p)) (room 1) gate
    (numericServiceMessageID 9) [x01] = (Err (ESentinel ErrServiceNotFound), false).
Proof.
  exact (proj1 (async_call_agrees_with_sync (Err (ESentinel ErrServiceNotFound)) (fun _ => Ok (true, fun p => Ok p))
    (room 1) gate (numericServiceMessageID 9) [x01] gate_message)).
Defined.

End Witnesses.
