(* ===== verification/Calls.v ===== *)
(** * A call across the cluster

    A synchronous call of a service by its key, through three Nodes: the
    caller asks the main node for the route ([lookupServiceFromMain]), connects
    to the Node the route names ([getRPCClient]) and sends it the message
    ([callServiceSync]); that Node runs the handler and answers. *)

From stdpp Require Import base tactics list gmap sets strings.
From Stdlib Require Import ZArith Lia Strings.Byte.
From S2P Require Import Prelude GoString Errors Registry Subscription Config Service Wire.
From S2P Require Import WireInstances WireTheorems Dispatch ControlPlane ControlInvariant Client.
From S2P Require Import ControlDemo ControlTheorems EndToEnd.
Local Open Scope string_scope.
Local Open Scope list_scope.

Section Calls.
Context `{UnicodeTables} `{Platform} `{ProtoLib} `{!ProtoLaws} `{PacketLib} `{!PacketLaws}.
Context {R : Type} `{ServiceRegistry R} `{!ServiceRegistryLaws R}.

(** A Node the caller has a session with, its state when it handles the call,
    what its services' handlers return, and which exchanges with it fail. *)
Record host := mkHost {
  host_env : node_env;
  host_state : node R;
  host_session : nat;
  host_context : Z;
  host_failure : list byte -> option error;
  host_handler : ServiceKey -> ServiceKey -> serviceMessageID -> list byte -> list byte * option error
}.

(** [getRPCClient]: the client of the Node the route names, or why there is
    none. *)
Definition client_of (hosts : ServiceLocation -> res host) (l : ServiceLocation)
    : res (bool * (list byte -> res (list byte))) :=
  try h <- hosts l in
  Ok (true, over_network (host_failure h)
              (called_at (host_env h) (host_session h) (host_context h) (host_handler h) (host_state h))).

(** [mainClient] and [lookupServiceFromMain]: the main node handles the lookup
    in state [s]. *)
Definition ask_main (n : node_env) (session : nat) (c : Z) (s : node R) (unreachable : option error)
    (failure : list byte -> option error) (target : ServiceKey) : res ServiceLocation :=
  lookupServiceFromMain
    match unreachable with
    | Some e => Err e
    | None => Ok (true, over_network failure (served_at n session c s))
    end target.

(** The packets of the two requests. *)
Definition lookup_packet (target : ServiceKey) : res (list byte) :=
  encodeEnvelope opLookup (Message TLookupRequest (mkLookup (Some (serviceKeyToProto target)))).

Definition call_packet (source target : ServiceKey) (id : serviceMessageID) (payload : list byte) : res (list byte) :=
  encodeEnvelope opDeliver (deliver_message source target id payload deliverRequestModeSync).

(** An exchange that completes gives the answer, one that fails its error. *)
Lemma lookup_over_network failure answer target pkt :
  lookup_packet target = Ok pkt ->
  lookupServiceFromMain (Ok (true, over_network failure answer)) target =
  match failure pkt with
  | Some e => Err e
  | None => lookupServiceFromMain (Ok (true, answer)) target
  end.
Proof.
  unfold lookup_packet, lookupServiceFromMain, requestSync, client_send. cbn [res_bind fst snd negb].
  intros ->. cbn [res_bind]. unfold over_network. by destruct (failure pkt).
Qed.

Lemma call_over_network failure answer l source target id payload pkt :
  call_packet source target id payload = Ok pkt ->
  remote_call_sync (Ok l) (fun _ => Ok (true, over_network failure answer)) source target id payload =
  match failure pkt with
  | Some e => (Err e, route_error e)
  | None => remote_call_sync (Ok l) (fun _ => Ok (true, answer)) source target id payload
  end.
Proof.
  unfold call_packet, remote_call_sync, requestSync, client_send. cbn [negb].
  intros ->. cbn [res_bind]. unfold over_network. by destruct (failure pkt).
Qed.

Definition connected_host (h : host) : Prop :=
  exists r, registeredRemoteNode (host_session h) (host_state h) = Ok r.

(** What an error may not exceed to arrive. *)
Definition arrives (e : error) : Prop := (len (Error e) <= maxRPCStringSize)%Z.

(** C12 (roundtrip). A call by key finds its service or fails with the reason.
    The caller needs to know nothing but the key.  It sends two packets, a
    lookup to the main node and the message to the Node the answer names.  If
    the main node cannot be reached, or the exchange of the lookup fails (too
    long, too late, broken off), the call ends with that error; if no service
    is registered under the key, with [ErrServiceNotFound]; if the Node of the
    route cannot be reached, with that error, and the cached route is dropped;
    if the exchange of the message fails, with that error, and the route is
    dropped if the error says so.  If both exchanges complete, the caller gets
    what the handler there returns for exactly the message sent, and an error
    comes back with its identity; if the Node does not have the service any
    more the caller gets [ErrServiceNotFound], and the route is dropped. *)
Theorem calls_find_their_service n session c s r unreachable failure hosts source target id payload :
  IsMainNode n = true -> registeredRemoteNode session s = Ok r ->
  (forall l, Lookup target (registry s) = Some l -> sendable_location l) ->
  (forall l h, hosts l = Ok h -> connected_host h) ->
  sendable_message source target id -> arrives (service_not_found (ServiceKey_String target)) ->
  let location := ask_main n session c s unreachable failure target in
  let result := remote_call_sync location (client_of hosts) source target id payload in
  exists lookup_pkt call_pkt,
  lookup_packet target = Ok lookup_pkt /\ call_packet source target id payload = Ok call_pkt /\
  match unreachable, failure lookup_pkt, Lookup target (registry s) with
  | Some e, _, _ | None, Some e, _ => result = (Err e, false)
  | None, None, None => exists e, result = (Err e, false) /\ Is e ErrServiceNotFound = true
  | None, None, Some l =>
      match hosts l with
      | Err e => result = (Err e, true)
      | Ok h =>
          match host_failure h call_pkt, localServices (host_env h) !! target with
          | Some e, _ => result = (Err e, route_error e)
          | None, None => exists e, result = (Err e, true) /\ Is e ErrServiceNotFound = true
          | None, Some _ =>
              match host_handler h source target id payload with
              | (answer, None) => result = (Ok answer, false)
              | (_, Some e) => arrives e -> exists e',
                  result = (Err e', bool_decide (find (Is e) wire_sentinels = Some ErrServiceNotFound)) /\
                  forall x, Is e' x = bool_decide (find (Is e) wire_sentinels = Some x)
              end
          end
      end
  end.
Proof.
  intros Hm Hr Hl Hhosts Hmsg Hlen location result. pose proof Hmsg as (_ & Hk & _).
  destruct (lookup_request_packet target Hk) as (p1 & b1 & Hp1 & _).
  destruct (deliver_packet source target id payload deliverRequestModeSync Hmsg) as (p2 & b2 & rq & Hp2 & _);
    [rewrite !elem_of_cons; auto|].
  exists p1, p2. split; [exact Hp1|]. split; [exact Hp2|].
  unfold result, location, ask_main. destruct unreachable as [e|]; [done|].
  rewrite (lookup_over_network failure _ target p1 Hp1). destruct (failure p1) as [e|]; [done|].
  pose proof (remote_lookup_is_registry_lookup n session c s r target Hm Hr Hk Hlen Hl) as Hloc.
  destruct (Lookup target (registry s)) as [l|]; [|destruct Hloc as (e & -> & He); by exists e].
  rewrite Hloc. destruct (hosts l) as [h|e] eqn:Eh; [|unfold remote_call_sync, client_of; by rewrite Eh].
  set (answer := called_at (host_env h) (host_session h) (host_context h) (host_handler h) (host_state h)).
  assert (remote_call_sync (Ok l) (client_of hosts) source target id payload =
    remote_call_sync (Ok l) (fun _ => Ok (true, over_network (host_failure h) answer)) source target id payload) as ->
    by (unfold remote_call_sync, client_of; by rewrite Eh).
  rewrite (call_over_network _ _ _ _ _ _ _ p2 Hp2). destruct (host_failure h p2) as [e|]; [done|].
  destruct (Hhosts _ _ Eh) as [rh Hrh].
  destruct (remote_call_returns_reply (host_env h) (host_session h) (host_context h) (host_state h) rh l
    (host_handler h) source target id payload Hrh Hmsg) as (Hok & Herr & Hgone).
  destruct (localServices (host_env h) !! target) as [rt|]; [|by apply Hgone].
  destruct (host_handler h source target id payload) as [a [e|]] eqn:Ea; [|by apply Hok].
  intros Harr. by apply (Herr ltac:(eauto) a e).
Qed.

End Calls.

(** ** The theorem at work *)

Section Witness.
#[local] Existing Instance ascii_tables.
Import Demo.

(** Packets of more than 64 KiB are refused. *)
Definition too_long (pkt : list byte) : option error :=
  if (65536 <? Z.of_nat (length pkt))%Z then Some (EText "packet too large") else None.

(** Node 2 can reach the main node, which serves the gate. *)
Definition reachable_hosts (l : ServiceLocation) : res (host (R := MemoryRegistry)) :=
  if (NodeID l =? 1)%Z then Ok (mkHost env opened 7 6 too_long echo) else Err (ESentinel ErrRPCDisconnected).

Lemma calls_find_their_service_witness :
  remote_call_sync (ask_main env 7 5 opened None too_long gate)
    (client_of reachable_hosts) (room 1) gate (numericServiceMessageID 9) [x01] = (Ok [x01], false) /\
  remote_call_sync (ask_main env 7 5 opened None (fun _ => Some (EText "timeout")) gate)
    (client_of reachable_hosts) (room 1) gate (numericServiceMessageID 9) [x01] = (Err (EText "timeout"), false).
Proof.
  assert (forall l, Lookup gate (registry opened) = Some l -> sendable_location l) as H1
    by (intros l [= <-]; split_and!; try (vm_compute; reflexivity); split; vm_compute; congruence).
  assert (forall l h, reachable_hosts l = Ok h -> connected_host h) as H2.
  { intros l h Hh. unfold reachable_hosts in Hh. destruct (_ =? _)%Z; [|done]. injection Hh as <-.
    by eexists; apply session_registered. }
  assert (sendable_message (room 1) gate (numericServiceMessageID 9)) as H3.
  { split_and!; try (vm_compute; reflexivity); try (split; vm_compute; congruence).
    - right. vm_compute. reflexivity.
    - split_and!; [vm_compute; reflexivity|split; vm_compute; congruence|vm_compute; reflexivity].
    - left. by exists 9%Z. }
  assert (arrives (service_not_found (ServiceKey_String gate))) as H4 by (vm_compute; congruence).
  pose proof (fun failure => calls_find_their_service env 7 5 opened _ None failure reachable_hosts (room 1) gate
    (numericServiceMessageID 9) [x01] eq_refl session_registered H1 H2 H3 H4) as Hall.
  split.
  - destruct (Hall too_long) as (p1 & p2 & E1 & E2 & Hres).
    vm_compute in E1, E2. injection E1 as <-. injection E2 as <-. exact Hres.
  - destruct (Hall (fun _ => Some (EText "timeout"))) as (p1 & p2 & _ & _ & Hres). exact Hres.
Defined.

End Witness.
