(* ===== verification/NodeQueries.v ===== *)
(** * What a Node tells and what it refuses (node.go)

    The read-only methods of [Node] over the states of the other components,
    and the guard [operational] in front of calls, messages and subscriptions,
    connected to the life of the Node in [Lifecycle]. *)

From stdpp Require Import base tactics list gmap sets strings.
From Stdlib Require Import ZArith Lia Strings.Byte.
From S2P Require Import Prelude GoString Errors Registry Subscription Config Service Wire Dispatch LocalCall.
From S2P Require Import ControlPlane ControlInvariant WireInstances ControlDemo ControlTheorems Effects.
From S2P Require Import MainLink Lifecycle Construct Membership ClientTable Messaging.
Local Open Scope string_scope.
Local Open Scope list_scope.

(** ** Queries *)

Section Queries.
Context {R : Type} `{ServiceRegistry R}.

Definition node_ID (n : new_node (R := R)) : Z := nd_id n.
Definition node_MainNodeID (n : new_node (R := R)) : Z := nd_mainNodeID n.
Definition node_Logger (n : new_node (R := R)) : nat := nd_logger n.
Definition node_ListenAddr (n : new_node (R := R)) : string := ListenAddr (nd_nodeConfig n).
Definition node_IsMainNode (n : new_node (R := R)) : bool := (nd_id n =? nd_mainNodeID n)%Z.

Definition LocalService (key : ServiceKey) (n : new_node (R := R)) : option service :=
  nd_localServices n !! key.

(** A copy: the caller may change it. *)
Definition LocalServices (n : new_node (R := R)) : gmap ServiceKey service :=
  map_fold (fun key runtime result => <[key := runtime]> result) ∅ (nd_localServices n).

Definition RegisteredService (key : ServiceKey) (s : node R) : option ServiceLocation := Lookup key (registry s).

Definition RegisteredServices (s : node R) : list ServiceLocation := List (registry s).

Definition RPCClientCount (t : table) : nat := size (rpcClients t).

Lemma LocalServices_copy n : LocalServices n = nd_localServices n.
Proof.
  unfold LocalServices. induction (nd_localServices n) as [|k x m Hk Hf IH] using map_first_key_ind; [done|].
  rewrite map_fold_insert_first_key by done. by rewrite IH.
Qed.

End Queries.

Section Answers.
Context `{UnicodeTables} `{Platform} `{ProtoLib} `{PacketLib}.
Context {R : Type} `{ServiceRegistry R} `{!ServiceRegistryLaws R}.
Context (n : node_env).
Implicit Types s : node R.

(** Only the main node registers anything. *)
Lemma other_nodes_register_nothing s k : reachable n s -> IsMainNode n = false -> Lookup k (registry s) = None.
Proof.
  intros (r0 & [Hr Hnone] & Hs) Hm.
  apply (steps_invariant (step_rel n) (fun s => inv n s /\ forall k, Lookup k (registry s) = None)) in Hs;
    [by apply Hs| |by split; [apply inv_node_init|]]; clear Hs.
  intros s1 s2 [e He] [Hi Hn]. split; [by apply (node_step_inv n e s1)|]. intros x.
  destruct (node_step_effect n e s1 s2 He Hi) as [o Er _ _ _|l o Hm' _ _ _ _|m ks o _ _ Hlk _ _ _|? ? ? o _ Er _ _ _].
  - by rewrite Er.
  - congruence.
  - rewrite Hlk. by case_decide.
  - by rewrite Er.
Qed.

(** What a Node says about registered services is consistent:
    the list holds every registered service exactly once, with the location the
    query of its key returns, and a key is answered with a location of that
    key; a Node that is not the main node has nothing registered, whatever
    requests it receives. *)
Theorem registered_services_answer s :
  reachable n s ->
  NoDup (RegisteredServices s) /\
  (forall l, l ∈ RegisteredServices s <-> RegisteredService (Key l) s = Some l) /\
  (forall k l, RegisteredService k s = Some l -> Key l = k) /\
  (IsMainNode n = false -> RegisteredServices s = []).
Proof.
  intros Hs. pose proof (reachable_inv n s Hs) as [Hi _]. pose proof (i_reg _ _ _ Hi) as Hok.
  unfold RegisteredServices, RegisteredService. split_and!.
  - by apply List_NoDup.
  - intros l. by apply List_lookup.
  - intros k l Hl. by apply (Lookup_Key k _ l Hok).
  - intros Hm. apply elem_of_nil_inv. intros l Hl. apply List_lookup in Hl; [|done].
    by rewrite other_nodes_register_nothing in Hl.
Qed.

End Answers.

(** ** Guards *)

Section Guards.
Context `{UnicodeTables} `{Platform} `{ProtoLib} `{PacketLib}.
Context (id mainNodeID : Z) (listenAddr : string) (ownedLogger : bool) (serviceOrder : list ServiceKey).
Implicit Types s : node_life.
Implicit Types o : outside.

Abbreviation life_run := (life_run id mainNodeID listenAddr ownedLogger serviceOrder).
Abbreviation start_services := (start_services ownedLogger serviceOrder).

Lemma rolled_back o s : life (rollbackStart ownedLogger serviceOrder o s) <> Running.
Proof. unfold rollbackStart. by rewrite shutdown_life. Qed.

Lemma start_services_wheel o ks s :
  callWheel s = true -> life (fst (start_services o ks s)) = Running ->
  callWheel (fst (start_services o ks s)) = true.
Proof.
  revert s. induction ks as [|k ks IH]; intros s Hw; simpl; [done|].
  unfold startService. destruct (o_start o k).
  { destruct (o_stop o k); simpl; intros Hl; by apply rolled_back in Hl. }
  destruct (o_register o k); [simpl; intros Hl; by apply rolled_back in Hl|].
  destruct (o_subscribe o k); [simpl; intros Hl; by apply rolled_back in Hl|].
  by apply IH.
Qed.

(** A running Node has its timers. *)
Lemma running_wheel h : life (life_run h) = Running -> callWheel (life_run h) = true.
Proof.
  induction h as [|[o c] h IH] using rev_ind; [done|].
  unfold Lifecycle.life_run. rewrite foldl_app. simpl. fold (life_run h). generalize dependent (life_run h).
  intros s IH. destruct c; simpl.
  - unfold Start. case_bool_decide; [|done]. unfold startRPCServer, startMainRecoveryLoop.
    destruct (o_server o); [|simpl; intros Hl; by apply rolled_back in Hl].
    destruct (life_is_main id mainNodeID); [by apply start_services_wheel|].
    destruct (o_main o); [simpl; intros Hl; by apply rolled_back in Hl|by apply start_services_wheel].
  - unfold Stop. destruct (life s) eqn:El; simpl; try congruence.
    + unfold releaseLogger, stopServiceCallTimeWheel. by repeat case_match.
    + pose proof (shutdown_life ownedLogger serviceOrder o (set_life Stopping s)) as Hsd.
      destruct (shutdown _ _ _ _) as [s' errs]. simpl in *. congruence.
    + unfold releaseLogger. repeat case_match; simpl; congruence.
Qed.

(** C28 (safety). Only an operational Node serves: before [Start] and once
    [Stop] is over, whatever happened in between, every call, message and
    subscription of its services is refused with [ErrNodeStopped], with no
    effect; on a running Node the guards let them through, and a call of an
    existing service with a valid message id always gets its timer. *)
Theorem only_operational_nodes_serve h services mode source target mid payload location client name callback_nil :
  let s := life_run h in
  (life s = Initial \/ life s = Stopped ->
     begin_call services mode target mid (operational s) (bool_decide (newServiceCallTimer s = None)) callback_nil
       = Some (Err (ESentinel ErrNodeStopped)) /\
     send2Service (operational s) services location client source target mid payload
       = (Err (ESentinel ErrNodeStopped), false) /\
     subscribeService (operational s) services source name = Err (ESentinel ErrNodeStopped)) /\
  (life s = Running ->
     operational s = true /\ newServiceCallTimer s = None /\
     (validate_id mid = None -> is_Some (services !! target) ->
      begin_call services mode target mid (operational s) (bool_decide (newServiceCallTimer s = None)) false
        = Some (Ok begun_call))).
Proof.
  intros s. split.
  - intros Hl. assert (operational s = false) as ->; [|done].
    unfold operational. destruct Hl as [-> | ->]; done.
  - intros Hl. assert (operational s = true) as Hop by (unfold operational; by rewrite Hl).
    assert (newServiceCallTimer s = None) as Ht.
    { unfold newServiceCallTimer. by rewrite Hop, (running_wheel h Hl : callWheel s = true). }
    rewrite Hop, Ht. split_and!; [done|done|]. intros Hid [rt Hrt]. unfold begin_call, call_guard.
    rewrite Hid, Hrt. by destruct mode.
Qed.

End Guards.

(** ** Witnesses *)

Section Witnesses.
#[local] Existing Instance ascii_tables.
Import Demo.

Lemma registered_services_answer_witness :
  NoDup (RegisteredServices opened) /\
  RegisteredService gate opened = Some (mkServiceLocation "gate" 1 1 "10.0.0.1:9000").
Proof.
  destruct (registered_services_answer env opened opened_reachable) as (Hnd & _). split; [exact Hnd|].
  vm_compute. reflexivity.
Defined.

(** A Node that was started and stopped, and one that is running. *)
Lemma only_operational_nodes_serve_witness :
  (let s := life_run 1 1 "127.0.0.1:7001" false [demo_gate] [(stops_badly, CStart); (stops_badly, CStop)] in
   send2Service (operational s) rooms (fun _ => Err (EText "")) (fun _ => Ok true) demo_gate a_room
     (numericServiceMessageID 7) [x01] = (Err (ESentinel ErrNodeStopped), false)) /\
  (let s := life_run 1 1 "127.0.0.1:7001" false [demo_gate] [(stops_badly, CStart)] in
   newServiceCallTimer s = None).
Proof.
  split.
  - apply (only_operational_nodes_serve 1 1 "127.0.0.1:7001" false [demo_gate]
      [(stops_badly, CStart); (stops_badly, CStop)] rooms CallSync demo_gate a_room (numericServiceMessageID 7) [x01]
      (fun _ => Err (EText "")) (fun _ => Ok true) "room" false). right. vm_compute. reflexivity.
  - apply (only_operational_nodes_serve 1 1 "127.0.0.1:7001" false [demo_gate]
      [(stops_badly, CStart)] rooms CallSync demo_gate a_room (numericServiceMessageID 7) [x01]
      (fun _ => Err (EText "")) (fun _ => Ok true) "room" false). vm_compute. reflexivity.
Defined.

End Witnesses.
