(* ===== verification/Coherence.v ===== *)
(** * Route caches and the main node

    The route cache of one Node composed with the main node it asks: the
    control plane of the main node ([ControlPlane]), the connection of the
    Node to it, the packets the main node pushed over that connection and the
    Node has not handled yet, the lookups under way, and the cache with its
    goroutines ([RouteCache]).  Answers and pushes may overtake each other,
    the connection may break at any moment, and the main node may lose the
    session before the Node notices. *)

From stdpp Require Import base tactics list gmap sets strings.
From Stdlib Require Import ZArith Lia Strings.Byte.
From S2P Require Import Prelude GoString Errors Registry Subscription Config Service Wire.
From S2P Require Import WireInstances WireTheorems Dispatch ControlPlane ControlInvariant.
From S2P Require Import ControlDemo ControlTheorems SessionEnd ControlRequests Discovery Client EndToEnd.
From S2P Require RouteCache.
Import RouteCache (routeCacheEntry, serviceRouteCache, sys, sys_init, thread_step, thread,
  Loading, Storing, th_pc, th_key, cache, calls, threads, entries, now_stamp, bounded,
  sys_invalidate, sys_invalidateAll, read_hit, stamp, call_key, next_call).
Local Open Scope string_scope.
Local Open Scope list_scope.

(** ** State *)

(** The Node's connection to the main node: none; dialled, with the cache
    cleared by [newRPCClient]; published in [rpcClients] over a session; or
    lost, before [markDisconnected] has cleared the cache. *)
Inductive cluster_link := Down | Dialled | Up (session : nat) | Lost.

Record cluster (R : Type) := mkCluster {
  cl_main : node R;
  cl_cache : sys;
  cl_link : cluster_link;
  cl_read : nat;                           (** how many outputs of the main node have been looked at *)
  cl_asked : gmap nat (res ServiceLocation); (** answers the main node gave, by [routeLookupCall] *)
  cl_reported : gset nat   (** sessions whose end the network reported to the main node; a ghost *)
}.
Arguments mkCluster {R}.
Arguments cl_main {R}.
Arguments cl_cache {R}.
Arguments cl_link {R}.
Arguments cl_read {R}.
Arguments cl_asked {R}.
Arguments cl_reported {R}.

(** ** Routes of a cache

    [routes_ok P] says of a cache that whatever it serves, or is still going to
    serve, satisfies [P]; [asked] are the answers given to its calls. *)

Section Routes.
Implicit Types y : sys.
Implicit Types P Q : ServiceKey -> ServiceLocation -> Prop.
Implicit Types asked : gmap nat (res ServiceLocation).

(** No invalidation has followed the query. *)
Definition current y (a : nat) (key : ServiceKey) : Prop :=
  exists call, calls y !! a = Some call /\ call_key call = key /\ stamp call = now_stamp y key.

Definition asked_known asked y : Prop := forall a, is_Some (asked !! a) -> a < next_call y.

Record routes_ok P asked y : Prop := {
  ro_entry : forall k e, entries (cache y) !! k = Some e -> P k (RouteCache.location e);
  ro_asked : forall a k l, current y a k -> asked !! a = Some (Ok l) -> P k l;
  ro_storing : forall t th a l, threads y !! t = Some th -> th_pc th = Storing a (Ok l) ->
    current y a (th_key th) -> P (th_key th) l
}.

Lemma routes_ok_mono P Q asked y :
  (forall k l, P k l -> Q k l) -> routes_ok P asked y -> routes_ok Q asked y.
Proof.
  intros HPQ [H1 H2 H3]. split; intros; apply HPQ; [by apply H1|by apply (H2 a)|by apply (H3 t th a)].
Qed.

Lemma routes_ok_ask P asked y a r :
  (forall k l, r = Ok l -> current y a k -> P k l) ->
  routes_ok P asked y -> routes_ok P (<[a := r]> asked) y.
Proof.
  intros Hr Hy. split; [apply Hy| |apply Hy].
  intros b k l Hc [[<- ->]|[_ Hb]]%lookup_insert_Some; [by apply Hr|by apply (ro_asked _ _ _ Hy b)].
Qed.

(** An invalidation makes nothing current. *)
Lemma current_invalidate y key a k :
  RouteCache.inv y -> current (sys_invalidate key y) a k -> current y a k /\ k <> key.
Proof.
  intros Hi (cl & Ha & Hk & Hst). simpl in Ha. rewrite RouteCache.now_stamp_invalidate in Hst.
  destruct (RouteCache.inv_call _ Hi _ _ Ha) as (_ & [_ Hle] & _). rewrite Hk, Hst in Hle. simpl in Hle.
  case_decide; [lia|]. split; [|done]. exists cl. split_and!; [done|done|]. by rewrite Hst.
Qed.

Lemma current_invalidateAll y a k : RouteCache.inv y -> ~ current (sys_invalidateAll y) a k.
Proof.
  intros Hi (cl & Ha & Hk & Hst). simpl in Ha.
  destruct (RouteCache.inv_call _ Hi _ _ Ha) as (_ & [Hle _] & _). rewrite Hk, Hst in Hle. simpl in Hle. lia.
Qed.

Lemma routes_ok_invalidate P Q asked y key :
  RouteCache.inv y -> (forall k l, k <> key -> P k l -> Q k l) ->
  routes_ok P asked y -> routes_ok Q asked (sys_invalidate key y).
Proof.
  intros Hi HPQ Hy. split.
  - simpl. intros k e [Hne He]%lookup_delete_Some. apply HPQ; [done|]. by apply Hy.
  - intros a k l [Hc Hne]%(current_invalidate _ _ _ _ Hi) Ha. apply HPQ; [done|]. by apply (ro_asked _ _ _ Hy a).
  - intros t th a l Ht Hpc [Hc Hne]%(current_invalidate _ _ _ _ Hi). apply HPQ; [done|].
    by apply (ro_storing _ _ _ Hy t th a).
Qed.

Lemma routes_ok_invalidateAll P asked y : RouteCache.inv y -> routes_ok P asked (sys_invalidateAll y).
Proof.
  intros Hi. split; [done| |].
  - intros a k l Hc. by destruct (current_invalidateAll y a k Hi).
  - intros t th a l _ _ Hc. by destruct (current_invalidateAll y a (th_key th) Hi).
Qed.

Lemma routes_ok_spawn P asked y t key :
  routes_ok P asked y -> routes_ok P asked (RouteCache.spawn t key y).
Proof.
  intros Hy. split; [apply Hy|apply Hy|]. simpl.
  intros t' th a l [[_ <-]|[_ Ht]]%lookup_insert_Some; [done|]. by apply (ro_storing _ _ _ Hy t' th a).
Qed.

(** A goroutine moves, and nothing else changes. *)
Lemma routes_ok_goto P asked y t th p :
  (forall a l, p = Storing a (Ok l) -> current y a (th_key th) -> P (th_key th) l) ->
  routes_ok P asked y -> routes_ok P asked (RouteCache.with_threads y (RouteCache.set_pc t th p (threads y))).
Proof.
  intros Hp Hy. split; [apply Hy|apply Hy|]. simpl. unfold RouteCache.set_pc.
  intros t' th' a l [[_ <-]|[_ Ht]]%lookup_insert_Some; [simpl; intros ->; by apply (Hp a)|]. by apply (ro_storing _ _ _ Hy t' th' a).
Qed.

Lemma routes_ok_drop P asked y key :
  routes_ok P asked y ->
  routes_ok P asked (RouteCache.with_cache y (RouteCache.drop_entry key (cache y))).
Proof. intros Hy. split; [|apply Hy..]. simpl. intros k e [_ He]%lookup_delete_Some. by apply Hy. Qed.

(** A new call: nothing has been asked for it yet. *)
Lemma routes_ok_begun P asked y t th :
  RouteCache.inv y -> asked_known asked y -> routes_ok P asked y ->
  routes_ok P asked (RouteCache.begun t th y).
Proof.
  intros Hi Hk Hy. split; [apply Hy| |].
  - intros a k l (cl & Ha & Hc & Hst) Hask. simpl in Ha. apply lookup_insert_Some in Ha as [[<- _]|[_ Ha]].
    + specialize (Hk (next_call y)). rewrite Hask in Hk. specialize (Hk ltac:(eauto)). lia.
    + apply (ro_asked _ _ _ Hy a); [|done]. by exists cl.
  - simpl. unfold RouteCache.set_pc. intros t' th' a l [[_ <-]|[_ Ht]]%lookup_insert_Some; [done|]. intros Hpc (cl & Ha & Hc & Hst).
    simpl in Ha. apply lookup_insert_Some in Ha as [[<- _]|[_ Ha]].
    + exfalso. eapply RouteCache.no_owner_fresh; [done..|]. right. eauto.
    + apply (ro_storing _ _ _ Hy t' th' a); [done..|]. by exists cl.
Qed.

(** A call is completed. *)
Lemma routes_ok_finished P asked y t th a cl r :
  RouteCache.inv y -> threads y !! t = Some th -> th_pc th = Storing a r -> calls y !! a = Some cl ->
  routes_ok P asked y -> routes_ok P asked (RouteCache.finished t th a cl r y).
Proof.
  intros Hi Ht Hpc Hcl Hy. destruct (RouteCache.finish_call_key y t a th cl r Hi Ht Hpc Hcl) as [Hck _].
  assert (forall b k, current (RouteCache.finished t th a cl r y) b k -> current y b k) as Hcur.
  { intros b k (cl' & Hb & Hk & Hst). rewrite RouteCache.finish_calls in Hb.
    case_decide; simplify_eq; [by exists cl|by exists cl']. }
  split; [|intros b k l Hc Ha; apply (ro_asked _ _ _ Hy b); [by apply Hcur|done]|].
  - intros k e. unfold RouteCache.finished. simpl. fold (RouteCache.is_stale y (th_key th) cl).
    destruct r as [l|]; [|apply Hy].
    destruct (negb _ && _) eqn:E; [|apply Hy].
    intros [[<- <-]|[_ He]]%lookup_insert_Some; [|by apply Hy]. bool_prop. simpl.
    apply (ro_storing _ _ _ Hy t th a); [done..|]. exists cl. split_and!; [done|done|]. by eapply RouteCache.not_stale_current.
  - intros t' th' b l. rewrite RouteCache.finish_threads. intros H' Hpc' Hc%Hcur. case_decide; simplify_eq.
    + simpl in Hpc'. by case_match.
    + by apply (ro_storing _ _ _ Hy t' th' b).
Qed.

Lemma routes_ok_thread_step P asked y t reply y' :
  RouteCache.inv y -> asked_known asked y ->
  (forall th a l, threads y !! t = Some th -> th_pc th = Loading a -> reply = Ok l ->
     current y a (th_key th) -> P (th_key th) l) ->
  thread_step t reply y = Some y' -> routes_ok P asked y -> routes_ok P asked y'.
Proof.
  intros Hi Hk Hrep Hstep Hy. unfold thread_step in Hstep.
  destruct (threads y !! t) as [th|] eqn:Ht; [|done]. cbv zeta in Hstep.
  destruct (th_pc th) as [|now| |a|a|a r|] eqn:Hpc; try done.
  - simplify_eq. by apply routes_ok_goto.
  - destruct (read_hit _ _ _); simplify_eq; by apply routes_ok_goto.
  - destruct (RouteCache.lock_miss_cases (th_key th) (RouteCache.clock y) (calls y) (next_call y) (cache y))
      as [(l & Hh & E)|[(a & cl & Hh & Hl & Hcl & He & Hr & E)|(Hh & Hnj & E)]];
      rewrite E in Hstep; simplify_eq.
    + by apply (routes_ok_goto P asked y).
    + by apply (routes_ok_goto P asked (RouteCache.with_cache y _)), routes_ok_drop.
    + by apply (routes_ok_begun P asked (RouteCache.with_cache y (RouteCache.drop_entry (th_key th) (cache y))) t th);
        [apply RouteCache.inv_drop_entry| |apply routes_ok_drop].
  - destruct (calls y !! a) as [cl|]; [|done]. destruct (RouteCache.done cl); [|done].
    destruct (RouteCache.stale cl); simplify_eq; by apply routes_ok_goto.
  - simplify_eq. apply routes_ok_goto; [|done]. intros b l [= <- ->]. by apply Hrep.
  - destruct (calls y !! a) as [cl|] eqn:Hcl; [|done]. injection Hstep as <-.
    by apply (routes_ok_finished P asked y t th a cl r).
Qed.

End Routes.

Section Cluster.
Context `{UnicodeTables} `{Platform} `{ProtoLib} `{PacketLib}.
Context {R : Type} `{ServiceRegistry R}.
(** The main node and the Node with the cache. *)
Context (n peer : node_env).
Implicit Types c : cluster R.

Definition with_node x c : cluster R :=
  mkCluster x (cl_cache c) (cl_link c) (cl_read c) (cl_asked c) (cl_reported c).
Definition with_sys x c : cluster R :=
  mkCluster (cl_main c) x (cl_link c) (cl_read c) (cl_asked c) (cl_reported c).
Definition with_link x c : cluster R :=
  mkCluster (cl_main c) (cl_cache c) x (cl_read c) (cl_asked c) (cl_reported c).
Definition with_read x c : cluster R :=
  mkCluster (cl_main c) (cl_cache c) (cl_link c) x (cl_asked c) (cl_reported c).
Definition with_asked x c : cluster R :=
  mkCluster (cl_main c) (cl_cache c) (cl_link c) (cl_read c) x (cl_reported c).
Definition with_reported x c : cluster R :=
  mkCluster (cl_main c) (cl_cache c) (cl_link c) (cl_read c) (cl_asked c) x.

Definition cluster_init (r : R) (ttl : Z) (enabled : bool) : cluster R :=
  mkCluster (node_init r) (sys_init ttl enabled) Down 0 ∅ ∅.

(** ** Events *)

Inductive cluster_event :=
| CMain (e : event)                  (** anything that happens at the main node *)
| CDial                              (** a new connection: [invalidateAll] *)
| CPublish (session from : nat)      (** it is registered at the main node and published *)
| CGiveUp                            (** it is closed before that *)
| CBreak                             (** [connected.Swap(false)] *)
| CClear                             (** [invalidateAll] of [markDisconnected] *)
| CPush                              (** the Node handles the next packet *)
| CLookup (t : nat) (key : ServiceKey)
| CAsk (t : nat) (contextID : Z)     (** [lookupServiceFromMain], at the main node *)
| CReply (t : nat)                   (** the answer reaches [load] *)
| CFail (t : nat) (e : error)        (** the request fails or expires *)
| CGoroutine (t : nat)               (** any other step of a goroutine in [lookup] *)
| CDrop (key : ServiceKey)           (** [invalidate] after a failed call *)
| CTick (d : nat).

(** The call a goroutine is loading. *)
Definition loading (t : nat) c : option (ServiceKey * nat) :=
  match threads (cl_cache c) !! t with
  | Some th => match th_pc th with Loading a => Some (th_key th, a) | _ => None end
  | None => None
  end.

Definition step_thread (t : nat) (reply : res ServiceLocation) c : option (cluster R) :=
  match thread_step t reply (cl_cache c) with Some y => Some (with_sys y c) | None => None end.

(** What the handler of the Node's client does with an output of the main
    node. *)
Definition handle_push (session : nat) (o : output) (y : sys) : sys :=
  match o with
  | OSend session' pkt =>
      if Nat.eqb session' session then
        match client_handleRPCDirect peer (self n) pkt with
        | PInvalidate key => sys_invalidate key y
        | _ => y
        end
      else y
  | _ => y
  end.

(** The request of [lookupServiceFromMain], as the main node handles it. *)
Definition asked_main (session : nat) (contextID : Z) (key : ServiceKey) (s : node R) : node R :=
  match encodeEnvelope opLookup (Message TLookupRequest (mkLookup (Some (serviceKeyToProto key)))) with
  | Ok pkt => handleRPCRequest n session contextID pkt s
  | Err _ => s
  end.

Definition cluster_step (e : cluster_event) c : option (cluster R) :=
  match e with
  | CMain e =>
      match node_step n e (cl_main c) with
      | Some s => Some (with_reported (reports e ∪ cl_reported c) (with_node s c))
      | None => None
      end
  | CDial =>
      match cl_link c with
      | Down => Some (with_link Dialled (with_sys (sys_invalidateAll (cl_cache c)) c))
      | _ => None
      end
  | CPublish session from =>
      match cl_link c, registeredRemoteNode session (cl_main c) with
      | Dialled, Ok remote =>
          if (remote_id remote =? self peer)%Z && Nat.leb from (length (outputs (cl_main c)))
          then Some (with_link (Up session) (with_read from c)) else None
      | _, _ => None
      end
  | CGiveUp => match cl_link c with Dialled => Some (with_link Down c) | _ => None end
  | CBreak => match cl_link c with Up _ => Some (with_link Lost c) | _ => None end
  | CClear =>
      match cl_link c with
      | Lost => Some (with_link Down (with_sys (sys_invalidateAll (cl_cache c)) c))
      | _ => None
      end
  | CPush =>
      match cl_link c, outputs (cl_main c) !! cl_read c with
      | Up session, Some o =>
          Some (with_read (S (cl_read c)) (with_sys (handle_push session o (cl_cache c)) c))
      | _, _ => None
      end
  | CLookup t key =>
      match threads (cl_cache c) !! t with
      | None => Some (with_sys (RouteCache.spawn t key (cl_cache c)) c)
      | Some _ => None
      end
  | CAsk t contextID =>
      match cl_link c, loading t c with
      | Up session, Some (key, a) =>
          match cl_asked c !! a with
          | None =>
              Some (with_asked
                (<[a := lookupServiceFromMain (Ok (true, served_at n session contextID (cl_main c))) key]>
                   (cl_asked c))
                (with_node (asked_main session contextID key (cl_main c)) c))
          | Some _ => None
          end
      | _, _ => None
      end
  | CReply t =>
      match loading t c with
      | Some (_, a) => match cl_asked c !! a with Some r => step_thread t r c | None => None end
      | None => None
      end
  | CFail t e => match loading t c with Some _ => step_thread t (Err e) c | None => None end
  | CGoroutine t => match loading t c with Some _ => None | None => step_thread t (Err (EText "")) c end
  | CDrop key => Some (with_sys (sys_invalidate key (cl_cache c)) c)
  | CTick d => Some (with_sys (RouteCache.tick (Z.of_nat d) (cl_cache c)) c)
  end.

Definition cluster_step_rel c c' : Prop :=
  well_typed (cl_main c') /\ exists e, cluster_step e c = Some c'.

Context `{!ServiceRegistryLaws R}.

Definition cluster_reachable c : Prop :=
  exists r0 ttl enabled, fresh r0 /\ steps cluster_step_rel (cluster_init r0 ttl enabled) c.

(** ** Coherence *)

(** A push that will invalidate the key is on its way. *)
Definition pending c (session : nat) (key : ServiceKey) : Prop :=
  exists i pkt, cl_read c <= i /\ outputs (cl_main c) !! i = Some (OSend session pkt) /\
    client_handleRPCDirect peer (self n) pkt = PInvalidate key.

Definition linked c (session : nat) : Prop := remoteNodes (cl_main c) !! self peer = Some session.

(** The route [l] of [key] may be in use. *)
Definition usable c (key : ServiceKey) (l : ServiceLocation) : Prop :=
  match cl_link c with
  | Up session => linked c session ->
      Lookup key (registry (cl_main c)) = Some l \/ pending c session key
  | Lost => True
  | Down | Dialled => False
  end.

Record cluster_inv c : Prop := {
  ci_main : ControlInvariant.inv n (cl_main c);
  ci_typed : well_typed (cl_main c);
  ci_session : forall session, cl_link c = Up session ->
    exists r, remotes (cl_main c) !! session = Some r /\ remote_id r = self peer /\ self peer <> 0%Z;
  ci_read : cl_read c <= length (outputs (cl_main c));
  ci_ending : ending (cl_reported c) (micros (cl_main c)) (cl_main c);
  ci_cache : bounded (cl_cache c) -> RouteCache.inv (cl_cache c) /\
    asked_known (cl_asked c) (cl_cache c) /\ routes_ok (usable c) (cl_asked c) (cl_cache c)
}.

(** ** The invariant *)

Context `{!ProtoLaws} `{!PacketLaws}.
Hypothesis main : IsMainNode n = true.
Hypothesis from_main : mainNodeID peer = self n.
Hypothesis not_main_itself : self peer <> mainNodeID peer.

(** Every event is a step of the cache, or does not touch it. *)
Lemma cluster_step_cache e c c' :
  cluster_step e c = Some c' ->
  cl_cache c' = cl_cache c \/ RouteCache.step (cl_cache c) (cl_cache c').
Proof.
  assert (forall t r x, step_thread t r c = Some x -> RouteCache.step (cl_cache c) (cl_cache x)) as Hth.
  { intros t r x. unfold step_thread. destruct (thread_step t r (cl_cache c)) eqn:E; [|done].
    intros [= <-]. by eapply RouteCache.step_thread. }
  intros Hs. destruct e; simpl in Hs; repeat case_match; simplify_eq; simpl; eauto using RouteCache.step.
  - unfold handle_push. repeat case_match; first [by left|right; apply RouteCache.step_invalidate].
  - right. apply RouteCache.step_tick. lia.
Qed.

(** Every event is a step of the main node, or does not touch it. *)
Lemma cluster_step_main e c c' :
  cluster_step e c = Some c' ->
  cl_main c' = cl_main c \/ exists e', node_step n e' (cl_main c) = Some (cl_main c').
Proof.
  intros Hs. destruct e; simpl in Hs; unfold step_thread in Hs; repeat case_match; simplify_eq; simpl; eauto.
  unfold asked_main. case_match; [|auto]. right. by eexists (ERequest _ _ _).
Qed.

Lemma pending_read c session k from :
  from <= cl_read c -> pending c session k -> pending (with_read from c) session k.
Proof. intros Hf (i & pkt & Hi & ? & ?). exists i, pkt. split_and!; [simpl; lia|done|done]. Qed.

(** A step of the main node: what changes is on its way before anyone can
    read it. *)
Lemma usable_main e c s' k l :
  node_step n e (cl_main c) = Some s' -> ControlInvariant.inv n (cl_main c) ->
  well_typed (cl_main c) -> well_typed s' -> cl_read c <= length (outputs (cl_main c)) ->
  (forall session, cl_link c = Up session ->
    exists r, remotes (cl_main c) !! session = Some r /\ remote_id r = self peer /\ self peer <> 0%Z) ->
  usable c k l -> usable (with_node s' c) k l.
Proof.
  intros He Hi Ht Ht' Hr Hse. unfold usable. simpl.
  destruct (cl_link c) as [| |session|] eqn:El; try done. intros Hu Hlink.
  destruct (Hse session eq_refl) as (r & Hrem & Hid & Hne).
  destruct (proj1 (node_step_sessions n e _ _ He) session r Hrem) as [_ Hback]; [congruence|]. rewrite Hid in Hback.
  destruct (node_step_announces n main e _ _ He Hi) as (o & Ho & Htold).
  destruct (Hu (Hback Hlink)) as [Hl|(i & pkt & Hi1 & Hi2 & Hi3)].
  - destruct (decide (Lookup k (registry s') = Lookup k (registry (cl_main c)))) as [E|Hch]; [left; congruence|].
    right. destruct (Htold k Hch) with (m := self peer) (session := session) as (pkt & Hin & Hinv); [|done|].
    { intros x [Hx|Hx]; [by apply Ht|by apply Ht']. }
    apply list_elem_of_lookup in Hin as [i Hin].
    exists (length (outputs (cl_main c)) + i), pkt. simpl. rewrite Ho, lookup_app_r, Nat.add_comm, Nat.add_sub by lia.
    split_and!; [lia|done|]. apply invalidation_accepted; try done; [|by apply Ht; eexists].
    destruct Hi as [Hi _]. by apply (well_typed_sendable _ _ (i_reg _ _ _ Hi) Ht); eexists.
  - right. exists i, pkt. split_and!; [done| |done]. simpl. rewrite Ho. by apply lookup_app_l_Some.
Qed.

Lemma cluster_inv_main e c s' :
  node_step n e (cl_main c) = Some s' -> well_typed s' -> cluster_inv c ->
  cluster_inv (with_reported (reports e ∪ cl_reported c) (with_node s' c)).
Proof.
  intros He Ht Hc. split; simpl; [by eapply node_step_inv, Hc|done| | | |].
  - intros session Hse. destruct (ci_session _ Hc session Hse) as (r & Hr & Hid & Hne).
    destruct (proj1 (node_step_sessions n e _ _ He) session r Hr) as [(r' & Hr' & Hid') _]; [congruence|].
    exists r'. split_and!; congruence.
  - destruct (node_step_announces n main e _ _ He (ci_main _ Hc)) as (o & -> & _).
    rewrite length_app. pose proof (ci_read _ Hc). lia.
  - eapply node_step_ending, Hc. done.
  - intros Hb. destruct (ci_cache _ Hc Hb) as (? & ? & Hr). split_and!; [done|done|].
    eapply routes_ok_mono; [|exact Hr]. intros k l. by eapply usable_main; try apply Hc.
Qed.

(** A request changes what the main node knows, and no session ends. *)
Lemma cluster_inv_request session ctx pkt c s' :
  node_step n (ERequest session ctx pkt) (cl_main c) = Some s' -> well_typed s' -> cluster_inv c ->
  cluster_inv (with_node s' c).
Proof.
  intros He Ht Hc. pose proof (cluster_inv_main _ c s' He Ht Hc) as Hi. simpl in Hi.
  by rewrite union_empty_l_L in Hi.
Qed.

(** Handling the next packet. *)
Lemma usable_push c session o k l :
  cl_link c = Up session -> outputs (cl_main c) !! cl_read c = Some o ->
  (forall pkt, o = OSend session pkt -> client_handleRPCDirect peer (self n) pkt <> PInvalidate k) ->
  usable c k l -> usable (with_read (S (cl_read c)) c) k l.
Proof.
  intros El Ho Hne. unfold usable. simpl. rewrite El. intros Hu Hlink.
  destruct (Hu Hlink) as [|(i & pkt & Hi & Hout & Hk)]; [by left|]. right. exists i, pkt. split_and!; [|done|done].
  simpl. destruct (decide (i = cl_read c)) as [->|]; [|lia].
  destruct (Hne pkt); [|done]. congruence.
Qed.

Lemma routes_ok_push c session o :
  cl_link c = Up session -> outputs (cl_main c) !! cl_read c = Some o -> RouteCache.inv (cl_cache c) ->
  routes_ok (usable c) (cl_asked c) (cl_cache c) ->
  routes_ok (usable (with_read (S (cl_read c)) c)) (cl_asked c) (handle_push session o (cl_cache c)).
Proof.
  intros El Ho Hi Hr.
  assert ((forall pkt k, o = OSend session pkt -> client_handleRPCDirect peer (self n) pkt <> PInvalidate k) ->
    routes_ok (usable (with_read (S (cl_read c)) c)) (cl_asked c) (cl_cache c)) as Hsame.
  { intros Hne. eapply routes_ok_mono; [|exact Hr]. intros k l. eapply usable_push; [done..|]. eauto. }
  unfold handle_push. destruct o as [se pkt| | | | | |]; try (apply Hsame; congruence).
  destruct (Nat.eqb se session) eqn:Ese; [|apply Hsame; intros ? k [= -> _]; by rewrite Nat.eqb_refl in Ese].
  apply Nat.eqb_eq in Ese as ->.
  destruct (client_handleRPCDirect peer (self n) pkt) eqn:Ek; try (apply Hsame; congruence).
  eapply routes_ok_invalidate; [done| |exact Hr]. intros k l Hne. eapply usable_push; [done..|]. congruence.
Qed.

Lemma handle_push_cases session o y :
  handle_push session o y = y \/ exists key, handle_push session o y = sys_invalidate key y.
Proof. unfold handle_push. repeat case_match; eauto. Qed.

Lemma cluster_inv_push c session o :
  cl_link c = Up session -> outputs (cl_main c) !! cl_read c = Some o -> cluster_inv c ->
  cluster_inv (with_read (S (cl_read c)) (with_sys (handle_push session o (cl_cache c)) c)).
Proof.
  intros El Ho Hc. split; try apply Hc; simpl; [by apply lookup_lt_Some in Ho|].
  intros Hb. destruct (ci_cache _ Hc) as (Hi & Hk & Hr).
  { destruct (handle_push_cases session o (cl_cache c)) as [E|[key E]]; rewrite E in Hb; [done|].
    eapply RouteCache.bounded_back; [constructor|done]. }
  split_and!; [| |exact (routes_ok_push c session o El Ho Hi Hr)];
    destruct (handle_push_cases session o (cl_cache c)) as [E|[key E]]; rewrite E in *; try done.
  by apply RouteCache.inv_invalidate.
Qed.

(** The cache half of the invariant moves on with the cache. *)
Lemma cluster_inv_cache c c' :
  RouteCache.step (cl_cache c) (cl_cache c') -> cl_main c' = cl_main c ->
  (forall session, cl_link c' = Up session -> cl_link c = Up session) ->
  cl_read c' <= length (outputs (cl_main c)) -> cl_asked c' = cl_asked c -> cl_reported c' = cl_reported c ->
  (RouteCache.inv (cl_cache c) -> asked_known (cl_asked c) (cl_cache c) ->
   routes_ok (usable c) (cl_asked c) (cl_cache c) ->
   routes_ok (usable c') (cl_asked c) (cl_cache c')) ->
  cluster_inv c -> cluster_inv c'.
Proof.
  intros Hst Em El Hread Ea Er Hr Hc. split; rewrite ?Em, ?Ea, ?Er; try apply Hc; [by intros ? ?%El; apply Hc|done|].
  intros Hb. destruct (ci_cache _ Hc) as (Hi & Hk & Hrt); [by eapply RouteCache.bounded_back|].
  split_and!; [by eapply RouteCache.inv_step| |by apply Hr].
  intros a Ha. specialize (Hk a Ha). pose proof (RouteCache.step_calls _ _ Hst). lia.
Qed.

(** Only the connection changes. *)
Lemma cluster_inv_link c c' :
  cl_main c' = cl_main c -> cl_cache c' = cl_cache c -> cl_asked c' = cl_asked c -> cl_reported c' = cl_reported c ->
  cl_read c' <= length (outputs (cl_main c)) ->
  (forall session, cl_link c' = Up session ->
    exists r, remotes (cl_main c) !! session = Some r /\ remote_id r = self peer /\ self peer <> 0%Z) ->
  (forall k l, usable c k l -> usable c' k l) -> cluster_inv c -> cluster_inv c'.
Proof.
  intros Em Ec Ea Er Hread Hse Hu Hc. split; rewrite ?Em, ?Ec, ?Ea, ?Er; try apply Hc; [done|done|].
  intros Hb. destruct (ci_cache _ Hc Hb) as (? & ? & ?). split_and!; [done|done|]. by eapply routes_ok_mono.
Qed.

Lemma cluster_inv_thread c c' t reply :
  step_thread t reply c = Some c' ->
  (forall th a l, bounded (cl_cache c) -> threads (cl_cache c) !! t = Some th -> th_pc th = Loading a ->
     reply = Ok l -> current (cl_cache c) a (th_key th) -> usable c (th_key th) l) ->
  cluster_inv c -> cluster_inv c'.
Proof.
  unfold step_thread. destruct (thread_step t reply (cl_cache c)) as [y|] eqn:Hst; [|done].
  intros [= <-] Hrep Hc. pose proof (RouteCache.step_thread _ _ _ _ Hst) as Hy.
  split; try apply Hc. simpl. intros Hb. pose proof (RouteCache.bounded_back _ _ Hy Hb) as Hb'.
  destruct (ci_cache _ Hc Hb') as (Hi & Hk & Hr). split_and!; [by eapply RouteCache.inv_step| |].
  - intros a Ha. specialize (Hk a Ha). pose proof (RouteCache.step_calls _ _ Hy). lia.
  - eapply routes_ok_thread_step; [exact Hi|exact Hk| |exact Hst|exact Hr]. eauto.
Qed.

Lemma loading_Some t c k a :
  loading t c = Some (k, a) ->
  exists th, threads (cl_cache c) !! t = Some th /\ th_key th = k /\ th_pc th = Loading a.
Proof.
  unfold loading. destruct (threads (cl_cache c) !! t) as [th|]; [|done].
  destruct (th_pc th) eqn:E; try done. intros [= <- <-]. eauto.
Qed.

(** A query: the answer is the route of this moment. *)
Lemma cluster_inv_ask c s' t session contextID key a :
  cl_link c = Up session -> loading t c = Some (key, a) -> cluster_inv c ->
  cluster_inv (with_node s' c) ->
  (forall l, Lookup key (registry (cl_main c)) = Some l -> usable (with_node s' c) key l) ->
  cluster_inv (with_asked
    (<[a := lookupServiceFromMain (Ok (true, served_at n session contextID (cl_main c))) key]> (cl_asked c))
    (with_node s' c)).
Proof.
  intros El (th & Ht & Hkey & Hpc)%loading_Some Hc Hc' Hu. split; try apply Hc'.
  intros Hb. destruct (ci_cache _ Hc' Hb) as (Hi & Hk & Hr). simpl in *.
  destruct (RouteCache.thread_ok_owns _ _ a (RouteCache.inv_thread _ Hi _ _ Ht)) as (cl & Hcl & Hck & _);
    [by left|].
  split_and!; [done| |].
  - intros b [r Hb']. apply lookup_insert_Some in Hb' as [[<- _]|[_ Hb']]; [|apply Hk; eauto].
    by apply (RouteCache.inv_call _ Hi _ _ Hcl).
  - apply routes_ok_ask; [|done]. intros k l Ha (cl' & Hcl' & Hk' & _).
    assert (k = key) as -> by congruence. apply Hu. by eapply lookup_answer_registered.
Qed.

Lemma cluster_step_inv e c c' :
  cluster_step e c = Some c' -> well_typed (cl_main c') -> cluster_inv c -> cluster_inv c'.
Proof.
  intros Hs Ht Hc. destruct e as [e| |session from| | | | |t key|t ctx|t|t e|t|key|d]; simpl in Hs.
  - destruct (node_step n e (cl_main c)) as [s|] eqn:He; simplify_eq. by eapply cluster_inv_main.
  - destruct (cl_link c) eqn:El; simplify_eq.
    apply (cluster_inv_cache c); try done; [constructor|apply Hc|]. intros. by apply routes_ok_invalidateAll.
  - destruct (cl_link c) eqn:El; try done. destruct (registeredRemoteNode _ _) as [r|] eqn:Er; [|done].
    destruct (_ && _) eqn:Eb; simplify_eq. bool_prop.
    apply registeredRemoteNode_Ok in Er as [Hr Hcur]. unfold is_current in Hcur. bool_prop.
    apply (cluster_inv_link c); try done; [by apply Nat.leb_le| |unfold usable; by rewrite El].
    intros se [= <-]. exists r. split_and!; congruence.
  - destruct (cl_link c) eqn:El; simplify_eq.
    apply (cluster_inv_link c); try done; [apply Hc|]. unfold usable. by rewrite El.
  - destruct (cl_link c) eqn:El; simplify_eq. apply (cluster_inv_link c); try done. apply Hc.
  - destruct (cl_link c) eqn:El; simplify_eq.
    apply (cluster_inv_cache c); try done; [constructor|apply Hc|]. intros. by apply routes_ok_invalidateAll.
  - destruct (cl_link c) as [| |session|] eqn:El; try done.
    destruct (outputs (cl_main c) !! cl_read c) as [o|] eqn:Eo; simplify_eq. by eapply cluster_inv_push.
  - destruct (threads (cl_cache c) !! t) eqn:Et; simplify_eq.
    apply (cluster_inv_cache c); try done; [by constructor|apply Hc|]. intros. by apply routes_ok_spawn.
  - destruct (cl_link c) as [| |session|] eqn:El; try done.
    destruct (loading t c) as [[k a]|] eqn:Ea; [|done]. destruct (cl_asked c !! a); simplify_eq.
    assert (forall l, Lookup k (registry (cl_main c)) = Some l -> usable c k l) as Hnow
      by (intros l Hl; unfold usable; rewrite El; by left).
    simpl in Ht. unfold asked_main in *. destruct (encodeEnvelope _ _) as [pkt|] eqn:Ep.
    + apply (cluster_inv_ask c _ t); try done; [by apply (cluster_inv_request session ctx pkt)|].
      intros l Hl. apply (usable_main (ERequest session ctx pkt)); try done; try apply Hc. by apply Hnow.
    + apply (cluster_inv_ask c _ t); try done. by destruct c, Hc; split.
  - destruct (loading t c) as [[k a]|] eqn:Ea; [|done]. destruct (cl_asked c !! a) as [r|] eqn:Eq; [|done].
    apply loading_Some in Ea as (th & Hth & Hkey & Hpc).
    eapply cluster_inv_thread; [done| |done]. intros th' a' l Hb Hth' Hpc' ->  Hcur. simplify_eq.
    assert (a' = a) as -> by congruence. destruct (ci_cache _ Hc Hb) as (_ & _ & Hr). by apply (ro_asked _ _ _ Hr a).
  - destruct (loading t c) as [[k a]|]; [|done]. by eapply cluster_inv_thread.
  - destruct (loading t c) as [[k a]|]; [done|]. by eapply cluster_inv_thread.
  - simplify_eq. apply (cluster_inv_cache c); try done; [constructor|apply Hc|].
    intros. by eapply routes_ok_invalidate.
  - simplify_eq. apply (cluster_inv_cache c); try done; [constructor; lia|apply Hc|]. by intros _ _ [? ? ?]; split.
Qed.

Lemma fresh_typed (r0 : R) : fresh r0 -> forall k, Lookup k r0 = None.
Proof. intros [_ Hf]. exact Hf. Qed.

Lemma cluster_reachable_inv c : cluster_reachable c -> cluster_inv c.
Proof.
  intros (r0 & ttl & enabled & Hf & Hs). apply (steps_invariant _ cluster_inv) in Hs; [done| |]; clear Hs.
  - intros c1 c2 [Ht [e He]]. by apply (cluster_step_inv e).
  - pose proof (fresh_typed r0 Hf) as Hnone. split; simpl; [by apply inv_node_init| |done|lia| |].
    + intros k [l Hl]. simpl in Hl. by rewrite Hnone in Hl.
    + split; [by intros m se ?%elem_of_nil|done].
    + intros _. split_and!; [apply RouteCache.inv_init|by intros a []|]. by split.
Qed.

(** C3 (safety). A cached route is never silently wrong.  Take any run with
    fewer than 2^64 invalidations in which registered names are valid UTF-8 and
    ids fit an int, and a route the cache of the Node would serve now.
    - If a connection is published and the main node counts its session, the
      route is the one in the main node's registry at this moment, or a packet
      that will drop it is already on its way on that session; so once the Node
      has handled what was sent, every cached route is the registered one.
    - If a connection is published but the main node does not count the session
      any more, the route may be stale, but not for long: the network has
      reported the end of the session to the main node, or the main node has
      closed it, or a goroutine of it is about to, past the point of no return.
    - If the connection is lost and [markDisconnected] has not cleared the cache
      yet, the route may be stale as well; the clearing is the next step of the
      goroutine that saw the loss, is possible now, and leaves nothing to serve.
    - In all other states, no connection is published and nothing is served.
    Answers may overtake pushes, lookups of one key may be merged, and
    connections may break at any point of a lookup. *)
Theorem cached_routes_agree_with_main c :
  cluster_reachable c -> bounded (cl_cache c) ->
  forall key now l, read_hit key now (cache (cl_cache c)) = Some l ->
  match cl_link c with
  | Up session =>
      (linked c session ->
         (Lookup key (registry (cl_main c)) = Some l \/ pending c session key) /\
         (cl_read c = length (outputs (cl_main c)) -> Lookup key (registry (cl_main c)) = Some l)) /\
      (~ linked c session -> over (cl_reported c) (micros (cl_main c)) (cl_main c) session)
  | Lost => exists c', cluster_step CClear c = Some c' /\
      forall key' now', read_hit key' now' (cache (cl_cache c')) = None
  | Down | Dialled => False
  end.
Proof.
  intros Hc%cluster_reachable_inv Hb key now l Hhit.
  destruct (ci_cache _ Hc Hb) as (_ & _ & Hr). unfold read_hit in Hhit.
  destruct (entries (cache (cl_cache c)) !! key) as [e|] eqn:He; [|done].
  pose proof (ro_entry _ _ _ Hr _ _ He) as Hu. destruct (RouteCache.alive now e); simplify_eq.
  unfold usable in Hu. destruct (cl_link c) as [| |session|] eqn:El; try done; [split|].
  - intros Hl. split; [by apply Hu|]. intros Hread. destruct (Hu Hl) as [|(i & pkt & Hi & Ho & _)]; [done|].
    apply lookup_lt_Some in Ho. lia.
  - intros Hl. destruct (ci_session _ Hc session El) as (r & Hrem & Hid & Hne).
    destruct (en_over _ _ _ (ci_ending _ Hc) session r Hrem) as [Hcur|]; [congruence| |done].
    destruct Hl. unfold linked. congruence.
  - eexists. simpl. rewrite El. split; [done|]. intros key' now'. simpl. unfold read_hit. simpl. by rewrite lookup_empty.
Qed.

End Cluster.

(** ** Witness *)

Section Witness.
#[local] Existing Instance ascii_tables.
Import Demo.

(** A run whose states are all well typed. *)
Fixpoint cluster_run (es : list cluster_event) (c : cluster MemoryRegistry) : option (cluster MemoryRegistry) :=
  match es with
  | [] => Some c
  | e :: es =>
      match cluster_step env env2 e c with
      | Some c' => if typed_registry (registry (cl_main c')) then cluster_run es c' else None
      | None => None
      end
  end.

Lemma cluster_run_steps es c c' : cluster_run es c = Some c' -> steps (cluster_step_rel env env2) c c'.
Proof.
  revert c. induction es as [|e es IH]; intros c Hr; simpl in Hr; [simplify_eq; constructor|].
  destruct (cluster_step env env2 e c) as [c1|] eqn:E; [|done].
  destruct (typed_registry _) eqn:Et; [|done]. eapply steps_trans; [|by apply IH].
  split; [by apply typed_registry_ok|]. by exists e.
Qed.

(** Node 2 connects, looks up the gate and caches the answer. *)
Definition caching : list cluster_event :=
  map CMain opening ++ [CDial; CPublish 7 0; CLookup 1 gate; CGoroutine 1; CGoroutine 1; CGoroutine 1;
    CAsk 1 9; CReply 1; CGoroutine 1].

Definition cluster_after (es : list cluster_event) : cluster MemoryRegistry :=
  default (cluster_init NewMemoryRegistry 10 true) (cluster_run es (cluster_init NewMemoryRegistry 10 true)).

(** Then the main node unregisters the gate, and the packet has not arrived yet. *)
Definition outdated : list cluster_event := caching ++ map CMain [ELocal (TLocalUnregister gate); EControl].

(** Or the heartbeat timer of the session fires, and the main node drops it. *)
Definition dropped : list cluster_event := caching ++ map CMain [ETimer 7; EControl; EControl; EControl].

Definition cluster_outdated : cluster MemoryRegistry := Eval vm_compute in cluster_after outdated.
Definition cluster_dropped : cluster MemoryRegistry := Eval vm_compute in cluster_after dropped.

Lemma cluster_after_reachable es c :
  cluster_run es (cluster_init NewMemoryRegistry 10 true) = Some c -> cluster_reachable env env2 c.
Proof. exists NewMemoryRegistry, 10%Z, true. split; [by split|]. by apply (cluster_run_steps es). Qed.

Lemma cached_routes_agree_with_main_witness :
  (Lookup gate (registry (cl_main cluster_outdated)) = Some (mkServiceLocation "gate" 1 1 "10.0.0.1:9000")
   \/ pending env env2 cluster_outdated 7 gate) /\
  over (cl_reported cluster_dropped) (micros (cl_main cluster_dropped)) (cl_main cluster_dropped) 7.
Proof.
  assert (self env2 <> mainNodeID env2) as Hne by (vm_compute; congruence). split.
  - refine (proj1 (proj1 (cached_routes_agree_with_main env env2 eq_refl eq_refl Hne cluster_outdated
      _ _ gate 0 (mkServiceLocation "gate" 1 1 "10.0.0.1:9000") _) _)).
    + apply (cluster_after_reachable outdated). vm_compute. reflexivity.
    + apply RouteCache.bounded_check_ok. vm_compute. reflexivity.
    + vm_compute. reflexivity.
    + vm_compute. reflexivity.
  - refine (proj2 (cached_routes_agree_with_main env env2 eq_refl eq_refl Hne cluster_dropped
      _ _ gate 0 (mkServiceLocation "gate" 1 1 "10.0.0.1:9000") _) _).
    + apply (cluster_after_reachable dropped). vm_compute. reflexivity.
    + apply RouteCache.bounded_check_ok. vm_compute. reflexivity.
    + vm_compute. reflexivity.
    + vm_compute. congruence.
Defined.

End Witness.
