(* ===== verification/RecoveryStop.v ===== *)
(** * The end of the recovery loop (main_recovery.go)

    [Stop] closes [mainRecoveryStop] and waits for the recovery loop.  A
    measure on the state of the link bounds what the loop still does once the
    channel is closed, and what a concurrent [getRPCClient] can make it wait
    for. *)

From stdpp Require Import base tactics list gmap sets.
From Stdlib Require Import ZArith Lia.
From S2P Require Import Prelude Errors MainLink.
Local Open Scope list_scope.

Implicit Types l : link.

Definition recovers (g : creator) : bool :=
  match g with GDial | GRegister _ | GPublish _ => false | _ => true end.

(** The steps of the recovery loop's own goroutine. *)
Definition own_step (e : link_event) l : bool :=
  match e with
  | LTrigger | LDelay | LAttempt | LExit => true
  | LCreator _ _ => match lock l with Some g => recovers g | None => false end
  | _ => false
  end.

Fixpoint own_steps (es : list link_event) l : nat :=
  match es with
  | [] => 0
  | e :: es =>
      match link_step e l with
      | Some l' => Nat.b2n (own_step e l) + own_steps es l'
      | None => 0
      end
  end.

(** The loop holds the lock exactly while it is inside an attempt. *)
Definition lock_inv l : Prop :=
  match lock l with
  | Some g => if recovers g then exists k, recovering l = RecLocked k else forall k, recovering l <> RecLocked k
  | None => forall k, recovering l <> RecLocked k
  end.

(** How many steps a loop that has been stopped still takes at most. *)
Definition attempt_left (g : option creator) : nat :=
  match g with
  | Some RCheck => 7 | Some RDial => 6 | Some (RRegister _) => 5 | Some (RRestore _) => 4
  | Some (RPublish _) => 3 | _ => 0
  end.

Definition remaining l : nat :=
  2 * Nat.b2n (trigger l) +
  match recovering l with
  | RecExited => 0 | RecIdle => 1 | RecDelay _ => 2 | RecReady _ => 8
  | RecLocked _ => attempt_left (lock l)
  end.

(** The steps of a [getRPCClient] that holds the lock. *)
Definition creation_left l : nat :=
  match lock l with Some GDial => 3 | Some (GRegister _) => 2 | Some (GPublish _) => 1 | _ => 0 end.

(** Goroutines that will still send to [mainRecoveryTrigger]. *)
Definition sends (d : closer) : nat := match d with DSend => 1 | _ => 0 end.
Definition senders l : nat := sum_list_with sends (closers l).

Lemma lock_inv_init : lock_inv link_init.
Proof. by intros k. Qed.

Lemma drop_stale_view l :
  lock (drop_stale l) = lock l /\ recovering (drop_stale l) = recovering l /\
  trigger (drop_stale l) = trigger l /\ stopped (drop_stale l) = stopped l.
Proof. unfold drop_stale. by destruct (published l). Qed.

Lemma attempt_failed_view o k l :
  recovering l = RecLocked k ->
  lock (attempt_failed o l) = None /\ recovering (attempt_failed o l) = RecDelay (S k) /\
  trigger (attempt_failed o l) = trigger l /\ stopped (attempt_failed o l) = stopped l.
Proof. unfold attempt_failed. intros E. destruct o; simpl; by rewrite E. Qed.

#[local] Arguments attempt_failed : simpl never.

Lemma creator_closers g ok fresh l : closers (creator_step g ok fresh l) = closers l.
Proof.
  destruct g; simpl; unfold recover_check, attempt_failed; try destruct (main_connected l);
    unfold drop_stale; simpl; repeat case_match; done.
Qed.

Lemma drop_stale_closers l : closers (drop_stale l) = closers l.
Proof. unfold drop_stale. by destruct (published l). Qed.

Lemma senders_replaced i d d' l :
  closers l !! i = Some d ->
  sum_list_with sends (replace_at i d' (closers l)) + sends d = from_option sends 0 d' + senders l.
Proof.
  intros Hi. assert (senders l = sends d + sum_list_with sends (delete i (closers l))) as Hs.
  { unfold senders. by rewrite (delete_Permutation _ _ _ Hi) at 1. }
  rewrite (replace_at_Permutation _ _ _ _ Hi), sum_list_with_app. destruct d'; simpl; lia.
Qed.

(** What a step of the holder of the lock does to the loop. *)
Lemma creator_view g ok fresh l :
  lock l = Some g -> lock_inv l -> stopped l = true ->
  let l' := creator_step g ok fresh l in
  lock_inv l' /\ stopped l' = true /\
  Nat.b2n (recovers g) + remaining l' <= remaining l /\ 1 + (creation_left l' + remaining l') <= creation_left l + remaining l.
Proof.
  intros Eg Hinv Hst. unfold lock_inv in Hinv. rewrite Eg in Hinv.
  destruct (drop_stale_view l) as (D1 & D2 & D3 & D4).
  assert (may_recover l = false) as Hmay by (unfold may_recover, mainRecoveryStopped; rewrite Hst; by rewrite andb_false_r).
  destruct g; simpl in Hinv; simpl; unfold recover_check; rewrite ?Hmay;
    try destruct (main_connected l); simpl;
    try (destruct Hinv as [k Hk]; destruct (attempt_failed_view None k l Hk) as (F1 & F2 & F3 & F4);
         pose proof (fun c => attempt_failed_view (Some c) k l Hk) as F);
    repeat case_match; unfold lock_inv, remaining, creation_left; simpl;
    rewrite ?Eg, ?D1, ?D2, ?D3, ?D4, ?F1, ?F2, ?F3, ?F4, ?Hk; simpl;
    repeat match goal with |- context [attempt_failed (Some ?c) l] =>
      destruct (F c) as (-> & -> & -> & ->) end; simpl;
    split_and!; eauto; try done; try lia.
  all: try match goal with Hr : recovering _ = RecLocked _ |- _ => rewrite Hr; simpl; done || lia end.
Qed.

(** A step of anybody keeps the loop stopped and does not give it new work. *)
Lemma stopped_step e l l' :
  link_step e l = Some l' -> lock_inv l -> stopped l = true ->
  lock_inv l' /\ stopped l' = true /\
  Nat.b2n (own_step e l) + (2 * senders l' + remaining l') <= 2 * senders l + remaining l.
Proof.
  intros He Hinv Hst.
  assert (may_recover l = false) as Hmay by (unfold may_recover, mainRecoveryStopped; rewrite Hst; by rewrite andb_false_r).
  destruct e as [| | | | | |ok fresh|c|i| | | |]; simpl in He.
  all: try (repeat case_match; simplify_eq; by split_and!).
  - destruct (waiters l) as [|w]; [done|]. destruct (lock l) eqn:El; [done|]. simplify_eq.
    destruct (main_connected _); [by split_and!|].
    destruct (drop_stale_view (set_waiters w l)) as (D1 & D2 & D3 & D4).
    unfold lock_inv in *. rewrite El in Hinv. unfold remaining, senders. simpl.
    rewrite D2, D3, D4, drop_stale_closers. simpl.
    split_and!; [done..|]. destruct (recovering l) eqn:E; simpl; lia.
  - destruct (lock l) as [g|] eqn:El; [|done]. destruct (clients l !! fresh); [done|]. simplify_eq.
    destruct (creator_view g ok fresh l El Hinv Hst) as (? & ? & ? & _). unfold senders.
    rewrite creator_closers. cbn [own_step]. rewrite El. split_and!; [done..|lia].
  - destruct (clients l !! c); simplify_eq. split_and!; [done..|]. unfold senders. simpl.
    rewrite sum_list_with_app. simpl. unfold remaining. simpl. lia.
  - destruct (closers l !! i) as [d|] eqn:Ei; [|done]. destruct (closer_step d l) as [l1 d'] eqn:Ed. simplify_eq.
    pose proof (senders_replaced i d d' l Ei) as Hsend.
    assert (lock l1 = lock l /\ recovering l1 = recovering l /\ stopped l1 = stopped l /\ closers l1 = closers l /\
            2 * from_option sends 0 d' + 2 * Nat.b2n (trigger l1) <= 2 * sends d + 2 * Nat.b2n (trigger l))
      as (E1 & E2 & E3 & E4 & E5).
    { destruct d; simpl in Ed; [..|change (may_recover (invalidate_all l)) with (may_recover l) in Ed;
        rewrite Hmay in Ed|]; repeat case_match; simplify_eq; simpl; try (by split_and!).
      split_and!; [done..|]. destruct (trigger l); simpl; lia. }
    unfold lock_inv, remaining in *. cbn [own_step]. unfold senders at 1. simpl.
    rewrite E1, E2, E3, E4. split_and!; [done..|]. lia.
  - destruct (recovering l) eqn:Er; try done. destruct (trigger l) eqn:Et; [|done]. simplify_eq.
    unfold lock_inv, remaining, senders in *. simpl. rewrite Er, Et in *. simpl. split_and!; [|done|lia].
    destruct (lock l) as [g|]; [|done]. destruct (recovers g); [|done]. by destruct Hinv.
  - destruct (recovering l) eqn:Er; try done. rewrite Hmay in He. simplify_eq.
    unfold lock_inv, remaining, senders in *. simpl. rewrite Er in *. split_and!; [|done|lia].
    destruct (lock l) as [g|]; [|done]. destruct (recovers g); [|done]. by destruct Hinv.
  - destruct (recovering l) eqn:Er; try done. destruct (lock l) eqn:El; [done|]. simplify_eq.
    unfold lock_inv, remaining, senders in *. simpl. rewrite Er. split_and!; [by eexists|done|lia].
  - destruct (recovering l) eqn:Er; try done. rewrite Hst in He. simplify_eq.
    unfold lock_inv, remaining, senders in *. simpl. rewrite Er in *. split_and!; [|done|lia].
    destruct (lock l) as [g|]; [|done]. destruct (recovers g); [|done]. by destruct Hinv.
Qed.

Lemma creator_lock_inv g ok fresh l :
  lock l = Some g -> lock_inv l -> lock_inv (creator_step g ok fresh l).
Proof.
  intros Eg Hinv. unfold lock_inv in Hinv. rewrite Eg in Hinv.
  destruct (drop_stale_view l) as (_ & D2 & _ & _).
  assert (Hfail : forall o k, recovering l = RecLocked k -> lock_inv (attempt_failed o l)).
  { intros o k Hk. destruct (attempt_failed_view o k l Hk) as (F1 & F2 & _). unfold lock_inv. by rewrite F1, F2. }
  destruct g; simpl in Hinv; try destruct Hinv as [k Hk]; simpl; unfold recover_check;
    try destruct (main_connected l); simpl; repeat case_match; eauto;
    unfold lock_inv; simpl; rewrite ?D2; eauto.
Qed.

Lemma same_lock_inv l l' :
  lock l' = lock l -> recovering l' = recovering l -> lock_inv l -> lock_inv l'.
Proof. unfold lock_inv. by intros -> ->. Qed.

(** The loop moves while somebody else holds the lock, or nobody. *)
Lemma moved_lock_inv l l' k :
  lock l' = lock l -> (forall j, recovering l <> RecLocked j) -> recovering l' = k ->
  (forall j, k <> RecLocked j) -> lock_inv l -> lock_inv l'.
Proof.
  unfold lock_inv. intros -> Hl -> Hk. destruct (lock l) as [g|]; [|done].
  destruct (recovers g); [|done]. intros [j Hj]. by destruct (Hl j).
Qed.

Lemma lock_inv_step e l l' : link_step e l = Some l' -> lock_inv l -> lock_inv l'.
Proof.
  intros He Hinv. destruct e as [| | | | | |ok fresh|c|i| | | |]; simpl in He.
  all: try (repeat case_match; simplify_eq; done).
  - destruct (waiters l) as [|w]; [done|]. destruct (lock l) eqn:El; [done|]. simplify_eq.
    destruct (main_connected _); [done|]. destruct (drop_stale_view (set_waiters w l)) as (_ & D2 & _).
    unfold lock_inv in *. rewrite El in Hinv. simpl. by rewrite D2.
  - destruct (lock l) as [g|] eqn:El; [|done]. destruct (clients l !! fresh); [done|]. simplify_eq.
    by apply creator_lock_inv.
  - destruct (closers l !! i) as [d|]; [|done]. destruct (closer_step d l) as [l1 d'] eqn:Ed. simplify_eq.
    apply (same_lock_inv l); [..|done]; destruct d; simpl in Ed; repeat case_match; by simplify_eq.
  - destruct (recovering l) eqn:Er; try done. destruct (trigger l); [|done]. simplify_eq.
    eapply (moved_lock_inv l); [done|by rewrite Er|done|done|done].
  - destruct (recovering l) eqn:Er; try done. simplify_eq.
    eapply (moved_lock_inv l); [done|by rewrite Er|done| |done]. by destruct (may_recover l).
  - destruct (recovering l) eqn:Er; try done. destruct (lock l) eqn:El; [done|]. simplify_eq. by eexists.
  - destruct (recovering l) eqn:Er; try done. destruct (stopped l); [|done]. simplify_eq.
    eapply (moved_lock_inv l); [done|by rewrite Er|done|done|done].
Qed.

(** As long as the loop has not returned, it or the [getRPCClient] it waits
    for can go on, and either gets closer to the end. *)
Lemma stopped_progress l :
  lock_inv l -> stopped l = true -> recovering l <> RecExited ->
  exists e l', link_step e l = Some l' /\ 1 + (creation_left l' + remaining l') <= creation_left l + remaining l.
Proof.
  intros Hinv Hst Hr. set (fresh := fresh (dom (clients l))).
  assert (clients l !! fresh = None) as Hf by (apply not_elem_of_dom, is_fresh).
  assert (may_recover l = false) as Hmay by (unfold may_recover, mainRecoveryStopped; rewrite Hst; by rewrite andb_false_r).
  assert (Hlock : forall g, lock l = Some g -> exists e l', link_step e l = Some l' /\
            1 + (creation_left l' + remaining l') <= creation_left l + remaining l).
  { intros g Hg. exists (LCreator true fresh), (creator_step g true fresh l). split; [simpl; by rewrite Hg, Hf|].
    by destruct (creator_view g true fresh l Hg Hinv Hst) as (_ & _ & _ & ?). }
  destruct (recovering l) eqn:Er; try done.
  - exists LExit. eexists. simpl. rewrite Er, Hst. split; [done|]. unfold remaining, creation_left. simpl. rewrite Er. lia.
  - exists LDelay. eexists. simpl. rewrite Er, Hmay. split; [done|]. unfold remaining, creation_left. simpl. rewrite Er. lia.
  - destruct (lock l) as [g|] eqn:El; [by eapply Hlock|]. exists LAttempt. eexists. simpl. rewrite Er, El.
    split; [done|]. unfold remaining, creation_left. simpl. rewrite Er, El. lia.
  - unfold lock_inv in Hinv. destruct (lock l) as [g|] eqn:El; [by eapply Hlock|]. by destruct (Hinv k).
Qed.

Lemma stopped_finishes n l :
  lock_inv l -> stopped l = true -> creation_left l + remaining l <= n ->
  exists es l', length es <= n /\ link_run es l = Some l' /\ recovering l' = RecExited.
Proof.
  revert l. induction n as [|n IH]; intros l Hinv Hst Hn;
    (destruct (decide (recovering l = RecExited)) as [|Hr]; [exists [], l; simpl; split_and!; [lia|done|done]|]);
    destruct (stopped_progress l Hinv Hst Hr) as (e & l1 & He & Hle); [lia|].
  destruct (stopped_step e l l1 He Hinv Hst) as (Hinv1 & Hst1 & _).
  destruct (IH l1 Hinv1 Hst1) as (es & l' & Hlen & Hrun & Hex); [lia|].
  exists (e :: es), l'. simpl. rewrite He. split_and!; [lia|done|done].
Qed.

Lemma own_steps_bound es l l' :
  link_run es l = Some l' -> lock_inv l -> stopped l = true ->
  own_steps es l + (2 * senders l' + remaining l') <= 2 * senders l + remaining l /\ lock_inv l' /\ stopped l' = true.
Proof.
  revert l. induction es as [|e es IH]; intros l; simpl; [intros [= <-]; auto with lia|].
  destruct (link_step e l) as [l1|] eqn:E; [|done]. intros Hr Hinv Hst.
  destruct (stopped_step e l l1 E Hinv Hst) as (Hinv1 & Hst1 & Hle).
  destruct (IH l1 Hr Hinv1 Hst1) as (? & ? & ?). split_and!; [lia|done|done].
Qed.

Lemma remaining_bound l : remaining l <= 10.
Proof.
  unfold remaining. destruct (trigger l), (recovering l), (lock l) as [[]|]; simpl; lia.
Qed.

Lemma creating_bound l : creation_left l <= 3.
Proof. unfold creation_left. destruct (lock l) as [[]|]; lia. Qed.

(** C22 (termination). [Stop] does not wait for the recovery loop forever.
    Once [mainRecoveryStop] is closed, and whatever the connections, the
    callers of [getRPCClient] and the network do meanwhile, the goroutine of
    the loop takes at most 10 more steps in any execution, also when a
    notification is still in the channel, and two more for each goroutine that
    was already about to send one; and at any moment before it has returned
    the execution can be continued so that it returns, within 13 steps of the
    loop and of the [getRPCClient] that holds [clientCreateMu]. *)
Theorem recovery_loop_stops l es l' :
  steps link_step_rel link_init l -> stopped l = true -> link_run es l = Some l' ->
  own_steps es l <= 10 + 2 * senders l /\
  exists es' l'', length es' <= 13 /\ link_run es' l' = Some l'' /\ recovering l'' = RecExited.
Proof.
  intros Hs Hst Hr.
  assert (Hinv : lock_inv l).
  { apply (steps_invariant link_step_rel lock_inv) with (s := link_init); [|done|apply lock_inv_init].
    intros l1 l2 [e He]. by apply (lock_inv_step e). }
  destruct (own_steps_bound es l l' Hr Hinv Hst) as (Hle & Hinv' & Hst').
  pose proof (remaining_bound l). pose proof (remaining_bound l'). pose proof (creating_bound l').
  split; [lia|]. apply stopped_finishes; [done|done|lia].
Qed.

(** A Node that stops while the recovery waits for its first retry. *)
Definition stopping_link : link :=
  default link_init (link_run [LStart; LGet; LGetLock; LCreator true 0; LCreator true 1; LCreator true 1; LRun;
    LBreak 0; LCloser 0; LCloser 0; LCloser 0; LCloser 0; LTrigger; LDelay; LAttempt; LCreator true 1; LCreator false 1;
    LStopping; LStopRecovery] link_init).

Lemma link_run_steps es l l' : link_run es l = Some l' -> steps link_step_rel l l'.
Proof.
  revert l. induction es as [|e es IH]; intros l; simpl; [intros [= <-]; apply steps_refl|].
  destruct (link_step e l) as [l1|] eqn:E; [|done]. intros Hr. eapply steps_trans; [by exists e|by apply IH].
Qed.

Lemma recovery_loop_stops_witness :
  recovering stopping_link = RecDelay 1 /\
  exists es' l'', length es' <= 13 /\ link_run es' stopping_link = Some l'' /\ recovering l'' = RecExited.
Proof.
  split; [vm_compute; reflexivity|].
  refine (proj2 (recovery_loop_stops stopping_link [] stopping_link _ _ _)); [|vm_compute; reflexivity..].
  eapply (link_run_steps [LStart; LGet; LGetLock; LCreator true 0; LCreator true 1; LCreator true 1; LRun;
    LBreak 0; LCloser 0; LCloser 0; LCloser 0; LCloser 0; LTrigger; LDelay; LAttempt; LCreator true 1; LCreator false 1;
    LStopping; LStopRecovery]). vm_compute. reflexivity.
Defined.
