(* ===== verification/Reconnect.v ===== *)
(** * The way back to the main node (main_recovery.go)

    [MainLink] shows that a lost main node is always being attended to.  This
    file shows that attending to it leads somewhere: once the network works
    again, whatever the goroutines of a running Node still do, in whatever
    order, comes to an end, and at that end the connection is there.  The
    argument is a potential that every such step lowers. *)

From stdpp Require Import base tactics list gmap sets.
From Stdlib Require Import ZArith Lia.
From S2P Require Import Prelude Errors MainLink RecoveryStop.
Local Open Scope list_scope.

Implicit Types l : link.

(** The network works and nobody stops the Node. *)
Definition calm (e : link_event) : bool :=
  match e with LBreak _ | LStopping | LCreator false _ => false | _ => true end.

(** ** A potential

    A goroutine that ends a connection may cost the client the recovery holds
    and triggers a recovery of its own. *)

Definition closer_cost (d : closer) : nat :=
  match d with DSwap _ => 20 | DRemove _ => 11 | DTrigger => 10 | DSend => 9 end.

Definition creator_cost (g : creator) : nat :=
  match g with
  | GDial => 3 | GRegister _ => 2 | GPublish _ => 1
  | RCheck => 5 | RDial => 4 | RRegister _ => 3 | RRestore _ => 2 | RPublish _ => 1
  end.

(** The recovery holds a client that is broken already: the attempt fails. *)
Definition debt l : nat :=
  match lock l with
  | Some (RRegister c | RRestore c | RPublish c) => if is_connected c l then 0 else 8
  | _ => 0
  end.

Definition waiting_cost (r : recovery) : nat :=
  match r with RecDelay _ => 7 | RecReady _ => 6 | _ => 0 end.

Definition potential l : nat :=
  sum_list_with closer_cost (closers l) + 8 * Nat.b2n (trigger l) + 4 * waiters l +
  waiting_cost (recovering l) + from_option creator_cost 0 (lock l) + debt l.

Lemma potential_bound l : potential l <= 20 * length (closers l) + 4 * waiters l + 26.
Proof.
  assert (sum_list_with closer_cost (closers l) <= 20 * length (closers l)) as Hc.
  { induction (closers l) as [|d ds IH]; simpl; [lia|]. destruct d; simpl; lia. }
  unfold potential, debt. destruct (trigger l), (recovering l), (lock l) as [[]|]; simpl;
    repeat case_match; lia.
Qed.

Lemma closer_costs_replaced i d d' l :
  closers l !! i = Some d ->
  sum_list_with closer_cost (replace_at i d' (closers l)) + closer_cost d =
  from_option closer_cost 0 d' + sum_list_with closer_cost (closers l).
Proof.
  intros Hi.
  assert (sum_list_with closer_cost (closers l)
          = closer_cost d + sum_list_with closer_cost (delete i (closers l))) as ->
    by (by rewrite (delete_Permutation _ _ _ Hi) at 1).
  rewrite (replace_at_Permutation _ _ _ _ Hi), sum_list_with_app. destruct d'; simpl; lia.
Qed.

Lemma drop_stale_waiters l : waiters (drop_stale l) = waiters l.
Proof. unfold drop_stale. by destruct (published l). Qed.

(** A client that is new is connected. *)
Lemma new_client_connected c l : is_connected c (new_client c l) = true.
Proof. unfold is_connected, new_client. simpl. by rewrite lookup_insert_eq. Qed.

Lemma potential_failed c l g :
  lock l = Some g -> potential (attempt_failed c l) + creator_cost g + debt l <= potential l + 7.
Proof.
  intros Eg. unfold attempt_failed, potential, debt.
  destruct c; simpl; destruct (recovering l) eqn:Er; simpl; rewrite ?Er, Eg; simpl; lia.
Qed.

Lemma potential_creator g fresh l :
  lock l = Some g -> may_recover l = true -> potential (creator_step g true fresh l) < potential l.
Proof.
  intros Eg Hm. pose proof (drop_stale_view l) as (D1 & D2 & D3 & _).
  pose proof (fun c => potential_failed c l g Eg) as Hf.
  destruct g as [|c|c| | |c|c|c]; simpl; rewrite ?Hm; simpl; unfold recover_check.
  - unfold potential, debt. simpl. rewrite Eg. simpl. lia.
  - unfold potential, debt. simpl. rewrite Eg. simpl. lia.
  - unfold potential, debt. destruct (is_connected c l); simpl; rewrite Eg; simpl; lia.
  - unfold potential, debt. destruct (main_connected l); simpl; rewrite ?drop_stale_closers, ?drop_stale_waiters, ?D2, ?D3, Eg;
      simpl; [destruct (recovering l); simpl; lia|lia].
  - pose proof (new_client_connected fresh l) as Hn. unfold potential, debt. simpl.
    change (is_connected fresh (set_lock _ _)) with (is_connected fresh (new_client fresh l)). rewrite Hn, Eg. simpl. lia.
  - unfold potential, debt. simpl. rewrite Eg.
    change (is_connected c (set_lock _ _)) with (is_connected c l). simpl. lia.
  - unfold potential, debt. simpl. rewrite Eg.
    change (is_connected c (set_lock _ _)) with (is_connected c l). simpl. lia.
  - destruct (is_connected c l) eqn:Ec.
    + unfold potential, debt. simpl. rewrite Eg. simpl. destruct (recovering l); simpl; lia.
    + specialize (Hf (Some c)). unfold debt in Hf. rewrite Eg, Ec in Hf. simpl in Hf. lia.
Qed.

(** Closing a connection costs at most the client the recovery holds. *)
Lemma debt_close c l : debt (close_transport c l) <= debt l + 8.
Proof.
  unfold debt. simpl. destruct (lock l) as [[]|]; try lia;
    rewrite is_connected_close; repeat case_match; lia.
Qed.

Lemma potential_closer i d l l1 d1 :
  closers l !! i = Some d -> closer_step d l = (l1, d1) -> may_recover l = true ->
  potential (set_closers (replace_at i d1 (closers l1)) l1) < potential l.
Proof.
  intros Hi Hd Hm. pose proof (closer_costs_replaced i d d1 l Hi) as Hc.
  assert (forall l2 ds, debt (set_closers ds l2) = debt l2) as Hdebt by done.
  unfold potential. rewrite Hdebt. destruct d as [c|c| |]; simpl in Hd.
  - pose proof (debt_close c l). destruct (is_connected c l); simplify_eq; simpl in *; lia.
  - case_bool_decide; simplify_eq; simpl in *; unfold debt in *; simpl; unfold is_connected in *; simpl in *; lia.
  - change (may_recover (invalidate_all l)) with (may_recover l) in Hd. rewrite Hm in Hd. simplify_eq.
    simpl in *. unfold debt in *. simpl. unfold is_connected in *. simpl in *. lia.
  - simplify_eq. simpl in *. unfold debt in *. simpl. unfold is_connected in *. simpl in *.
    destruct (trigger l); simpl; lia.
Qed.

(** ** Steps *)

Lemma creator_stopped g ok fresh l : stopped (creator_step g ok fresh l) = stopped l.
Proof.
  assert (forall c, stopped (attempt_failed c l) = stopped l) as Hf.
  { intros c. unfold attempt_failed. destruct c; simpl; by destruct (recovering l). }
  destruct (drop_stale_view l) as (_ & _ & _ & Hd). destruct g; cbn [creator_step]; unfold recover_check;
    repeat match goal with |- context [if ?b then _ else _] => destruct b end; try done; try apply Hf.
Qed.

(** The recovery loop only returns when it is told to stop. *)
Definition exit_inv l : Prop := recovering l = RecExited -> stopped l = true.

Lemma creator_exit g ok fresh l : exit_inv l -> exit_inv (creator_step g ok fresh l).
Proof.
  intros Hx. unfold exit_inv. rewrite creator_stopped. intros Hr. apply Hx. revert Hr.
  assert (forall c, recovering (attempt_failed c l) = RecExited -> recovering l = RecExited) as Hf.
  { intros c. unfold attempt_failed. destruct c; simpl; by destruct (recovering l) eqn:E; simpl; rewrite ?E. }
  destruct (drop_stale_view l) as (_ & Hd & _). destruct g; cbn [creator_step]; unfold recover_check;
    repeat match goal with |- context [if ?b then _ else _] => destruct b end; try apply Hf; simpl; rewrite ?Hd; done.
Qed.

Lemma exit_inv_step e l l' : link_step e l = Some l' -> exit_inv l -> exit_inv l'.
Proof.
  intros He Hx. destruct e as [| | | | | |ok fresh|c|i| | | |]; simpl in He.
  all: try (repeat case_match; simplify_eq; unfold exit_inv in *; simpl in *; (done || congruence || auto); fail).
  - destruct (waiters l) as [|w]; [done|]. destruct (lock l); [done|]. simplify_eq.
    destruct (main_connected _); [done|]. destruct (drop_stale_view (set_waiters w l)) as (_ & D2 & _ & D4).
    unfold exit_inv. simpl. by rewrite D2, D4.
  - destruct (lock l); [|done]. destruct (clients l !! fresh); simplify_eq. by apply creator_exit.
  - destruct (closers l !! i) as [d|]; [|done]. destruct (closer_step d l) as [l1 d1] eqn:Ed. simplify_eq.
    destruct d; simpl in Ed; repeat case_match; by simplify_eq.
Qed.

(** What the theorem needs of the states before it. *)
Record ready l : Prop := {
  rd_link : link_inv l;
  rd_lock : lock_inv l;
  rd_exit : exit_inv l
}.

Lemma ready_step e l l' : link_step e l = Some l' -> clean e l -> ready l -> ready l'.
Proof.
  intros He Hc [H1 H2 H3]. split; [by eapply link_step_inv|by eapply lock_inv_step|by eapply exit_inv_step].
Qed.

Lemma calm_step e l l' :
  link_step e l = Some l' -> calm e = true -> state l = Running -> stopped l = false ->
  state l' = Running /\ stopped l' = false /\ potential l' < potential l.
Proof.
  intros He Hc Hrun Hst. assert (may_recover l = true) as Hm
    by (unfold may_recover, mainRecoveryStopped; by rewrite Hrun, Hst).
  destruct e as [| | | | | |ok fresh|c|i| | | |]; simpl in He; try done.
  - by rewrite Hrun in He.
  - by rewrite Hrun in He.
  - by rewrite Hrun in He.
  - by rewrite Hrun in He.
  - destruct (waiters l) as [|w] eqn:Ew; [done|]. destruct (lock l) eqn:El; [done|]. simplify_eq.
    destruct (main_connected _).
    + split_and!; [done..|]. unfold potential, debt. simpl. rewrite El, Ew. lia.
    + destruct (drop_stale_view (set_waiters w l)) as (_ & D2 & D3 & D4). split_and!.
      * unfold drop_stale. by destruct (published _).
      * simpl. by rewrite D4.
      * unfold potential, debt. simpl. rewrite D2, D3, drop_stale_closers, drop_stale_waiters. simpl.
        rewrite El, Ew. simpl. lia.
  - destruct ok; [|done]. destruct (lock l) as [g|] eqn:El; [|done]. destruct (clients l !! fresh); [done|].
    simplify_eq. split_and!; [by rewrite creator_step_state|by rewrite creator_stopped|by apply potential_creator].
  - destruct (closers l !! i) as [d|] eqn:Ei; [|done]. destruct (closer_step d l) as [l1 d1] eqn:Ed. simplify_eq.
    pose proof (closer_step_state d l) as Hs. rewrite Ed in Hs. simpl in *. split_and!; [congruence| |by eapply potential_closer].
    destruct d; simpl in Ed; repeat case_match; simplify_eq; done.
  - destruct (recovering l) eqn:Er; try done. destruct (trigger l) eqn:Et; simplify_eq.
    split_and!; [done..|]. unfold potential, debt, is_connected. simpl. rewrite Er, Et. simpl. lia.
  - destruct (recovering l) eqn:Er; try done. rewrite Hm in He. simplify_eq.
    split_and!; [done..|]. unfold potential, debt, is_connected. simpl. rewrite Er. simpl. lia.
  - destruct (recovering l) eqn:Er; try done. destruct (lock l) eqn:El; simplify_eq.
    split_and!; [done..|]. unfold potential, debt. simpl. rewrite Er, El. simpl. lia.
  - destruct (recovering l); try done. by rewrite Hst in He.
Qed.

Lemma calm_clean e l l' : link_step e l = Some l' -> state l = Running -> clean e l.
Proof. intros He Hrun ->. simpl in He. by rewrite Hrun in He. Qed.

Lemma calm_run es l l' :
  link_run es l = Some l' -> forallb calm es = true -> state l = Running -> stopped l = false -> ready l ->
  length es + potential l' <= potential l /\ state l' = Running /\ stopped l' = false /\ ready l'.
Proof.
  revert l. induction es as [|e es IH]; intros l Hr Hc Hrun Hst Hi; simpl in *; [by simplify_eq; split_and!|].
  destruct (link_step e l) as [l1|] eqn:He; [|done]. apply andb_true_iff in Hc as [Hce Hc].
  destruct (calm_step e l l1 He Hce Hrun Hst) as (Hrun1 & Hst1 & Hlt).
  destruct (IH l1 Hr Hc Hrun1 Hst1) as (Hle & Hrest); [|split; [lia|done]].
  eapply ready_step; [done| |done]. by eapply calm_clean.
Qed.

(** As long as the connection is missing somebody can go on. *)
Lemma attended_moves l :
  ready l -> state l = Running -> stopped l = false -> main_connected l = false ->
  exists e l', calm e = true /\ link_step e l = Some l'.
Proof.
  intros [Hi Hk Hx] Hrun Hst Hm. set (fresh := fresh (dom (clients l))).
  assert (clients l !! fresh = None) as Hf by (apply not_elem_of_dom, is_fresh).
  assert (Hlock : forall g, lock l = Some g -> exists e l', calm e = true /\ link_step e l = Some l').
  { intros g Hg. exists (LCreator true fresh). eexists. split; [done|]. simpl. by rewrite Hg, Hf. }
  assert (Hrec : recovering l <> RecIdle -> exists e l', calm e = true /\ link_step e l = Some l').
  { intros Hr. destruct (recovering l) as [|k|k|k|] eqn:Er; [done| | | |by specialize (Hx Er); congruence].
    - exists LDelay. eexists. simpl. by rewrite Er.
    - destruct (lock l) as [g|] eqn:El; [by eapply Hlock|]. exists LAttempt. eexists. simpl. by rewrite Er, El.
    - unfold lock_inv in Hk. destruct (lock l) as [g|] eqn:El; [by eapply Hlock|]. by destruct (Hk k). }
  destruct (l_attended _ Hi Hrun Hst) as [?|[Ht|[Hr|(d & Hd & _)]]]; [congruence| | |].
  - destruct (decide (recovering l = RecIdle)) as [Er|]; [|by apply Hrec].
    exists LTrigger. eexists. simpl. by rewrite Er, Ht.
  - apply Hrec. intros Er. by rewrite Er in Hr.
  - apply list_elem_of_lookup in Hd as [i Hi']. exists (LCloser i).
    destruct (closer_step d l) as [l1 d1] eqn:Ed. eexists. split; [done|]. simpl. by rewrite Hi', Ed.
Qed.

Lemma clean_ready l : steps clean_step link_init l -> ready l.
Proof.
  intros Hs. apply (steps_invariant clean_step ready) in Hs; [done| |]; clear Hs.
  - intros l1 l2 (e & He & Hc). by eapply ready_step.
  - split; [apply link_init_inv|apply lock_inv_init|done].
Qed.

(** C21 (liveness). A lost main node comes back by itself.  Take a running Node
    that has not been stopped and whose connection to the main node was not
    lost while it was still starting, with any connections lost since, attempts
    failed, delays and calls under way (a loss before the Node ran is not
    noticed: [connection_lost_while_starting_stays_lost]).  As long as the network works and the Node is
    not stopped, everything its goroutines do, in any order, is over after a
    bounded number of steps, twenty for each goroutine that is ending a
    connection, four for each waiting [getRPCClient] and 26 more; and when
    nothing is left to do, the main node is connected.  The delay between two
    attempts is one of these steps, and no schedule avoids the success. *)
Theorem lost_main_comes_back l es l' :
  steps clean_step link_init l -> state l = Running -> stopped l = false ->
  link_run es l = Some l' -> forallb calm es = true ->
  length es <= 20 * length (closers l) + 4 * waiters l + 26 /\
  ((forall e, calm e = true -> link_step e l' = None) -> main_connected l' = true).
Proof.
  intros Hs%clean_ready Hrun Hst Hr Hc.
  destruct (calm_run es l l' Hr Hc Hrun Hst Hs) as (Hle & Hrun' & Hst' & Hs').
  pose proof (potential_bound l). split; [lia|]. intros Hstuck.
  destruct (main_connected l') eqn:Em; [done|].
  destruct (attended_moves l' Hs' Hrun' Hst' Em) as (e & l'' & He & Hstep). rewrite (Hstuck e He) in Hstep. done.
Qed.

(** ** The theorem at work *)

(** The connection was lost while the Node ran, one attempt failed, and then
    the network works again. *)
Definition one_failure : list link_event :=
  lost_later ++ [LTrigger; LDelay; LAttempt; LCreator true 1; LCreator false 1].

Definition back_again : list link_event :=
  [LDelay; LAttempt; LCreator true 1; LCreator true 1; LCreator true 2; LCreator true 2; LCreator true 2].

Lemma lost_main_comes_back_witness :
  exists l l', link_run one_failure link_init = Some l /\ main_connected l = false /\
    link_run back_again l = Some l' /\ length back_again <= 26 /\ main_connected l' = true.
Proof.
  set (l := default link_init (link_run one_failure link_init)).
  set (l' := default link_init (link_run (one_failure ++ back_again) link_init)).
  exists l, l'. do 3 (split; [vm_compute; reflexivity|]).
  assert (steps clean_step link_init l) as Hs by (apply (clean_run_steps one_failure); vm_compute; reflexivity).
  destruct (lost_main_comes_back l back_again l' Hs eq_refl eq_refl ltac:(vm_compute; reflexivity) eq_refl)
    as [Hlen Hback]. split; [exact Hlen|]. apply Hback.
  vm_compute in l'. by intros [] ?.
Defined.
