(* ===== verification/Logging.v ===== *)
(** * Contextual loggers (logger.go)

    [WithLogFields] and the [contextLogger] it builds; [newXTNetLogger] and
    the levels are with the construction of a Node and its configuration. *)

From stdpp Require Import base tactics list gmap sets strings.
From Stdlib Require Import ZArith Lia Strings.Ascii.
From S2P Require Import Prelude GoString Errors.
Local Open Scope string_scope.
Local Open Scope list_scope.

(** A field's value, as far as [fmt.Sprint] distinguishes it: strings, ints,
    and the text of anything else. *)
Inductive log_value := LString (s : string) | LInt (z : Z) | LOther (text : string).

Definition Sprint (v : log_value) : string :=
  match v with LString s => s | LInt z => fmt_d z | LOther text => text end.

Record LogField := mkField { lf_key : string; lf_value : log_value }.

(** A native logger of xtnet, or a [contextLogger]. *)
Inductive logger :=
| NativeLogger (l : nat)
| ContextLogger (base : logger) (fields : list LogField) (prefix : string).

Fixpoint format_fields (first : bool) (fields : list LogField) : string :=
  match fields with
  | [] => ""
  | f :: fields =>
      (if first then "" else " ") +:+ lf_key f +:+ "=" +:+ Sprint (lf_value f) +:+ format_fields false fields
  end.

Definition formatLogFields (fields : list LogField) : string :=
  "[" +:+ format_fields true fields +:+ "] ".

(** [None] is a nil Logger. *)
Definition WithLogFields (l : option logger) (fields : list LogField) : option logger :=
  match l, fields with
  | None, _ | _, [] => l
  | Some (ContextLogger base fields' _), _ =>
      Some (ContextLogger base (fields' ++ fields) (formatLogFields (fields' ++ fields)))
  | Some base, _ => Some (ContextLogger base fields (formatLogFields fields))
  end.

Inductive level := Debug | Warn | LError.

(** [LogDebug], [LogWarn], [LogError]: the call a native logger gets. *)
Fixpoint log_call {V} (l : logger) (lv : level) (format : string) (args : list V)
    : nat * level * string * list V :=
  match l with
  | NativeLogger i => (i, lv, format, args)
  | ContextLogger base _ prefix => log_call base lv (prefix +:+ format) args
  end.

Fixpoint percent_free (s : string) : bool :=
  match s with
  | EmptyString => true
  | String c s => negb (Ascii.eqb c "%") && percent_free s
  end.

Definition field_percent_free (f : LogField) : bool :=
  percent_free (lf_key f) && percent_free (Sprint (lf_value f)).

Lemma percent_free_app s t : percent_free (s +:+ t) = percent_free s && percent_free t.
Proof. induction s as [|c s IH]; [done|]. simpl. by rewrite IH, andb_assoc. Qed.

Lemma format_fields_percent_free b fields :
  percent_free (format_fields b fields) = forallb field_percent_free fields.
Proof.
  revert b. induction fields as [|f fields IH]; intros b; [done|]. cbn [format_fields forallb].
  rewrite !percent_free_app, IH. unfold field_percent_free. destruct b; simpl; by rewrite andb_assoc.
Qed.

(** The logger a native logger becomes under a list of fields. *)
Definition under (l : nat) (fields : list LogField) : logger :=
  match fields with
  | [] => NativeLogger l
  | _ => ContextLogger (NativeLogger l) fields (formatLogFields fields)
  end.

Lemma WithLogFields_under l fields fields' :
  WithLogFields (Some (under l fields)) fields' = Some (under l (fields ++ fields')).
Proof. destruct fields as [|f fields], fields' as [|f' fields']; simpl; rewrite ?app_nil_r; done. Qed.

(** Adding fields to a logger again and again is adding all
    of them once: however a Node and its services stack their contexts, the
    native logger is called once, at the same level and with the same
    arguments, and its format is the caller's format behind a single prefix
    that lists the fields in order.  The prefix itself holds no formatting
    verb exactly when no field's key or value has a percent sign. *)
Theorem log_fields_accumulate {V} (l : nat) (layers : list (list LogField)) (lv : level) (format : string)
    (args : list V) :
  let fields := concat layers in
  exists lg, foldl WithLogFields (Some (NativeLogger l)) layers = Some lg /\
    log_call lg lv format args =
      (l, lv, match fields with [] => format | _ => formatLogFields fields +:+ format end, args) /\
    percent_free (formatLogFields fields) = forallb field_percent_free fields.
Proof.
  intros fields. exists (under l fields). split_and!.
  - change (Some (NativeLogger l)) with (Some (under l [])).
    assert (Hgen : forall fs, foldl WithLogFields (Some (under l fs)) layers = Some (under l (fs ++ concat layers))).
    { clear fields. induction layers as [|x layers IH]; intros fs; cbn [foldl concat]; [by rewrite app_nil_r|].
      by rewrite WithLogFields_under, IH, app_assoc. }
    apply Hgen.
  - by destruct fields.
  - unfold formatLogFields. rewrite !percent_free_app, format_fields_percent_free. simpl. by rewrite andb_true_r.
Qed.

(** A service whose name holds a verb: the name becomes part of the format. *)
Lemma name_becomes_verb :
  exists lg, WithLogFields (Some (NativeLogger 0)) [mkField "service" (LString "a%d")] = Some lg /\
    log_call lg Debug "ready after %v" [1%Z] = (0, Debug, "[service=a%d] ready after %v", [1%Z]).
Proof. by eexists. Qed.
