(* ===== verification/BaseService.v ===== *)
(** * Services and BaseService (service.go, node.go, examples/basic/main.go)

    The handlers of a service as a class, and how the jobs of a Node's
    dispatch functions run them; [BaseService] as the instance that refuses
    every message, its construction and the methods that forward to the Node;
    factories that return services built on it, as the example registers
    them. *)

From stdpp Require Import base tactics list gmap sets strings.
From Stdlib Require Import ZArith Lia Strings.Byte.
From S2P Require Import Prelude GoString Errors Registry RouteCache Config Service Wire Dispatch LocalCall.
From S2P Require Import MainLink Lifecycle Construct Messaging Logging.
Local Open Scope string_scope.
Local Open Scope list_scope.

(** ** The handlers of a service

    An asynchronous handler answers through its context; the answers it gives
    before it returns are collected in order.  Any handler may panic. *)

Definition context : Type := MessageContext (list byte -> option error -> list reply -> list reply).

Class ServiceHandlers (S : Type) := {
  HandleRPCDirect : S -> context -> Z -> list byte -> handled;
  HandleRPCRequestSync : S -> context -> Z -> list byte -> outcome;
  HandleRPCRequestAsync : S -> context -> Z -> list byte -> list reply -> list reply * ran;
  HandleRPCDirectString : S -> context -> string -> list byte -> handled;
  HandleRPCRequestStringSync : S -> context -> string -> list byte -> outcome;
  HandleRPCRequestStringAsync : S -> context -> string -> list byte -> list reply -> list reply * ran
}.

Section Jobs.
Context `{UnicodeTables} {S : Type} `{ServiceHandlers S}.
Context (svc : S) (source target : ServiceKey) (id : serviceMessageID) (payload : list byte).

Definition numeric : bool := (kind id =? serviceMessageIDNumeric)%Z.

(** What the job of [dispatchLocalDirect] reports. *)
Definition direct_job : list error :=
  let ctx := mkContext source target None in
  run_direct target id
    (if numeric then HandleRPCDirect svc ctx (number id) payload
     else HandleRPCDirectString svc ctx (text id) payload).

(** How the handler of [dispatchLocalRequestSync] ends. *)
Definition sync_job : outcome :=
  let ctx := mkContext source target None in
  if numeric then HandleRPCRequestSync svc ctx (number id) payload
  else HandleRPCRequestStringSync svc ctx (text id) payload.

(** The calls of [respondOnce] that the job of [dispatchLocalRequestAsync]
    makes, with the answer that stands for a panic. *)
Definition async_job : list reply :=
  let ctx := mkContext source target (Some (fun p e answers => answers ++ [(p, e)])) in
  let '(answers, r) :=
    if numeric then HandleRPCRequestAsync svc ctx (number id) payload []
    else HandleRPCRequestStringAsync svc ctx (text id) payload [] in
  answers ++ match r with Ran => [] | Panicked text => [([], Some (handler_panic target text))] end.

(** The answers of the service to a request. *)
Definition job_answers (mode : call_mode) : list reply :=
  match mode with CallSync => [outcome_reply target sync_job] | CallAsync => async_job end.

(** The scheduler lets the service do only what its handlers do. *)
Definition by_handlers (mode : call_mode) (v : call_event) : Prop :=
  match v with
  | VHandle h => h = sync_job
  | VRespond r => r ∈ job_answers mode
  | VPanic text => ([], Some (handler_panic target text)) ∈ job_answers mode
  | _ => True
  end.

End Jobs.

(** ** Answers come from the handler *)

Section Answers.
Context `{UnicodeTables} (services : gmap ServiceKey serviceRuntime) (mode : call_mode).
Context (source target : ServiceKey) (id : serviceMessageID) (payload : list byte) (timeout : string).
Context (P : reply -> Prop).
Implicit Types c : call.

Abbreviation step := (call_step services mode source target id payload timeout).
Abbreviation run := (call_run services mode source target id payload timeout).

Definition actor_from (a : actor) : Prop :=
  match a with
  | AExpire | ADeliver FromTimer _ => True
  | AAnswer r | AComplete r | AStopTimer r | ADeliver FromService r => P r
  end.

Definition delivered_from (d : origin * reply) : Prop :=
  match d.1 with FromTimer => True | FromService => P d.2 end.

Definition answers_from c : Prop := Forall actor_from (actors c) /\ Forall delivered_from (delivered c).

Definition event_from (v : call_event) : Prop :=
  match v with
  | VHandle h => P (outcome_reply target h)
  | VRespond r => P r
  | VPanic text => P ([], Some (handler_panic target text))
  | _ => True
  end.

Lemma Forall_replace_at {A} (Q : A -> Prop) i o l :
  Forall Q l -> (forall x, o = Some x -> Q x) -> Forall Q (replace_at i o l).
Proof. intros Hl Ho. destruct o; simpl; [apply Forall_insert; auto|by apply Forall_delete]. Qed.

Lemma abandon_from c : answers_from c -> answers_from (abandon c).
Proof. unfold abandon. by destruct (completed c). Qed.

Lemma actor_step_from a c c' a' :
  actor_step mode target id timeout a c = Some (c', a') -> actor_from a -> answers_from c ->
  answers_from c' /\ forall x, a' = Some x -> actor_from x.
Proof.
  intros Hs Ha [Hact Hdel]. destruct a as [|r|r|r|o r]; simpl in *.
  - destruct (completed c); simplify_eq; (split; [done|]); by intros ? [= <-].
  - destruct (responded c); simplify_eq; (split; [done|]); by intros ? [= <-].
  - destruct (completed c); simplify_eq; (split; [done|]); by intros ? [= <-].
  - simplify_eq. split; [done|]. by intros ? [= <-].
  - assert (Forall delivered_from (delivered c ++ [(o, r)])) as Hd.
    { apply Forall_app. split; [done|]. apply Forall_singleton. unfold delivered_from. by destruct o. }
    destruct mode, (channel c) as [|? ?]; simplify_eq; done.
Qed.

Lemma call_step_from v c c' :
  step v c = Some c' -> event_from v -> answers_from c -> answers_from c'.
Proof.
  intros Hs Hv Hc. pose proof Hc as [Hact Hdel].
  assert (Hspawn : forall a c0, actor_from a -> actors c0 = actors c -> delivered c0 = delivered c ->
            answers_from (spawn_actor a c0)).
  { intros a c0 Ha Ea Ed. split; simpl; rewrite ?Ea, ?Ed; [apply Forall_app; split; [done|]|done].
    by apply Forall_singleton. }
  destruct v as [| |h| |r|text|i| | |]; simpl in Hs, Hv; repeat case_match; simplify_eq; auto; try done.
  - unfold dispatch_step. destruct (dispatch_call _ _ _ _ _ _); [done|]. by apply abandon_from.
  - match goal with Ha : actor_step _ _ _ _ _ _ = Some _, Hi : actors c !! _ = Some _ |- _ =>
      destruct (actor_step_from _ _ _ _ Ha (Forall_lookup_1 _ _ _ _ Hact Hi) Hc) as [[? ?] ?] end.
    split; [|done]. simpl. by apply Forall_replace_at.
  - by apply abandon_from.
Qed.

Lemma call_run_from l c c' :
  run l c = Some c' -> Forall event_from l -> answers_from c -> answers_from c'.
Proof.
  revert c. induction l as [|v l IH]; intros c; simpl; [by intros [= <-]|].
  destruct (step v c) as [c1|] eqn:E; [|done].
  intros Hr Hl Hc. apply Forall_cons in Hl as [Hv Hl]. eapply IH; [done..|]. by eapply call_step_from.
Qed.

End Answers.

Section Handlers.
Context `{UnicodeTables} {S : Type} `{ServiceHandlers S} (services : gmap ServiceKey serviceRuntime).
Context (svc : S) (source target : ServiceKey) (id : serviceMessageID) (payload : list byte) (timeout : string).

Abbreviation answers := (job_answers svc source target id payload).

Lemma by_handlers_from mode v c c' :
  call_step services mode source target id payload timeout v c = Some c' ->
  by_handlers svc source target id payload mode v -> event_from target (fun r => r ∈ answers mode) v.
Proof.
  intros Hs Hv. destruct v; simpl in *; try done. destruct mode; [|done]. subst. by apply list_elem_of_here.
Qed.

Lemma run_by_handlers mode l c c' :
  call_run services mode source target id payload timeout l c = Some c' ->
  Forall (by_handlers svc source target id payload mode) l ->
  Forall (event_from target (fun r => r ∈ answers mode)) l.
Proof.
  revert c. induction l as [|v l IH]; intros c; simpl; [done|].
  destruct (call_step _ _ _ _ _ _ _ v c) as [c1|] eqn:E; [|done].
  intros Hr [Hv Hl]%Forall_cons. apply Forall_cons. split; [by eapply by_handlers_from|by eapply IH].
Qed.

(** The run in which the service answers at once. *)
Definition prompt_run (mode : call_mode) (r : reply) : list call_event :=
  match mode with
  | CallSync => [VDispatch; VHandle (sync_job svc source target id payload); VActor 0; VActor 0; VActor 0; VReceive]
  | CallAsync => [VDispatch; VTake; VRespond r; VActor 0; VActor 0; VActor 0; VActor 0]
  end.

(** The call when such a run is over. *)
Definition answered_call (mode : call_mode) (r : reply) : call :=
  match mode with
  | CallSync => mkLocalCall (ReturnedReply r) true false TimerStopped false true [] [] [(FromService, r)] [] false 1
  | CallAsync => mkLocalCall Accepted true true TimerStopped false true [] [] [(FromService, r)] [] false 1
  end.

Lemma call_run_cons mode v l c c1 o :
  call_step services mode source target id payload timeout v c = Some c1 ->
  call_run services mode source target id payload timeout l c1 = o ->
  call_run services mode source target id payload timeout (v :: l) c = o.
Proof. intros E Hl. simpl. by rewrite E. Qed.

Lemma prompt_run_answers mode r rest j :
  dispatch_call services mode source target id payload = Ok j -> answers mode = r :: rest ->
  call_run services mode source target id payload timeout (prompt_run mode r)
    begun_call = Some (answered_call mode r).
Proof.
  intros Hj Hans. destruct mode; unfold prompt_run;
    (eapply call_run_cons; [unfold call_step, dispatch_step; rewrite Hj; reflexivity|]).
  - simpl in Hans. injection Hans as <- _.
    apply (call_run_cons _ _ _ _ (mkLocalCall Waiting false false TimerArmed false true
      [AComplete (outcome_reply target (sync_job svc source target id payload))] [] [] [] false 1)); [reflexivity|].
    generalize (outcome_reply target (sync_job svc source target id payload)). intros r.
    apply (call_run_cons _ _ _ _ (mkLocalCall Waiting true false TimerArmed false true
      [AStopTimer r] [] [] [] false 1)); [reflexivity|].
    apply (call_run_cons _ _ _ _ (mkLocalCall Waiting true false TimerStopped false true
      [ADeliver FromService r] [] [] [] false 1)); [reflexivity|].
    apply (call_run_cons _ _ _ _ (mkLocalCall Waiting true false TimerStopped false true
      [] [r] [(FromService, r)] [] false 1)); reflexivity.
  - clear Hans.
    apply (call_run_cons _ _ _ _ (mkLocalCall Accepted false false TimerArmed false true
      [] [] [] [] false 0)); [reflexivity|].
    apply (call_run_cons _ _ _ _ (mkLocalCall Accepted false false TimerArmed false true
      [AAnswer r] [] [] [] false 1)); [reflexivity|].
    apply (call_run_cons _ _ _ _ (mkLocalCall Accepted false true TimerArmed false true
      [AComplete r] [] [] [] false 1)); [reflexivity|].
    apply (call_run_cons _ _ _ _ (mkLocalCall Accepted true true TimerArmed false true
      [AStopTimer r] [] [] [] false 1)); [reflexivity|].
    apply (call_run_cons _ _ _ _ (mkLocalCall Accepted true true TimerStopped false true
      [ADeliver FromService r] [] [] [] false 1)); reflexivity.
Qed.

(** C16 (functional). A call of a service of the same Node gets the answer of
    the handler the message id selects, the one for numbers or the one for
    strings, run on the context with the caller as source and on the payload
    of the call.  However the loop, the timer and the callers are scheduled,
    what the service delivers is one of the answers its handler gave (a panic
    counts as an error that names the service), and when it answers in time
    the caller gets the first of them: a synchronous call returns it, an
    asynchronous one runs its callback on it, once. *)
Theorem callers_get_the_handlers_answer mode :
  validate_id id = None -> is_Some (services !! target) ->
  exists c0, begin_call services mode target id true true false = Some (Ok c0) /\
    (forall l c r, call_run services mode source target id payload timeout l c0 = Some c ->
       Forall (by_handlers svc source target id payload mode) l ->
       (FromService, r) ∈ delivered c -> r ∈ answers mode) /\
    (forall r rest, answers mode = r :: rest -> exists c,
       Forall (by_handlers svc source target id payload mode) (prompt_run mode r) /\
       call_run services mode source target id payload timeout (prompt_run mode r) c0 = Some c /\
       delivered c = [(FromService, r)] /\
       caller_at c = match mode with CallSync => ReturnedReply r | CallAsync => Accepted end).
Proof.
  intros Hid Hloc. exists begun_call.
  split; [|split].
  - unfold begin_call, call_guard. rewrite Hid. destruct Hloc as [rt ->]. by destruct mode.
  - intros l c r Hr Hl Hin. apply run_by_handlers with (1 := Hr) in Hl.
    destruct (call_run_from _ _ _ _ _ _ _ _ _ _ _ Hr Hl) as [_ Hdel]; [by split; constructor|].
    by apply (proj1 (Forall_forall _ _) Hdel) in Hin.
  - intros r rest Hans. exists (answered_call mode r).
    destruct (dispatch_total services mode source target id payload Hid Hloc) as [j Hj].
    split_and!; [|by eapply prompt_run_answers|by destruct mode..].
    destruct mode; repeat constructor. unfold by_handlers. rewrite Hans. by apply list_elem_of_here.
Qed.

End Handlers.

(** ** BaseService *)

(** What a service uses of its Node, over a state [W]. *)
Record NodeAPI (W : Type) := mkAPI {
  api_Logger : option logger;
  api_subscribeService : ServiceKey -> string -> W -> W * option error;
  api_send2Service : ServiceKey -> ServiceKey -> serviceMessageID -> list byte -> W -> W * option error;
  api_callServiceAsync : ServiceKey -> ServiceKey -> serviceMessageID -> list byte -> (reply -> W -> W) ->
    W -> W * option error;
  api_callServiceSync : ServiceKey -> ServiceKey -> serviceMessageID -> list byte -> W -> W * reply
}.
Arguments api_Logger {W}.
Arguments api_subscribeService {W}.
Arguments api_send2Service {W}.
Arguments api_callServiceAsync {W}.
Arguments api_callServiceSync {W}.

(** [frame.Loop]: its identity and the arguments it was made with. *)
Record loop := mkLoop { lp_id : nat; lp_size : Z; lp_full_warn : bool }.

Definition NewLoop (size : Z) (fullWarn : bool) (p : process) : process * loop :=
  (mkProcess (xtnet_logger p) (next_logger p) (S (next_loop p)) (closed_loggers p),
   mkLoop (next_loop p) size fullWarn).

Record BaseService (W : Type) := mkBase {
  bs_node : option (NodeAPI W);
  bs_config : ServiceConfig;
  bs_loop : loop;
  bs_logger : option logger
}.
Arguments mkBase {W}.
Arguments bs_node {W}.
Arguments bs_config {W}.
Arguments bs_loop {W}.
Arguments bs_logger {W}.

(** [LoopSizeMin] is a constant of xtnet. *)
Definition NewBaseService {W} (LoopSizeMin : Z) (node : option (NodeAPI W)) (config : ServiceConfig)
    (p : process) : process * BaseService W :=
  let lg := match node with
            | None => None
            | Some n => WithLogFields (api_Logger n)
                [mkField "service" (LString (sc_Name config)); mkField "service_id" (LInt (sc_ID config))]
            end in
  let '(size, warn) := match Loop config with
                       | None => (LoopSizeMin, true)
                       | Some l => (Size l, FullWarn l)
                       end in
  let '(p, l) := NewLoop size warn p in
  (p, mkBase node config l lg).

Section Base.
Context {W : Type}.
Implicit Types s : BaseService W.

Definition base_Name s : string := sc_Name (bs_config s).
Definition base_ID s : Z := sc_ID (bs_config s).
Definition base_Loop s : loop := bs_loop s.
Definition base_Config s : ServiceConfig := bs_config s.
Definition base_Logger s : option logger := bs_logger s.
Definition base_key s : ServiceKey := mkServiceKey (base_Name s) (base_ID s).

(** The hooks of a service that overrides neither. *)
Definition base_Start s : hook_end := HookReturns None.
Definition base_Stop s : hook_end := HookReturns None.

(** Every service that embeds a BaseService takes discovery events. *)
#[global] Instance base_discovery : ServiceSubscriptionHandler (BaseService W) := {
  HandleServiceSnapshot _ _ s := s;
  HandleServiceOnline _ s := s;
  HandleServiceOffline _ s := s
}.

(** [fmt.Errorf("service %s:%d does not handle ...", s.Name(), s.ID())] *)
Definition not_handled s (what : string) : error :=
  EText ("service " +:+ base_Name s +:+ ":" +:+ fmt_d (base_ID s) +:+ " does not handle " +:+ what).

#[global] Instance base_handlers : ServiceHandlers (BaseService W) := {
  HandleRPCDirect s _ _ _ := HandledErr (not_handled s "messages");
  HandleRPCRequestSync s _ _ _ := Returns ([], Some (not_handled s "requests"));
  HandleRPCRequestAsync s ctx _ _ answers :=
    ((Respond ctx [] (Some (not_handled s "async requests")) answers).1, Ran);
  HandleRPCDirectString s _ _ _ := HandledErr (not_handled s "string messages");
  HandleRPCRequestStringSync s _ _ _ := Returns ([], Some (not_handled s "string requests"));
  HandleRPCRequestStringAsync s ctx _ _ answers :=
    ((Respond ctx [] (Some (not_handled s "async string requests")) answers).1, Ran)
}.

(** *** Methods that forward to the Node *)

Definition Subscribe s (serviceName : string) (w : W) : W * option error :=
  match bs_node s with
  | None => (w, Some (ESentinel ErrNodeStopped))
  | Some n => api_subscribeService n (base_key s) serviceName w
  end.

Definition send_message s (serviceName : string) (serviceID : Z) (id : serviceMessageID)
    (payload : list byte) (w : W) : W * option error :=
  match bs_node s with
  | None => (w, Some (ESentinel ErrNodeStopped))
  | Some n => api_send2Service n (base_key s) (mkServiceKey serviceName serviceID) id payload w
  end.
Definition Send2Service s serviceName serviceID (messageID : Z) :=
  send_message s serviceName serviceID (numericServiceMessageID messageID).
Definition Send2ServiceString s serviceName serviceID (messageID : string) :=
  send_message s serviceName serviceID (stringServiceMessageID messageID).

(** [post] is [Loop.Post]; a nil callback is [None]. *)
Definition call_async (post : nat -> (W -> W) -> W -> W) s (serviceName : string) (serviceID : Z)
    (id : serviceMessageID) (payload : list byte) (callback : option (reply -> W -> W)) (w : W)
    : W * option error :=
  match callback with
  | None => (w, Some (EText "service call callback is nil"))
  | Some callback =>
      match bs_node s with
      | None => (w, Some (ESentinel ErrNodeStopped))
      | Some n => api_callServiceAsync n (base_key s) (mkServiceKey serviceName serviceID) id payload
                    (fun r => post (lp_id (bs_loop s)) (callback r)) w
      end
  end.
Definition CallServiceAsync post s serviceName serviceID (messageID : Z) :=
  call_async post s serviceName serviceID (numericServiceMessageID messageID).
Definition CallServiceStringAsync post s serviceName serviceID (messageID : string) :=
  call_async post s serviceName serviceID (stringServiceMessageID messageID).

Definition call_sync s (serviceName : string) (serviceID : Z) (id : serviceMessageID)
    (payload : list byte) (w : W) : W * reply :=
  match bs_node s with
  | None => (w, ([], Some (ESentinel ErrNodeStopped)))
  | Some n => api_callServiceSync n (base_key s) (mkServiceKey serviceName serviceID) id payload w
  end.
Definition CallServiceSync s serviceName serviceID (messageID : Z) :=
  call_sync s serviceName serviceID (numericServiceMessageID messageID).
Definition CallServiceSyncString s serviceName serviceID (messageID : string) :=
  call_sync s serviceName serviceID (stringServiceMessageID messageID).

(** *** The methods of a Node for callers that are no service *)

Implicit Types n : NodeAPI W.

Definition no_service : ServiceKey := mkServiceKey "" 0.

Definition node_Send2Service n (serviceName : string) (serviceID messageID : Z) (payload : list byte) :=
  api_send2Service n no_service (mkServiceKey serviceName serviceID) (numericServiceMessageID messageID) payload.
Definition node_Send2ServiceString n (serviceName : string) (serviceID : Z) (messageID : string)
    (payload : list byte) :=
  api_send2Service n no_service (mkServiceKey serviceName serviceID) (stringServiceMessageID messageID) payload.

(** [spawn] is the go statement, with the recovery of [callback_goroutine]. *)
Definition node_call_async (spawn : (W -> W) -> W -> W) n (serviceName : string) (serviceID : Z)
    (id : serviceMessageID) (payload : list byte) (callback : option (reply -> W -> W)) (w : W)
    : W * option error :=
  match callback with
  | None => (w, Some (EText "service call callback is nil"))
  | Some callback =>
      api_callServiceAsync n no_service (mkServiceKey serviceName serviceID) id payload
        (fun r => spawn (callback r)) w
  end.
Definition node_CallServiceAsync spawn n serviceName serviceID (messageID : Z) :=
  node_call_async spawn n serviceName serviceID (numericServiceMessageID messageID).
Definition node_CallServiceStringAsync spawn n serviceName serviceID (messageID : string) :=
  node_call_async spawn n serviceName serviceID (stringServiceMessageID messageID).

Definition node_CallServiceSync n (serviceName : string) (serviceID messageID : Z) (payload : list byte) :=
  api_callServiceSync n no_service (mkServiceKey serviceName serviceID) (numericServiceMessageID messageID) payload.
Definition node_CallServiceSyncString n (serviceName : string) (serviceID : Z) (messageID : string)
    (payload : list byte) :=
  api_callServiceSync n no_service (mkServiceKey serviceName serviceID) (stringServiceMessageID messageID) payload.

End Base.

(** *** A service that handles nothing *)

Section Refusal.
Context `{UnicodeTables} {W : Type} (s : BaseService W) (services : gmap ServiceKey serviceRuntime).
Context (source : ServiceKey) (id : serviceMessageID) (payload : list byte) (timeout : string).
Abbreviation target := (base_key s).

(** What a BaseService answers to a request. *)
Definition refusal (mode : call_mode) : error :=
  not_handled s (match mode, numeric id with
                 | CallSync, true => "requests"
                 | CallSync, false => "string requests"
                 | CallAsync, true => "async requests"
                 | CallAsync, false => "async string requests"
                 end).

Lemma base_answers mode : job_answers s source target id payload mode = [([], Some (refusal mode))].
Proof. destruct mode; unfold job_answers, sync_job, async_job, refusal; by destruct (numeric id). Qed.

(** C40 (error). A service that overrides no handler refuses what it is sent
    and leaves no caller without an answer: a one-way message makes the Node
    report exactly one error, and a call ends, in every schedule, with the
    error that says which kind of request the service does not handle or
    with the timeout; the refusal is one answer, never a second one, and it
    reaches the caller when the service's loop runs in time. *)
Theorem unhandled_messages_are_refused mode l c :
  validate_id id = None -> is_Some (services !! target) ->
  call_run services mode source target id payload timeout l
    begun_call = Some c ->
  Forall (by_handlers s source target id payload mode) l ->
  (forall o r, (o, r) ∈ delivered c -> r = ([], Some (refusal mode)) \/ r = expired_reply target timeout) /\
  length (delivered c) <= 1 /\
  (exists c', call_run services mode source target id payload timeout
                (prompt_run s source target id payload mode ([], Some (refusal mode)))
                begun_call = Some c' /\
              delivered c' = [(FromService, ([], Some (refusal mode)))]) /\
  direct_job s source target id payload =
    [prefixf ("handle message " +:+ messageID_String id +:+ " in service " +:+ ServiceKey_String target +:+ ": ")
       (not_handled s (if numeric id then "messages" else "string messages"))].
Proof.
  intros Hid Hloc Hr Hl. apply run_by_handlers with (1 := Hr) in Hl. rewrite base_answers in Hl.
  pose proof (call_run_from _ _ _ _ _ _ _ _ _ _ _ Hr Hl) as [_ Hdel]; [by split; constructor|].
  assert (Hreach : call_reachable services mode source target id payload timeout c).
  { eapply call_run_reachable; [|exact Hr]. exists true, false, begun_call. split; [|apply steps_refl].
    unfold begin_call, call_guard. rewrite Hid. destruct Hloc as [rt ->]. by destruct mode. }
  apply call_reachable_inv in Hreach as (_ & _ & [Htok _ _ _ _ Hexp _]). split_and!.
  - intros [] r Hin; [right; eauto|left].
    apply (proj1 (Forall_forall _ _) Hdel) in Hin. simpl in Hin. by apply list_elem_of_singleton in Hin.
  - destruct (completed c); simpl in Htok; lia.
  - destruct (dispatch_total services mode source target id payload Hid Hloc) as [j Hj].
    exists (answered_call mode ([], Some (refusal mode))). split; [|by destruct mode].
    eapply prompt_run_answers; [done|]. apply base_answers.
  - unfold direct_job. by destruct (numeric id).
Qed.

End Refusal.

(** ** Factories of services built on BaseService *)

Section Factories.
Context `{UnicodeTables} `{XtLog} {R W : Type} (LoopSizeMin : Z) (api : option (NodeAPI W)).

(** What NewNode sees of a service that embeds a BaseService. *)
Definition base_factory : Factory := fun cfg p =>
  let '(p, s) := NewBaseService LoopSizeMin api cfg p in
  (p, Ok (Some (mkService (base_Name s) (base_ID s) (Some (lp_id (bs_loop s)))))).

(** The loop of the example over the names of its services. *)
Fixpoint register_names (names : list string) (r : FactoryRegistry Factory)
    : FactoryRegistry Factory * option error :=
  match names with
  | [] => (r, None)
  | name :: names =>
      match RegisterFactory name (Some base_factory) r with
      | (r, Some e) => (r, Some e)
      | (r, None) => register_names names r
      end
  end.

Definition advance (k : nat) (p : process) : process :=
  mkProcess (xtnet_logger p) (next_logger p) (k + next_loop p) (closed_loggers p).

Lemma base_factory_eq cfg p :
  base_factory cfg p = (advance 1 p, Ok (Some (mkService (sc_Name cfg) (sc_ID cfg) (Some (next_loop p))))).
Proof. unfold base_factory, NewBaseService. by destruct (Loop cfg). Qed.

Lemma build_base_service fs cfg b p :
  GetFactory (sc_Name cfg) fs = Some base_factory -> b_loops b !! next_loop p = None ->
  build_service fs cfg b p =
  (advance 1 p, Ok (mkBuilt (b_order b ++ [sc_key cfg])
    (<[sc_key cfg := mkService (sc_Name cfg) (sc_ID cfg) (Some (next_loop p))]> (b_services b))
    (<[next_loop p := sc_key cfg]> (b_loops b)))).
Proof.
  intros Hf Hl. unfold build_service. rewrite Hf, base_factory_eq. simpl.
  rewrite bool_decide_eq_true_2, Z.eqb_refl by done. simpl. by rewrite Hl.
Qed.

Lemma build_base_services fs cfgs b p :
  Forall (fun cfg => GetFactory (sc_Name cfg) fs = Some base_factory) cfgs ->
  (forall l, next_loop p <= l -> b_loops b !! l = None) -> NoDup (map sc_key cfgs) ->
  exists b', build_services fs cfgs b p = (advance (length cfgs) p, Ok b') /\
    (forall k, k ∉ map sc_key cfgs -> b_services b' !! k = b_services b !! k) /\
    (forall i cfg, cfgs !! i = Some cfg ->
       b_services b' !! sc_key cfg = Some (mkService (sc_Name cfg) (sc_ID cfg) (Some (i + next_loop p)))).
Proof.
  revert b p. induction cfgs as [|cfg cfgs IH]; intros b p Hf Hl Hnd.
  { exists b. split_and!; [by destruct p|done|done]. }
  apply Forall_cons in Hf as [Hf Hfs]. apply NoDup_cons in Hnd as [Hk Hnd].
  cbn [build_services]. rewrite build_base_service by auto.
  match goal with |- context [build_services fs cfgs ?b1 ?p1] => destruct (IH b1 p1) as (b' & Eb & Hout & Hin) end;
    [done| |done|].
  { intros l Hle. simpl in *. rewrite lookup_insert_ne by lia. apply Hl. lia. }
  exists b'. rewrite Eb. split_and!.
  - unfold advance. simpl. by rewrite Nat.add_succ_r.
  - intros k Hkin. simpl in Hkin. rewrite not_elem_of_cons in Hkin. destruct Hkin as [Hne Hkin].
    rewrite Hout by done. simpl. by rewrite lookup_insert_ne.
  - intros [|i] cfg' Hi; simpl in Hi.
    + injection Hi as <-. rewrite Hout by done. simpl. by rewrite lookup_insert_eq.
    + rewrite (Hin i cfg' Hi). simpl. by rewrite Nat.add_succ_r.
Qed.

Lemma validated_logger c c' id nc lg :
  Validate c = (Some c', None) -> Config.Node (Some c') id = Some nc -> Config.Logger nc = Some lg ->
  exists v, parseLogLevel (Level lg) = Ok v.
Proof.
  destruct c as [c|]; [|done]. intros [-> (_ & Hn & _)]%Validate_spec. unfold Config.Node.
  intros [Hin _]%find_some. simpl in Hin. apply in_map_iff in Hin as (n & <- & Hin).
  rewrite Forall_forall in Hn. apply list_elem_of_In in Hin. specialize (Hn n Hin).
  simpl. destruct (Config.Logger n) as [lg0|] eqn:El; [|done]. intros [= <-].
  unfold node_accepts in Hn. rewrite El in Hn. destruct Hn as (_ & _ & _ & Hn & _).
  by destruct (Hn _ eq_refl) as (_ & ? & _).
Qed.

(** Such a Node is built, and is fit to be started. *)
Lemma base_node_built fs0 (m : R) c c' id nc opts p :
  let o := apply_options (default_options fs0 m) opts in
  Validate c = (Some c', None) -> Config.Node (Some c') id = Some nc -> check_options o = None ->
  is_Some (opt_logger o) \/ is_Some (Config.Logger nc) ->
  Forall (fun cfg => exists fs, opt_factories o = Some fs /\ GetFactory (sc_Name cfg) fs = Some base_factory)
    (Services nc) ->
  exists p' n, NewNode fs0 m c id opts p = (p', Some c', Ok n) /\ well_formed id c' n /\
    forall i cfg, Services nc !! i = Some cfg ->
      nd_localServices n !! sc_key cfg =
        Some (mkService (sc_Name cfg) (sc_ID cfg) (Some (i + S (next_loop p)))).
Proof.
  intros o Hv Hn Ho Hlog Hf. unfold NewNode. rewrite Hv, Hn. fold o. rewrite Ho.
  assert (Hchoose : exists p1 l owned, choose_logger o nc id p = (p1, Ok (l, owned)) /\ next_loop p1 = next_loop p).
  { unfold choose_logger. destruct (opt_logger o) as [l|]; [by exists p, l, None|].
    destruct Hlog as [[]|[lg Hlg]]; [done|]. rewrite Hlg. unfold newXTNetLogger.
    destruct (validated_logger _ _ _ _ _ Hv Hn Hlg) as [v ->]. eauto. }
  destruct Hchoose as (p1 & l & owned & -> & Hp1).
  pose proof (fun p' n => construct_ok fs0 m opts c c' nc id l owned (SetLogger (Some l) p1) p' n Hv Hn Ho) as Hwf.
  revert Hwf. fold o. unfold construct.
  destruct (opt_factories o) as [fs|] eqn:Efs; [|by unfold check_options in Ho; rewrite bool_decide_eq_true_2 in Ho].
  destruct (build_base_services fs (Services nc) (mkBuilt [] ∅ ∅)
    (mkProcess (xtnet_logger (SetLogger (Some l) p1)) (next_logger (SetLogger (Some l) p1))
       (S (next_loop (SetLogger (Some l) p1))) (closed_loggers (SetLogger (Some l) p1)))) as (b & Eb & _ & Hb).
  - eapply Forall_impl; [exact Hf|]. intros cfg (fs' & E & ?). by injection E as <-.
  - intros; apply lookup_empty.
  - by eapply validated_order_NoDup.
  - rewrite Eb. intros Hwf. do 2 eexists. split; [done|]. split; [by eapply Hwf|]. intros i cfg Hi. simpl. rewrite (Hb i cfg Hi). simpl. by rewrite Hp1.
Qed.

(** A Node whose services are built on [NewBaseService] can
    always be constructed: with a configuration that [Validate] accepts,
    options that pass the checks, a logger from the options or from the
    configuration, and such a factory under the name of every service of the
    node, [NewNode] succeeds, and the services have the configured names and
    ids and fresh Loops of their own, in the order of the configuration. *)
Theorem nodes_of_base_services_are_built fs0 (m : R) c c' id nc opts p :
  let o := apply_options (default_options fs0 m) opts in
  Validate c = (Some c', None) -> Config.Node (Some c') id = Some nc -> check_options o = None ->
  is_Some (opt_logger o) \/ is_Some (Config.Logger nc) ->
  Forall (fun cfg => exists fs, opt_factories o = Some fs /\ GetFactory (sc_Name cfg) fs = Some base_factory)
    (Services nc) ->
  exists p' n, NewNode fs0 m c id opts p = (p', Some c', Ok n) /\
    forall i cfg, Services nc !! i = Some cfg ->
      nd_localServices n !! sc_key cfg =
        Some (mkService (sc_Name cfg) (sc_ID cfg) (Some (i + S (next_loop p)))).
Proof.
  intros o Hv Hn Ho Hlog Hf.
  destruct (base_node_built fs0 m c c' id nc opts p Hv Hn Ho Hlog Hf) as (p' & n & ? & _ & ?). by exists p', n.
Qed.

End Factories.

(** ** Witnesses *)

Section Witnesses.
#[local] Existing Instance ascii_tables.
#[local] Existing Instance sample_xtlog.

(** A service that sends a request back. *)
Inductive echo_service := Echo.
#[local] Instance echo_handlers : ServiceHandlers echo_service := {
  HandleRPCDirect _ _ _ _ := HandledOk;
  HandleRPCRequestSync _ _ _ payload := Returns (payload, None);
  HandleRPCRequestAsync _ ctx _ payload answers := ((Respond ctx payload None answers).1, Ran);
  HandleRPCDirectString _ _ _ _ := HandledPanic "no strings";
  HandleRPCRequestStringSync _ _ _ _ := Panics "no strings";
  HandleRPCRequestStringAsync _ _ _ _ answers := (answers, Panicked "no strings")
}.

Lemma callers_get_the_handlers_answer_witness :
  exists c, call_run rooms CallAsync (mkServiceKey "gate" 1) a_room (numericServiceMessageID 7) [x01] "3s"
              (prompt_run Echo (mkServiceKey "gate" 1) a_room (numericServiceMessageID 7) [x01] CallAsync
                 ([x01], None)) begun_call = Some c /\
            delivered c = [(FromService, ([x01], None))].
Proof.
  destruct (callers_get_the_handlers_answer rooms Echo (mkServiceKey "gate" 1) a_room
    (numericServiceMessageID 7) [x01] "3s" CallAsync eq_refl ltac:(vm_compute; eauto)) as (c0 & Hc0 & _ & Hrun).
  vm_compute in Hc0. injection Hc0 as <-.
  destruct (Hrun ([x01], None) [] eq_refl) as (c & _ & Hc & Hd & _). exists c. by split.
Defined.

Definition idle_room : BaseService unit :=
  (NewBaseService 1024 None (mkServiceConfig "room" 1 None []) fresh_process).2.

Definition refused_call : call :=
  default begun_call (call_run rooms CallSync (mkServiceKey "gate" 1) a_room (numericServiceMessageID 7) [x01] "3s"
    [VDispatch; VHandle (Returns ([], Some (EText "service room:1 does not handle requests"))); VActor 0; VActor 0;
     VActor 0] begun_call).

Lemma unhandled_messages_are_refused_witness :
  delivered refused_call = [(FromService, ([], Some (EText "service room:1 does not handle requests")))] /\
  length (delivered refused_call) <= 1.
Proof.
  split; [vm_compute; reflexivity|].
  apply (unhandled_messages_are_refused idle_room rooms (mkServiceKey "gate" 1) (numericServiceMessageID 7) [x01]
    "3s" CallSync [VDispatch; VHandle (Returns ([], Some (EText "service room:1 does not handle requests"))); VActor 0;
     VActor 0; VActor 0]).
  - vm_compute. reflexivity.
  - vm_compute. eauto.
  - vm_compute. reflexivity.
  - repeat apply Forall_cons_2; try exact I; [vm_compute; reflexivity|apply Forall_nil_2].
Defined.

(** Node 1 of the sample configuration with the factories of the example. *)
Definition example_factories : FactoryRegistry Factory :=
  (register_names 1024 (None : option (NodeAPI unit)) ["center"; "room"] NewFactoryRegistry).1.

Lemma nodes_of_base_services_are_built_witness :
  exists p' n, NewNode example_factories NewMemoryRegistry (Some sample_config) 1 [] fresh_process
               = (p', Some sample_valid, Ok n) /\
    nd_localServices n !! mkServiceKey "center" 1 = Some (mkService "center" 1 (Some 1)).
Proof.
  edestruct (nodes_of_base_services_are_built 1024 (None : option (NodeAPI unit)) example_factories NewMemoryRegistry
    (Some sample_config) sample_valid 1 (normalize_node (sample_node 1 " 127.0.0.1:7001" "./logs/node_1/" "DEBUG"
      [mkServiceConfig "center " 1 None []])) [] fresh_process) as (p' & n & Hn & Hs).
  - exact sample_validates.
  - vm_compute. reflexivity.
  - vm_compute. reflexivity.
  - right. vm_compute. eauto.
  - vm_compute. repeat constructor. exists example_factories. split; vm_compute; reflexivity.
  - exists p', n. split; [exact Hn|]. exact (Hs 0 (mkServiceConfig "center" 1 None []) eq_refl).
Defined.

End Witnesses.
