(* ===== verification/Example.v ===== *)
(** * The example program (examples/basic/main.go)

    The handlers of [exampleService], over JSON as a parameter, and [main] from
    the configuration file to the end of the process: the composition of
    [Config.LoadConfig], the factories, [Construct.NewNode], [Lifecycle.Start]
    and [Lifecycle.Stop]. *)

From stdpp Require Import base tactics list gmap sets strings.
From Stdlib Require Import ZArith Lia Strings.Byte.
From S2P Require Import Prelude GoString Errors Registry RouteCache Config Service Wire Dispatch LocalCall.
From S2P Require Import MainLink Lifecycle Construct Messaging Logging BaseService.
Local Open Scope string_scope.
Local Open Scope list_scope.

(** ** The service *)

(** [json.Unmarshal] into a [ping] and [json.Marshal] of a [pong]; both have
    one field, [Text]. *)
Class PingJSON := {
  json_ping : list byte -> res string;
  json_pong : string -> res (list byte)
}.

Definition messagePing : Z := 1001.

(** A method call on a nil interface. *)
Definition nil_dereference : string :=
  "runtime error: invalid memory address or nil pointer dereference".

Inductive decoded := Decoded (text : string) | DecodeErr (e : error) | DecodePanic (text : string).

Section Handlers.
Context `{UnicodeTables} `{PingJSON} {W : Type}.

(** It embeds a BaseService and overrides two of its handlers. *)
Record exampleService := mkExample { es_base : BaseService W }.
Implicit Types s : exampleService.

(** The message is logged, so a service without a logger panics. *)
Definition decodePing s (messageID : Z) (payload : list byte) : decoded :=
  if negb (messageID =? messagePing)%Z then DecodeErr (EText ("unknown message id " +:+ fmt_d messageID))
  else match json_ping payload with
       | Err e => DecodeErr e
       | Ok text =>
           match bs_logger (es_base s) with
           | None => DecodePanic nil_dereference
           | Some _ => Decoded text
           end
       end.

Definition example_direct s (messageID : Z) (payload : list byte) : handled :=
  match decodePing s messageID payload with
  | Decoded _ => HandledOk
  | DecodeErr e => HandledErr e
  | DecodePanic text => HandledPanic text
  end.

Definition example_request s (messageID : Z) (payload : list byte) : outcome :=
  match decodePing s messageID payload with
  | Decoded text =>
      match json_pong ("pong: " +:+ text) with
      | Ok answer => Returns (answer, None)
      | Err e => Returns ([], Some e)
      end
  | DecodeErr e => Returns ([], Some e)
  | DecodePanic text => Panics text
  end.

#[global] Instance example_handlers : ServiceHandlers exampleService := {
  HandleRPCDirect s _ := example_direct s;
  HandleRPCRequestSync s _ := example_request s;
  HandleRPCRequestAsync s := HandleRPCRequestAsync (es_base s);
  HandleRPCDirectString s := HandleRPCDirectString (es_base s);
  HandleRPCRequestStringSync s := HandleRPCRequestStringSync (es_base s);
  HandleRPCRequestStringAsync s := HandleRPCRequestStringAsync (es_base s)
}.

(** The factory of [main]. *)
Definition new_example (LoopSizeMin : Z) (node : option (NodeAPI W)) (cfg : ServiceConfig) (p : process)
    : process * exampleService :=
  let '(p, b) := NewBaseService LoopSizeMin node cfg p in (p, mkExample b).

Lemma new_example_logger LoopSizeMin (n : NodeAPI W) cfg p :
  is_Some (api_Logger n) -> is_Some (bs_logger (es_base (new_example LoopSizeMin (Some n) cfg p).2)).
Proof.
  intros [lg Hlg]. unfold new_example, NewBaseService. rewrite Hlg. destruct lg; destruct (Loop cfg); simpl; eauto.
Qed.

Lemma example_sync_answer s source target i payload :
  job_answers s source target (numericServiceMessageID i) payload CallSync =
  [outcome_reply target (example_request s i payload)].
Proof. done. Qed.

End Handlers.
Arguments exampleService : clear implicits.

Section Pings.
Context `{UnicodeTables} `{PingJSON} {W : Type} (LoopSizeMin : Z) (node : NodeAPI W) (cfg : ServiceConfig).
Context (p : process) (services : gmap ServiceKey serviceRuntime) (source : ServiceKey) (timeout : string).
Abbreviation svc := ((new_example LoopSizeMin (Some node) cfg p).2).
Abbreviation target := (base_key (es_base svc)).
Hypothesis logged : is_Some (api_Logger node).
Hypothesis served : is_Some (services !! target).

(** What the example answers to the number [i]. *)
Definition example_answer (i : Z) (payload : list byte) : reply :=
  if negb (i =? messagePing)%Z then ([], Some (EText ("unknown message id " +:+ fmt_d i)))
  else match json_ping payload with
       | Err e => ([], Some e)
       | Ok text => match json_pong ("pong: " +:+ text) with Ok a => (a, None) | Err e => ([], Some e) end
       end.

(** A service of the example answers every synchronous call:
    a ping with the JSON of "pong: " and the text of the ping, anything that
    does not decode with the error of the decoder, and every other message
    number with an error that names it; the caller gets that answer when the
    service's Loop runs in time.  One-way pings are accepted silently. *)
Theorem example_answers_pings i payload :
  i <> 0%Z ->
  (exists c, call_run services CallSync source target (numericServiceMessageID i) payload timeout
      (prompt_run svc source target (numericServiceMessageID i) payload CallSync (example_answer i payload))
      begun_call = Some c /\ caller_at c = ReturnedReply (example_answer i payload)) /\
  (i = messagePing -> forall text, json_ping payload = Ok text ->
     direct_job svc source target (numericServiceMessageID i) payload = []).
Proof.
  intros Hi. destruct (new_example_logger LoopSizeMin node cfg p logged) as [lg Hlg].
  assert (outcome_reply target (example_request svc i payload) = example_answer i payload) as Hans.
  { unfold example_request, decodePing, example_answer. destruct (negb _); [done|].
    destruct (json_ping payload); [|done]. rewrite Hlg. by destruct (json_pong _). }
  assert (validate_id (numericServiceMessageID i) = None) as Hid.
  { unfold validate_id. simpl. by rewrite (proj2 (Z.eqb_neq _ _) Hi). }
  split.
  - destruct (dispatch_total services CallSync source target (numericServiceMessageID i) payload Hid served) as [j Hj].
    exists (answered_call CallSync (example_answer i payload)). split; [|done].
    eapply prompt_run_answers; [done|]. by rewrite example_sync_answer, Hans.
  - intros -> text Hp. unfold direct_job. simpl. unfold example_direct, decodePing. simpl. by rewrite Hp, Hlg.
Qed.

End Pings.

(** ** The program *)

Section Main.
Context `{UnicodeTables} `{XtLog} {R W : Type}.
(** The file system, the YAML library, xtnet's smallest Loop, what services see
    of their Node, and the process defaults. *)
Context (ReadFile : string -> res (list byte)) (yaml_Unmarshal : list byte -> res Config).
Context (LoopSizeMin : Z) (api : option (NodeAPI W)) (defaultFactories : FactoryRegistry Factory) (memory : R).

(** How the process ends: by [log.Fatal], or with the error of [Stop] after a
    signal; with the loggers of the process, and the Node if there was one. *)
Inductive main_result :=
| Fatal (e : error) (p : process) (s : option node_life)
| Exited (err : option error) (p : process) (s : node_life).

(** [releaseLogger] of the Node, where it was run. *)
Definition released (n : new_node (R := R)) (s : node_life) (p : process) : process :=
  if loggerReleased s then close_owned n p else p.

(** [up] and [down] are what the outside answers while the Node starts and
    stops. *)
Definition example_main (up down : outside) (configPath : string) (nodeID : Z) (p : process) : main_result :=
  match LoadConfig ReadFile yaml_Unmarshal configPath with
  | Err e => Fatal e p None
  | Ok config =>
      match register_names LoopSizeMin api ["center"; "room"] NewFactoryRegistry with
      | (_, Some e) => Fatal e p None
      | (factories, None) =>
          match NewNode defaultFactories memory (Some config) nodeID
                  [Some (WithFactoryRegistry (Some factories))] p with
          | (p, _, Err e) => Fatal e p None
          | (p, _, Ok n) =>
              let owned := bool_decide (is_Some (nd_ownedLogger n)) in
              match Start (nd_id n) (nd_mainNodeID n) (ListenAddr (nd_nodeConfig n)) owned (nd_serviceOrder n)
                      up (nd_life n) with
              | (s, Some e) => Fatal e (released n s p) (Some s)
              | (s, None) =>
                  let '(s, err) := Stop owned (nd_serviceOrder n) down s in Exited err (released n s p) s
              end
          end
      end
  end.

(** The factories of the example. *)
Definition example_registry : FactoryRegistry Factory :=
  (register_names LoopSizeMin api ["center"; "room"] NewFactoryRegistry).1.

Lemma register_names_example :
  register_names LoopSizeMin api ["center"; "room"] NewFactoryRegistry = (example_registry, None) /\
  forall name, name ∈ ["center"; "room"] ->
    GetFactory name example_registry = Some (base_factory LoopSizeMin api).
Proof.
  split; [done|]. intros name Hn. repeat (apply elem_of_cons in Hn as [->|Hn]; [done|]). by apply elem_of_nil in Hn.
Qed.

Lemma example_registry_quiet : quiet example_registry.
Proof.
  intros name f cfg p Hf. assert (f = base_factory LoopSizeMin api) as ->; [|by rewrite base_factory_eq].
  unfold example_registry, GetFactory in Hf. vm_compute in Hf.
  repeat (case_match; simplify_eq; try done).
Qed.

(** What the rest of the program needs to get through [Start]. *)
Definition lets_start (up : outside) (is_main : bool) (order : list ServiceKey) : Prop :=
  o_server up = true /\ (is_main = true \/ o_main up = None) /\ Forall (boots up) order.

(** A Node that was built: how the program goes on. *)
Lemma example_runs_node up down n p c id :
  well_formed id c n ->
  let owned := bool_decide (is_Some (nd_ownedLogger n)) in
  let order := nd_serviceOrder n in
  let start := Start (nd_id n) (nd_mainNodeID n) (ListenAddr (nd_nodeConfig n)) owned order up (nd_life n) in
  let ready := lets_start up (life_is_main (nd_id n) (nd_mainNodeID n)) order in
  match start with
  | (s, Some _) => ~ ready /\ idle s /\ released n s p = close_owned n p
  | (s, None) => let '(s', err) := Stop owned order down s in
      ready /\ idle s' /\ released n s' p = close_owned n p /\
      err = Errors.Join (omap (unregister_error down) (rev order) ++ omap (o_stop down) (rev order))
  end.
Proof.
  intros Hwf owned order start ready. pose proof (wf_NoDup _ _ _ Hwf) as Hnd.
  unfold start. rewrite (wf_life _ _ _ Hwf).
  pose proof (Start_succeeds (nd_id n) (nd_mainNodeID n) (ListenAddr (nd_nodeConfig n)) owned order up) as Hiff.
  pose proof (stop_reports_every_error (nd_id n) (nd_mainNodeID n) (ListenAddr (nd_nodeConfig n)) owned order Hnd
    up down down) as Hstop.
  destruct (Start_balanced (nd_id n) (nd_mainNodeID n) (ListenAddr (nd_nodeConfig n)) owned order Hnd up life_init
    (balanced_init _) eq_refl) as [Hb Hl].
  clearbody owned. destruct (Start (nd_id n) _ _ owned order up life_init) as [s [e|]]; simpl in *.
  - pose proof (bal_state _ _ Hb) as Hst. rewrite Hl in Hst. destruct Hst as (_ & _ & Hidle).
    split; [intros Hr; by apply Hiff in Hr|]. split; [done|]. unfold released. by destruct Hidle as (_ & _ & _ & _ & _ & _ & ->).
  - specialize (Hstop eq_refl). destruct (Stop _ _ _ _) as [s' err]. destruct Hstop as (-> & Hidle & _).
    split_and!; [by apply Hiff|done| |done]. unfold released. by destruct Hidle as (_ & _ & _ & _ & _ & _ & ->).
Qed.

(** C29 (functional). The example program cleans up after itself, and runs when
    it can.  Whatever the file, the configuration, the loggers, the network and
    the services' hooks do, when the process ends every logger it opened is
    closed, and a Node it built is stopped with nothing running or registered.
    And if the file holds a configuration that [Validate] accepts, whose
    loggers survive a second validation, and that configures the node with a
    logger and with services named center and room only, then [main] gets
    through to the signal exactly when the RPC server starts, the main node can
    be reached (unless this is the main node) and every service's Start hook,
    registration and subscriptions succeed, and otherwise ends with the error
    of [Start]; the only errors it prints after the signal are those of the
    withdrawals and of the Stop hooks, in reverse order of the services. *)
Theorem example_program_runs up down configPath nodeID p :
  let result := example_main up down configPath nodeID p in
  match result with
  | Fatal _ p' s => loggers_closed p p' /\ match s with Some s => idle s | None => xtnet_logger p' = xtnet_logger p end
  | Exited _ p' s => loggers_closed p p' /\ idle s
  end /\
  forall data cfg nc,
    ReadFile configPath = Ok data -> yaml_Unmarshal data = Ok cfg -> accepts cfg -> loggers_stable cfg ->
    Config.Node (Some (normalize cfg)) nodeID = Some nc -> is_Some (Config.Logger nc) ->
    Forall (fun c => sc_Name c ∈ ["center"; "room"]) (Services nc) ->
    let order := map sc_key (Services nc) in
    let ready := lets_start up (life_is_main nodeID (MainNode (normalize cfg))) order in
    match result with
    | Exited err _ _ => ready /\
        err = Errors.Join (omap (unregister_error down) (rev order) ++ omap (o_stop down) (rev order))
    | Fatal _ _ s => ~ ready /\ is_Some s
    end.
Proof.
  assert (loggers_closed p p) as Hsame by (unfold loggers_closed; by rewrite Nat.sub_diag, app_nil_r).
  destruct register_names_example as [Hnames Hreg].
  assert (forall f, opt_factories (apply_options (default_options defaultFactories memory)
    [Some (WithFactoryRegistry (Some example_registry))]) = Some f -> quiet f) as Hq
    by (intros f [= <-]; apply example_registry_quiet).
  unfold example_main. rewrite Hnames. split.
  - destruct (LoadConfig _ _ _) as [config|e]; [|done].
    destruct (NewNode _ _ _ _ _ _) as [[p' c'] [n|e]] eqn:En;
      [|by destruct (NewNode_Err _ _ _ _ _ _ _ _ _ Hq En)].
    pose proof (NewNode_loggers _ _ _ _ _ _ _ _ _ Hq En) as Hlog.
    destruct (NewNode_well_formed _ _ _ _ _ _ _ _ _ En) as (c0 & _ & _ & Hwf).
    pose proof (example_runs_node up down n p' c0 nodeID Hwf) as Hrun. cbv zeta in Hrun.
    destruct (Start _ _ _ _ _ _ _) as [s [e|]]; [by destruct Hrun as (_ & ? & ->)|].
    destruct (Stop _ _ _ _) as [s' err]. by destruct Hrun as (_ & ? & -> & _).
  - intros data cfg nc Hread Hyaml Ha Hst Hn Hlog Hsvc. cbv zeta.
    set (order := map sc_key (Services nc)).
    set (ready := lets_start up (life_is_main nodeID (MainNode (normalize cfg))) order).
    rewrite (proj2 (LoadConfig_Ok ReadFile yaml_Unmarshal configPath (normalize cfg))) by eauto 10.
    assert (Validate (Some (normalize cfg)) = (Some (normalize cfg), None)) as Hv.
    { apply Validate_spec. rewrite normalize_idemp by done. split; [done|]. by apply accepts_normalized. }
    destruct (base_node_built LoopSizeMin api defaultFactories memory (Some (normalize cfg)) (normalize cfg) nodeID nc
      [Some (WithFactoryRegistry (Some example_registry))] p Hv Hn) as (p' & n & -> & Hwf & _).
    + done.
    + by right.
    + eapply Forall_impl; [exact Hsvc|]. intros c Hc. exists example_registry. split; [done|]. by apply Hreg.
    + pose proof (example_runs_node up down n p' (normalize cfg) nodeID Hwf) as Hrun. cbv zeta in Hrun.
      destruct Hwf as [[Hid Hmain] Hc Ho _ _ _ _ _ _ _]. rewrite Hn in Hc. injection Hc as Hc.
      rewrite Ho, <- Hc, Hid, Hmain in *. fold order in Hrun |- *. fold ready in Hrun.
      destruct (Start _ _ _ _ _ _ _) as [s [e|]]; [by destruct Hrun as (? & _ & _)|].
      destruct (Stop _ _ _ _) as [s' err]. by destruct Hrun as (? & _ & _ & ->).
Qed.

End Main.

(** ** Witnesses *)

Section Witnesses.
#[local] Existing Instance ascii_tables.
#[local] Existing Instance sample_xtlog.

(** Texts as their own JSON. *)
#[local] Instance plain_json : PingJSON := {
  json_ping b := Ok (String.string_of_list_byte b);
  json_pong t := Ok (String.list_byte_of_string t)
}.

(** A Node that only has a logger. *)
Definition silent_node : NodeAPI unit :=
  mkAPI unit (Some (NativeLogger 0)) (fun _ _ w => (w, None)) (fun _ _ _ _ w => (w, None))
    (fun _ _ _ _ _ w => (w, None)) (fun _ _ _ _ w => (w, ([], None))).

Lemma example_answers_pings_witness :
  exists c, call_run rooms CallSync (mkServiceKey "gate" 1) a_room (numericServiceMessageID 1001) [x68; x69] "3s"
      (prompt_run (new_example 1024 (Some silent_node) (mkServiceConfig "room" 1 None []) fresh_process).2
         (mkServiceKey "gate" 1) a_room (numericServiceMessageID 1001) [x68; x69] CallSync
         (example_answer 1001 [x68; x69])) begun_call = Some c /\
    caller_at c = ReturnedReply (String.list_byte_of_string "pong: hi", None).
Proof.
  exact (proj1 (example_answers_pings 1024 silent_node (mkServiceConfig "room" 1 None []) fresh_process rooms
    (mkServiceKey "gate" 1) "3s" ltac:(vm_compute; eauto) ltac:(vm_compute; eauto) 1001 [x68; x69] ltac:(done))).
Defined.

Lemma example_program_runs_witness :
  exists p s, example_main (fun _ => Ok []) (fun _ => Ok sample_config) 1024 (None : option (NodeAPI unit))
      NewFactoryRegistry NewMemoryRegistry stops_badly stops_badly "nodes.yaml" 1 fresh_process =
    Exited (Errors.Join (omap (unregister_error stops_badly) [mkServiceKey "center" 1] ++
                         omap (o_stop stops_badly) [mkServiceKey "center" 1])) p s /\
    loggers_closed fresh_process p /\ idle s.
Proof.
  destruct (example_program_runs (fun _ => Ok []) (fun _ => Ok sample_config) 1024 (None : option (NodeAPI unit))
    NewFactoryRegistry NewMemoryRegistry stops_badly stops_badly "nodes.yaml" 1 fresh_process) as [Hend Hrun].
  specialize (Hrun [] sample_config
    (normalize_node (sample_node 1 " 127.0.0.1:7001" "./logs/node_1/" "DEBUG" [mkServiceConfig "center " 1 None []]))
    eq_refl eq_refl).
  destruct (example_main _ _ _ _ _ _ _ _ _ _ _) as [e p s|err p s].
  - destruct Hrun as [Hno _]; [..|destruct Hno].
    + by apply (Validate_spec sample_config sample_valid), sample_validates.
    + exact sample_stable.
    + vm_compute. reflexivity.
    + vm_compute. eauto.
    + repeat constructor.
    + split; [reflexivity|]. split; [by left|repeat constructor].
  - destruct Hrun as [_ ->]; [..|by exists p, s].
    + by apply (Validate_spec sample_config sample_valid), sample_validates.
    + exact sample_stable.
    + vm_compute. reflexivity.
    + vm_compute. eauto.
    + repeat constructor.
Defined.

End Witnesses.
